(** * Verification of the nionswift document model

    A shallow embedding of three parts of the library:

    - [Document]: the dependency maps, the reference-counted transaction and
      live states, removal with its cascade, and the computation queue of
      [nion/swift/model/DocumentModel.py] (class [DocumentModel]);
    - [Loader]: reading and migrating stored records, the version
      statistics and the names of the files
      ([PersistentDataItemContext] and [FilePersistentStorageSystem] in the
      same file);
    - [Symbolic]: rendering an expression tree back to text, evaluating it,
      subscripts and their slices, and the type of a computation variable
      ([nion/swift/model/Symbolic.py]).

    Python objects are references: a data item, a buffered data source and a
    queue item are compared by identity, and the mutable attributes of an
    object live in the state that every method threads through. *)

From stdpp Require Import gmap strings list fin_maps pretty sorting.
From Stdlib Require Import ZArith Lia.

Open Scope Z_scope.

Module Document.

(** ** The objects of the document *)

(** [uuid.UUID]: a 128-bit number. *)
Abbreviation UUID := N.

(** A [BufferedDataSource] object: its identity and its [uuid]. *)
Record BufferedDataSource := mkBufferedDataSource {
  ds_id : nat;
  ds_uuid : UUID
}.

(** A [DataItem] object: its identity, its [uuid] and its [data_sources].
    The flags [in_transaction_state] and [is_live] are mutable and are kept
    in the state. *)
Record DataItem := mkDataItem {
  oid : nat;
  uuid : UUID;
  data_sources : list BufferedDataSource
}.

(** A [Symbolic.Computation] object, by identity. *)
Abbreviation Computation := nat.

#[global] Instance BufferedDataSource_eq_dec : EqDecision BufferedDataSource.
Proof. solve_decision. Defined.

#[global] Program Instance BufferedDataSource_countable : Countable BufferedDataSource :=
  inj_countable' (fun b => (ds_id b, ds_uuid b))
                 (fun t => mkBufferedDataSource t.1 t.2) _.
Next Obligation. by intros []. Qed.

#[global] Instance DataItem_eq_dec : EqDecision DataItem.
Proof. solve_decision. Defined.

#[global] Program Instance DataItem_countable : Countable DataItem :=
  inj_countable' (fun d => (oid d, uuid d, data_sources d))
                 (fun t => mkDataItem t.1.1 t.1.2 t.2) _.
Next Obligation. by intros []. Qed.

(** [class ComputationQueueItem]; [valid] starts [True] and [computation]
    is re-pointed in place. A queue item is shared between the pending
    queue, the active list and the worker that took it, so the lists hold
    references into [queue_items]. *)
Record ComputationQueueItem := mkComputationQueueItem {
  qi_data_item : DataItem;
  qi_buffered_data_source : BufferedDataSource;
  qi_computation : Computation;
  qi_valid : bool
}.

Abbreviation QueueRef := nat.

(** The closure [computation_needs_update] that [computation_changed]
    registers on [computation.needs_update_event]: the three variables it
    captures. *)
Record Listener := mkListener {
  l_data_item : DataItem;
  l_buffered_data_source : BufferedDataSource;
  l_computation : Computation
}.

(** What the code does to its collaborators (data items, storage, the
    thread pool), in the order it does it. *)
Inductive event :=
| EvEnterTransactionState (d : DataItem)
| EvExitTransactionState (d : DataItem)
| EvEnterLiveState (d : DataItem)
| EvExitLiveState (d : DataItem)
| EvDataItemWillBeRemoved (d : DataItem)
| EvAboutToBeRemoved (d : DataItem)
| EvEraseDataItem (d : DataItem)
| EvDataItemRemoved (d : DataItem) (index : nat)
| EvDataItemDeleted (d : DataItem)
| EvDispatchRecompute
| EvEvaluateWithTarget (c : Computation) (d : DataItem)
| EvSetDataAndMetadata (b : BufferedDataSource) (c : Computation)
| EvMergeFromClone (d : DataItem) (c : Computation)
| EvErrorText (c : Computation).

(** The state: the private fields of [DocumentModel] under their names,
    then the number of [__recompute] tasks waiting in the
    computation thread pool, the heap of queue items and the mutable attributes of data items
    and computations, then the trace. *)
Record State := mkState {
  data_items : list DataItem;
  transactions : gmap UUID Z;
  live_data_items : gmap UUID Z;
  dependent_data_items : gmap DataItem (list DataItem);
  source_data_items : gmap DataItem (list DataItem);
  buffered_data_source_set : gset BufferedDataSource;
  computation_changed_listeners : list (UUID * Listener);
  computation_pending_queue : list QueueRef;
  computation_active_items : list QueueRef;
  recompute_tasks : nat;
  queue_items : list ComputationQueueItem;
  in_transaction_state : gset DataItem;
  is_live : gset DataItem;
  needs_update : gset Computation;
  trace : list event
}.

Definition with_data_items (f : list DataItem -> list DataItem) (s : State) : State :=
  mkState (f (data_items s)) (transactions s) (live_data_items s)
    (dependent_data_items s) (source_data_items s)
    (buffered_data_source_set s) (computation_changed_listeners s)
    (computation_pending_queue s) (computation_active_items s)
    (recompute_tasks s) (queue_items s) (in_transaction_state s) (is_live s)
    (needs_update s) (trace s).

Definition with_transactions (f : gmap UUID Z -> gmap UUID Z) (s : State) : State :=
  mkState (data_items s) (f (transactions s)) (live_data_items s)
    (dependent_data_items s) (source_data_items s)
    (buffered_data_source_set s) (computation_changed_listeners s)
    (computation_pending_queue s) (computation_active_items s)
    (recompute_tasks s) (queue_items s) (in_transaction_state s) (is_live s)
    (needs_update s) (trace s).

Definition with_live_data_items (f : gmap UUID Z -> gmap UUID Z) (s : State) : State :=
  mkState (data_items s) (transactions s) (f (live_data_items s))
    (dependent_data_items s) (source_data_items s)
    (buffered_data_source_set s) (computation_changed_listeners s)
    (computation_pending_queue s) (computation_active_items s)
    (recompute_tasks s) (queue_items s) (in_transaction_state s) (is_live s)
    (needs_update s) (trace s).

Definition with_dependent_data_items (f : gmap DataItem (list DataItem) -> gmap DataItem (list DataItem)) (s : State) : State :=
  mkState (data_items s) (transactions s) (live_data_items s)
    (f (dependent_data_items s)) (source_data_items s)
    (buffered_data_source_set s) (computation_changed_listeners s)
    (computation_pending_queue s) (computation_active_items s)
    (recompute_tasks s) (queue_items s) (in_transaction_state s) (is_live s)
    (needs_update s) (trace s).

Definition with_source_data_items (f : gmap DataItem (list DataItem) -> gmap DataItem (list DataItem)) (s : State) : State :=
  mkState (data_items s) (transactions s) (live_data_items s)
    (dependent_data_items s) (f (source_data_items s))
    (buffered_data_source_set s) (computation_changed_listeners s)
    (computation_pending_queue s) (computation_active_items s)
    (recompute_tasks s) (queue_items s) (in_transaction_state s) (is_live s)
    (needs_update s) (trace s).

Definition with_buffered_data_source_set (f : gset BufferedDataSource -> gset BufferedDataSource) (s : State) : State :=
  mkState (data_items s) (transactions s) (live_data_items s)
    (dependent_data_items s) (source_data_items s)
    (f (buffered_data_source_set s)) (computation_changed_listeners s)
    (computation_pending_queue s) (computation_active_items s)
    (recompute_tasks s) (queue_items s) (in_transaction_state s) (is_live s)
    (needs_update s) (trace s).

Definition with_computation_changed_listeners
    (f : list (UUID * Listener) -> list (UUID * Listener)) (s : State) : State :=
  mkState (data_items s) (transactions s) (live_data_items s)
    (dependent_data_items s) (source_data_items s)
    (buffered_data_source_set s) (f (computation_changed_listeners s))
    (computation_pending_queue s) (computation_active_items s)
    (recompute_tasks s) (queue_items s) (in_transaction_state s) (is_live s)
    (needs_update s) (trace s).

Definition with_computation_pending_queue (f : list QueueRef -> list QueueRef) (s : State) : State :=
  mkState (data_items s) (transactions s) (live_data_items s)
    (dependent_data_items s) (source_data_items s)
    (buffered_data_source_set s) (computation_changed_listeners s)
    (f (computation_pending_queue s)) (computation_active_items s)
    (recompute_tasks s) (queue_items s) (in_transaction_state s) (is_live s)
    (needs_update s) (trace s).

Definition with_computation_active_items (f : list QueueRef -> list QueueRef) (s : State) : State :=
  mkState (data_items s) (transactions s) (live_data_items s)
    (dependent_data_items s) (source_data_items s)
    (buffered_data_source_set s) (computation_changed_listeners s)
    (computation_pending_queue s) (f (computation_active_items s))
    (recompute_tasks s) (queue_items s) (in_transaction_state s) (is_live s)
    (needs_update s) (trace s).

Definition with_recompute_tasks (f : nat -> nat) (s : State) : State :=
  mkState (data_items s) (transactions s) (live_data_items s)
    (dependent_data_items s) (source_data_items s)
    (buffered_data_source_set s) (computation_changed_listeners s)
    (computation_pending_queue s) (computation_active_items s)
    (f (recompute_tasks s)) (queue_items s) (in_transaction_state s)
    (is_live s) (needs_update s) (trace s).

Definition with_queue_items (f : list ComputationQueueItem -> list ComputationQueueItem) (s : State) : State :=
  mkState (data_items s) (transactions s) (live_data_items s)
    (dependent_data_items s) (source_data_items s)
    (buffered_data_source_set s) (computation_changed_listeners s)
    (computation_pending_queue s) (computation_active_items s)
    (recompute_tasks s) (f (queue_items s)) (in_transaction_state s)
    (is_live s) (needs_update s) (trace s).

Definition with_in_transaction_state (f : gset DataItem -> gset DataItem) (s : State) : State :=
  mkState (data_items s) (transactions s) (live_data_items s)
    (dependent_data_items s) (source_data_items s)
    (buffered_data_source_set s) (computation_changed_listeners s)
    (computation_pending_queue s) (computation_active_items s)
    (recompute_tasks s) (queue_items s) (f (in_transaction_state s))
    (is_live s) (needs_update s) (trace s).

Definition with_is_live (f : gset DataItem -> gset DataItem) (s : State) : State :=
  mkState (data_items s) (transactions s) (live_data_items s)
    (dependent_data_items s) (source_data_items s)
    (buffered_data_source_set s) (computation_changed_listeners s)
    (computation_pending_queue s) (computation_active_items s)
    (recompute_tasks s) (queue_items s) (in_transaction_state s)
    (f (is_live s)) (needs_update s) (trace s).

Definition with_needs_update (f : gset Computation -> gset Computation) (s : State) : State :=
  mkState (data_items s) (transactions s) (live_data_items s)
    (dependent_data_items s) (source_data_items s)
    (buffered_data_source_set s) (computation_changed_listeners s)
    (computation_pending_queue s) (computation_active_items s)
    (recompute_tasks s) (queue_items s) (in_transaction_state s) (is_live s)
    (f (needs_update s)) (trace s).

Definition with_trace (f : list event -> list event) (s : State) : State :=
  mkState (data_items s) (transactions s) (live_data_items s)
    (dependent_data_items s) (source_data_items s)
    (buffered_data_source_set s) (computation_changed_listeners s)
    (computation_pending_queue s) (computation_active_items s)
    (recompute_tasks s) (queue_items s) (in_transaction_state s) (is_live s)
    (needs_update s) (f (trace s)).

(** A new [DocumentModel] before anything is read into it. *)
Definition empty_state : State :=
  mkState [] ∅ ∅ ∅ ∅ ∅ [] [] [] 0%nat [] ∅ ∅ ∅ [].

(** ** Methods as state transformers that may raise *)

Inductive exn := AssertionError | ValueError | AttributeError | KeyError.

(** A call returns, raises (the state is what the call left behind), or
    needs more recursion depth than [fuel] allows. *)
Inductive outcome (A : Type) :=
| Ok (a : A) (s : State)
| Raise (e : exn) (s : State)
| OutOfFuel.
Arguments Ok {A} a s.
Arguments Raise {A} e s.
Arguments OutOfFuel {A}.

Definition M (A : Type) : Type := State -> outcome A.

Definition ret {A} (a : A) : M A := fun s => Ok a s.

Definition bind {A B} (m : M A) (k : A -> M B) : M B :=
  fun s => match m s with
           | Ok a s' => k a s'
           | Raise e s' => Raise e s'
           | OutOfFuel => OutOfFuel
           end.

Declare Scope doc_scope.
Delimit Scope doc_scope with doc.
Notation "x <- m ;; k" := (bind m (fun x => k))
  (at level 100, m at next level, right associativity) : doc_scope.
Notation "m ;; k" := (bind m (fun _ => k))
  (at level 100, right associativity) : doc_scope.
Open Scope doc_scope.

Definition raise {A} (e : exn) : M A := fun s => Raise e s.
Definition out_of_fuel {A} : M A := fun _ => OutOfFuel.
Definition gets {A} (f : State -> A) : M A := fun s => Ok (f s) s.
Definition modify (f : State -> State) : M unit := fun s => Ok tt (f s).
Definition assert (b : bool) : M unit := if b then ret tt else raise AssertionError.
Definition when (b : bool) (m : M unit) : M unit := if b then m else ret tt.
Definition emit (e : event) : M unit := modify (with_trace (fun t => t ++ [e])).

(** [for x in l: body(x)] over a list that was copied before the loop. *)
Fixpoint for_ {X} (l : list X) (body : X -> M unit) : M unit :=
  match l with
  | [] => ret tt
  | x :: l' => body x ;; for_ l' body
  end.

(** [try: m  except Exception: handler] *)
Definition try_except {A} (m : M A) (handler : exn -> M A) : M A :=
  fun s => match m s with
           | Ok a s' => Ok a s'
           | Raise e s' => handler e s'
           | OutOfFuel => OutOfFuel
           end.

(** ** Dependencies *)

(** [self.__source_data_items.get(weakref.ref(data_item), list())] *)
Definition sources_of (s : State) (data_item : DataItem) : list DataItem :=
  default [] (source_data_items s !! data_item).

(** [self.__dependent_data_items.get(weakref.ref(data_item), list())] *)
Definition dependents_of (s : State) (data_item : DataItem) : list DataItem :=
  default [] (dependent_data_items s !! data_item).

(** Both getters hand out a copy, so a loop over the result is not
    disturbed by what its body does to the maps. *)
Definition get_source_data_items (data_item : DataItem) : M (list DataItem) :=
  gets (fun s => sources_of s data_item).

Definition get_dependent_data_items (data_item : DataItem) : M (list DataItem) :=
  gets (fun s => dependents_of s data_item).

(** ** Transaction and live states *)

Definition transaction_count (s : State) (d : DataItem) : Z :=
  default 0 (transactions s !! uuid d).

Definition live_count (s : State) (d : DataItem) : Z :=
  default 0 (live_data_items s !! uuid d).

(** Modelled from the spec: [DataItem._enter_transaction_state],
    [_exit_transaction_state], [_enter_live_state], [_exit_live_state] and
    the properties [in_transaction_state] and [is_live] they drive are
    defined in DataItem.py, which is not among the sources. Entering sets
    the flag of the data item and leaving clears it. *)
Definition _enter_transaction_state (d : DataItem) : M unit :=
  modify (with_in_transaction_state (fun f => {[d]} ∪ f)) ;;
  emit (EvEnterTransactionState d).

Definition _exit_transaction_state (d : DataItem) : M unit :=
  modify (with_in_transaction_state (fun f => f ∖ {[d]})) ;;
  emit (EvExitTransactionState d).

Definition _enter_live_state (d : DataItem) : M unit :=
  modify (with_is_live (fun f => {[d]} ∪ f)) ;;
  emit (EvEnterLiveState d).

Definition _exit_live_state (d : DataItem) : M unit :=
  modify (with_is_live (fun f => f ∖ {[d]})) ;;
  emit (EvExitLiveState d).

Fixpoint begin_data_item_transaction (fuel : nat) (data_item : DataItem) : M unit :=
  match fuel with
  | O => out_of_fuel
  | S fuel =>
    old_transaction_count <- gets (fun s => transaction_count s data_item) ;;
    modify (with_transactions <[uuid data_item := old_transaction_count + 1]>) ;;
    if old_transaction_count =? 0 then
      _enter_transaction_state data_item ;;
      dependents <- get_dependent_data_items data_item ;;
      for_ dependents (begin_data_item_transaction fuel)
    else ret tt
  end.

Fixpoint end_data_item_transaction (fuel : nat) (data_item : DataItem) : M unit :=
  match fuel with
  | O => out_of_fuel
  | S fuel =>
    old <- gets (fun s => transaction_count s data_item) ;;
    let transaction_count := old - 1 in
    assert (0 <=? transaction_count) ;;
    modify (with_transactions <[uuid data_item := transaction_count]>) ;;
    if transaction_count =? 0 then
      dependents <- get_dependent_data_items data_item ;;
      for_ dependents (end_data_item_transaction fuel) ;;
      _exit_transaction_state data_item
    else ret tt
  end.

Fixpoint begin_data_item_live (fuel : nat) (data_item : DataItem) : M unit :=
  match fuel with
  | O => out_of_fuel
  | S fuel =>
    old_live_count <- gets (fun s => live_count s data_item) ;;
    modify (with_live_data_items <[uuid data_item := old_live_count + 1]>) ;;
    if old_live_count =? 0 then
      _enter_live_state data_item ;;
      dependents <- get_dependent_data_items data_item ;;
      for_ dependents (begin_data_item_live fuel)
    else ret tt
  end.

Fixpoint end_data_item_live (fuel : nat) (data_item : DataItem) : M unit :=
  match fuel with
  | O => out_of_fuel
  | S fuel =>
    old <- gets (fun s => live_count s data_item) ;;
    let live_count := old - 1 in
    assert (0 <=? live_count) ;;
    modify (with_live_data_items <[uuid data_item := live_count]>) ;;
    if live_count =? 0 then
      _exit_live_state data_item ;;
      dependents <- get_dependent_data_items data_item ;;
      for_ dependents (end_data_item_live fuel)
    else ret tt
  end.

(** [list.remove(x)]: drops the first occurrence, [None] for [ValueError]. *)
Fixpoint list_remove (x : DataItem) (l : list DataItem) : option (list DataItem) :=
  match l with
  | [] => None
  | y :: l' => if decide (y = x) then Some l'
               else cons y <$> list_remove x l'
  end.

(** [d.setdefault(key, list()).remove(x)]: the key is created even when
    the removal then raises. *)
Definition setdefault_remove (key x : DataItem)
    (m : gmap DataItem (list DataItem)) : option (gmap DataItem (list DataItem)) :=
  (fun l => <[key := l]> m) <$> list_remove x (default [] (m !! key)).

Definition setdefault_append (key x : DataItem)
    (m : gmap DataItem (list DataItem)) : gmap DataItem (list DataItem) :=
  <[key := default [] (m !! key) ++ [x]]> m.

Definition remove_dependency (fuel : nat) (source_data_item target_data_item : DataItem) : M unit :=
  deps <- gets dependent_data_items ;;
  match setdefault_remove source_data_item target_data_item deps with
  | None =>
    modify (with_dependent_data_items
              <[source_data_item := default [] (deps !! source_data_item)]>) ;;
    raise ValueError
  | Some deps' =>
    modify (with_dependent_data_items (fun _ => deps')) ;;
    srcs <- gets source_data_items ;;
    match setdefault_remove target_data_item source_data_item srcs with
    | None =>
      modify (with_source_data_items
                <[target_data_item := default [] (srcs !! target_data_item)]>) ;;
      raise ValueError
    | Some srcs' =>
      modify (with_source_data_items (fun _ => srcs')) ;;
      in_tx <- gets (fun s => bool_decide (source_data_item ∈ in_transaction_state s)) ;;
      when in_tx (end_data_item_transaction fuel target_data_item) ;;
      live <- gets (fun s => bool_decide (source_data_item ∈ is_live s)) ;;
      when live (end_data_item_live fuel target_data_item)
    end
  end.

Definition add_dependency (fuel : nat) (source_data_item target_data_item : DataItem) : M unit :=
  modify (with_dependent_data_items (setdefault_append source_data_item target_data_item)) ;;
  modify (with_source_data_items (setdefault_append target_data_item source_data_item)) ;;
  in_tx <- gets (fun s => bool_decide (source_data_item ∈ in_transaction_state s)) ;;
  when in_tx (begin_data_item_transaction fuel target_data_item) ;;
  live <- gets (fun s => bool_decide (source_data_item ∈ is_live s)) ;;
  when live (begin_data_item_live fuel target_data_item).

(** ** The computation queue *)

Definition set_valid (v : bool) (q : ComputationQueueItem) : ComputationQueueItem :=
  mkComputationQueueItem (qi_data_item q) (qi_buffered_data_source q) (qi_computation q) v.

Definition set_computation (c : Computation) (q : ComputationQueueItem) : ComputationQueueItem :=
  mkComputationQueueItem (qi_data_item q) (qi_buffered_data_source q) c (qi_valid q).

(** [computation_queue_item.valid = False] on the object behind [h]. *)
Definition invalidate (h : QueueRef) : M unit :=
  modify (with_queue_items (alter (set_valid false) h)).

(** The first queue item among [refs] whose [buffered_data_source] is [b]. *)
Fixpoint find_queue_item (heap : list ComputationQueueItem) (b : BufferedDataSource)
    (refs : list QueueRef) : option QueueRef :=
  match refs with
  | [] => None
  | h :: refs' =>
    match heap !! h with
    | Some q => if decide (qi_buffered_data_source q = b) then Some h
                else find_queue_item heap b refs'
    | None => find_queue_item heap b refs'
    end
  end.

(** The closure [computation_needs_update] of [computation_changed]. *)
Definition computation_needs_update (data_item : DataItem)
    (buffered_data_source : BufferedDataSource) (computation : Computation) : M unit :=
  pending <- gets computation_pending_queue ;;
  heap <- gets queue_items ;;
  match find_queue_item heap buffered_data_source pending with
  | Some h => modify (with_queue_items (alter (set_computation computation) h))
  | None =>
    modify (with_queue_items (fun q =>
      q ++ [mkComputationQueueItem data_item buffered_data_source computation true])) ;;
    modify (with_computation_pending_queue (fun p => p ++ [length heap])) ;;
    (* self.dispatch_task2(self.__recompute) *)
    modify (with_recompute_tasks S) ;;
    emit EvDispatchRecompute
  end.

(** [del self.__computation_changed_listeners[key]] after closing the
    listener, which takes its closure off the event. *)
Definition close_listener (key : UUID) (ls : list (UUID * Listener)) : list (UUID * Listener) :=
  filter (fun kl => kl.1 ≠ key) ls.

Definition computation_changed (data_item : DataItem)
    (buffered_data_source : BufferedDataSource) (computation : option Computation) : M unit :=
  modify (with_computation_changed_listeners (close_listener (ds_uuid buffered_data_source))) ;;
  match computation with
  | Some c =>
    modify (with_computation_changed_listeners (fun ls =>
      ls ++ [(ds_uuid buffered_data_source, mkListener data_item buffered_data_source c)])) ;;
    computation_needs_update data_item buffered_data_source c
  | None =>
    pending <- gets computation_pending_queue ;;
    active <- gets computation_active_items ;;
    heap <- gets queue_items ;;
    match find_queue_item heap buffered_data_source (pending ++ active) with
    | Some h => invalidate h
    | None => ret tt
    end
  end.

(** [computation.needs_update_event.fire()]: the closures listening to the
    event of [computation] run in the order they were registered. *)
Definition needs_update_event_fire (computation : Computation) : M unit :=
  ls <- gets computation_changed_listeners ;;
  for_ (filter (fun l => l_computation l = computation) ls.*2) (fun l =>
    computation_needs_update (l_data_item l) (l_buffered_data_source l) (l_computation l)).

(** The closure [needs_update] that [Computation.bind] hangs on every bound
    item: the computation is marked and its event fires. *)
Definition needs_update_fire (computation : Computation) : M unit :=
  modify (with_needs_update (fun f => {[computation]} ∪ f)) ;;
  needs_update_event_fire computation.

(** ** Removing a data item *)

Fixpoint index_of (x : DataItem) (l : list DataItem) : option nat :=
  match l with
  | [] => None
  | y :: l' => if decide (y = x) then Some O else S <$> index_of x l'
  end.

(** The first loop of [remove_data_item]: every pending or active queue
    item whose source belongs to [data_item] becomes invalid. *)
Definition invalidate_computations_of (data_item : DataItem) : M unit :=
  pending <- gets computation_pending_queue ;;
  active <- gets computation_active_items ;;
  for_ (pending ++ active) (fun h =>
    q <- gets (fun s => queue_items s !! h) ;;
    match q with
    | Some q =>
      when (bool_decide (qi_buffered_data_source q ∈ data_sources data_item)) (invalidate h)
    | None => ret tt
    end).

(** [DocumentModel.remove_data_item]. Data groups, the listener
    dictionaries keyed by [data_item.uuid], the data item references and
    the storage are other objects: what is done to them is recorded in the
    trace only. *)
Fixpoint remove_data_item (fuel : nat) (data_item : DataItem) : M unit :=
  match fuel with
  | O => out_of_fuel
  | S fuel =>
    invalidate_computations_of data_item ;;
    emit (EvDataItemWillBeRemoved data_item) ;;
    dependents <- get_dependent_data_items data_item ;;
    for_ dependents (fun other_data_item =>
      sources <- get_source_data_items other_data_item ;;
      when (bool_decide (sources = [data_item])) (remove_data_item fuel other_data_item)) ;;
    modify (with_buffered_data_source_set
              (fun b => b ∖ list_to_set (data_sources data_item))) ;;
    emit (EvAboutToBeRemoved data_item) ;;
    items <- gets data_items ;;
    match index_of data_item items with
    | None => raise AssertionError     (* assert data_item in self.__data_items *)
    | Some index =>
      modify (with_data_items (delete index)) ;;
      emit (EvEraseDataItem data_item) ;;
      emit (EvDataItemRemoved data_item index) ;;
      emit (EvDataItemDeleted data_item)
    end
  end.

(** ** The worker *)

Fixpoint remove_ref (x : QueueRef) (l : list QueueRef) : option (list QueueRef) :=
  match l with
  | [] => None
  | y :: l' => if decide (y = x) then Some l' else cons y <$> remove_ref x l'
  end.

Section Recompute.

(** The evaluation of a computation against the clone of its data item is
    outside the document model: [None] when it raises, otherwise whether
    the data of the clone ends up newer than the data of the live item
    ([data_item_data_clone_modified > data_item_data_modified]). *)
Variable evaluate_with_target : Computation -> DataItem -> State -> option bool.

(** Under the queue lock: pop the head of the pending queue and append
    it to the active items. With an empty queue
    [computation_queue_item] stays [None] and the next line raises. *)
Definition recompute_take : M QueueRef :=
  pending <- gets computation_pending_queue ;;
  match pending with
  | [] => raise AttributeError
  | h :: rest =>
    modify (with_computation_pending_queue (fun _ => rest)) ;;
    modify (with_computation_active_items (fun a => a ++ [h])) ;;
    ret h
  end.

(** The body of the [try]. The three fields were read right after the
    pop; [valid] is read only after the evaluation, and [meanwhile] is
    whatever the other threads did to the state during the evaluation
    and its throttling sleep. *)
Definition recompute_try (h : QueueRef) (q : ComputationQueueItem)
    (meanwhile : State -> State) : M unit :=
  let data_item := qi_data_item q in
  let buffered_data_source := qi_buffered_data_source q in
  let computation := qi_computation q in
  stale <- gets (fun s => bool_decide (computation ∈ needs_update s)) ;;
  newer <-
    (if stale then
       emit (EvEvaluateWithTarget computation data_item) ;;
       r <- gets (evaluate_with_target computation data_item) ;;
       modify meanwhile ;;
       match r with
       | None => raise ValueError
       | Some newer =>
         modify (with_needs_update (fun f => f ∖ {[computation]})) ;;
         ret newer
       end
     else modify meanwhile ;; ret false) ;;
  valid <- gets (fun s => from_option qi_valid false (queue_items s !! h)) ;;
  when valid
    (when newer (emit (EvSetDataAndMetadata buffered_data_source computation)) ;;
     emit (EvMergeFromClone data_item computation)).

Definition recompute_with (meanwhile : State -> State) : M unit :=
  h <- recompute_take ;;
  q <- gets (fun s => queue_items s !! h) ;;
  match q with
  | None => raise AttributeError
  | Some q =>
    try_except (recompute_try h q meanwhile)
               (fun _ => emit (EvErrorText (qi_computation q))) ;;
    active <- gets computation_active_items ;;
    match remove_ref h active with
    | None => raise ValueError
    | Some active' => modify (with_computation_active_items (fun _ => active'))
    end
  end.

(** [DocumentModel.__recompute] with nothing else running. *)
Definition recompute : M unit := recompute_with id.

(** Modelled from the spec: the computation thread pool (ThreadPool.py is
    not among the sources) is a single-worker queue of tasks, and every
    task queued on it is [__recompute]. [recompute_one] runs one waiting
    task, if any. *)
Definition recompute_one : M unit :=
  n <- gets recompute_tasks ;;
  match n with
  | O => ret tt
  | S n' => modify (with_recompute_tasks (fun _ => n')) ;; recompute
  end.

(** [recompute_all]: the thread pool runs every waiting task. *)
Fixpoint run_tasks (n : nat) : M unit :=
  match n with
  | O => ret tt
  | S n' => recompute_one ;; run_tasks n'
  end.

Definition recompute_all : M unit :=
  n <- gets recompute_tasks ;; run_tasks n.

End Recompute.

(** ** Observations *)

(** The buffered data sources of the queue items behind [refs]. *)
Definition sources_of_refs (heap : list ComputationQueueItem) (refs : list QueueRef)
    : list BufferedDataSource :=
  omap (fun h => qi_buffered_data_source <$> heap !! h) refs.

Definition pending_sources (s : State) : list BufferedDataSource :=
  sources_of_refs (queue_items s) (computation_pending_queue s).

(** [True] unless the object behind [h] has been marked invalid. *)
Definition valid_at (s : State) (h : QueueRef) : bool :=
  from_option qi_valid false (queue_items s !! h).

(** The two events by which [__recompute] writes a result back. *)
Definition is_merge (e : event) : bool :=
  match e with
  | EvSetDataAndMetadata _ _ | EvMergeFromClone _ _ => true
  | _ => false
  end.

Definition merges (s : State) : list event := filter (fun e => is_merge e = true) (trace s).

Definition is_evaluate (e : event) : bool :=
  match e with
  | EvEvaluateWithTarget _ _ => true
  | _ => false
  end.

Definition evaluations (s : State) : list event :=
  filter (fun e => is_evaluate e = true) (trace s).

(** [solely_from s a x]: [x] hangs below [a] on a chain in which every
    item has its predecessor as its one and only source. *)
Inductive solely_from (s : State) (a : DataItem) : DataItem -> Prop :=
| solely_from_self : solely_from s a a
| solely_from_step x y :
    solely_from s a x -> sources_of s y = [x] -> solely_from s a y.

(** The two maps are inverse to each other, an edge counted as often as
    it is listed, and the edges go down in [rank]: the graph has no cycle. *)
Record well_formed_graph (rank : DataItem -> nat) (s : State) : Prop := {
  wf_inverse : forall x y,
    length (filter (fun z => z = y) (dependents_of s x)) =
    length (filter (fun z => z = x) (sources_of s y));
  wf_rank : forall x y, y ∈ dependents_of s x -> (rank y < rank x)%nat
}.

(** ** Histories *)

(** The calls a document receives. *)
Inductive call :=
| BeginDataItemTransaction (d : DataItem)
| EndDataItemTransaction (d : DataItem)
| BeginDataItemLive (d : DataItem)
| EndDataItemLive (d : DataItem)
| AddDependency (source target : DataItem)
| RemoveDependency (source target : DataItem)
| RemoveDataItem (d : DataItem)
| ComputationChanged (d : DataItem) (b : BufferedDataSource) (c : option Computation)
| NeedsUpdate (c : Computation)
| RecomputeOne (evaluate_with_target : Computation -> DataItem -> State -> option bool).

Definition run (fuel : nat) (c : call) : M unit :=
  match c with
  | BeginDataItemTransaction d => begin_data_item_transaction fuel d
  | EndDataItemTransaction d => end_data_item_transaction fuel d
  | BeginDataItemLive d => begin_data_item_live fuel d
  | EndDataItemLive d => end_data_item_live fuel d
  | AddDependency source target => add_dependency fuel source target
  | RemoveDependency source target => remove_dependency fuel source target
  | RemoveDataItem d => remove_data_item fuel d
  | ComputationChanged d b c => computation_changed d b c
  | NeedsUpdate c => needs_update_fire c
  | RecomputeOne ev => recompute_one ev
  end.

(** The states a document goes through: it starts with both counter
    dictionaries, both queue lists and the thread pool empty, as
    [__init__] leaves them, and
    every call moves it on, whether the call returns or raises. *)
Inductive reachable : State -> Prop :=
| reachable_init s :
    transactions s = ∅ -> live_data_items s = ∅ ->
    computation_pending_queue s = [] -> computation_active_items s = [] ->
    recompute_tasks s = O ->
    reachable s
| reachable_return s fuel c s' :
    reachable s -> run fuel c s = Ok tt s' -> reachable s'
| reachable_raise s fuel c e s' :
    reachable s -> run fuel c s = Raise e s' -> reachable s'.

(** ** Specifications

    The predicates in which the facts about the document are stated. *)

(** If [m] starts in a state satisfying [P], then a normal return satisfies
    [Q] and the state left by an exception satisfies [E]. *)
Definition hoare {A} (P : State -> Prop) (m : M A)
    (Q : A -> State -> Prop) (E : State -> Prop) : Prop :=
  forall s, P s ->
    match m s with
    | Ok a s' => Q a s'
    | Raise _ s' => E s'
    | OutOfFuel => True
    end.

(** An invariant: kept by normal returns and by exceptions alike. *)
Definition preserves {A} (P : State -> Prop) (m : M A) : Prop :=
  hoare P m (fun _ s => P s) P.

(** [m] started in [s] returns, and its result satisfies [Q]. *)
Definition returns {A} (m : M A) (s : State) (Q : A -> State -> Prop) : Prop :=
  match m s with
  | Ok a s' => Q a s'
  | _ => False
  end.

(** The two dependency maps of [st] are those of [s]. *)
Definition same_graph (s st : State) : Prop :=
  dependent_data_items st = dependent_data_items s /\
  source_data_items st = source_data_items s.

(** What the cascade of [remove_data_item d] has removed once the
    dependents in [done_] are dealt with. *)
Definition removed_so_far (s : State) (d : DataItem) (done_ : list DataItem)
    (x : DataItem) : Prop :=
  exists o, o ∈ done_ /\ sources_of s o = [d] /\ solely_from s o x.

(** Every pending reference points into the heap, no two pending items
    have the same buffered data source, and one task waits in the thread
    pool for each pending item. *)
Definition queue_ok (s : State) : Prop :=
  (forall h, h ∈ computation_pending_queue s -> (h < length (queue_items s))%nat) /\
  NoDup (pending_sources s) /\
  recompute_tasks s = length (computation_pending_queue s).

(** Once invalid, always invalid; and removal leaves the pending queue alone. *)
Definition stays_invalid (pending : list QueueRef) (h : QueueRef) (s : State) : Prop :=
  valid_at s h = false /\ computation_pending_queue s = pending.

(** No count of either dictionary is negative. *)
Definition counts_nonneg (s : State) : Prop :=
  forall u, 0 <= default 0 (transactions s !! u) /\ 0 <= default 0 (live_data_items s !! u).

(** *** Reference counts along the edges *)

(** The two states a data item is counted into. The four cascades are
    taken in pairs, by the state they count. *)
Inductive counter := Transaction | Live.

#[global] Instance counter_eq_dec : EqDecision counter.
Proof. solve_decision. Defined.

Definition count_of (k : counter) (s : State) (d : DataItem) : Z :=
  match k with
  | Transaction => transaction_count s d
  | Live => live_count s d
  end.

Definition flagged (k : counter) (s : State) : gset DataItem :=
  match k with
  | Transaction => in_transaction_state s
  | Live => is_live s
  end.

Definition begin_cascade (k : counter) : nat -> DataItem -> M unit :=
  match k with
  | Transaction => begin_data_item_transaction
  | Live => begin_data_item_live
  end.

Definition end_cascade (k : counter) : nat -> DataItem -> M unit :=
  match k with
  | Transaction => end_data_item_transaction
  | Live => end_data_item_live
  end.

Definition set_count (k : counter) (d : DataItem) (v : Z) : State -> State :=
  match k with
  | Transaction => with_transactions <[uuid d := v]>
  | Live => with_live_data_items <[uuid d := v]>
  end.

Definition enter_state (k : counter) : DataItem -> M unit :=
  match k with
  | Transaction => _enter_transaction_state
  | Live => _enter_live_state
  end.

Definition exit_state (k : counter) : DataItem -> M unit :=
  match k with
  | Transaction => _exit_transaction_state
  | Live => _exit_live_state
  end.

(** How often [z] stands in [l]. *)
Definition occ (z : DataItem) (l : list DataItem) : Z :=
  Z.of_nat (length (filter (fun x => x = z) l)).

(** The sources of [z] that are counted into the state, each as often as
    it is listed: they hold [z] in the state. *)
Definition holders (k : counter) (s : State) (z : DataItem) : Z :=
  Z.of_nat (length (filter (fun x => 0 < count_of k s x) (sources_of s z))).

(** The graph in which the cascades run: the data items of [U], closed
    under the edges, each with a uuid of its own, without a cycle. *)
Record graph_ok (rank : DataItem -> nat) (U : DataItem -> Prop) (s : State) : Prop := {
  graph_wf : well_formed_graph rank s;
  graph_dependents : forall x y, U x -> y ∈ dependents_of s x -> U y;
  graph_sources : forall x y, U y -> x ∈ sources_of s y -> U x;
  graph_uuid : forall x y, U x -> U y -> uuid x = uuid y -> x = y
}.

(** Every data item is counted at least once for each source that holds
    it, and [sigma z] times more. *)
Definition covered (U : DataItem -> Prop) (k : counter) (sigma : DataItem -> Z)
    (s : State) : Prop :=
  forall z, U z -> holders k s z + sigma z <= count_of k s z.

(** A data item that [P] selects is in the state exactly when its count is
    positive. *)
Definition consistent (U P : DataItem -> Prop) (k : counter) (s : State) : Prop :=
  forall z, U z -> P z -> (z ∈ flagged k s <-> 0 < count_of k s z).

(** From [s] to [s'] the data items that [P] selects have kept their count
    and their state. *)
Definition untouched (U P : DataItem -> Prop) (k : counter) (s s' : State) : Prop :=
  forall z, P z ->
    (U z -> count_of k s' z = count_of k s z) /\ (z ∈ flagged k s' <-> z ∈ flagged k s).

(** A cascade of [k] leaves the graph and the other counter alone. *)
Definition frame (k : counter) (s s' : State) : Prop :=
  same_graph s s' /\
  forall k', k' <> k ->
    (forall z, count_of k' s' z = count_of k' s z) /\ flagged k' s' = flagged k' s.

(** The data items are coherent: the graph is in order, and for both
    states the counts are those of the holders or more, and the flags are
    those of the counts. *)
Definition coherent (rank : DataItem -> nat) (U : DataItem -> Prop) (s : State) : Prop :=
  graph_ok rank U s /\
  forall k, covered U k (fun _ => 0) s /\ consistent U (fun _ => True) k s.

(** The state in which [add_dependency] starts the cascades. *)
Definition add_edge (source target : DataItem) (s : State) : State :=
  with_source_data_items (setdefault_append target source)
    (with_dependent_data_items (setdefault_append source target) s).

(** The state in which [remove_dependency] starts the cascades, [l] and
    [m] being what [list.remove] has left of the two lists. *)
Definition remove_edge (source target : DataItem) (l m : list DataItem) (s : State) : State :=
  with_source_data_items (fun _ => <[target := m]> (source_data_items s))
    (with_dependent_data_items (fun _ => <[source := l]> (dependent_data_items s)) s).

(** What [begin_cascade k fuel y] has done when it returns: [y] is counted
    once more, so are the data items below it as far as [y] newly holds
    them, and only [y] and data items of lower rank were touched. *)
Definition begin_post (rank : DataItem -> nat) (U : DataItem -> Prop) (k : counter) (y : DataItem) (sigma : DataItem -> Z)
    (s s' : State) : Prop :=
  frame k s s' /\
  count_of k s' y = count_of k s y + 1 /\
  (forall z, U z -> 0 <= count_of k s' z) /\
  covered U k (fun z => sigma z + occ z [y]) s' /\
  consistent U (fun z => (rank z <= rank y)%nat) k s' /\
  untouched U (fun z => (rank y < rank z)%nat) k s s'.

(** What [end_cascade k fuel y] has done when it returns: [y] is counted
    once less, so are the data items below it as far as [y] no longer
    holds them, and only [y] and data items of lower rank were touched. *)
Definition end_post (rank : DataItem -> nat) (U : DataItem -> Prop) (k : counter) (y : DataItem) (sigma : DataItem -> Z)
    (s s' : State) : Prop :=
  frame k s s' /\
  count_of k s' y = count_of k s y - 1 /\
  covered U k sigma s' /\
  consistent U (fun z => (rank z <= rank y)%nat) k s' /\
  untouched U (fun z => (rank y < rank z)%nat) k s s'.

(** ** Examples *)

(** A document for the examples: [item_b] is computed from [item_a] alone,
    [item_c] from [item_a] and [item_d]. *)
Definition item_a : DataItem := mkDataItem 1 1 [mkBufferedDataSource 1 11].
Definition item_b : DataItem := mkDataItem 2 2 [mkBufferedDataSource 2 12].
Definition item_c : DataItem := mkDataItem 3 3 [mkBufferedDataSource 3 13].
Definition item_d : DataItem := mkDataItem 4 4 [mkBufferedDataSource 4 14].

Definition example_document : State :=
  with_data_items (fun _ => [item_a; item_b; item_c; item_d])
    (with_dependent_data_items
       (fun _ => <[item_a := [item_b; item_c]]> (<[item_d := [item_c]]> ∅))
       (with_source_data_items
          (fun _ => <[item_b := [item_a]]> (<[item_c := [item_a; item_d]]> ∅))
          empty_state)).

Definition example_rank (d : DataItem) : nat :=
  if bool_decide (d = item_a \/ d = item_d) then 1%nat else 0%nat.

(** A chain: [item_b] is computed from [item_a] and [item_c] from [item_b]. *)
Definition chain_document : State :=
  with_data_items (fun _ => [item_a; item_b; item_c])
    (with_dependent_data_items
       (fun _ => <[item_a := [item_b]]> (<[item_b := [item_c]]> ∅))
       (with_source_data_items
          (fun _ => <[item_b := [item_a]]> (<[item_c := [item_b]]> ∅))
          empty_state)).

(** [example_document] with a computation of [item_b] waiting in the queue. *)
Definition queued_document : State :=
  with_computation_pending_queue (fun _ => [O])
    (with_queue_items
       (fun _ => [mkComputationQueueItem item_b (mkBufferedDataSource 2 12) 7%nat true])
       (with_recompute_tasks (fun _ => 1%nat)
          (with_needs_update (fun _ => {[7%nat]}) example_document))).

(** [example_document] with a transaction begun on [item_a]: it holds
    [item_b] and [item_c]. *)
Definition transaction_document : State :=
  with_in_transaction_state (fun _ => {[item_a; item_b; item_c]})
    (with_transactions (fun _ => <[1%N := 1]> (<[2%N := 1]> (<[3%N := 1]> ∅)))
       example_document).

(** The data items of the examples. *)
Definition example_universe (d : DataItem) : Prop := d ∈ data_items example_document.

(** ** Predicates for further facts *)


(** [m] started in [s] returns with [Q], or it raises an [AssertionError]
    and leaves a state with [E]: it raises nothing else and does not run
    out of recursion depth. *)
Definition returns_or_asserts {A} (m : M A) (s : State)
    (Q : A -> State -> Prop) (E : State -> Prop) : Prop :=
  match m s with
  | Ok a s' => Q a s'
  | Raise AssertionError s' => E s'
  | _ => False
  end.

(** From [s] to [s'] the graph has stayed, no data item has come into the
    document, nothing was taken off the trace, and no queue item that was
    invalid is valid again. *)
Definition wound_down (s s' : State) : Prop :=
  same_graph s s' /\
  (forall x, x ∈ data_items s' -> x ∈ data_items s) /\
  (forall e, e ∈ trace s -> e ∈ trace s') /\
  (forall h, valid_at s h = false -> valid_at s' h = false).

(** Every listener is filed under the uuid of the buffered data source
    whose computation it listens to, as [computation_changed] files it. *)
Definition listeners_keyed (s : State) : Prop :=
  forall key l, (key, l) ∈ computation_changed_listeners s ->
    key = ds_uuid (l_buffered_data_source l).

(** Every data item is counted exactly once for each source that holds
    it, and [sigma z] times more. *)
Definition tight (U : DataItem -> Prop) (k : counter) (sigma : DataItem -> Z)
    (s : State) : Prop :=
  forall z, U z -> count_of k s z = holders k s z + sigma z.


End Document.

(** * Reading and migrating stored records *)

Module Loader.

(** [DataItem.DataItem.writer_version] *)
Definition writer_version : Z := 10.

Inductive result (A : Type) :=
| Returned (a : A)
| Raised.
Arguments Returned {A} a.
Arguments Raised {A}.

Section Loading.

(** What a record holds besides its ["version"], and what the migration
    steps share between records and draw from outside (the lookup tables
    of steps 7 and 9, fresh uuids, the clock). *)
Variable Content Env : Type.

(** The properties dictionary of a record: the ["version"] key, absent in
    the oldest files, and the rest. *)
Record Properties := mkProperties {
  version : option Z;
  content : Content
}.

(** [properties.get("version", 0)] *)
Definition get_version (p : Properties) : Z := default 0 (version p).

(** A persistent storage handler: its reference and what [read_properties]
    gives, [None] when it raises. *)
Record Handler := mkHandler {
  reference : nat;
  read_properties : option Properties
}.

(** [ReaderInfo(properties, changed_ref, persistent_storage_handler)] *)
Record ReaderInfo := mkReaderInfo {
  properties : Properties;
  changed_ref : bool;
  persistent_storage_handler : Handler
}.

(** The rewrite a migration step applies to the content of one record. It
    works on the dictionary in place, so when it raises half-way the
    content stays as it left it: the result is the content afterwards and
    whether the rewrite ran to its end. *)
Definition Rewrite : Type := Env -> Handler -> Content -> Env * Content * bool.

Record Steps := mkSteps {
  to_v2 : Rewrite;
  to_v3 : Rewrite;
  to_v4 : Rewrite;
  to_v5 : Rewrite;
  to_v6 : Rewrite;
  to_v7 : Rewrite;
  to_v8 : Rewrite;
  to_v9 : Rewrite;
  to_v10 : Rewrite;
  (** the first loop of [__migrate_to_v9], which reads every record
      whatever its version *)
  v9_scan : Env -> Properties -> Env
}.

(** The body of the loop of one step, for one record:
[[
    try:
        version = properties.get("version", 0)
        if <applies version>:
            reader_info.changed_ref[0] = True      # not in step 2
            <rewrite>
            properties["version"] = <target>
    except Exception as e:
        logging.debug(...)
]] *)
Definition migrate_record (applies : Z -> bool) (marks_changed : bool) (target : Z)
    (rewrite : Rewrite) (env : Env) (r : ReaderInfo) : Env * ReaderInfo :=
  if applies (get_version (properties r)) then
    let '(env', content', completed) :=
      rewrite env (persistent_storage_handler r) (content (properties r)) in
    (env',
     mkReaderInfo
       (mkProperties (if completed then Some target else version (properties r)) content')
       (changed_ref r || marks_changed)
       (persistent_storage_handler r))
  else (env, r).

(** [for reader_info in reader_info_list: ...] *)
Fixpoint migrate_each (applies : Z -> bool) (marks_changed : bool) (target : Z)
    (rewrite : Rewrite) (env : Env) (l : list ReaderInfo) : Env * list ReaderInfo :=
  match l with
  | [] => (env, [])
  | r :: l' =>
    let '(env1, r') := migrate_record applies marks_changed target rewrite env r in
    let '(env2, l'') := migrate_each applies marks_changed target rewrite env1 l' in
    (env2, r' :: l'')
  end.

Definition migrate_to_v2 (st : Steps) := migrate_each (fun v => v <=? 1) false 2 (to_v2 st).
Definition migrate_to_v3 (st : Steps) := migrate_each (fun v => v =? 2) true 3 (to_v3 st).
Definition migrate_to_v4 (st : Steps) := migrate_each (fun v => v =? 3) true 4 (to_v4 st).
Definition migrate_to_v5 (st : Steps) := migrate_each (fun v => v =? 4) true 5 (to_v5 st).
Definition migrate_to_v6 (st : Steps) := migrate_each (fun v => v =? 5) true 6 (to_v6 st).
Definition migrate_to_v7 (st : Steps) := migrate_each (fun v => v =? 6) true 7 (to_v7 st).
Definition migrate_to_v8 (st : Steps) := migrate_each (fun v => v =? 7) true 8 (to_v8 st).

Definition migrate_to_v9 (st : Steps) (env : Env) (l : list ReaderInfo) :=
  let env1 := foldl (fun e r => v9_scan st e (properties r)) env l in
  migrate_each (fun v => v =? 8) true 9 (to_v9 st) env1 l.

Definition migrate_to_v10 (st : Steps) := migrate_each (fun v => v =? 9) true 10 (to_v10 st).

Definition migrate_to_latest (st : Steps) (env : Env) (l : list ReaderInfo)
    : Env * list ReaderInfo :=
  let '(env, l) := migrate_to_v2 st env l in
  let '(env, l) := migrate_to_v3 st env l in
  let '(env, l) := migrate_to_v4 st env l in
  let '(env, l) := migrate_to_v5 st env l in
  let '(env, l) := migrate_to_v6 st env l in
  let '(env, l) := migrate_to_v7 st env l in
  let '(env, l) := migrate_to_v8 st env l in
  let '(env, l) := migrate_to_v9 st env l in
  migrate_to_v10 st env l.

(** ** Storage systems *)

(** A file under one of the directories: whether the file handler matches
    it, and the handler that opening it gives, [None] when opening raises
    or the handler is not valid. *)
Record DataFile := mkDataFile {
  is_matching : bool;
  open_handler : option Handler
}.

Inductive StorageSystem :=
| MemoryPersistentStorageSystem (handlers : list Handler)
| FilePersistentStorageSystem (files : list DataFile).

(** [FilePersistentStorageSystem.find_data_items]: the [except] clause logs
    and raises again. *)
Fixpoint open_files (files : list DataFile) : result (list Handler) :=
  match files with
  | [] => Returned []
  | f :: files' =>
    match open_handler f with
    | None => Raised
    | Some h =>
      match open_files files' with
      | Returned hs => Returned (h :: hs)
      | Raised => Raised
      end
    end
  end.

Definition find_data_items (sys : StorageSystem) : result (list Handler) :=
  match sys with
  | MemoryPersistentStorageSystem handlers => Returned handlers
  | FilePersistentStorageSystem files =>
    open_files (filter (fun f => is_matching f = true) files)
  end.

(** [for system in systems: handlers.extend(system.find_data_items())] *)
Fixpoint find_all (systems : list StorageSystem) : result (list Handler) :=
  match systems with
  | [] => Returned []
  | sys :: systems' =>
    match find_data_items sys with
    | Raised => Raised
    | Returned hs =>
      match find_all systems' with
      | Returned hs' => Returned (hs ++ hs')
      | Raised => Raised
      end
    end
  end.

(** ** Constructing the data items *)

(** A data item read from a record. *)
Record DataItem := mkDataItem {
  item_uuid : N;
  item_handler : Handler;
  item_properties : Properties
}.

(** The document that [auto_migrate] copies into. *)
Record TargetDocument := mkTargetDocument {
  get_data_item_by_uuid : N -> bool;
  auto_migrate_data_item : N -> Handler -> Properties -> result (option DataItem)
}.

(** What the last loop of [read_data_items] calls. *)
Record Collaborators := mkCollaborators {
  steps : Steps;
  (** [uuid.UUID(properties["uuid"])], [None] when it raises *)
  uuid_of : Content -> option N;
  (** whether [persistent_storage_handler.write_properties] returns *)
  write_properties : Handler -> Properties -> bool;
  (** whether building the [DataItem] and [read_from_dict] return *)
  reads_from_dict : N -> Handler -> Properties -> bool;
  (** [data_item.created], as a number *)
  created : DataItem -> Z
}.

(** [data_items_by_uuid[key] = value]: a key that is there keeps its place. *)
Fixpoint dict_set (key : N) (value : DataItem) (d : list (N * DataItem))
    : list (N * DataItem) :=
  match d with
  | [] => [(key, value)]
  | (k, v) :: d' => if decide (k = key) then (k, value) :: d'
                    else (k, v) :: dict_set key value d'
  end.

(** What the last loop has built so far: the dictionary and the
    properties written back to storage. *)
Record Loaded := mkLoaded {
  data_items_by_uuid : list (N * DataItem);
  written : list (Handler * Properties)
}.

(** The body of the last loop for one record; an exception anywhere in it
    is caught and the loop goes on. *)
Definition load_record (c : Collaborators) (target_document : option TargetDocument)
    (acc : Loaded) (r : ReaderInfo) : Loaded :=
  let p := properties r in
  let h := persistent_storage_handler r in
  if get_version p =? writer_version then
    match uuid_of c (content p) with
    | None => acc
    | Some data_item_uuid =>
      match target_document with
      | Some target =>
        if get_data_item_by_uuid target data_item_uuid then acc
        else
          match auto_migrate_data_item target data_item_uuid h p with
          | Returned (Some new_data_item) =>
            mkLoaded (dict_set data_item_uuid new_data_item (data_items_by_uuid acc))
                     (written acc)
          | Returned None => acc
          | Raised => acc
          end
      | None =>
        if changed_ref r && negb (write_properties c h p) then acc
        else
          let acc' :=
            if changed_ref r
            then mkLoaded (data_items_by_uuid acc) (written acc ++ [(h, p)])
            else acc in
          if reads_from_dict c data_item_uuid h p then
            mkLoaded (dict_set data_item_uuid (mkDataItem data_item_uuid h p)
                        (data_items_by_uuid acc'))
                     (written acc')
          else acc'
      end
    end
  else acc.

(** [data_items.sort(key=sort_by_date_key)]: stable. *)
Fixpoint insert_by_date (c : Collaborators) (x : DataItem) (l : list DataItem)
    : list DataItem :=
  match l with
  | [] => [x]
  | y :: l' => if created c y <=? created c x then y :: insert_by_date c x l'
               else x :: y :: l'
  end.

Definition sort_by_date (c : Collaborators) (l : list DataItem) : list DataItem :=
  foldl (fun acc x => insert_by_date c x acc) [] l.

(** [try: reader_info_list.append(ReaderInfo(handler.read_properties(),
    [False], handler))  except Exception: ...] *)
Definition read_record (h : Handler) : option ReaderInfo :=
  (fun p => mkReaderInfo p false h) <$> read_properties h.

(** The records as the last loop of [read_data_items] gets them: read, and
    migrated unless older files are ignored. *)
Definition reader_info_list_of (c : Collaborators) (ignore_older_files : bool)
    (persistent_storage_handlers : list Handler) (env : Env) : list ReaderInfo :=
  let reader_info_list := omap read_record persistent_storage_handlers in
  if ignore_older_files then reader_info_list
  else (migrate_to_latest (steps c) env reader_info_list).2.

(** [PersistentDataItemContext.read_data_items]: the data items in the
    order of their dates, and what was written back. *)
Definition read_data_items (c : Collaborators) (ignore_older_files : bool)
    (systems : list StorageSystem) (target_document : option TargetDocument) (env : Env)
    : result (list DataItem * list (Handler * Properties)) :=
  match find_all systems with
  | Raised => Raised
  | Returned persistent_storage_handlers =>
    let reader_info_list :=
      reader_info_list_of c ignore_older_files persistent_storage_handlers env in
    let loaded := foldl (load_record c target_document) (mkLoaded [] []) reader_info_list in
    Returned (sort_by_date c (data_items_by_uuid loaded).*2, written loaded)
  end.

(** Every rewrite of every step runs to its end on the record of the
    handler [h]: no step raises there. *)
Definition steps_complete_at (st : Steps) (h : Handler) : Prop :=
  forall (rewrite : Rewrite),
    rewrite ∈ [to_v2 st; to_v3 st; to_v4 st; to_v5 st; to_v6 st; to_v7 st; to_v8 st;
               to_v9 st; to_v10 st] ->
    forall e c, (rewrite e h c).2 = true.

(** Every rewrite of every step raises on the record of the handler [h]. *)
Definition steps_raise_at (st : Steps) (h : Handler) : Prop :=
  forall (rewrite : Rewrite),
    rewrite ∈ [to_v2 st; to_v3 st; to_v4 st; to_v5 st; to_v6 st; to_v7 st; to_v8 st;
               to_v9 st; to_v10 st] ->
    forall e c, (rewrite e h c).2 = false.

(** The last loop builds a data item with the uuid [u] from the record [r]:
    the record is at the writer version, its uuid parses, the rewrite to
    storage (if due) and the construction return. *)
Definition loadable (c : Collaborators) (r : ReaderInfo) (u : N) : Prop :=
  get_version (properties r) = writer_version /\
  uuid_of c (content (properties r)) = Some u /\
  (changed_ref r = true ->
     write_properties c (persistent_storage_handler r) (properties r) = true) /\
  reads_from_dict c u (persistent_storage_handler r) (properties r) = true.

(** Where the record that stood at version [v] is after the step to
    version [n]: at [n] and marked if [v] was below [n], untouched
    otherwise. Step 2 does not mark. *)
Definition after_step (n : Z) (r r' : ReaderInfo) : Prop :=
  persistent_storage_handler r' = persistent_storage_handler r /\
  ((get_version (properties r) < n /\ version (properties r') = Some n /\
    changed_ref r' = changed_ref r || (3 <=? n)) \/
   (n <= get_version (properties r) /\ r' = r)).

(** What is in the dictionary and what was written back came from
    loadable records of the list. *)
Definition from_records (c : Collaborators) (l : list ReaderInfo) (acc : Loaded) : Prop :=
  (forall k d, (k, d) ∈ data_items_by_uuid acc ->
     exists r, r ∈ l /\ loadable c r k /\ item_uuid d = k /\
       item_handler d = persistent_storage_handler r /\ item_properties d = properties r) /\
  (forall h p, (h, p) ∈ written acc ->
     exists r, r ∈ l /\ get_version (properties r) = writer_version /\
       changed_ref r = true /\ h = persistent_storage_handler r /\ p = properties r).

End Loading.

Arguments mkProperties {Content} _ _.
Arguments version {Content} _.
Arguments content {Content} _.
Arguments get_version {Content} _.
Arguments mkHandler {Content} _ _.
Arguments reference {Content} _.
Arguments read_properties {Content} _.
Arguments mkReaderInfo {Content} _ _ _.
Arguments properties {Content} _.
Arguments changed_ref {Content} _.
Arguments persistent_storage_handler {Content} _.
Arguments mkDataFile {Content} _ _.
Arguments MemoryPersistentStorageSystem {Content} _.
Arguments FilePersistentStorageSystem {Content} _.
Arguments mkDataItem {Content} _ _ _.
Arguments item_uuid {Content} _.
Arguments item_handler {Content} _.
Arguments item_properties {Content} _.
Arguments mkLoaded {Content} _ _.
Arguments data_items_by_uuid {Content} _.
Arguments written {Content} _.
Arguments migrate_record {Content Env} _ _ _ _ _ _.
Arguments migrate_each {Content Env} _ _ _ _ _ _.
Arguments migrate_to_latest {Content Env} _ _ _.
Arguments migrate_to_v2 {Content Env} _ _ _.
Arguments migrate_to_v3 {Content Env} _ _ _.
Arguments migrate_to_v4 {Content Env} _ _ _.
Arguments migrate_to_v5 {Content Env} _ _ _.
Arguments migrate_to_v6 {Content Env} _ _ _.
Arguments migrate_to_v7 {Content Env} _ _ _.
Arguments migrate_to_v8 {Content Env} _ _ _.
Arguments migrate_to_v9 {Content Env} _ _ _.
Arguments migrate_to_v10 {Content Env} _ _ _.
Arguments find_data_items {Content} _.
Arguments find_all {Content} _.
Arguments open_files {Content} _.
Arguments read_record {Content} _.
Arguments load_record {Content Env} _ _ _ _.
Arguments read_data_items {Content Env} _ _ _ _ _.
Arguments reader_info_list_of {Content Env} _ _ _ _.
Arguments steps_complete_at {Content Env} _ _.
Arguments steps_raise_at {Content Env} _ _.
Arguments loadable {Content Env} _ _ _.
Arguments after_step {Content} _ _ _.
Arguments from_records {Content Env} _ _ _.
Arguments sort_by_date {Content Env} _ _.
Arguments insert_by_date {Content Env} _ _ _.
Arguments dict_set {Content} _ _ _.
Arguments to_v2 {Content Env} _.
Arguments to_v3 {Content Env} _.
Arguments to_v4 {Content Env} _.
Arguments to_v5 {Content Env} _.
Arguments to_v6 {Content Env} _.
Arguments to_v7 {Content Env} _.
Arguments to_v8 {Content Env} _.
Arguments to_v9 {Content Env} _.
Arguments to_v10 {Content Env} _.
Arguments v9_scan {Content Env} _.
Arguments steps {Content Env} _.
Arguments uuid_of {Content Env} _ _.
Arguments write_properties {Content Env} _ _ _.
Arguments reads_from_dict {Content Env} _ _ _ _.
Arguments created {Content Env} _ _.

(** ** Examples *)

(** Records that hold their uuid and nothing else, and steps that change
    nothing. *)
Definition example_rewrite : Rewrite N unit := fun e _ c => (e, c, true).

Definition example_steps : Steps N unit :=
  mkSteps N unit example_rewrite example_rewrite example_rewrite example_rewrite
    example_rewrite example_rewrite example_rewrite example_rewrite example_rewrite
    (fun e _ => e).

Definition example_collaborators : Collaborators N unit :=
  mkCollaborators N unit example_steps Some (fun _ _ => true) (fun _ _ _ => true)
    (fun d => Z.of_N (item_uuid d)).

(** A handler whose record is at version [v] and has the uuid [u]. *)
Definition record_at (v : Z) (u : N) : Handler N :=
  mkHandler (N.to_nat u) (Some (mkProperties (Some v) u)).

(** A file that opens on the record, and one that cannot be opened. *)
Definition good_file (v : Z) (u : N) : DataFile N := mkDataFile true (Some (record_at v u)).

Definition bad_file : DataFile N := mkDataFile true None.

(** A handler whose [read_properties] raises. *)
Definition unreadable (n : nat) : Handler N := mkHandler n None.

(** Steps that raise on the record of handler 2 and change nothing
    elsewhere. *)
Definition failing_rewrite : Rewrite N unit :=
  fun e h c => (e, c, negb (Nat.eqb (reference h) 2)).

Definition failing_steps : Steps N unit :=
  mkSteps N unit failing_rewrite failing_rewrite failing_rewrite failing_rewrite
    failing_rewrite failing_rewrite failing_rewrite failing_rewrite failing_rewrite
    (fun e _ => e).

Definition failing_collaborators : Collaborators N unit :=
  mkCollaborators N unit failing_steps Some (fun _ _ => true) (fun _ _ _ => true)
    (fun d => Z.of_N (item_uuid d)).

(** ** Definitions for further facts *)

Section D.
Variable Content Env : Type.
(** [kept n r r']: [r'] is what a record [r] may have become by the steps
    up to version [n]: it has the handler of [r], a version that is not
    lower and not above [n] unless it was so before, and the rewrite flag
    still set if it was set. *)
Definition kept (n : Z) (r r' : ReaderInfo Content) : Prop :=
  persistent_storage_handler r' = persistent_storage_handler r /\
  get_version (properties r) <= get_version (properties r') /\
  get_version (properties r') <= Z.max (get_version (properties r)) n /\
  (changed_ref r = true -> changed_ref r' = true).

(** Every key of the dictionary is the uuid of its data item, and no key
    stands twice. *)
Definition keyed (acc : Loaded Content) : Prop :=
  NoDup (data_items_by_uuid acc).*1 /\
  Forall (fun kd => item_uuid kd.2 = kd.1) (data_items_by_uuid acc).

(** ** Version statistics *)

(** The body of the loop of [read_data_items_version_stats]: [count] is
    the list [[matches, higher, lower]]. *)
Definition count_version (count : list Z) (p : Properties Content) : list Z :=
  let version := get_version p in
  if version <? writer_version then alter Z.succ 2%nat count
  else if writer_version <? version then alter Z.succ 1%nat count
  else alter Z.succ 0%nat count.

(** The loop: [read_properties] is not inside a [try] here. *)
Fixpoint count_versions (persistent_storage_handlers : list (Handler Content))
    (count : list Z) : result (list Z) :=
  match persistent_storage_handlers with
  | [] => Returned count
  | h :: hs =>
    match read_properties h with
    | None => Raised
    | Some p => count_versions hs (count_version count p)
    end
  end.

(** [PersistentDataItemContext.read_data_items_version_stats] *)
Definition read_data_items_version_stats (systems : list (StorageSystem Content))
    : result (list Z) :=
  match find_all systems with
  | Raised => Raised
  | Returned persistent_storage_handlers =>
    count_versions persistent_storage_handlers [0; 0; 0]
  end.

End D.
Arguments kept {Content} _ _ _.
Arguments keyed {Content} _.
Arguments count_version {Content} _ _.
Arguments count_versions {Content} _ _.
Arguments read_data_items_version_stats {Content} _.


(** ** File names *)

(** The inner function [encode] of
    [FilePersistentStorageSystem.__get_default_path]: the digits of
    [uuid_.int] in the base [len(alphabet)], the lowest first, each written
    as its character of the alphabet. The loop [while uuid_int:] runs as
    long as [fuel] lasts, [None] when it runs out; [divmod] by the length
    of an empty alphabet raises. *)
Fixpoint encode_loop (fuel : nat) : N -> string -> string -> option (result string) :=
  fun uuid_int alphabet result =>
  match fuel with
  | O => None
  | S fuel =>
    if (uuid_int =? 0)%N then Some (Returned result)
    else if (N.of_nat (String.length alphabet) =? 0)%N then Some Raised
    else
      let '(uuid_int, digit) := N.div_eucl uuid_int (N.of_nat (String.length alphabet)) in
      match String.get (N.to_nat digit) alphabet with
      | None => Some Raised
      | Some a => encode_loop fuel uuid_int alphabet (result +:+ String a EmptyString)
      end
  end.

Definition encode (fuel : nat) (uuid_int : N) (alphabet : string) : option (result string) :=
  encode_loop fuel uuid_int alphabet EmptyString.

(** The alphabet that [__get_default_path] passes. *)
Definition uuid_alphabet : string := "ABCDEFGHIJKLMNOPQRSTUVWXYZ1234567890".

(** The place of the character [a] in [alphabet]. *)
Fixpoint place (a : Ascii.ascii) (alphabet : string) : N :=
  match alphabet with
  | EmptyString => 0%N
  | String b alphabet' => if Ascii.eqb a b then 0%N else N.succ (place a alphabet')
  end.

(** The number whose digits [s] lists, the lowest first: what [encode]
    was given, if [s] is its result. *)
Fixpoint decode (alphabet s : string) : N :=
  match s with
  | EmptyString => 0%N
  | String a s' => (place a alphabet + N.of_nat (String.length alphabet) * decode alphabet s')%N
  end.


End Loader.

(** * Symbolic: computation expression trees and their text

    The data nodes that arithmetic on data items builds
    ([nion/swift/model/Symbolic.py]): constants, unary and binary
    operations, and the leaves that stand for data items and references.
    [reconstruct] renders a tree as text; the variable map, a Python
    dictionary that the leaves add names to, is threaded through. *)

Module Symbolic.

(** An object specifier, [{"type": ..., "uuid": ...}]. *)
Record ObjectSpecifier := mkObjectSpecifier {
  specifier_type : string;
  specifier_uuid : N
}.

#[global] Instance ObjectSpecifier_eq_dec : EqDecision ObjectSpecifier.
Proof. solve_decision. Defined.

Inductive DataNode :=
| ConstantDataNode (scalar : Z)
| UnaryOperationDataNode (input : DataNode) (function_id : string)
| BinaryOperationDataNode (input0 input1 : DataNode) (function_id : string)
| DataItemDataNode (object_specifier : ObjectSpecifier)
| ReferenceDataNode (object_specifier : ObjectSpecifier).

#[global] Instance DataNode_eq_dec : EqDecision DataNode.
Proof. solve_decision. Defined.

(** The variable map: variable names to specifiers, in insertion order. *)
Abbreviation VariableMap := (list (string * ObjectSpecifier)).

(** [_operator_map]: the operator text and the precedence of a function. *)
Definition _operator_map : list (string * (string * Z)) :=
  [("pow", ("**", 9)); ("neg", ("-", 8)); ("pos", ("+", 8)); ("add", ("+", 6));
   ("sub", ("-", 6)); ("mul", ("*", 7)); ("div", ("/", 7)); ("truediv", ("/", 7));
   ("floordiv", ("//", 7)); ("mod", ("%", 7))].

(** [d[key]] and [key in d] on a dictionary with string keys. *)
Fixpoint dict_get {A : Type} (key : string) (d : list (string * A)) : option A :=
  match d with
  | [] => None
  | (k, v) :: d' => if decide (k = key) then Some v else dict_get key d'
  end.

(** [d[key] = value] *)
Fixpoint dict_set {A : Type} (key : string) (value : A) (d : list (string * A))
    : list (string * A) :=
  match d with
  | [] => [(key, value)]
  | (k, v) :: d' => if decide (k = key) then (k, value) :: d'
                    else (k, v) :: dict_set key value d'
  end.

(** [s[n:]] *)
Fixpoint slice_from (n : nat) (s : string) : string :=
  match n, s with
  | O, _ => s
  | S n', String _ s' => slice_from n' s'
  | S _, EmptyString => EmptyString
  end.

Definition digit_value (a : Ascii.ascii) : option Z :=
  let n := Z.of_N (Ascii.N_of_ascii a) in
  if (48 <=? n) && (n <=? 57) then Some (n - 48) else None.

(** [int(s)] for a string of decimal digits, [None] when [s.isdigit()] is
    false. *)
Fixpoint int_digits (acc : Z) (s : string) : option Z :=
  match s with
  | EmptyString => Some acc
  | String a s' =>
    match digit_value a with
    | Some d => int_digits (10 * acc + d) s'
    | None => None
    end
  end.

Definition int_of_digits (s : string) : option Z :=
  match s with
  | EmptyString => None
  | _ => int_digits 0 s
  end.

(** The loop of a leaf's [reconstruct] over [variable_map.items()]: the
    variable that is bound to the specifier, or else the index for a new
    name. *)
Fixpoint find_variable (prefix : string) (specifier : ObjectSpecifier)
    (items : VariableMap) (variable_index : Z) : string + Z :=
  match items with
  | [] => inr variable_index
  | (variable, object_specifier) :: items' =>
    if decide (object_specifier = specifier) then inl variable
    else
      let suffix := slice_from (String.length prefix) variable in
      find_variable prefix specifier items'
        match int_of_digits suffix with
        | Some n => Z.max variable_index (n + 1)
        | None => variable_index
        end
  end.

(** [DataItemDataNode.reconstruct] with the prefix ["d"] and
    [ReferenceDataNode.reconstruct] with the prefix ["ref"]. *)
Definition reconstruct_leaf (prefix : string) (specifier : ObjectSpecifier)
    (variable_map : VariableMap) : (string * Z) * VariableMap :=
  match find_variable prefix specifier variable_map (-1) with
  | inl variable => ((variable, 10), variable_map)
  | inr variable_index =>
    let variable_index := Z.max variable_index 0 in
    let variable_name := prefix +:+ pretty variable_index in
    ((variable_name, 10), dict_set variable_name specifier variable_map)
  end.

(** ["({0})".format(text)] *)
Definition parenthesized (text : string) : string := "(" +:+ text +:+ ")".

(** [reconstruct]: the text of a node and its precedence. The inputs are
    reconstructed first, in order ([reconstruct_inputs]). An operation
    with no operator is written as a call. *)
Fixpoint reconstruct (node : DataNode) (variable_map : VariableMap)
    : (string * Z) * VariableMap :=
  match node with
  | ConstantDataNode scalar => ((pretty scalar, 10), variable_map)
  | UnaryOperationDataNode input function_id =>
    let '((operator_arg, input_precedence), variable_map) :=
      reconstruct input variable_map in
    match dict_get function_id _operator_map with
    | Some (operator_text, precedence) =>
      let operator_arg :=
        if input_precedence <=? precedence then parenthesized operator_arg
        else operator_arg in
      ((operator_text +:+ operator_arg, precedence), variable_map)
    | None => ((function_id +:+ "(" +:+ operator_arg +:+ ")", 10), variable_map)
    end
  | BinaryOperationDataNode input0 input1 function_id =>
    let '((operator_left, left_precedence), variable_map) :=
      reconstruct input0 variable_map in
    let '((operator_right, right_precedence), variable_map) :=
      reconstruct input1 variable_map in
    match dict_get function_id _operator_map with
    | Some (operator_text, precedence) =>
      let operator_left :=
        if left_precedence <? precedence then parenthesized operator_left
        else operator_left in
      let operator_right :=
        if right_precedence <? precedence then parenthesized operator_right
        else operator_right in
      ((operator_left +:+ " " +:+ operator_text +:+ " " +:+ operator_right, precedence),
       variable_map)
    | None =>
      ((function_id +:+ "(" +:+ operator_left +:+ ", " +:+ operator_right +:+ ")", 10),
       variable_map)
    end
  | DataItemDataNode object_specifier => reconstruct_leaf "d" object_specifier variable_map
  | ReferenceDataNode object_specifier =>
    reconstruct_leaf "ref" object_specifier variable_map
  end.

(** The text alone. *)
Definition reconstruct_text (variable_map : VariableMap) (node : DataNode) : string :=
  (reconstruct node variable_map).1.1.

(** ** Evaluation

    The values are integers, as one element of integer data has them; a
    result that is not an integer, or an operation that raises, is
    [None], as is an input that is not bound. *)

(** [_function_map], the functions of one argument. *)
Definition unary_function (function_id : string) (x : Z) : option Z :=
  if decide (function_id = "abs") then Some (Z.abs x)
  else if decide (function_id = "neg") then Some (- x)
  else if decide (function_id = "pos") then Some x
  else None.

(** [_function_map], the functions of two arguments. *)
Definition binary_function (function_id : string) (x y : Z) : option Z :=
  if decide (function_id = "add") then Some (x + y)
  else if decide (function_id = "sub") then Some (x - y)
  else if decide (function_id = "mul") then Some (x * y)
  else if decide (function_id = "floordiv") then (if y =? 0 then None else Some (x / y))
  else if decide (function_id = "mod") then (if y =? 0 then None else Some (x mod y))
  else if decide (function_id = "pow") then (if y <? 0 then None else Some (x ^ y))
  else None.

(** [DataNode.evaluate]; the context resolves a specifier to the value of
    the bound item. *)
Fixpoint evaluate (context : ObjectSpecifier -> option Z) (node : DataNode) : option Z :=
  match node with
  | ConstantDataNode scalar => Some scalar
  | UnaryOperationDataNode input function_id =>
    match evaluate context input with
    | Some x => unary_function function_id x
    | None => None
    end
  | BinaryOperationDataNode input0 input1 function_id =>
    match evaluate context input0, evaluate context input1 with
    | Some x, Some y => binary_function function_id x y
    | _, _ => None
    end
  | DataItemDataNode object_specifier => context object_specifier
  | ReferenceDataNode _ => None
  end.

(** Two trees are equivalent when they evaluate alike in every context. *)
Definition equivalent (node node' : DataNode) : Prop :=
  forall context, evaluate context node = evaluate context node'.

(** ** Examples *)

Definition specifier_of (n : N) : ObjectSpecifier := mkObjectSpecifier "data_item" n.

Definition node_a : DataNode := DataItemDataNode (specifier_of 1).
Definition node_b : DataNode := DataItemDataNode (specifier_of 2).
Definition node_c : DataNode := DataItemDataNode (specifier_of 3).

Definition example_variable_map : VariableMap :=
  [("a", specifier_of 1); ("b", specifier_of 2); ("c", specifier_of 3)].

(** The context in which [a], [b] and [c] are 1, 2 and 3. *)
Definition example_context (specifier : ObjectSpecifier) : option Z :=
  Some (Z.of_N (specifier_uuid specifier)).

(** [a - (b - c)] and [(a - b) - c] *)
Definition sub_right : DataNode :=
  BinaryOperationDataNode node_a (BinaryOperationDataNode node_b node_c "sub") "sub".

Definition sub_left : DataNode :=
  BinaryOperationDataNode (BinaryOperationDataNode node_a node_b "sub") node_c "sub".


(** ** Subscripts

    [a[2, :]] on a data node becomes a [data_slice] operation whose key is
    stored as a list of dictionaries ([key_to_list]) and read back when
    the operation is evaluated ([list_to_key]). *)

Inductive exn :=
| AssertionError | TypeError | IndexError | ZeroDivisionError | AttributeError
| UnboundLocalError.

(** What a Python function gives: a value, or an exception. *)
Inductive answer (A : Type) :=
| Returns (a : A)
| Raises (e : exn).
Arguments Returns {A} a.
Arguments Raises {A} e.

Definition answer_bind {A B} (m : answer A) (k : A -> answer B) : answer B :=
  match m with
  | Returns a => k a
  | Raises e => Raises e
  end.

(** [[f(x) for x in l]], an exception ending it where it is raised. *)
Fixpoint answer_map {A B} (f : A -> answer B) (l : list A) : answer (list B) :=
  match l with
  | [] => Returns []
  | x :: l' =>
    answer_bind (f x) (fun y => answer_bind (answer_map f l') (fun ys => Returns (y :: ys)))
  end.

(** One entry of a subscript: a [slice], an integer, [Ellipsis], [None],
    or an object of another type. *)
Inductive Entry :=
| ESlice (start stop step : option Z)
| EIndex (index : Z)
| EEllipsis
| ENone
| EOther.

#[global] Instance Entry_eq_dec : EqDecision Entry.
Proof. solve_decision. Defined.

(** A subscript: one entry, a tuple of entries, or a list of entries. *)
Inductive Key :=
| KEntry (entry : Entry)
| KTuple (entries : list Entry)
| KList (entries : list Entry).

(** A dictionary of a stored key. The flags of [Ellipsis] and [None] are
    [True], a subclass instance of [int] that counts as 1; an index is an
    integer proper. *)
Abbreviation Dict := (list (string * Z)).

(** [if v is not None: d[name] = v] *)
Definition set_if_given (name : string) (v : option Z) (d : Dict) : Dict :=
  match v with
  | Some z => dict_set name z d
  | None => d
  end.

(** The body of the loop of [key_to_list]; the last branch is
    [assert False]. *)
Definition entry_to_dict (k : Entry) : answer Dict :=
  match k with
  | ESlice start stop step =>
    Returns (set_if_given "step" step (set_if_given "stop" stop (set_if_given "start" start [])))
  | EIndex index => Returns [("index", index)]
  | EEllipsis => Returns [("ellipses", 1)]
  | ENone => Returns [("newaxis", 1)]
  | EOther => Raises AssertionError
  end.

(** [key_to_list]: a key that is not a tuple is taken as the tuple of
    itself, so that a list is an entry of another type. *)
Definition key_to_list (key : Key) : answer (list Dict) :=
  let key :=
    match key with
    | KTuple entries => entries
    | KEntry entry => [entry]
    | KList _ => [EOther]
    end in
  answer_map entry_to_dict key.

(** [d.get(name, False)] taken as a condition *)
Definition get_flag (name : string) (d : Dict) : bool :=
  match dict_get name d with
  | Some z => negb (z =? 0)
  | None => false
  end.

(** The body of the loop of [list_to_key]. *)
Definition dict_to_entry (d : Dict) : Entry :=
  match dict_get "index" d with
  | Some index => EIndex index
  | None =>
    if get_flag "ellipses" d then EEllipsis
    else if get_flag "newaxis" d then ENone
    else ESlice (dict_get "start" d) (dict_get "stop" d) (dict_get "step" d)
  end.

(** [list_to_key]: a key of one entry comes back as that entry, any other
    as a list. *)
Definition list_to_key (l : list Dict) : Key :=
  let key := dict_to_entry <$> l in
  match key with
  | [entry] => KEntry entry
  | _ => KList key
  end.

(** ** Slicing data *)

Section DataSlice.

(** [Calibration.Calibration] and its arithmetic are outside: [crop c n
    start step] stands for the calibration with the offset [c.offset + n *
    start * c.scale], the scale [c.scale / step] and the units of [c]. *)
Variable Calibration : Type.
Variable crop : Calibration -> Z -> Z -> Z -> Calibration.

(** What [function_data_slice] reads of a [DataAndMetadata] and sets in
    the one it returns. *)
Record DataAndMetadata := mkDataAndMetadata {
  data_shape : list Z;
  dimensional_calibrations : list Calibration
}.

(** [slice(start, stop, step)] with numbers in all three places *)
Record Slice := mkSlice {
  slice_start : Z;
  slice_stop : Z;
  slice_step : Z
}.

(** [non_ellipses_count]: the number of entries that are [Ellipsis]. *)
Definition non_ellipses_count (slices : list Entry) : Z :=
  Z.of_nat (length (filter (fun s => s = EEllipsis) slices)).

(** The end of [normalize_slice], for a [slice] object. *)
Definition normalize_bounds (collapsible : bool) (size : Z) (start stop step : option Z)
    : list (bool * Slice) :=
  let s_start := default 0 start in
  let s_start := if s_start <? 0 then size + s_start else s_start in
  let s_stop := default size stop in
  let s_stop := if s_stop <? 0 then size + s_stop else s_stop in
  let s_step := default 1 step in
  [(collapsible, mkSlice s_start s_stop s_step)].

Definition normalize_slice (index : nat) (s : Entry) (shape : list Z) (ellipse_count : Z)
    : answer (list (bool * Slice)) :=
  match shape !! index with
  | None => Raises IndexError
  | Some size =>
    match s with
    | EEllipsis =>
      answer_map (fun ellipse_index =>
        match shape !! (index + ellipse_index)%nat with
        | Some n => Returns (false, mkSlice 0 n 1)
        | None => Raises IndexError
        end) (seq 0 (Z.to_nat ellipse_count))
    | EIndex i => Returns (normalize_bounds true size (Some i) (Some (i + 1)) (Some 1))
    | ENone => Returns (normalize_bounds false size (Some 0) (Some size) (Some 1))
    | ESlice start stop step => Returns (normalize_bounds false size start stop step)
    | EOther => Raises AttributeError
    end
  end.

(** [for index, s in enumerate(slices): normalized_slices.extend(...)] *)
Fixpoint normalize_all (index : nat) (slices : list Entry) (shape : list Z)
    (ellipse_count : Z) : answer (list (bool * Slice)) :=
  match slices with
  | [] => Returns []
  | s :: slices' =>
    answer_bind (normalize_slice index s shape ellipse_count) (fun l =>
    answer_bind (normalize_all (S index) slices' shape ellipse_count) (fun l' =>
    Returns (l ++ l')))
  end.

(** [abs(s.start - s.stop) // s.step] *)
Definition extent (s : Slice) : answer Z :=
  if slice_step s =? 0 then Raises ZeroDivisionError
  else Returns (Z.abs (slice_start s - slice_stop s) / slice_step s).

(** The loop over the dimensional calibrations. *)
Fixpoint crop_calibrations (index : nat) (calibrations : list Calibration)
    (normalized_slices : list (bool * Slice)) (uncollapsed_data_shape : list Z)
    : answer (list Calibration) :=
  match calibrations with
  | [] => Returns []
  | dimensional_calibration :: calibrations' =>
    match normalized_slices !! index return answer (list Calibration) with
    | None => Raises IndexError
    | Some (collapsible, s) =>
      answer_bind
        (if (collapsible : bool) then Returns ([] : list Calibration)
         else
           match uncollapsed_data_shape !! index with
           | None => Raises IndexError
           | Some n =>
             Returns [crop dimensional_calibration n (slice_start s) (slice_step s)]
           end) (fun cropped =>
      answer_bind
        (crop_calibrations (S index) calibrations' normalized_slices uncollapsed_data_shape)
        (fun cropped' => Returns (cropped ++ cropped')))
    end
  end.

(** [function_data_slice]: [None] of Python is [None] here, for no data
    and for an empty slice alike. Iterating over a key that is one entry
    raises. *)
Definition function_data_slice (data_and_metadata : option DataAndMetadata)
    (key : list Dict) : answer (option DataAndMetadata) :=
  let slices := list_to_key key in
  match data_and_metadata with
  | None => Returns None
  | Some data_and_metadata =>
    match slices with
    | KList slices =>
      let shape := data_shape data_and_metadata in
      let ellipse_count := Z.of_nat (length shape) - non_ellipses_count slices in
      answer_bind (normalize_all 0 slices shape ellipse_count) (fun normalized_slices =>
      if existsb (fun cs : bool * Slice => slice_stop cs.2 <=? slice_start cs.2)
           normalized_slices
      then Returns None
      else
        answer_bind
          (answer_map (fun cs : bool * Slice => extent cs.2)
             (filter (fun cs : bool * Slice => cs.1 = false) normalized_slices))
          (fun data_shape =>
        answer_bind
          (answer_map (fun cs : bool * Slice => extent cs.2) normalized_slices)
          (fun uncollapsed_data_shape =>
        answer_bind
          (crop_calibrations 0 (dimensional_calibrations data_and_metadata)
             normalized_slices uncollapsed_data_shape)
          (fun cropped_dimensional_calibrations =>
        Returns (Some (mkDataAndMetadata data_shape cropped_dimensional_calibrations))))))
    | _ => Raises TypeError
    end
  end.

End DataSlice.

Arguments mkDataAndMetadata {Calibration} _ _.
Arguments data_shape {Calibration} _.
Arguments dimensional_calibrations {Calibration} _.
Arguments crop_calibrations {Calibration} _ _ _ _ _.
Arguments function_data_slice {Calibration} _ _ _.

(** ** The text of a subscript *)

(** [", ".join(l)] *)
Fixpoint join (l : list string) : string :=
  match l with
  | [] => EmptyString
  | [s] => s
  | s :: l' => s +:+ ", " +:+ join l'
  end.

(** The text of a slice, as the three statements of the loop build it. *)
Definition slice_text (start stop step : option Z) : string :=
  let slice_str := match start with Some z => pretty z | None => EmptyString end in
  let slice_str := slice_str +:+ match stop with Some z => ":" +:+ pretty z | None => ":" end in
  slice_str +:+ match step with Some z => ":" +:+ pretty z | None => EmptyString end.

(** The text of an entry that is a slice, and of no other. *)
Definition entry_slice_text (e : Entry) : option string :=
  match e with
  | ESlice start stop step => Some (slice_text start stop step)
  | _ => None
  end.

(** The loop of [FunctionOperationDataNode.reconstruct] for a
    [data_slice]: [slice_str] is a local variable of the method, unbound
    ([None] here) until the first slice has been seen, and an integer is
    added to what it holds. Entries that are neither a slice nor an
    integer are passed over. *)
Fixpoint slice_strs_loop (entries : list Entry) (slice_str : option string)
    (slice_strs : list string) : answer (list string) :=
  match entries with
  | [] => Returns slice_strs
  | ESlice start stop step :: entries' =>
    let slice_str := slice_text start stop step in
    slice_strs_loop entries' (Some slice_str) (slice_strs ++ [slice_str])
  | EIndex index :: entries' =>
    match slice_str with
    | None => Raises UnboundLocalError
    | Some slice_str =>
      let slice_str := slice_str +:+ pretty index in
      slice_strs_loop entries' (Some slice_str) (slice_strs ++ [slice_str])
    end
  | _ :: entries' => slice_strs_loop entries' slice_str slice_strs
  end.

(** [FunctionOperationDataNode.reconstruct] for the function
    [data_slice], given the text of its input: the text alone, the
    precedence is 10. *)
Definition reconstruct_data_slice (operator_arg : string) (key : list Dict) : answer string :=
  match list_to_key key with
  | KList entries =>
    answer_bind (slice_strs_loop entries None []) (fun slice_strs =>
    Returns (operator_arg +:+ "[" +:+ join slice_strs +:+ "]"))
  | _ => Raises TypeError
  end.

(** ** The leaves of a tree *)

(** The object specifiers of the data item leaves, from left to right. *)
Fixpoint data_item_leaves (node : DataNode) : list ObjectSpecifier :=
  match node with
  | ConstantDataNode _ => []
  | UnaryOperationDataNode input _ => data_item_leaves input
  | BinaryOperationDataNode input0 input1 _ => data_item_leaves input0 ++ data_item_leaves input1
  | DataItemDataNode object_specifier => [object_specifier]
  | ReferenceDataNode _ => []
  end.

(** Whether a reference leaf stands in the tree. *)
Fixpoint has_reference_leaf (node : DataNode) : bool :=
  match node with
  | ConstantDataNode _ => false
  | UnaryOperationDataNode input _ => has_reference_leaf input
  | BinaryOperationDataNode input0 input1 _ =>
    has_reference_leaf input0 || has_reference_leaf input1
  | DataItemDataNode _ => false
  | ReferenceDataNode _ => true
  end.

(** ** Computation variables *)

(** A value of a variable: [True], [0], [0.0] and [0 + 0j] are the
    defaults that the setter of [variable_type] gives. *)
Inductive Value :=
| VBool (b : bool)
| VInt (z : Z)
| VReal (z : Z)
| VComplex (re im : Z)
| VStr (s : string).

(** A value in a specifier dictionary. *)
Inductive SpecifierValue :=
| SStr (s : string)
| SInt (z : Z).

#[global] Instance SpecifierValue_eq_dec : EqDecision SpecifierValue.
Proof. solve_decision. Defined.

(** The properties of a [ComputationVariable] that the setter of
    [variable_type] reads and writes, and how often its
    [variable_type_changed_event] has fired. *)
Record ComputationVariable := mkComputationVariable {
  value_type : option string;
  value : option Value;
  value_default : option Value;
  value_min : option Value;
  value_max : option Value;
  specifier : option (list (string * SpecifierValue));
  control_type : option string;
  variable_type_changed : nat
}.

(** [control_type_default] *)
Definition control_type_default (value_type : string) : option string :=
  dict_get value_type
    [("boolean", "checkbox"); ("integral", "slider"); ("real", "field");
     ("complex", "field"); ("string", "field")].

(** The getter of [variable_type]. *)
Definition variable_type (v : ComputationVariable) : option SpecifierValue :=
  match value_type v with
  | Some t => Some (SStr t)
  | None =>
    match specifier v with
    | Some d => dict_get "type" d
    | None => None
    end
  end.

(** The setter of [variable_type]. *)
Definition set_variable_type (t : string) (v : ComputationVariable) : ComputationVariable :=
  if decide (Some (SStr t) = variable_type v) then v
  else
    let fired := S (variable_type_changed v) in
    if bool_decide (t ∈ ["boolean"; "integral"; "real"; "complex"; "string"]) then
      mkComputationVariable (Some t) (value v)
        (if decide (t = "boolean") then Some (VBool true)
         else if decide (t = "integral") then Some (VInt 0)
         else if decide (t = "real") then Some (VReal 0)
         else if decide (t = "complex") then Some (VComplex 0 0)
         else None)
        None None None (control_type_default t) fired
    else if bool_decide (t ∈ ["data_item"; "region"]) then
      mkComputationVariable None (value v) None None None
        (Some [("type", SStr t); ("version", SInt 1)]) None fired
    else
      mkComputationVariable (value_type v) (value v) (value_default v) (value_min v)
        (value_max v) (specifier v) (control_type v) fired.

(** [has_range] *)
Definition has_range (v : ComputationVariable) : bool :=
  bool_decide (value_type v <> None /\ value_min v <> None /\ value_max v <> None).


End Symbolic.

(** * Facts about the document model *)

Module DocumentFacts.
Import Document.

(** ** A small program logic for [M] *)

Lemma hoare_ret {A} (P : State -> Prop) (a : A) E :
  hoare P (ret a) (fun a' s => a' = a /\ P s) E.
Proof. intros s HP. simpl. auto. Qed.

Lemma hoare_bind {A B} P (m : M A) Q (k : A -> M B) R E :
  hoare P m Q E -> (forall a, hoare (Q a) (k a) R E) -> hoare P (bind m k) R E.
Proof.
  intros Hm Hk s HP. unfold bind. specialize (Hm s HP).
  destruct (m s) as [a s'| |]; auto. by apply Hk.
Qed.

Lemma hoare_conseq {A} (P P' : State -> Prop) (m : M A) (Q Q' : A -> State -> Prop)
    (E E' : State -> Prop) :
  hoare P' m Q' E' -> (forall s, P s -> P' s) -> (forall a s, Q' a s -> Q a s) ->
  (forall s, E' s -> E s) -> hoare P m Q E.
Proof.
  intros H HP HQ HE s Hs. specialize (H s (HP s Hs)).
  destruct (m s); auto.
Qed.

Lemma hoare_gets {A} P (f : State -> A) E :
  hoare P (gets f) (fun a s => a = f s /\ P s) E.
Proof. intros s HP. simpl. auto. Qed.

Lemma hoare_modify (P Q : State -> Prop) f E :
  (forall s, P s -> Q (f s)) -> hoare P (modify f) (fun _ s => Q s) E.
Proof. intros H s HP. simpl. auto. Qed.

Lemma hoare_raise {A} (P : State -> Prop) e (Q : A -> State -> Prop) :
  hoare P (raise e) Q P.
Proof. intros s HP. simpl. auto. Qed.

Lemma hoare_out_of_fuel {A} P (Q : A -> State -> Prop) E : hoare P out_of_fuel Q E.
Proof. intros s HP. exact I. Qed.

Lemma preserves_ret {A} P (a : A) : preserves P (ret a).
Proof. intros s HP. exact HP. Qed.

Lemma preserves_bind {A B} P (m : M A) (k : A -> M B) :
  preserves P m -> (forall a, preserves P (k a)) -> preserves P (bind m k).
Proof. intros Hm Hk. eapply hoare_bind; [exact Hm | exact Hk]. Qed.

Lemma preserves_gets {A} P (f : State -> A) : preserves P (gets f).
Proof. intros s HP. exact HP. Qed.

Lemma preserves_gets_bind {A B} P (f : State -> A) (k : A -> M B) :
  (forall s0, P s0 -> hoare (fun s => s = s0) (k (f s0)) (fun _ s => P s) P) ->
  preserves P (bind (gets f) k).
Proof.
  intros H s HP. unfold bind, gets. by apply (H s HP s).
Qed.

Lemma preserves_modify P f : (forall s, P s -> P (f s)) -> preserves P (modify f).
Proof. intros H s HP. apply H, HP. Qed.

Lemma preserves_raise {A} P e : preserves P (@raise A e).
Proof. intros s HP. exact HP. Qed.

Lemma preserves_out_of_fuel {A} P : preserves P (@out_of_fuel A).
Proof. intros s HP. exact I. Qed.

Lemma preserves_assert P b : preserves P (assert b).
Proof. destruct b; [apply preserves_ret | apply preserves_raise]. Qed.

Lemma preserves_when P b m : preserves P m -> preserves P (when b m).
Proof. destruct b; [auto | intros _; apply preserves_ret]. Qed.

Lemma preserves_emit P e :
  (forall s t, P s -> P (with_trace t s)) -> preserves P (emit e).
Proof. intros H. apply preserves_modify. intros s HP. by apply H. Qed.

Lemma preserves_for {X} P (l : list X) body :
  (forall x, x ∈ l -> preserves P (body x)) -> preserves P (for_ l body).
Proof.
  induction l as [|x l IH]; intros H; simpl.
  - apply preserves_ret.
  - apply preserves_bind.
    + apply H. left.
    + intros _. apply IH. intros y Hy. apply H. by right.
Qed.

Lemma preserves_try_except {A} P (m : M A) handler :
  preserves P m -> (forall e, preserves P (handler e)) -> preserves P (try_except m handler).
Proof.
  intros Hm Hh s HP. unfold try_except. specialize (Hm s HP).
  destruct (m s) as [a s'|e s'|]; auto. by apply Hh.
Qed.

(** One step of a proof that a method keeps an invariant which the step
    cannot see. *)
Ltac frame_step :=
  first
    [ apply preserves_ret
    | apply preserves_raise
    | apply preserves_out_of_fuel
    | apply preserves_gets
    | apply preserves_assert
    | (apply preserves_modify; intros ? ?; assumption)
    | (apply preserves_bind; [|intros ?])
    | (apply preserves_when)
    | (apply preserves_for; intros ? _)
    | (apply preserves_try_except; [|intros ?])
    | match goal with
      | |- preserves _ (match ?x with _ => _ end) => destruct x
      | |- preserves _ (if ?x then _ else _) => destruct x
      end ].

(** ** Total correctness *)

Lemma returns_ret {A} (a : A) s (Q : A -> State -> Prop) : Q a s -> returns (ret a) s Q.
Proof. done. Qed.

Lemma returns_bind {A B} (m : M A) (k : A -> M B) s Q R :
  returns m s Q -> (forall a s', Q a s' -> returns (k a) s' R) -> returns (bind m k) s R.
Proof.
  unfold returns, bind. intros Hm Hk. destruct (m s) as [a s'| |]; try done. by apply Hk.
Qed.

Lemma returns_conseq {A} (m : M A) s (Q Q' : A -> State -> Prop) :
  returns m s Q -> (forall a s', Q a s' -> Q' a s') -> returns m s Q'.
Proof. unfold returns. intros H HQ. destruct (m s); try done. by apply HQ. Qed.

Lemma returns_gets {A} (f : State -> A) s (Q : A -> State -> Prop) :
  Q (f s) s -> returns (gets f) s Q.
Proof. done. Qed.

Lemma returns_modify f s (Q : unit -> State -> Prop) : Q tt (f s) -> returns (modify f) s Q.
Proof. done. Qed.

Lemma returns_emit e s (Q : unit -> State -> Prop) :
  Q tt (with_trace (fun t => t ++ [e]) s) -> returns (emit e) s Q.
Proof. done. Qed.

Lemma returns_gets_eq {A} (f : State -> A) s :
  returns (gets f) s (fun a s' => a = f s /\ s' = s).
Proof. done. Qed.

Lemma returns_modify_eq f s : returns (modify f) s (fun _ s' => s' = f s).
Proof. done. Qed.

Lemma returns_emit_eq e s :
  returns (emit e) s (fun _ s' => s' = with_trace (fun t => t ++ [e]) s).
Proof. done. Qed.

Lemma returns_elim {A} (m : M A) s Q :
  returns m s Q -> exists a s', m s = Ok a s' /\ Q a s'.
Proof. unfold returns. destruct (m s) as [a s'| |]; try done. eauto. Qed.

Lemma returns_intro {A} (m : M A) s a s' (Q : A -> State -> Prop) :
  m s = Ok a s' -> Q a s' -> returns m s Q.
Proof. unfold returns. by intros ->. Qed.

(** A loop with an invariant over the part of the list already done. *)
Lemma returns_for {X} (I : list X -> State -> Prop) (l : list X) body s :
  I [] s ->
  (forall done_ x rest st, l = done_ ++ x :: rest -> I done_ st ->
     returns (body x) st (fun _ st' => I (done_ ++ [x]) st')) ->
  returns (for_ l body) s (fun _ s' => I l s').
Proof.
  intros H0 Hstep.
  assert (G : forall rest done_ st, l = done_ ++ rest -> I done_ st ->
            returns (for_ rest body) st (fun _ s' => I l s')).
  { induction rest as [|x rest IH]; intros done_ st Hl HI; simpl.
    - rewrite app_nil_r in Hl. subst. by apply returns_ret.
    - eapply returns_bind; [by eapply Hstep|].
      intros ? s' HI'. apply (IH (done_ ++ [x])); [|done].
      by rewrite <- app_assoc. }
  by apply (G l []).
Qed.


(** ** What removal leaves of the graph *)

Lemma same_graph_refl s : same_graph s s.
Proof. done. Qed.

Lemma same_graph_trans s1 s2 s3 : same_graph s1 s2 -> same_graph s2 s3 -> same_graph s1 s3.
Proof. intros [A1 B1] [A2 B2]. split; congruence. Qed.

Lemma same_graph_sources s st x : same_graph s st -> sources_of st x = sources_of s x.
Proof. intros [_ H]. unfold sources_of. by rewrite H. Qed.

Lemma same_graph_dependents s st x : same_graph s st -> dependents_of st x = dependents_of s x.
Proof. intros [H _]. unfold dependents_of. by rewrite H. Qed.

Lemma solely_from_same_graph s st a x :
  same_graph s st -> solely_from s a x -> solely_from st a x.
Proof.
  intros Hg. induction 1 as [|x y _ IH Hy]; [constructor|].
  eapply solely_from_step; [exact IH|]. by rewrite (same_graph_sources s st).
Qed.

Lemma solely_from_trans s a b x :
  solely_from s a b -> solely_from s b x -> solely_from s a x.
Proof.
  intros Hab. induction 1 as [|x y _ IH Hy]; [done|].
  by eapply solely_from_step.
Qed.

(** Going up from [x] the chain is unique. *)
Lemma solely_from_linear s a b x :
  solely_from s a x -> solely_from s b x -> solely_from s a b \/ solely_from s b a.
Proof.
  intros Ha. revert b. induction Ha as [|x y Hax IH Hy]; intros b Hb.
  - by right.
  - inversion Hb as [|x' y' Hbx' Hy']; subst.
    + left. by eapply solely_from_step.
    + rewrite Hy in Hy'. injection Hy' as <-. by apply IH.
Qed.

Lemma solely_from_first s a x :
  solely_from s a x ->
  x = a \/ exists o, sources_of s o = [a] /\ solely_from s o x.
Proof.
  induction 1 as [|x y _ IH Hy]; [by left|]. right.
  destruct IH as [->|(o & Ho & Hox)].
  - exists y. split; [done|constructor].
  - exists o. split; [done|]. by eapply solely_from_step.
Qed.

Section Graph.

Variable rank : DataItem -> nat.

Lemma well_formed_same_graph s st :
  same_graph s st -> well_formed_graph rank s -> well_formed_graph rank st.
Proof.
  intros Hg [Hi Hr]. split.
  - intros x y. rewrite (same_graph_dependents s st), (same_graph_sources s st) by done.
    apply Hi.
  - intros x y. rewrite (same_graph_dependents s st) by done. apply Hr.
Qed.

Lemma sole_source_dependent s x y :
  well_formed_graph rank s -> sources_of s y = [x] ->
  length (filter (fun z => z = y) (dependents_of s x)) = 1%nat.
Proof.
  intros [Hi _] Hy. rewrite Hi, Hy. simpl.
  rewrite filter_cons_True by done. reflexivity.
Qed.

Lemma sole_source_elem s x y :
  well_formed_graph rank s -> sources_of s y = [x] -> y ∈ dependents_of s x.
Proof.
  intros Hw Hy. pose proof (sole_source_dependent s x y Hw Hy) as H.
  destruct (filter (fun z => z = y) (dependents_of s x)) as [|z l] eqn:E; [done|].
  assert (Hz : z ∈ filter (fun z => z = y) (dependents_of s x)) by (rewrite E; left).
  apply list_elem_of_filter in Hz as [-> Hz]. done.
Qed.

Lemma solely_from_rank s a x :
  well_formed_graph rank s -> solely_from s a x -> (rank x <= rank a)%nat.
Proof.
  intros Hw. induction 1 as [|x y _ IH Hy]; [lia|].
  pose proof (wf_rank rank s Hw x y (sole_source_elem s x y Hw Hy)). lia.
Qed.

End Graph.


Lemma index_of_elem x l : x ∈ l -> exists i, index_of x l = Some i.
Proof.
  induction l as [|y l IH]; intros H; [by apply elem_of_nil in H|]. simpl.
  destruct (decide (y = x)); [eauto|].
  apply elem_of_cons in H as [->|H]; [done|].
  destruct (IH H) as [i ->]. eauto.
Qed.

Lemma index_of_delete x l i :
  NoDup l -> index_of x l = Some i ->
  NoDup (delete i l) /\ forall y, y ∈ delete i l <-> y ∈ l /\ y <> x.
Proof.
  revert i. induction l as [|z l IH]; intros i Hnd Hi; [done|]. simpl in Hi.
  apply NoDup_cons in Hnd as [Hz Hnd].
  destruct (decide (z = x)) as [->|Hne].
  - injection Hi as <-. simpl. split; [done|]. intros y. rewrite elem_of_cons.
    split; [intros Hy; split; [by right|by intros ->]|]. by intros [[->|H] Hne].
  - destruct (index_of x l) as [j|] eqn:Ej; [|done]. injection Hi as <-. simpl.
    destruct (IH j Hnd eq_refl) as [Hnd' Hmem]. split.
    + apply NoDup_cons. split; [|done]. rewrite Hmem. tauto.
    + intros y. rewrite !elem_of_cons, Hmem. split.
      * intros [->|[H1 H2]]; [by split; [left|]|]. split; [by right|done].
      * intros [[->|H1] H2]; [by left|by right].
Qed.

(** The first loop of [remove_data_item] touches queue items only. *)
Lemma invalidate_computations_of_returns d s :
  returns (invalidate_computations_of d) s (fun _ s' =>
    data_items s' = data_items s /\ same_graph s s').
Proof.
  unfold invalidate_computations_of.
  eapply returns_bind; [apply returns_gets_eq|]. intros pending ? [_ ->].
  eapply returns_bind; [apply returns_gets_eq|]. intros active ? [_ ->].
  apply (returns_for (fun _ s' => data_items s' = data_items s /\ same_graph s s')).
  { done. }
  intros done_ h rest st _ [Hd Hg].
  eapply returns_bind; [apply returns_gets_eq|].
  intros q0 ? [-> ->]. destruct (queue_items st !! h) as [q|]; [|by apply returns_ret].
  destruct (bool_decide _); simpl; [|by apply returns_ret].
  unfold invalidate. apply returns_modify. done.
Qed.

Section Cascade.

Variable rank : DataItem -> nat.

Lemma remove_data_item_cascade (n : nat) : forall d s,
  (rank d < n)%nat ->
  well_formed_graph rank s ->
  NoDup (data_items s) ->
  (forall x, solely_from s d x -> x ∈ data_items s) ->
  returns (remove_data_item n d) s (fun _ s' =>
    same_graph s s' /\ NoDup (data_items s') /\
    forall x, x ∈ data_items s' <-> x ∈ data_items s /\ ~ solely_from s d x).
Proof.
  induction n as [|n IH]; intros d s Hrank Hwf Hnd Hall; [lia|].
  cbn [remove_data_item].
  eapply returns_bind; [apply invalidate_computations_of_returns|].
  intros ? s1 [Hd1 Hg1].
  eapply returns_bind; [apply returns_emit_eq|]. intros ? s2 H2. cbv beta in H2.
  eapply returns_bind; [apply returns_gets_eq|]. intros deps s3 [Hdeps ->].
  (* the loop over the dependents *)
  set (I := fun (done_ : list DataItem) (st : State) =>
    same_graph s st /\ NoDup (data_items st) /\
    forall x, x ∈ data_items st <-> x ∈ data_items s /\ ~ removed_so_far s d done_ x).
  assert (Hg2 : same_graph s s2).
  { subst s2. destruct Hg1. by split. }
  rewrite (same_graph_dependents s s2) in Hdeps by done.
  eapply returns_bind.
  { apply (returns_for I).
    - split; [done|]. subst s2. simpl. rewrite Hd1. split; [done|].
      intros x. split; [|tauto].
        intros Hx. split; [done|]. intros (o & Ho & _). by apply elem_of_nil in Ho.
    - intros done_ o rest st Hl (Hg & Hndst & Hmem).
      eapply returns_bind; [apply returns_gets_eq|]. intros srcs st' [-> ->].
      rewrite (same_graph_sources s st) by done.
      assert (Ho : o ∈ dependents_of s d).
      { rewrite <- Hdeps, Hl. apply elem_of_app. right. left. }
      destruct (bool_decide_reflect (sources_of s o = [d])) as [Hsole|Hnot]; simpl.
      + (* [o] has [d] as its only source and is removed in turn *)
        pose proof (wf_rank rank s Hwf d o Ho) as Hro.
        assert (Hfresh : forall x, solely_from s o x -> ~ removed_so_far s d done_ x).
        { intros x Hox (o' & Ho' & Hsole' & Ho'x).
          assert (Ho'd : o' ∈ dependents_of s d).
          { rewrite <- Hdeps, Hl. apply elem_of_app. by left. }
          pose proof (wf_rank rank s Hwf d o' Ho'd) as Hro'.
          assert (Hneq : o <> o').
          { intros <-.
            pose proof (sole_source_dependent rank s d o Hwf Hsole) as Hone.
            rewrite <- Hdeps, Hl, filter_app, length_app, filter_cons_True in Hone by done.
            apply list_elem_of_split in Ho' as (l1 & l2 & ->).
            rewrite filter_app, filter_cons_True, length_app in Hone by done.
            simpl in Hone. lia. }
          destruct (solely_from_linear s o o' x Hox Ho'x) as [H|H].
          - inversion H as [|y z Hoy Hz]; subst; [done|].
            rewrite Hsole' in Hz. injection Hz as <-.
            pose proof (solely_from_rank rank s o d Hwf Hoy). lia.
          - inversion H as [|y z Hoy Hz]; subst; [done|].
            rewrite Hsole in Hz. injection Hz as <-.
            pose proof (solely_from_rank rank s o' d Hwf Hoy). lia. }
        eapply returns_conseq.
        { apply IH; [lia | by eapply well_formed_same_graph | done |].
          intros x Hx. apply (solely_from_same_graph st s) in Hx.
          2:{ destruct Hg. by split. }
          apply Hmem. split; [|by apply Hfresh].
          apply Hall. eapply solely_from_trans; [|exact Hx].
          eapply solely_from_step; [constructor|done]. }
        intros ? st'' (Hg' & Hnd' & Hmem'). split; [|split].
        * by eapply same_graph_trans.
        * done.
        * intros x. rewrite Hmem', Hmem. split.
          -- intros [[Hx Hn] Hn']. split; [done|]. intros (o' & Ho' & Hs' & Hx').
             apply elem_of_app in Ho' as [Ho'|Ho'].
             ++ apply Hn. by exists o'.
             ++ apply list_elem_of_singleton in Ho' as ->. apply Hn'.
                by apply (solely_from_same_graph s st).
          -- intros [Hx Hn]. split; [split; [done|]|].
             ++ intros (o' & Ho' & Hs' & Hx'). apply Hn. exists o'.
                split; [apply elem_of_app; by left|done].
             ++ intros Hx'. apply Hn. exists o. split; [apply elem_of_app; right; left|].
                split; [done|]. apply (solely_from_same_graph st s); [|done].
                destruct Hg. by split.
      + (* [o] has another source, or several: it stays *)
        apply returns_ret. split; [done|]. split; [done|].
        intros x. rewrite Hmem. split.
        * intros [Hx Hn]. split; [done|]. intros (o' & Ho' & Hs' & Hx').
          apply elem_of_app in Ho' as [Ho'|Ho'].
          -- apply Hn. by exists o'.
          -- by apply list_elem_of_singleton in Ho' as ->.
        * intros [Hx Hn]. split; [done|]. intros (o' & Ho' & Hs' & Hx').
          apply Hn. exists o'. split; [apply elem_of_app; by left|done]. }
  intros ? s4 (Hg4 & Hnd4 & Hmem4).
  eapply returns_bind; [apply returns_modify_eq|]. intros ? s5 ->.
  eapply returns_bind; [apply returns_emit_eq|]. intros ? s6 ->.
  eapply returns_bind; [apply returns_gets_eq|]. intros items s7 [Hitems' ->].
  simpl in Hitems'.
  assert (Hdmem : d ∈ items).
  { rewrite Hitems'. apply Hmem4. split; [apply Hall; constructor|].
    intros (o & Ho & Hsole & Hod).
    rewrite Hdeps in Ho. pose proof (wf_rank rank s Hwf d o Ho).
    pose proof (solely_from_rank rank s o d Hwf Hod). lia. }
  destruct (index_of_elem d items Hdmem) as [i Hi]. rewrite Hi.
  assert (Hnd' : NoDup items) by (by rewrite Hitems').
  destruct (index_of_delete d items i Hnd' Hi) as [Hnd'' Hmem''].
  eapply returns_bind; [apply returns_modify_eq|]. intros ? s8 ->.
  eapply returns_bind; [apply returns_emit_eq|]. intros ? s9 ->.
  eapply returns_bind; [apply returns_emit_eq|]. intros ? s10 ->.
  apply returns_emit. simpl. rewrite <- Hitems'.
  split; [|split; [done|]].
  { destruct Hg4. by split. }
  intros x. rewrite Hmem'', Hitems', Hmem4. split.
  - intros [[Hx Hn] Hne]. split; [done|]. intros Hdx.
    destruct (solely_from_first s d x Hdx) as [->|(o & Ho & Hox)]; [done|].
    apply Hn. exists o. split; [|done]. rewrite Hdeps.
    by apply (sole_source_elem rank).
  - intros [Hx Hn]. split; [split; [done|]|].
    + intros (o & Ho & Hsole & Hox). apply Hn.
      eapply solely_from_trans; [|exact Hox]. eapply solely_from_step; [constructor|done].
    + intros ->. apply Hn. constructor.
Qed.

End Cascade.

Lemma source_dependent rank s x y :
  well_formed_graph rank s -> x ∈ sources_of s y -> y ∈ dependents_of s x.
Proof.
  intros [Hi _] Hx. specialize (Hi x y).
  destruct (filter (fun z => z = y) (dependents_of s x)) as [|z l] eqn:E.
  - assert (Hx' : x ∈ filter (fun z => z = x) (sources_of s y)).
    { apply list_elem_of_filter. done. }
    destruct (filter (fun z => z = x) (sources_of s y)); [by apply elem_of_nil in Hx'|done].
  - assert (Hz : z ∈ filter (fun z => z = y) (dependents_of s x)) by (rewrite E; left).
    apply list_elem_of_filter in Hz as [-> Hz]. done.
Qed.

Lemma singleton_list {A} (a : A) l : NoDup l -> (forall x, x ∈ l <-> x = a) -> l = [a].
Proof.
  intros Hnd H. destruct l as [|x l].
  - exfalso. eapply elem_of_nil. by apply H.
  - assert (x = a) as -> by (apply H; left). f_equal.
    destruct l as [|y l]; [done|]. apply NoDup_cons in Hnd as [Hn _].
    exfalso. apply Hn. assert (y = a) as -> by (apply H; right; left). left.
Qed.

(** C1. In a document whose dependency maps are inverse to each other and
    free of cycles and of double edges, and whose dependents are members,
    removing the member [A] returns; afterwards [A] is gone, every item
    whose set of sources is exactly [{A}] is gone, and an item that has [A]
    and some other item [D] among its sources is still a member. What is
    gone is exactly what hangs below [A] on a chain of sole sources. *)
Theorem remove_data_item_cascades (rank : DataItem -> nat) (s : State)
    (A : DataItem) (fuel : nat) :
  well_formed_graph rank s ->
  NoDup (data_items s) ->
  (forall x y, y ∈ dependents_of s x -> y ∈ data_items s) ->
  (forall y, NoDup (sources_of s y)) ->
  A ∈ data_items s ->
  (rank A < fuel)%nat ->
  exists s',
    remove_data_item fuel A s = Ok tt s' /\
    (A ∉ data_items s') /\
    (forall B, (forall x, x ∈ sources_of s B <-> x = A) -> B ∉ data_items s') /\
    (forall C D, C ∈ data_items s -> A ∈ sources_of s C -> D ∈ sources_of s C -> D <> A ->
       C ∈ data_items s') /\
    (forall x, x ∈ data_items s' <-> x ∈ data_items s /\ ~ solely_from s A x).
Proof.
  intros Hwf Hnd Hmem Hsrc HA Hfuel.
  assert (Hall : forall x, solely_from s A x -> x ∈ data_items s).
  { induction 1 as [|x y _ _ Hy]; [done|].
    eapply Hmem. by eapply (sole_source_elem rank). }
  pose proof (remove_data_item_cascade rank fuel A s Hfuel Hwf Hnd Hall) as H.
  apply returns_elim in H as ([] & s' & E & _ & _ & Hchar).
  exists s'. split; [done|]. split; [|split; [|split; [|done]]].
  - rewrite Hchar. intros [_ Hn]. apply Hn. constructor.
  - intros B HB. rewrite Hchar. intros [_ Hn]. apply Hn.
    eapply solely_from_step; [constructor|]. by apply singleton_list.
  - intros C D HC HAC HDC HDA. apply Hchar. split; [done|].
    intros Hsf. inversion Hsf as [|x y Hx Hy]; subst.
    + pose proof (wf_rank rank s Hwf C C (source_dependent rank s C C Hwf HAC)). lia.
    + rewrite Hy in HAC, HDC. apply list_elem_of_singleton in HAC, HDC. congruence.
Qed.

Lemma example_dependents x :
  dependents_of example_document x =
  if decide (x = item_a) then [item_b; item_c]
  else if decide (x = item_d) then [item_c] else [].
Proof.
  unfold dependents_of. simpl.
  destruct (decide (x = item_a)) as [->|Ha]; [done|].
  rewrite lookup_insert_ne by done.
  destruct (decide (x = item_d)) as [->|Hd]; [done|].
  rewrite lookup_insert_ne by done. done.
Qed.

Lemma example_sources y :
  sources_of example_document y =
  if decide (y = item_b) then [item_a]
  else if decide (y = item_c) then [item_a; item_d] else [].
Proof.
  unfold sources_of. simpl.
  destruct (decide (y = item_b)) as [->|Ha]; [done|].
  rewrite lookup_insert_ne by done.
  destruct (decide (y = item_c)) as [->|Hd]; [done|].
  rewrite lookup_insert_ne by done. done.
Qed.

Lemma example_well_formed : well_formed_graph example_rank example_document.
Proof.
  split.
  - intros x y. rewrite example_dependents, example_sources.
    destruct (decide (x = item_a)) as [->|Ha]; [|destruct (decide (x = item_d)) as [->|Hd]];
    (destruct (decide (y = item_b)) as [->|Hb]; [|destruct (decide (y = item_c)) as [->|Hc]]);
    try reflexivity.
    all: repeat (rewrite filter_cons_False by congruence); try reflexivity.
    all: repeat first [ rewrite filter_cons_True by congruence
                      | rewrite filter_cons_False by congruence ]; reflexivity.
  - intros x y. rewrite example_dependents.
    destruct (decide (x = item_a)) as [->|Ha]; [|destruct (decide (x = item_d)) as [->|Hd]];
      intros Hy.
    + apply elem_of_cons in Hy as [->|Hy]; [vm_compute; lia|].
      apply list_elem_of_singleton in Hy as ->. vm_compute. lia.
    + apply list_elem_of_singleton in Hy as ->. vm_compute. lia.
    + by apply elem_of_nil in Hy.
Qed.

Lemma remove_data_item_cascades_witness :
  exists s',
    remove_data_item 2 item_a example_document = Ok tt s' /\
    (item_a ∉ data_items s') /\
    (forall B, (forall x, x ∈ sources_of example_document B <-> x = item_a) ->
       B ∉ data_items s') /\
    (forall C D, C ∈ data_items example_document ->
       item_a ∈ sources_of example_document C -> D ∈ sources_of example_document C ->
       D <> item_a -> C ∈ data_items s') /\
    (forall x, x ∈ data_items s' <->
       x ∈ data_items example_document /\ ~ solely_from example_document item_a x).
Proof.
  apply (remove_data_item_cascades example_rank example_document item_a 2).
  - exact example_well_formed.
  - apply (bool_decide_unpack _). vm_compute. exact I.
  - intros x y. rewrite example_dependents.
    destruct (decide (x = item_a)); [|destruct (decide (x = item_d))]; intros Hy.
    + apply elem_of_cons in Hy as [->|Hy]; [|apply list_elem_of_singleton in Hy as ->];
        apply (bool_decide_unpack _); vm_compute; exact I.
    + apply list_elem_of_singleton in Hy as ->.
      apply (bool_decide_unpack _). vm_compute. exact I.
    + by apply elem_of_nil in Hy.
  - intros y. rewrite example_sources.
    destruct (decide (y = item_b)); [|destruct (decide (y = item_c))];
      apply (bool_decide_unpack _); vm_compute; exact I.
  - apply (bool_decide_unpack _). vm_compute. exact I.
  - vm_compute. lia.
Defined.

(** The cascade on the example: [item_b] goes with [item_a], [item_c] stays. *)
Example remove_data_item_example :
  data_items <$> (match remove_data_item 2 item_a example_document with
                  | Ok _ s' => Some s' | _ => None end) = Some [item_c; item_d].
Proof. vm_compute. reflexivity. Qed.

Lemma transaction_count_insert s d d' z :
  transaction_count (with_transactions <[uuid d := z]> s) d' =
  if decide (uuid d = uuid d') then z else transaction_count s d'.
Proof.
  unfold transaction_count. simpl. rewrite lookup_insert.
  destruct (decide (uuid d = uuid d')); reflexivity.
Qed.

(** Entering happens on the 0-to-1 transition only. *)
Lemma begin_data_item_transaction_held fuel s d :
  transaction_count s d <> 0 ->
  begin_data_item_transaction (S fuel) d s =
  Ok tt (with_transactions <[uuid d := transaction_count s d + 1]> s).
Proof.
  intros H. simpl. unfold bind, gets, modify.
  apply Z.eqb_neq in H. by rewrite H.
Qed.

Lemma begin_data_item_transaction_first fuel s d :
  transaction_count s d = 0 ->
  begin_data_item_transaction (S fuel) d s =
  for_ (dependents_of s d) (begin_data_item_transaction fuel)
    (with_trace (fun t => t ++ [EvEnterTransactionState d])
      (with_in_transaction_state (fun f => {[d]} ∪ f)
        (with_transactions <[uuid d := 1]> s))).
Proof.
  intros H. simpl. unfold bind, gets, modify. rewrite H. reflexivity.
Qed.

(** Leaving happens on the 1-to-0 transition only. *)
Lemma end_data_item_transaction_held fuel s d :
  1 < transaction_count s d ->
  end_data_item_transaction (S fuel) d s =
  Ok tt (with_transactions <[uuid d := transaction_count s d - 1]> s).
Proof.
  intros H. simpl. unfold bind, gets, modify, assert.
  destruct (0 <=? transaction_count s d - 1) eqn:E1; [|lia].
  simpl. destruct (transaction_count s d - 1 =? 0) eqn:E2; [lia|]. reflexivity.
Qed.

Lemma end_data_item_transaction_last fuel s d :
  transaction_count s d = 1 ->
  end_data_item_transaction (S fuel) d s =
  bind (for_ (dependents_of s d) (end_data_item_transaction fuel))
       (fun _ => _exit_transaction_state d)
    (with_transactions <[uuid d := 0]> s).
Proof.
  intros H. simpl. unfold bind, gets, modify, assert. rewrite H. reflexivity.
Qed.

Ltac count_solve :=
  unfold transaction_count in *; simpl;
  repeat (rewrite lookup_insert_eq || rewrite lookup_insert_ne by congruence);
  simpl; congruence.

(** C4. With [B] depending on [A] and [C] on [B], all three counts at
    zero, one [begin_data_item_transaction A] returns with all three items
    in transaction state and all three counts at one, and the one matching
    [end_data_item_transaction A] returns with none of them in transaction
    state and all counts back at zero; the items were entered from [A]
    down and left from [C] up, each dependent before the item it depends
    on. A begin on a count other than zero, and an end on a count above
    one, change the count and nothing else. *)
Theorem transaction_cascade_chain (s : State) (A B C : DataItem) (fuel : nat) :
  uuid A <> uuid B -> uuid B <> uuid C -> uuid A <> uuid C ->
  dependents_of s A = [B] -> dependents_of s B = [C] -> dependents_of s C = [] ->
  transaction_count s A = 0 -> transaction_count s B = 0 -> transaction_count s C = 0 ->
  (3 <= fuel)%nat ->
  exists s1 s2,
    begin_data_item_transaction fuel A s = Ok tt s1 /\
    ((A ∈ in_transaction_state s1) /\ (B ∈ in_transaction_state s1) /\
     (C ∈ in_transaction_state s1)) /\
    (transaction_count s1 A = 1 /\ transaction_count s1 B = 1 /\
     transaction_count s1 C = 1) /\
    end_data_item_transaction fuel A s1 = Ok tt s2 /\
    ((A ∉ in_transaction_state s2) /\ (B ∉ in_transaction_state s2) /\
     (C ∉ in_transaction_state s2)) /\
    (transaction_count s2 A = 0 /\ transaction_count s2 B = 0 /\
     transaction_count s2 C = 0) /\
    trace s2 = trace s ++
      [EvEnterTransactionState A; EvEnterTransactionState B; EvEnterTransactionState C;
       EvExitTransactionState C; EvExitTransactionState B; EvExitTransactionState A] /\
    (forall st x f, transaction_count st x <> 0 ->
       begin_data_item_transaction (S f) x st =
       Ok tt (with_transactions <[uuid x := transaction_count st x + 1]> st)) /\
    (forall st x f, 1 < transaction_count st x ->
       end_data_item_transaction (S f) x st =
       Ok tt (with_transactions <[uuid x := transaction_count st x - 1]> st)).
Proof.
  intros HAB HBC HAC HdA HdB HdC HcA HcB HcC Hfuel.
  destruct fuel as [|[|[|fuel]]]; try lia.
  eexists. eexists. split.
  { rewrite begin_data_item_transaction_first by done.
    change (dependents_of _ A) with (dependents_of s A). rewrite HdA. cbn [for_]. unfold bind at 1.
    rewrite begin_data_item_transaction_first
      by count_solve.
    change (dependents_of _ B) with (dependents_of s B). rewrite HdB. cbn [for_]. unfold bind at 1.
    rewrite begin_data_item_transaction_first
      by count_solve.
    change (dependents_of _ C) with (dependents_of s C). rewrite HdC. simpl. reflexivity. }
  split. { simpl. set_solver. }
  split.
  { repeat split; count_solve. }
  split.
  { rewrite end_data_item_transaction_last.
    2:{ count_solve. }
    change (dependents_of _ A) with (dependents_of s A). rewrite HdA. cbn [for_]. unfold bind at 1 2.
    rewrite end_data_item_transaction_last.
    2:{ count_solve. }
    change (dependents_of _ B) with (dependents_of s B). rewrite HdB. cbn [for_]. unfold bind at 1 2.
    rewrite end_data_item_transaction_last.
    2:{ count_solve. }
    change (dependents_of _ C) with (dependents_of s C). rewrite HdC. simpl. reflexivity. }
  split. { simpl. set_solver. }
  split.
  { repeat split; count_solve. }
  split; [simpl; rewrite <- !app_assoc; reflexivity|].
  split.
  - intros st x f H. by apply begin_data_item_transaction_held.
  - intros st x f H. by apply end_data_item_transaction_held.
Qed.

Lemma transaction_cascade_chain_witness :
  exists s1 s2,
    begin_data_item_transaction 3 item_a chain_document = Ok tt s1 /\
    ((item_a ∈ in_transaction_state s1) /\ (item_b ∈ in_transaction_state s1) /\
     (item_c ∈ in_transaction_state s1)) /\
    (transaction_count s1 item_a = 1 /\ transaction_count s1 item_b = 1 /\
     transaction_count s1 item_c = 1) /\
    end_data_item_transaction 3 item_a s1 = Ok tt s2 /\
    ((item_a ∉ in_transaction_state s2) /\ (item_b ∉ in_transaction_state s2) /\
     (item_c ∉ in_transaction_state s2)) /\
    (transaction_count s2 item_a = 0 /\ transaction_count s2 item_b = 0 /\
     transaction_count s2 item_c = 0) /\
    trace s2 = trace chain_document ++
      [EvEnterTransactionState item_a; EvEnterTransactionState item_b;
       EvEnterTransactionState item_c; EvExitTransactionState item_c;
       EvExitTransactionState item_b; EvExitTransactionState item_a].
Proof.
  destruct (transaction_cascade_chain chain_document item_a item_b item_c 3)
    as (s1 & s2 & H1 & H2 & H3 & H4 & H5 & H6 & H7 & _);
    [discriminate | discriminate | discriminate | reflexivity | reflexivity | reflexivity
    | reflexivity | reflexivity | reflexivity | lia |].
  exists s1, s2. repeat split; first [apply H1 | apply H2 | apply H3 | apply H4
    | apply H5 | apply H6 | apply H7].
Defined.

(** ** The heap of queue items *)

Lemma find_queue_item_None heap b refs :
  find_queue_item heap b refs = None -> b ∉ sources_of_refs heap refs.
Proof.
  induction refs as [|h refs IH]; simpl; intros H.
  - apply not_elem_of_nil.
  - unfold sources_of_refs. simpl. destruct (heap !! h) as [q|]; simpl.
    + destruct (decide (qi_buffered_data_source q = b)); [done|].
      apply not_elem_of_cons. split; [done|]. by apply IH.
    + by apply IH.
Qed.

Lemma find_queue_item_Some heap b refs h :
  find_queue_item heap b refs = Some h ->
  h ∈ refs /\ exists q, heap !! h = Some q /\ qi_buffered_data_source q = b.
Proof.
  induction refs as [|h' refs IH]; simpl; intros H; [done|].
  destruct (heap !! h') as [q|] eqn:E.
  - destruct (decide (qi_buffered_data_source q = b)).
    + injection H as <-. split; [left|]. eauto.
    + destruct (IH H) as [? ?]. split; [by right|done].
  - destruct (IH H) as [? ?]. split; [by right|done].
Qed.

Lemma find_queue_item_elem heap b refs :
  b ∈ sources_of_refs heap refs -> is_Some (find_queue_item heap b refs).
Proof.
  intros H. destruct (find_queue_item heap b refs) eqn:E; [eauto|].
  by apply find_queue_item_None in E.
Qed.

Lemma sources_of_refs_alter f h heap refs :
  (forall q, qi_buffered_data_source (f q) = qi_buffered_data_source q) ->
  sources_of_refs (alter f h heap) refs = sources_of_refs heap refs.
Proof.
  intros Hf. unfold sources_of_refs. induction refs as [|h' refs IH]; [done|].
  change (h' :: refs) with ([h'] ++ refs). rewrite !omap_app, IH. f_equal. simpl.
  destruct (decide (h = h')) as [->|Hne].
  - rewrite list_lookup_alter_eq. destruct (heap !! h'); simpl; [by rewrite Hf|done].
  - by rewrite list_lookup_alter_ne.
Qed.

Lemma sources_of_refs_app heap q refs :
  (forall h, h ∈ refs -> (h < length heap)%nat) ->
  sources_of_refs (heap ++ [q]) refs = sources_of_refs heap refs.
Proof.
  intros Hv. unfold sources_of_refs. induction refs as [|h refs IH]; [done|].
  change (h :: refs) with ([h] ++ refs). rewrite !omap_app, IH.
  2:{ intros h' Hh'. apply Hv. by right. }
  f_equal. simpl. by rewrite lookup_app_l by (apply Hv; left).
Qed.


(** ** At most one pending entry per buffered data source *)


Lemma queue_ok_alter f h s :
  (forall q, qi_buffered_data_source (f q) = qi_buffered_data_source q) ->
  queue_ok s -> queue_ok (with_queue_items (alter f h) s).
Proof.
  intros Hf (Hv & Hnd & Ht). split; [|split; [|done]].
  - intros h' Hh'. simpl. rewrite length_alter. by apply Hv.
  - unfold pending_sources. simpl. by rewrite sources_of_refs_alter.
Qed.

Lemma computation_needs_update_queue_ok d b c :
  preserves queue_ok (computation_needs_update d b c).
Proof.
  intros s (Hv & Hnd & Ht). unfold computation_needs_update, bind, gets, modify, emit. simpl.
  destruct (find_queue_item _ _ _) as [h|] eqn:E; simpl.
  - by apply queue_ok_alter.
  - apply find_queue_item_None in E. split; [|split]; simpl.
    + intros h Hh. rewrite length_app. simpl.
      apply elem_of_app in Hh as [Hh|Hh]; [apply Hv in Hh; lia|].
      apply list_elem_of_singleton in Hh. lia.
    + unfold pending_sources, sources_of_refs. simpl. rewrite omap_app. simpl.
      rewrite lookup_app_r by lia. rewrite Nat.sub_diag. simpl.
      fold (sources_of_refs (queue_items s ++ [mkComputationQueueItem d b c true])
              (computation_pending_queue s)).
      rewrite sources_of_refs_app by done.
      apply NoDup_app. split; [done|]. split; [|apply NoDup_singleton].
      intros x Hx Hx'. apply list_elem_of_singleton in Hx' as ->. done.
    + rewrite length_app. simpl. lia.
Qed.

Ltac queue_step :=
  first
    [ apply computation_needs_update_queue_ok
    | frame_step
    | (apply preserves_modify; intros ? ?; apply queue_ok_alter; [done|assumption]) ].

Ltac queue_cascade :=
  let fuel := fresh "fuel" in
  let IH := fresh "IH" in
  let d := fresh "d" in
  intros fuel; induction fuel as [|fuel IH]; intros d; simpl;
  [ apply preserves_out_of_fuel
  | unfold invalidate_computations_of, invalidate, emit, get_dependent_data_items,
      get_source_data_items; repeat queue_step; apply IH ].

Lemma begin_data_item_transaction_queue_ok :
  forall fuel d, preserves queue_ok (begin_data_item_transaction fuel d).
Proof. queue_cascade. Qed.

Lemma end_data_item_transaction_queue_ok :
  forall fuel d, preserves queue_ok (end_data_item_transaction fuel d).
Proof. queue_cascade. Qed.

Lemma begin_data_item_live_queue_ok :
  forall fuel d, preserves queue_ok (begin_data_item_live fuel d).
Proof. queue_cascade. Qed.

Lemma end_data_item_live_queue_ok :
  forall fuel d, preserves queue_ok (end_data_item_live fuel d).
Proof. queue_cascade. Qed.

Lemma remove_data_item_queue_ok :
  forall fuel d, preserves queue_ok (remove_data_item fuel d).
Proof. queue_cascade. Qed.

Lemma recompute_one_queue_ok ev : preserves queue_ok (recompute_one ev).
Proof.
  unfold recompute_one. apply preserves_gets_bind. intros s0 H0.
  destruct (recompute_tasks s0) as [|n] eqn:En.
  { intros s ->. exact H0. }
  set (P' := fun s : State =>
    (forall h, h ∈ computation_pending_queue s -> (h < length (queue_items s))%nat) /\
    NoDup (pending_sources s) /\
    S (recompute_tasks s) = length (computation_pending_queue s)).
  apply hoare_bind with (Q := fun _ s => P' s).
  { intros s ->. simpl. destruct H0 as (Hv & Hnd & Ht). split; [done|]. split; [done|].
    simpl. congruence. }
  intros ?. unfold recompute, recompute_with.
  apply hoare_bind with (Q := fun _ s => queue_ok s).
  { intros s (Hv & Hnd & Ht). unfold recompute_take, bind, gets, modify, ret, raise.
    destruct (computation_pending_queue s) as [|h rest] eqn:Ep; [done|]. simpl.
    split; [|split]; simpl.
    - intros h' Hh'. apply Hv. by right.
    - unfold pending_sources in *. simpl. rewrite Ep in Hnd.
      unfold sources_of_refs in *. simpl in Hnd.
      destruct (queue_items s !! h); simpl in Hnd; [by apply NoDup_cons in Hnd as [_ ?]|done].
    - simpl in Ht. lia. }
  intros h. unfold recompute_try, emit. repeat queue_step.
Qed.

Lemma run_queue_ok fuel c : preserves queue_ok (run fuel c).
Proof.
  destruct c; simpl.
  - apply begin_data_item_transaction_queue_ok.
  - apply end_data_item_transaction_queue_ok.
  - apply begin_data_item_live_queue_ok.
  - apply end_data_item_live_queue_ok.
  - unfold add_dependency. repeat queue_step;
      first [apply begin_data_item_transaction_queue_ok | apply begin_data_item_live_queue_ok].
  - unfold remove_dependency. repeat queue_step;
      first [apply end_data_item_transaction_queue_ok | apply end_data_item_live_queue_ok].
  - apply remove_data_item_queue_ok.
  - unfold computation_changed, invalidate. repeat queue_step.
  - unfold needs_update_fire, needs_update_event_fire. repeat queue_step.
  - apply recompute_one_queue_ok.
Qed.

Lemma reachable_queue_ok s : reachable s -> queue_ok s.
Proof.
  induction 1 as [s _ _ Hp _ Ht | s fuel c s' _ IH Hrun | s fuel c e s' _ IH Hrun].
  - unfold queue_ok, pending_sources. rewrite Hp, Ht. split; [|split; [constructor|done]].
    intros h Hh. by apply elem_of_nil in Hh.
  - pose proof (run_queue_ok fuel c s IH) as H. by rewrite Hrun in H.
  - pose proof (run_queue_ok fuel c s IH) as H. by rewrite Hrun in H.
Qed.


Lemma find_queue_item_alter f h heap b refs :
  (forall q, qi_buffered_data_source (f q) = qi_buffered_data_source q) ->
  find_queue_item (alter f h heap) b refs = find_queue_item heap b refs.
Proof.
  intros Hf. induction refs as [|h' refs IH]; [done|]. simpl. rewrite IH.
  destruct (decide (h = h')) as [->|Hne].
  - rewrite list_lookup_alter_eq. destruct (heap !! h'); simpl; [by rewrite Hf|done].
  - by rewrite list_lookup_alter_ne.
Qed.

Lemma find_queue_item_fresh heap q refs :
  (forall h, h ∈ refs -> (h < length heap)%nat) ->
  find_queue_item heap (qi_buffered_data_source q) refs = None ->
  find_queue_item (heap ++ [q]) (qi_buffered_data_source q) (refs ++ [length heap]) =
  Some (length heap).
Proof.
  intros Hv. induction refs as [|h refs IH]; simpl; intros Hnone.
  - rewrite lookup_app_r by lia. rewrite Nat.sub_diag. simpl.
    by destruct (decide _).
  - rewrite lookup_app_l by (apply Hv; left).
    destruct (heap !! h) as [q'|].
    + destruct (decide _); [done|]. apply IH; [|done]. intros h' ?. apply Hv. by right.
    + apply IH; [|done]. intros h' ?. apply Hv. by right.
Qed.

Lemma filter_eq_fresh {A} `{EqDecision A} (x : A) l :
  x ∉ l -> filter (fun y => y = x) l = [].
Proof.
  induction l as [|y l IH]; intros Hx; [done|].
  apply not_elem_of_cons in Hx as [Hne Hx].
  rewrite filter_cons_False by congruence. by apply IH.
Qed.

Lemma filter_eq_NoDup {A} `{EqDecision A} (x : A) l :
  NoDup l -> x ∈ l -> length (filter (fun y => y = x) l) = 1%nat.
Proof.
  induction 1 as [|y l Hy _ IH]; intros Hx; [by apply elem_of_nil in Hx|].
  apply elem_of_cons in Hx as [->|Hx].
  - rewrite filter_cons_True by done. by rewrite filter_eq_fresh.
  - rewrite filter_cons_False; [by apply IH|]. by intros ->.
Qed.

Lemma remove_ref_last h l : is_Some (remove_ref h (l ++ [h])).
Proof.
  induction l as [|y l [l' IH]]; simpl.
  - destruct (decide (h = h)); [eauto|done].
  - destruct (decide (y = h)); [eauto|]. rewrite IH. simpl. eauto.
Qed.

(** What [computation_needs_update] does in each of its two cases. *)
Lemma computation_needs_update_coalesces d b c s h :
  find_queue_item (queue_items s) b (computation_pending_queue s) = Some h ->
  computation_needs_update d b c s =
  Ok tt (with_queue_items (alter (set_computation c) h) s).
Proof.
  intros H. unfold computation_needs_update, bind, gets. simpl. by rewrite H.
Qed.

Lemma computation_needs_update_enqueues d b c s :
  find_queue_item (queue_items s) b (computation_pending_queue s) = None ->
  computation_needs_update d b c s =
  Ok tt (with_trace (fun t => t ++ [EvDispatchRecompute])
    (with_recompute_tasks S
      (with_computation_pending_queue (fun p => p ++ [length (queue_items s)])
        (with_queue_items (fun q => q ++ [mkComputationQueueItem d b c true]) s)))).
Proof.
  intros H. unfold computation_needs_update, bind, gets. simpl. by rewrite H.
Qed.

Lemma computation_changed_Some d b c s :
  computation_changed d b (Some c) s =
  computation_needs_update d b c
    (with_computation_changed_listeners
       (fun ls => close_listener (ds_uuid b) ls ++ [(ds_uuid b, mkListener d b c)]) s).
Proof. reflexivity. Qed.

Lemma pending_entry_unique s b h :
  queue_ok s ->
  find_queue_item (queue_items s) b (computation_pending_queue s) = Some h ->
  h ∈ computation_pending_queue s /\
  length (filter (fun x => x = b) (pending_sources s)) = 1%nat.
Proof.
  intros (Hv & Hnd & _) Hf.
  destruct (find_queue_item_Some _ _ _ _ Hf) as (Hh & q & Hq & Hb). split; [done|].
  apply filter_eq_NoDup; [done|]. unfold pending_sources, sources_of_refs.
  apply list_elem_of_omap. exists h. split; [done|]. by rewrite Hq, <- Hb.
Qed.

Lemma recompute_all_single ev st h q :
  computation_pending_queue st = [h] -> recompute_tasks st = 1%nat ->
  queue_items st !! h = Some q -> qi_computation q ∈ needs_update st ->
  exists s3,
    recompute_all ev st = Ok tt s3 /\
    evaluations s3 = evaluations st ++ [EvEvaluateWithTarget (qi_computation q) (qi_data_item q)] /\
    computation_pending_queue s3 = [] /\ recompute_tasks s3 = O.
Proof.
  intros Hp Ht Hq Hnu.
  destruct (remove_ref_last h (computation_active_items st)) as [act Hrm].
  unfold recompute_all, bind, gets. rewrite Ht. cbn [run_tasks].
  unfold recompute_one, bind, gets. rewrite Ht.
  unfold modify at 1. unfold recompute, recompute_with, recompute_take, bind, gets.
  cbn [computation_pending_queue with_recompute_tasks]. rewrite Hp.
  unfold modify at 1 2. unfold ret at 1.
  cbn [queue_items with_computation_active_items with_computation_pending_queue
       with_recompute_tasks]. rewrite Hq.
  unfold try_except, recompute_try, bind, gets, emit, modify, when, raise, ret.
  cbn [needs_update with_computation_active_items with_computation_pending_queue
       with_recompute_tasks with_trace].
  rewrite bool_decide_eq_true_2 by done.
  destruct (ev _ _ _) as [newer|]; cbn -[remove_ref].
  - rewrite Hq. cbn -[remove_ref]. destruct (qi_valid q), newer; cbn -[remove_ref];
      rewrite Hrm; cbn; eexists; (split; [reflexivity|]); (split; [|done]);
      unfold evaluations; cbn; rewrite !filter_app; cbn; rewrite ?app_nil_r; reflexivity.
  - rewrite Hrm. cbn. eexists. split; [reflexivity|]. split; [|done].
    unfold evaluations. cbn. rewrite !filter_app. cbn. rewrite ?app_nil_r. reflexivity.
Qed.



(** ** Invalid queue items *)

Lemma merges_emit e s :
  is_merge e = false -> merges (with_trace (fun t => t ++ [e]) s) = merges s.
Proof.
  intros He. unfold merges. simpl. rewrite filter_app.
  rewrite (filter_cons_False _ e) by (by rewrite He). rewrite filter_nil. apply app_nil_r.
Qed.

Lemma recompute_with_discards ev meanwhile s h rest :
  computation_pending_queue s = h :: rest ->
  (forall st, merges (meanwhile st) = merges st) ->
  (forall st, queue_items st = queue_items s -> valid_at (meanwhile st) h = false) ->
  match recompute_with ev meanwhile s with
  | Ok _ s' | Raise _ s' => merges s' = merges s
  | OutOfFuel => False
  end.
Proof.
  intros Hp Hm Hv.
  unfold recompute_with, recompute_take, bind, gets. rewrite Hp.
  unfold modify at 1 2. unfold ret at 1. cbn [queue_items with_computation_active_items
    with_computation_pending_queue].
  destruct (queue_items s !! h) as [q|] eqn:Hq; [|done].
  set (s1 := with_computation_active_items _ _).
  assert (Hs1 : queue_items s1 = queue_items s /\ merges s1 = merges s) by done.
  clearbody s1. destruct Hs1 as [Hh1 Hm1].
  assert (Htry : match try_except (recompute_try ev h q meanwhile)
                   (fun _ => emit (EvErrorText (qi_computation q))) s1 with
                 | Ok _ s' | Raise _ s' => merges s' = merges s
                 | OutOfFuel => False
                 end).
  { unfold try_except, recompute_try, bind, gets.
    destruct (bool_decide _); unfold emit, modify, bind, gets, raise, ret, when.
    - cbn [trace]. destruct (ev _ _ _) as [newer|].
      + cbn [queue_items with_needs_update].
        change (from_option qi_valid false (queue_items ?x !! h)) with (valid_at x h).
        rewrite Hv by (cbn; done). unfold ret. cbn beta iota.
        change (merges (with_needs_update ?f ?x)) with (merges x).
        rewrite Hm, merges_emit by done. done.
      + cbn beta iota. rewrite merges_emit, Hm, merges_emit by done. done.
    - change (from_option qi_valid false (queue_items ?x !! h)) with (valid_at x h).
      rewrite Hv by done. unfold ret. cbn beta iota. by rewrite Hm. }
  destruct (try_except _ _ s1) as [[] s2|e s2|]; [|done|done].
  destruct (remove_ref h (computation_active_items s2)); simpl; exact Htry.
Qed.


Lemma stays_invalid_alter pending h h' s :
  stays_invalid pending h s ->
  stays_invalid pending h (with_queue_items (alter (set_valid false) h') s).
Proof.
  intros [Hv Hp]. split; [|done]. unfold valid_at in *. simpl.
  destruct (decide (h' = h)) as [->|Hne].
  - rewrite list_lookup_alter_eq. by destruct (queue_items s !! h).
  - by rewrite list_lookup_alter_ne.
Qed.

Ltac invalid_step :=
  first
    [ frame_step
    | (apply preserves_modify; intros ? ?; apply stays_invalid_alter; assumption) ].

Lemma remove_data_item_stays_invalid pending h :
  forall fuel d, preserves (stays_invalid pending h) (remove_data_item fuel d).
Proof.
  intros fuel. induction fuel as [|fuel IH]; intros d; simpl.
  { apply preserves_out_of_fuel. }
  unfold invalidate_computations_of, invalidate, emit, get_dependent_data_items,
    get_source_data_items.
  repeat invalid_step. apply IH.
Qed.

Lemma invalidate_computations_of_invalidates d s h q :
  h ∈ computation_pending_queue s ++ computation_active_items s ->
  queue_items s !! h = Some q ->
  qi_buffered_data_source q ∈ data_sources d ->
  returns (invalidate_computations_of d) s (fun _ s' =>
    stays_invalid (computation_pending_queue s) h s').
Proof.
  intros Hh Hq Hb. unfold invalidate_computations_of.
  eapply returns_bind; [apply returns_gets_eq|]. intros pending ? [-> ->].
  eapply returns_bind; [apply returns_gets_eq|]. intros active ? [-> ->].
  set (I := fun (done_ : list QueueRef) (st : State) =>
    computation_pending_queue st = computation_pending_queue s /\
    (qi_buffered_data_source <$> queue_items st !! h) = Some (qi_buffered_data_source q) /\
    (h ∈ done_ -> valid_at st h = false)).
  eapply returns_conseq.
  { apply (returns_for I).
    - split; [done|]. split; [by rewrite Hq|]. intros H. by apply elem_of_nil in H.
    - intros done_ x rest st Hl (Hp & Hbds & Hdone).
      eapply returns_bind; [apply returns_gets_eq|]. intros q0 ? [-> ->].
      destruct (decide (x = h)) as [->|Hne].
      + destruct (queue_items st !! h) as [q'|] eqn:Hq'; [|done].
        simpl in Hbds. injection Hbds as Hbds. rewrite Hbds.
        rewrite bool_decide_eq_true_2 by done. simpl.
        unfold invalidate. apply returns_modify. split; [done|]. simpl. split.
        * rewrite list_lookup_alter_eq, Hq'. simpl. congruence.
        * intros _. unfold valid_at. simpl. by rewrite list_lookup_alter_eq, Hq'.
      + assert (Hdone' : h ∈ done_ ++ [x] -> h ∈ done_).
        { intros H. apply elem_of_app in H as [H|H]; [done|].
          apply list_elem_of_singleton in H. congruence. }
        destruct (queue_items st !! x) as [q'|]; [|apply returns_ret; by split; [|split; auto]].
        destruct (bool_decide _); simpl; [|apply returns_ret; by split; [|split; auto]].
        unfold invalidate. apply returns_modify. split; [done|]. simpl. split.
        * by rewrite list_lookup_alter_ne.
        * intros H. unfold valid_at. simpl. rewrite list_lookup_alter_ne by done.
          by apply Hdone, Hdone'. }
  intros ? s' (Hp & _ & Hv). split; [|done]. by apply Hv.
Qed.

Lemma remove_data_item_invalidates fuel d s h q :
  h ∈ computation_pending_queue s ++ computation_active_items s ->
  queue_items s !! h = Some q ->
  qi_buffered_data_source q ∈ data_sources d ->
  match remove_data_item (S fuel) d s with
  | Ok _ s1 | Raise _ s1 => stays_invalid (computation_pending_queue s) h s1
  | OutOfFuel => True
  end.
Proof.
  intros Hh Hq Hb.
  pose proof (invalidate_computations_of_invalidates d s h q Hh Hq Hb) as H1.
  apply returns_elim in H1 as ([] & s1 & E1 & Hs1).
  cbn [remove_data_item]. unfold bind at 1. rewrite E1.
  match goal with |- match ?m s1 with _ => _ end =>
    assert (Hp : preserves (stays_invalid (computation_pending_queue s) h) m);
      [|exact (Hp s1 Hs1)] end.
  unfold emit, get_dependent_data_items, get_source_data_items.
  repeat invalid_step. apply remove_data_item_stays_invalid.
Qed.

(** C3. A queue item that is invalid when the worker reaches its check is
    not merged: whatever the evaluation yields and whatever the other
    threads do meanwhile, [__recompute] adds no [set_data_and_metadata] and
    no [merge_from_clone] to what has happened. Removing the data item that
    owns the buffered data source of a pending item makes that item
    invalid and leaves it in the queue, and the worker that then takes it
    merges nothing; and that removal does return when the dependency
    graph is well formed, the items hanging from the removed one are in
    the document and the recursion depth covers its rank. *)
Theorem invalid_entry_is_never_merged
    (ev : Computation -> DataItem -> State -> option bool)
    (s : State) (h : QueueRef) (rest : list QueueRef) :
  computation_pending_queue s = h :: rest ->
  (forall meanwhile,
     (forall st, merges (meanwhile st) = merges st) ->
     (forall st, queue_items st = queue_items s -> valid_at (meanwhile st) h = false) ->
     match recompute_with ev meanwhile s with
     | Ok _ s' | Raise _ s' => merges s' = merges s
     | OutOfFuel => False
     end) /\
  (forall fuel d q,
     queue_items s !! h = Some q ->
     qi_buffered_data_source q ∈ data_sources d ->
     match remove_data_item (S fuel) d s with
     | Ok _ s1 | Raise _ s1 =>
       valid_at s1 h = false /\
       computation_pending_queue s1 = h :: rest /\
       match recompute ev s1 with
       | Ok _ s2 | Raise _ s2 => merges s2 = merges s1
       | OutOfFuel => False
       end
     | OutOfFuel => True
     end) /\
  (forall rank fuel d,
     (rank d < fuel)%nat -> well_formed_graph rank s -> NoDup (data_items s) ->
     (forall x, solely_from s d x -> x ∈ data_items s) ->
     exists s1, remove_data_item fuel d s = Ok tt s1).
Proof.
  intros Hp. split; [|split].
  - intros meanwhile Hm Hv. by eapply recompute_with_discards.
  - intros fuel d q Hq Hb.
    assert (Hh : h ∈ computation_pending_queue s ++ computation_active_items s).
    { rewrite Hp. left. }
    pose proof (remove_data_item_invalidates fuel d s h q Hh Hq Hb) as H.
    assert (G : forall s1, stays_invalid (computation_pending_queue s) h s1 ->
      valid_at s1 h = false /\ computation_pending_queue s1 = h :: rest /\
      match recompute ev s1 with
      | Ok _ s2 | Raise _ s2 => merges s2 = merges s1
      | OutOfFuel => False
      end).
    { intros s1 [Hv Hp1]. rewrite Hp in Hp1. split; [done|]. split; [done|].
      apply (recompute_with_discards ev id s1 h rest Hp1); [done|].
      intros st Hst. unfold valid_at in *. simpl. by rewrite Hst. }
    destruct (remove_data_item (S fuel) d s); auto.
  - intros rank fuel d Hr Hwf Hnd Hin.
    destruct (returns_elim _ _ _ (remove_data_item_cascade rank fuel d s Hr Hwf Hnd Hin))
      as ([] & s1 & Hs1 & _). by exists s1.
Qed.

Lemma invalid_entry_is_never_merged_witness :
  computation_pending_queue queued_document = [O] /\
  match remove_data_item 1 item_b queued_document with
  | Ok _ s1 | Raise _ s1 =>
    valid_at s1 O = false /\
    computation_pending_queue s1 = [O] /\
    match recompute (fun _ _ _ => Some true) s1 with
    | Ok _ s2 | Raise _ s2 => merges s2 = merges s1
    | OutOfFuel => False
    end
  | OutOfFuel => True
  end.
Proof.
  split; [reflexivity|].
  refine (proj1 (proj2 (invalid_entry_is_never_merged (fun _ _ _ => Some true)
                   queued_document O [] eq_refl)) O item_b _ eq_refl _).
  apply (bool_decide_unpack _). vm_compute. exact I.
Defined.

(** ** The counters never go below zero *)

Lemma counts_nonneg_insert_transactions s u z :
  counts_nonneg s -> 0 <= z -> counts_nonneg (with_transactions <[u := z]> s).
Proof.
  intros H Hz u'. split; [|apply H]. simpl.
  destruct (decide (u = u')) as [->|Hne].
  - by rewrite lookup_insert_eq.
  - rewrite lookup_insert_ne by done. apply H.
Qed.

Lemma counts_nonneg_insert_live s u z :
  counts_nonneg s -> 0 <= z -> counts_nonneg (with_live_data_items <[u := z]> s).
Proof.
  intros H Hz u'. split; [apply H|]. simpl.
  destruct (decide (u = u')) as [->|Hne].
  - by rewrite lookup_insert_eq.
  - rewrite lookup_insert_ne by done. apply H.
Qed.

Lemma enter_transaction_nonneg d : preserves counts_nonneg (_enter_transaction_state d).
Proof.
  apply preserves_bind; [apply preserves_modify | intros ?; apply preserves_modify];
    intros s H; exact H.
Qed.

Lemma exit_transaction_nonneg d : preserves counts_nonneg (_exit_transaction_state d).
Proof.
  apply preserves_bind; [apply preserves_modify | intros ?; apply preserves_modify];
    intros s H; exact H.
Qed.

Lemma enter_live_nonneg d : preserves counts_nonneg (_enter_live_state d).
Proof.
  apply preserves_bind; [apply preserves_modify | intros ?; apply preserves_modify];
    intros s H; exact H.
Qed.

Lemma exit_live_nonneg d : preserves counts_nonneg (_exit_live_state d).
Proof.
  apply preserves_bind; [apply preserves_modify | intros ?; apply preserves_modify];
    intros s H; exact H.
Qed.

Lemma begin_data_item_transaction_nonneg fuel d :
  preserves counts_nonneg (begin_data_item_transaction fuel d).
Proof.
  revert d. induction fuel as [|fuel IH]; intros d; simpl.
  { apply preserves_out_of_fuel. }
  apply preserves_gets_bind. intros s0 H0.
  eapply hoare_bind.
  { apply (hoare_modify _ counts_nonneg). intros s Hs; subst s.
    apply counts_nonneg_insert_transactions; [done|].
    unfold transaction_count. destruct (H0 (uuid d)). lia. }
  intros ?; cbv beta. destruct (_ =? 0).
  - apply preserves_bind; [apply enter_transaction_nonneg|]. intros _.
    apply preserves_bind; [apply preserves_gets|]. intros deps.
    apply preserves_for. intros x _. apply IH.
  - apply preserves_ret.
Qed.

Lemma end_data_item_transaction_nonneg fuel d :
  preserves counts_nonneg (end_data_item_transaction fuel d).
Proof.
  revert d. induction fuel as [|fuel IH]; intros d; simpl.
  { apply preserves_out_of_fuel. }
  apply preserves_gets_bind. intros s0 H0.
  destruct (0 <=? transaction_count s0 d - 1) eqn:Hle.
  2:{ intros s Hs; subst s. exact H0. }
  eapply hoare_bind.
  { apply (hoare_ret (fun s => s = s0)). }
  intros ?; cbv beta. eapply hoare_bind.
  { apply (hoare_modify _ counts_nonneg). intros s [_ Hs]; subst s.
    apply counts_nonneg_insert_transactions; [done|]. lia. }
  intros ?; cbv beta. destruct (_ =? 0).
  - apply preserves_bind; [apply preserves_gets|]. intros deps.
    apply preserves_bind; [|intros _; apply exit_transaction_nonneg].
    apply preserves_for. intros x _. apply IH.
  - apply preserves_ret.
Qed.

Lemma begin_data_item_live_nonneg fuel d :
  preserves counts_nonneg (begin_data_item_live fuel d).
Proof.
  revert d. induction fuel as [|fuel IH]; intros d; simpl.
  { apply preserves_out_of_fuel. }
  apply preserves_gets_bind. intros s0 H0.
  eapply hoare_bind.
  { apply (hoare_modify _ counts_nonneg). intros s Hs; subst s.
    apply counts_nonneg_insert_live; [done|].
    unfold live_count. destruct (H0 (uuid d)). lia. }
  intros ?; cbv beta. destruct (_ =? 0).
  - apply preserves_bind; [apply enter_live_nonneg|]. intros _.
    apply preserves_bind; [apply preserves_gets|]. intros deps.
    apply preserves_for. intros x _. apply IH.
  - apply preserves_ret.
Qed.

Lemma end_data_item_live_nonneg fuel d :
  preserves counts_nonneg (end_data_item_live fuel d).
Proof.
  revert d. induction fuel as [|fuel IH]; intros d; simpl.
  { apply preserves_out_of_fuel. }
  apply preserves_gets_bind. intros s0 H0.
  destruct (0 <=? live_count s0 d - 1) eqn:Hle.
  2:{ intros s Hs; subst s. exact H0. }
  eapply hoare_bind.
  { apply (hoare_ret (fun s => s = s0)). }
  intros ?; cbv beta. eapply hoare_bind.
  { apply (hoare_modify _ counts_nonneg). intros s [_ Hs]; subst s.
    apply counts_nonneg_insert_live; [done|]. lia. }
  intros ?; cbv beta. destruct (_ =? 0).
  - apply preserves_bind; [apply exit_live_nonneg|]. intros _.
    apply preserves_bind; [apply preserves_gets|]. intros deps.
    apply preserves_for. intros x _. apply IH.
  - apply preserves_ret.
Qed.

Lemma remove_data_item_nonneg fuel d :
  preserves counts_nonneg (remove_data_item fuel d).
Proof.
  revert d. induction fuel as [|fuel IH]; intros d; simpl.
  { apply preserves_out_of_fuel. }
  unfold invalidate_computations_of, invalidate, emit, get_dependent_data_items,
    get_source_data_items.
  repeat frame_step; apply IH.
Qed.

Lemma run_nonneg fuel c : preserves counts_nonneg (run fuel c).
Proof.
  destruct c; simpl.
  - apply begin_data_item_transaction_nonneg.
  - apply end_data_item_transaction_nonneg.
  - apply begin_data_item_live_nonneg.
  - apply end_data_item_live_nonneg.
  - unfold add_dependency. repeat frame_step.
    + apply begin_data_item_transaction_nonneg.
    + apply begin_data_item_live_nonneg.
  - unfold remove_dependency. repeat frame_step.
    + apply end_data_item_transaction_nonneg.
    + apply end_data_item_live_nonneg.
  - apply remove_data_item_nonneg.
  - unfold computation_changed, invalidate. repeat frame_step.
  - unfold needs_update_fire, needs_update_event_fire. repeat frame_step.
  - unfold recompute_one, recompute, recompute_with, recompute_take, recompute_try, emit.
    repeat frame_step.
Qed.

Lemma reachable_counts_nonneg s : reachable s -> counts_nonneg s.
Proof.
  induction 1 as [s Ht Hl _ _ _ | s fuel c s' _ IH Hrun | s fuel c e s' _ IH Hrun].
  - intros u. rewrite Ht, Hl, !lookup_empty. simpl. lia.
  - pose proof (run_nonneg fuel c s IH) as H. by rewrite Hrun in H.
  - pose proof (run_nonneg fuel c s IH) as H. by rewrite Hrun in H.
Qed.

(** C10. In every state a document can reach, the transaction count and
    the live count of every data item are at least zero; and ending a
    transaction or a live state of an item whose count is zero raises
    [AssertionError] and leaves the state as it was, the decremented count
    is not stored. *)
Theorem counts_never_negative (s : State) (d : DataItem) (fuel : nat) :
  reachable s ->
  (0 <= transaction_count s d /\ 0 <= live_count s d) /\
  (transaction_count s d = 0 ->
     end_data_item_transaction (S fuel) d s = Raise AssertionError s) /\
  (live_count s d = 0 ->
     end_data_item_live (S fuel) d s = Raise AssertionError s).
Proof.
  intros Hr. split; [apply (reachable_counts_nonneg s Hr (uuid d))|].
  split; intros H0; simpl; unfold bind, gets; rewrite H0; reflexivity.
Qed.

Lemma counts_never_negative_witness :
  reachable empty_state /\
  (0 <= transaction_count empty_state item_a /\ 0 <= live_count empty_state item_a) /\
  end_data_item_transaction 1 item_a empty_state = Raise AssertionError empty_state /\
  end_data_item_live 1 item_a empty_state = Raise AssertionError empty_state.
Proof.
  assert (Hr : reachable empty_state) by (by apply reachable_init).
  destruct (counts_never_negative empty_state item_a 0 Hr) as (H1 & H2 & H3).
  split; [exact Hr|]. split; [exact H1|]. split; [by apply H2 | by apply H3].
Defined.

(** ** Transaction and live state along new and removed edges *)

(** ** One step of a cascade *)

Lemma begin_cascade_unfold k fuel d :
  begin_cascade k (S fuel) d =
  (old <- gets (fun s => count_of k s d) ;;
   modify (set_count k d (old + 1)) ;;
   if old =? 0 then
     enter_state k d ;;
     dependents <- get_dependent_data_items d ;;
     for_ dependents (begin_cascade k fuel)
   else ret tt).
Proof. by destruct k. Qed.

Lemma end_cascade_unfold k fuel d :
  end_cascade k (S fuel) d =
  (old <- gets (fun s => count_of k s d) ;;
   assert (0 <=? old - 1) ;;
   modify (set_count k d (old - 1)) ;;
   if old - 1 =? 0 then
     match k with
     | Transaction =>
       dependents <- get_dependent_data_items d ;;
       for_ dependents (end_cascade k fuel) ;;
       exit_state k d
     | Live =>
       exit_state k d ;;
       dependents <- get_dependent_data_items d ;;
       for_ dependents (end_cascade k fuel)
     end
   else ret tt).
Proof. by destruct k. Qed.

Lemma count_of_set_count k k' d v s z :
  count_of k' (set_count k d v s) z =
  if decide (k' = k /\ uuid z = uuid d) then v else count_of k' s z.
Proof.
  destruct (decide (k' = k /\ uuid z = uuid d)) as [[-> E]|N].
  - destruct k; simpl; unfold transaction_count, live_count; simpl;
      by rewrite E, lookup_insert_eq.
  - destruct k, k'; simpl; unfold transaction_count, live_count; simpl; try done;
      rewrite lookup_insert_ne; try done; intros E; by apply N.
Qed.

Lemma flagged_set_count k k' d v s : flagged k' (set_count k d v s) = flagged k' s.
Proof. by destruct k, k'. Qed.

Lemma same_graph_set_count k d v s : same_graph s (set_count k d v s).
Proof. by destruct k. Qed.

Lemma returns_enter_state k d s :
  returns (enter_state k d) s (fun _ s' =>
    same_graph s s' /\ (forall k' z, count_of k' s' z = count_of k' s z) /\
    flagged k s' = {[d]} ∪ flagged k s /\
    (forall k', k' <> k -> flagged k' s' = flagged k' s)).
Proof. destruct k; (split; [done|]); (split; [done|]); (split; [done|]); by intros []. Qed.

Lemma returns_exit_state k d s :
  returns (exit_state k d) s (fun _ s' =>
    same_graph s s' /\ (forall k' z, count_of k' s' z = count_of k' s z) /\
    flagged k s' = flagged k s ∖ {[d]} /\
    (forall k', k' <> k -> flagged k' s' = flagged k' s)).
Proof. destruct k; (split; [done|]); (split; [done|]); (split; [done|]); by intros []. Qed.

(** ** Counting in lists *)

Lemma occ_nil z : occ z [] = 0.
Proof. done. Qed.

Lemma occ_app z l1 l2 : occ z (l1 ++ l2) = occ z l1 + occ z l2.
Proof. unfold occ. rewrite filter_app, length_app. lia. Qed.

Lemma occ_cons z x l : occ z (x :: l) = (if decide (x = z) then 1 else 0) + occ z l.
Proof.
  unfold occ. destruct (decide (x = z)) as [E|N].
  - rewrite filter_cons_True by done. simpl length. lia.
  - rewrite filter_cons_False by done. lia.
Qed.

Lemma occ_nonneg z l : 0 <= occ z l.
Proof. unfold occ. lia. Qed.

Lemma occ_pos z l : z ∈ l <-> 0 < occ z l.
Proof.
  induction l as [|x l IH]; [rewrite occ_nil; split; [by intros ?%elem_of_nil|lia]|].
  rewrite occ_cons, elem_of_cons. pose proof (occ_nonneg z l).
  destruct (decide (x = z)) as [->|N]; [split; [lia|by left]|].
  rewrite IH. split; [intros [->|?]; [done|lia]|intros; right; lia].
Qed.

(** The count of those that satisfy [Q] against those that satisfy [P],
    when the two differ at [y] alone. *)
Lemma count_filter_gain (P Q : DataItem -> Prop)
    `{!forall x, Decision (P x)} `{!forall x, Decision (Q x)} (y : DataItem) l :
  (forall x, x ∈ l -> x <> y -> (P x <-> Q x)) -> ~ P y -> Q y ->
  Z.of_nat (length (filter Q l)) = Z.of_nat (length (filter P l)) + occ y l.
Proof.
  intros Hsame HP HQ. induction l as [|x l IH]; [done|].
  rewrite occ_cons.
  assert (IH' : Z.of_nat (length (filter Q l)) = Z.of_nat (length (filter P l)) + occ y l).
  { apply IH. intros x' Hx'. apply Hsame. by right. }
  destruct (decide (x = y)) as [->|N].
  - rewrite (filter_cons_True Q) by done. rewrite (filter_cons_False P) by done.
    simpl length. lia.
  - destruct (decide (P x)) as [Px|NPx].
    + rewrite (filter_cons_True Q) by (apply Hsame; [left|done|done]).
      rewrite (filter_cons_True P) by done. simpl length. lia.
    + rewrite (filter_cons_False Q) by (rewrite <- Hsame; [done|left|done]).
      rewrite (filter_cons_False P) by done. lia.
Qed.

Lemma count_filter_same (P Q : DataItem -> Prop)
    `{!forall x, Decision (P x)} `{!forall x, Decision (Q x)} l :
  (forall x, x ∈ l -> (P x <-> Q x)) ->
  Z.of_nat (length (filter Q l)) = Z.of_nat (length (filter P l)).
Proof.
  intros Hsame. induction l as [|x l IH]; [done|].
  assert (IH' : Z.of_nat (length (filter Q l)) = Z.of_nat (length (filter P l))).
  { apply IH. intros x' Hx'. apply Hsame. by right. }
  destruct (decide (P x)) as [Px|NPx].
  - rewrite (filter_cons_True Q) by (apply Hsame; [left|done]).
    rewrite (filter_cons_True P) by done. simpl length. lia.
  - rewrite (filter_cons_False Q) by (rewrite <- Hsame; [done|left]).
    rewrite (filter_cons_False P) by done. lia.
Qed.
(** ** Steps of the program logic *)

Lemma returns_bind_gets {A B} (f : State -> A) (k : A -> M B) s Q :
  returns (k (f s)) s Q -> returns (bind (gets f) k) s Q.
Proof. done. Qed.

Lemma returns_bind_modify {B} (f : State -> State) (k : unit -> M B) s Q :
  returns (k tt) (f s) Q -> returns (bind (modify f) k) s Q.
Proof. done. Qed.

Lemma returns_bind_assert {B} (b : bool) (k : unit -> M B) s Q :
  b = true -> returns (k tt) s Q -> returns (bind (assert b) k) s Q.
Proof. by intros ->. Qed.

Lemma returns_when_true (m : M unit) s Q : returns m s Q -> returns (when true m) s Q.
Proof. done. Qed.

Lemma returns_when_false (m : M unit) s (Q : unit -> State -> Prop) :
  Q tt s -> returns (when false m) s Q.
Proof. done. Qed.

Lemma same_graph_sym s s' : same_graph s s' -> same_graph s' s.
Proof. intros [A B]. by split. Qed.

Lemma frame_refl k s : frame k s s.
Proof. done. Qed.

Lemma frame_trans k s1 s2 s3 : frame k s1 s2 -> frame k s2 s3 -> frame k s1 s3.
Proof.
  intros [G1 F1] [G2 F2]. split; [by eapply same_graph_trans|].
  intros k' Hk. destruct (F1 k' Hk) as [C1 L1], (F2 k' Hk) as [C2 L2].
  split; [intros z; by rewrite C2|congruence].
Qed.

Lemma frame_set_count k d v s : frame k s (set_count k d v s).
Proof.
  split; [apply same_graph_set_count|]. intros k' Hk. split.
  - intros z. rewrite count_of_set_count. by rewrite decide_False by (by intros [? _]).
  - apply flagged_set_count.
Qed.

Section Cascades.

Variable rank : DataItem -> nat.
Variable U : DataItem -> Prop.

Lemma graph_ok_same_graph s s' : same_graph s s' -> graph_ok rank U s -> graph_ok rank U s'.
Proof.
  intros Hg [Hwf Hd Hs Hu]. split.
  - by eapply well_formed_same_graph.
  - intros x y. rewrite (same_graph_dependents s s') by done. apply Hd.
  - intros x y. rewrite (same_graph_sources s s') by done. apply Hs.
  - done.
Qed.

Lemma occ_dependents_sources s x y :
  graph_ok rank U s -> occ y (dependents_of s x) = occ x (sources_of s y).
Proof. intros [[Hi _] _ _ _]. unfold occ. by rewrite Hi. Qed.

Lemma count_of_set_count_in k d v s z :
  graph_ok rank U s -> U d -> U z ->
  count_of k (set_count k d v s) z = if decide (z = d) then v else count_of k s z.
Proof.
  intros Hg Hd Hz. rewrite count_of_set_count.
  destruct (decide (z = d)) as [->|N]; [by rewrite decide_True|].
  rewrite decide_False; [done|]. intros [_ E]. apply N. by apply (graph_uuid _ _ _ Hg).
Qed.

Lemma holders_nonneg k s z : 0 <= holders k s z.
Proof. unfold holders. lia. Qed.

Lemma holders_keep k s s' z :
  graph_ok rank U s -> same_graph s s' -> U z ->
  (forall x, U x -> (0 < count_of k s x <-> 0 < count_of k s' x)) ->
  holders k s' z = holders k s z.
Proof.
  intros Hg Hs Hz Hsame. unfold holders. rewrite (same_graph_sources s s') by done.
  apply count_filter_same. intros x Hx. apply Hsame. by eapply graph_sources.
Qed.

Lemma holders_gain k s s' y z :
  graph_ok rank U s -> same_graph s s' -> U z ->
  (forall x, U x -> x <> y -> (0 < count_of k s x <-> 0 < count_of k s' x)) ->
  ~ 0 < count_of k s y -> 0 < count_of k s' y ->
  holders k s' z = holders k s z + occ y (sources_of s z).
Proof.
  intros Hg Hs Hz Hsame Hn Hp. unfold holders. rewrite (same_graph_sources s s') by done.
  apply count_filter_gain; [|done|done].
  intros x Hx Hne. apply Hsame; [by eapply graph_sources|done].
Qed.

(** The predicates look at the graph, the counts and the flags only. *)
Lemma covered_transfer k sigma s s' :
  graph_ok rank U s -> same_graph s s' ->
  (forall z, U z -> count_of k s' z = count_of k s z) ->
  covered U k sigma s -> covered U k sigma s'.
Proof.
  intros Hg Hs Hc Hcov z Hz. rewrite Hc by done.
  rewrite (holders_keep k s s' z) by (try done; intros x Hx; by rewrite Hc).
  by apply Hcov.
Qed.

Lemma covered_ext k sigma sigma' s :
  (forall z, sigma' z <= sigma z) -> covered U k sigma s -> covered U k sigma' s.
Proof. intros He Hcov z Hz. specialize (Hcov z Hz). specialize (He z). lia. Qed.

Lemma covered_nonneg k sigma s z :
  covered U k sigma s -> U z -> 0 <= sigma z -> 0 <= count_of k s z.
Proof. intros Hcov Hz Hs. specialize (Hcov z Hz). pose proof (holders_nonneg k s z). lia. Qed.

(** ** Beginning *)

Lemma begin_cascade_spec k fuel : forall y s sigma,
  graph_ok rank U s -> U y -> (rank y < fuel)%nat ->
  (forall z, U z -> 0 <= count_of k s z) ->
  covered U k sigma s ->
  consistent U (fun z => (rank z <= rank y)%nat) k s ->
  returns (begin_cascade k fuel y) s (fun _ s' => begin_post rank U k y sigma s s').
Proof.
  induction fuel as [|fuel IH]; intros y s sigma Hg Hy Hfuel Hnn Hcov Hcons; [lia|].
  rewrite begin_cascade_unfold. apply returns_bind_gets. apply returns_bind_modify.
  set (old := count_of k s y). set (s1 := set_count k y (old + 1) s).
  assert (Hold : 0 <= old) by (by apply Hnn).
  assert (Hc1 : forall z, U z ->
            count_of k s1 z = if decide (z = y) then old + 1 else count_of k s z).
  { intros z Hz. by apply count_of_set_count_in. }
  assert (Hg1 : same_graph s s1) by apply same_graph_set_count.
  assert (Hf1 : flagged k s1 = flagged k s) by apply flagged_set_count.
  destruct (old =? 0) eqn:E.
  - (* the first begin: enter the state and go on to the dependents *)
    apply Z.eqb_eq in E.
    eapply returns_bind; [apply returns_enter_state|].
    intros _ s2 (Hg2 & Hc2 & Hf2 & Ho2). cbv beta.
    unfold get_dependent_data_items. apply returns_bind_gets.
    assert (Hg02 : same_graph s s2) by (by eapply same_graph_trans).
    rewrite (same_graph_dependents s s2) by done.
    set (deps := dependents_of s y).
    assert (Hc02 : forall z, U z -> count_of k s2 z = count_of k s z + occ z [y]).
    { intros z Hz. rewrite Hc2, Hc1 by done. rewrite occ_cons, occ_nil.
      destruct (decide (z = y)) as [->|N].
      - rewrite decide_True by done. fold old. lia.
      - rewrite decide_False by (intros ->; done). lia. }
    assert (Hh2 : forall z, U z ->
              holders k s2 z = holders k s z + occ y (sources_of s z)).
    { intros z Hz. apply holders_gain; try done.
      - intros x Hx Hne. rewrite Hc02 by done.
        rewrite occ_cons, occ_nil, decide_False by (intros ->; done). by rewrite Z.add_0_r.
      - fold old. lia.
      - rewrite Hc02 by done. rewrite occ_cons, occ_nil, decide_True by done.
        fold old. lia. }
    eapply returns_conseq.
    { apply (returns_for (fun done_ t =>
        frame k s t /\
        (forall z, U z -> 0 <= count_of k t z) /\
        covered U k (fun z => sigma z + occ z [y] - occ z deps + occ z done_) t /\
        consistent U (fun z => (rank z <= rank y)%nat) k t /\
        untouched U (fun z => (rank y <= rank z)%nat) k s2 t)).
      - (* before the loop *)
        split; [|split; [|split; [|split]]].
        + split; [done|]. intros k' Hk. split.
          * intros z. rewrite Hc2. unfold s1. rewrite count_of_set_count.
            by rewrite decide_False by (by intros [? _]).
          * rewrite Ho2 by done. unfold s1. apply flagged_set_count.
        + intros z Hz. rewrite Hc02 by done. pose proof (occ_nonneg z [y]).
          specialize (Hnn z Hz). lia.
        + intros z Hz. rewrite occ_nil, Hc02, Hh2 by done.
          unfold deps. rewrite (occ_dependents_sources s y z) by done.
          specialize (Hcov z Hz). lia.
        + intros z Hz Hr. rewrite Hf2, Hf1, Hc02 by done.
          rewrite occ_cons, occ_nil. destruct (decide (y = z)) as [<-|N].
          * fold old. split; [lia|set_solver].
          * pose proof (Hcons z Hz Hr) as Hz'. split.
            -- intros H. apply elem_of_union in H as [H|H].
               ++ apply elem_of_singleton in H. by subst.
               ++ apply Hz' in H. lia.
            -- intros H. apply elem_of_union_r, Hz'. lia.
        + intros z _. done.
      - (* one dependent *)
        intros done_ x rest t Hdeps (Hfr & Hnn' & Hcov' & Hcons' & Hun).
        assert (Hx : x ∈ dependents_of s y).
        { fold deps. rewrite Hdeps. apply elem_of_app. right. left. }
        assert (HUx : U x) by (by eapply (graph_dependents _ _ _ Hg)).
        assert (Hrx : (rank x < rank y)%nat) by (by apply (wf_rank _ _ (graph_wf _ _ _ Hg))).
        assert (Hgt : graph_ok rank U t) by (eapply graph_ok_same_graph; [apply Hfr|done]).
        eapply returns_conseq.
        { apply (IH x t (fun z => sigma z + occ z [y] - occ z deps + occ z done_));
            try done; [lia|].
          intros z Hz Hr. apply Hcons'; [done|lia]. }
        intros _ t' (Hfr' & _ & Hnn'' & Hcov'' & Hcons'' & Hun'). cbv beta.
        split; [by eapply frame_trans|]. split; [done|]. split; [|split].
        + intros z Hz. rewrite occ_app. specialize (Hcov'' z Hz). cbv beta in Hcov''. lia.
        + intros z Hz Hr. destruct (decide (rank z <= rank x)%nat) as [Hle|Hgt'].
          * by apply Hcons''.
          * destruct (Hun' z) as [Hc Hf]; [lia|]. rewrite Hf, Hc by done.
            by apply Hcons'.
        + intros z Hr. destruct (Hun z Hr) as [Hc Hf], (Hun' z) as [Hc' Hf']; [lia|].
          split; [intros Hz; by rewrite Hc', Hc|by rewrite Hf', Hf]. }
    (* after the loop *)
    intros _ t (Hfr & Hnn' & Hcov' & Hcons' & Hun). cbv beta.
    split; [done|]. split; [|split; [done|split; [|split; [done|]]]].
    + destruct (Hun y) as [Hc _]; [lia|]. rewrite Hc, Hc02 by done.
      rewrite occ_cons, occ_nil, decide_True by done. unfold old. lia.
    + intros z Hz. specialize (Hcov' z Hz). cbv beta in Hcov'. lia.
    + intros z Hr. destruct (Hun z) as [Hc Hf]; [lia|]. split.
      * intros Hz. rewrite Hc, Hc02 by done.
        rewrite occ_cons, occ_nil, decide_False by (intros ->; lia). lia.
      * rewrite Hf, Hf2, Hf1. split; [|set_solver]. intros H.
        apply elem_of_union in H as [H|H]; [|done].
        apply elem_of_singleton in H. subst. lia.
  - (* a further begin: the count alone *)
    apply Z.eqb_neq in E. apply returns_ret.
    assert (Hsame : forall x, U x -> (0 < count_of k s x <-> 0 < count_of k s1 x)).
    { intros x Hx. rewrite Hc1 by done. destruct (decide (x = y)) as [->|N]; [|done].
      fold old. lia. }
    split; [apply frame_set_count|]. split; [|split; [|split; [|split]]].
    + rewrite Hc1, decide_True by done. done.
    + intros z Hz. rewrite Hc1 by done. destruct (decide (z = y)); [lia|by apply Hnn].
    + intros z Hz. rewrite (holders_keep k s s1 z), Hc1 by done.
      rewrite occ_cons, occ_nil. specialize (Hcov z Hz).
      destruct (decide (z = y)) as [->|N].
      * rewrite decide_True by done. fold old in Hcov. lia.
      * rewrite decide_False by (intros ->; done). lia.
    + intros z Hz Hr. rewrite Hf1, <- Hsame by done. by apply Hcons.
    + intros z Hr. split; [|by rewrite Hf1].
      intros Hz. rewrite Hc1 by done. rewrite decide_False; [done|]. intros ->. lia.
Qed.

(** ** Ending *)

(** The loop over the dependents of [y], once the count of [y] is zero. *)
Lemma end_cascade_loop k fuel y s sigma :
  (forall x t tau,
     graph_ok rank U t -> U x -> (rank x < fuel)%nat ->
     (forall z, 0 <= tau z) ->
     covered U k (fun z => tau z + occ z [x]) t ->
     consistent U (fun z => (rank z <= rank x)%nat) k t ->
     returns (end_cascade k fuel x) t (fun _ t' => end_post rank U k x tau t t')) ->
  graph_ok rank U s -> U y -> (rank y <= fuel)%nat ->
  (forall z, 0 <= sigma z) ->
  covered U k (fun z => sigma z + occ z (dependents_of s y)) s ->
  consistent U (fun z => (rank z < rank y)%nat) k s ->
  returns (for_ (dependents_of s y) (end_cascade k fuel)) s (fun _ s' =>
    frame k s s' /\ covered U k sigma s' /\
    consistent U (fun z => (rank z < rank y)%nat) k s' /\
    untouched U (fun z => (rank y <= rank z)%nat) k s s').
Proof.
  intros IH Hg Hy Hfuel Hsig Hcov Hcons.
  set (deps := dependents_of s y) in *.
  eapply returns_conseq.
  { apply (returns_for (fun done_ t =>
      frame k s t /\
      covered U k (fun z => sigma z + occ z deps - occ z done_) t /\
      consistent U (fun z => (rank z < rank y)%nat) k t /\
      untouched U (fun z => (rank y <= rank z)%nat) k s t)).
    - split; [done|]. split; [|split; [done|by intros z _]].
      intros z Hz. rewrite occ_nil. specialize (Hcov z Hz). cbv beta in Hcov. lia.
    - intros done_ x rest t Hdeps (Hfr & Hcov' & Hcons' & Hun).
      assert (Hx : x ∈ dependents_of s y).
      { fold deps. rewrite Hdeps. apply elem_of_app. right. left. }
      assert (HUx : U x) by (by eapply (graph_dependents _ _ _ Hg)).
      assert (Hrx : (rank x < rank y)%nat) by (by apply (wf_rank _ _ (graph_wf _ _ _ Hg))).
      assert (Hgt : graph_ok rank U t) by (eapply graph_ok_same_graph; [apply Hfr|done]).
      eapply returns_conseq.
      { apply (IH x t (fun z => sigma z + occ z rest)); try done; [lia| | |].
        - intros z. pose proof (occ_nonneg z rest). specialize (Hsig z). lia.
        - intros z Hz. specialize (Hcov' z Hz). cbv beta in Hcov'.
          rewrite Hdeps, !occ_app in Hcov'. rewrite (occ_cons z x rest) in Hcov'.
          rewrite occ_cons, occ_nil. lia.
        - intros z Hz Hr. apply Hcons'; [done|lia]. }
      intros _ t' (Hfr' & _ & Hcov'' & Hcons'' & Hun'). cbv beta.
      split; [by eapply frame_trans|]. split; [|split].
      + intros z Hz. specialize (Hcov'' z Hz). cbv beta in Hcov''.
        rewrite Hdeps, !occ_app. rewrite (occ_cons z x rest), occ_cons, occ_nil. lia.
      + intros z Hz Hr. destruct (decide (rank z <= rank x)%nat) as [Hle|Hgt'].
        * by apply Hcons''.
        * destruct (Hun' z) as [Hc Hf]; [lia|]. rewrite Hf, Hc by done.
          by apply Hcons'.
      + intros z Hr. destruct (Hun z Hr) as [Hc Hf], (Hun' z) as [Hc' Hf']; [lia|].
        split; [intros Hz; by rewrite Hc', Hc|by rewrite Hf', Hf]. }
  intros _ t (Hfr & Hcov' & Hcons' & Hun). cbv beta.
  split; [done|]. split; [|done].
  intros z Hz. specialize (Hcov' z Hz). cbv beta in Hcov'. lia.
Qed.

Lemma end_cascade_spec k fuel : forall y s sigma,
  graph_ok rank U s -> U y -> (rank y < fuel)%nat ->
  (forall z, 0 <= sigma z) ->
  covered U k (fun z => sigma z + occ z [y]) s ->
  consistent U (fun z => (rank z <= rank y)%nat) k s ->
  returns (end_cascade k fuel y) s (fun _ s' => end_post rank U k y sigma s s').
Proof.
  induction fuel as [|fuel IH]; intros y s sigma Hg Hy Hfuel Hsig Hcov Hcons; [lia|].
  rewrite end_cascade_unfold. apply returns_bind_gets.
  set (old := count_of k s y).
  assert (Hold : 1 <= old).
  { specialize (Hcov y Hy). cbv beta in Hcov.
    rewrite occ_cons, occ_nil, decide_True in Hcov by done.
    pose proof (holders_nonneg k s y). specialize (Hsig y). fold old in Hcov. lia. }
  apply returns_bind_assert; [lia|]. apply returns_bind_modify.
  set (s1 := set_count k y (old - 1) s).
  assert (Hc1 : forall z, U z ->
            count_of k s1 z = if decide (z = y) then old - 1 else count_of k s z).
  { intros z Hz. by apply count_of_set_count_in. }
  assert (Hc1' : forall z, U z -> count_of k s1 z = count_of k s z - occ z [y]).
  { intros z Hz. rewrite Hc1 by done. rewrite occ_cons, occ_nil.
    destruct (decide (z = y)) as [->|N].
    - rewrite decide_True by done. fold old. lia.
    - rewrite decide_False by (intros ->; done). lia. }
  assert (Hg1 : same_graph s s1) by apply same_graph_set_count.
  assert (Hf1 : flagged k s1 = flagged k s) by apply flagged_set_count.
  assert (Hfr1 : frame k s s1) by apply frame_set_count.
  assert (Hgo1 : graph_ok rank U s1) by (by eapply graph_ok_same_graph).
  destruct (old - 1 =? 0) eqn:E.
  - (* the last end: the dependents are ended and the state is left *)
    apply Z.eqb_eq in E.
    assert (Hh1 : forall z, U z ->
              holders k s z = holders k s1 z + occ y (sources_of s z)).
    { intros z Hz. rewrite <- (same_graph_sources s s1 z) by done.
      apply holders_gain; try done.
      - by apply same_graph_sym.
      - intros x Hx Hne. rewrite Hc1, decide_False by done. done.
      - rewrite Hc1, decide_True by done. lia.
      - fold old. lia. }
    assert (Hcov1 : covered U k (fun z => sigma z + occ z (dependents_of s1 y)) s1).
    { intros z Hz. rewrite (same_graph_dependents s s1) by done.
      rewrite (occ_dependents_sources s y z) by done.
      specialize (Hcov z Hz). cbv beta in Hcov. rewrite Hc1', (Hh1 z) in * by done. lia. }
    assert (Hcons1 : consistent U (fun z => (rank z < rank y)%nat) k s1).
    { intros z Hz Hr. rewrite Hf1, Hc1, decide_False by (try done; intros ->; lia).
      apply Hcons; [done|lia]. }
    assert (Hloop : forall t, graph_ok rank U t ->
              covered U k (fun z => sigma z + occ z (dependents_of t y)) t ->
              consistent U (fun z => (rank z < rank y)%nat) k t ->
              returns (for_ (dependents_of t y) (end_cascade k fuel)) t (fun _ s' =>
                frame k t s' /\ covered U k sigma s' /\
                consistent U (fun z => (rank z < rank y)%nat) k s' /\
                untouched U (fun z => (rank y <= rank z)%nat) k t s')).
    { intros t Hgt Hcovt Hconst.
      apply end_cascade_loop; first [done | lia | intros x t0 tau; apply IH]. }
    assert (Hfinish : forall s',
              frame k s1 s' -> covered U k sigma s' ->
              consistent U (fun z => (rank z < rank y)%nat) k s' ->
              y ∉ flagged k s' ->
              (forall z, (rank y <= rank z)%nat ->
                 (U z -> count_of k s' z = count_of k s1 z) /\
                 (z <> y -> (z ∈ flagged k s' <-> z ∈ flagged k s1))) ->
              end_post rank U k y sigma s s').
    { intros s' Hfr Hcov' Hcons' Hny Hun.
      split; [by eapply frame_trans|]. split; [|split; [done|split]].
      - destruct (Hun y) as [Hc _]; [lia|]. rewrite Hc, Hc1, decide_True by done. done.
      - intros z Hz Hr. destruct (decide (rank z < rank y)%nat) as [Hlt|Hge].
        { by apply Hcons'. }
        destruct (Hun z) as [Hc Hf]; [lia|]. rewrite Hc by done.
        destruct (decide (z = y)) as [->|N].
        + rewrite Hc1, decide_True by done. split; [done|lia].
        + rewrite Hf, Hf1, Hc1, decide_False by done. by apply Hcons.
      - intros z Hr. destruct (Hun z) as [Hc Hf]; [lia|]. split.
        + intros Hz. rewrite Hc, Hc1, decide_False by (try done; intros ->; lia). done.
        + rewrite Hf, Hf1 by (intros ->; lia). done. }
    destruct k.
    + (* transaction: dependents first *)
      unfold get_dependent_data_items. apply returns_bind_gets.
      eapply returns_bind; [by apply Hloop|].
      intros _ t (Hfr & Hcov' & Hcons' & Hun). cbv beta.
      eapply returns_conseq; [apply (returns_exit_state Transaction)|].
      intros _ s' (Hg' & Hc' & Hf' & Ho'). cbv beta.
      assert (Hgt : graph_ok rank U t) by (eapply graph_ok_same_graph; [apply Hfr|done]).
      apply Hfinish.
      * eapply frame_trans; [exact Hfr|]. split; [done|].
        intros k' Hk. split; [intros z; apply Hc'|by apply Ho'].
      * eapply covered_transfer; [exact Hgt|done| |done]. intros z _. apply Hc'.
      * intros z Hz Hr. rewrite Hf', Hc'. specialize (Hcons' z Hz Hr).
        rewrite <- Hcons'. split; [set_solver|]. intros H.
        apply elem_of_difference. split; [done|]. intros H'%elem_of_singleton. subst. lia.
      * rewrite Hf'. set_solver.
      * intros z Hr. destruct (Hun z Hr) as [Hc Hf]. split.
        -- intros Hz. rewrite Hc'. by apply Hc.
        -- intros N. rewrite Hf', <- Hf. split; [set_solver|]. intros H.
           apply elem_of_difference. split; [done|]. by intros H'%elem_of_singleton.
    + (* live: the state is left first *)
      eapply returns_bind; [apply (returns_exit_state Live)|].
      intros _ s2 (Hg2 & Hc2 & Hf2 & Ho2). cbv beta.
      unfold get_dependent_data_items. apply returns_bind_gets.
      assert (Hgo2 : graph_ok rank U s2) by (by eapply graph_ok_same_graph).
      eapply returns_conseq.
      { apply Hloop; [done| |].
        - rewrite (same_graph_dependents s1 s2) by done.
          eapply covered_transfer; [exact Hgo1|done| |done]. intros z _. apply Hc2.
        - intros z Hz Hr. rewrite Hf2, Hc2. specialize (Hcons1 z Hz Hr).
          rewrite <- Hcons1. split; [set_solver|]. intros H.
          apply elem_of_difference. split; [done|].
          intros H'%elem_of_singleton. subst. lia. }
      intros _ s' (Hfr & Hcov' & Hcons' & Hun). cbv beta.
      apply Hfinish; try done.
      * eapply frame_trans; [|exact Hfr]. split; [done|].
        intros k' Hk. split; [intros z; apply Hc2|by apply Ho2].
      * destruct (Hun y) as [_ Hf]; [lia|]. rewrite Hf, Hf2. set_solver.
      * intros z Hr. destruct (Hun z Hr) as [Hc Hf]. split.
        -- intros Hz. rewrite Hc by done. apply Hc2.
        -- intros N. rewrite Hf, Hf2. split; [set_solver|]. intros H.
           apply elem_of_difference. split; [done|]. by intros H'%elem_of_singleton.
  - (* a held data item: the count alone *)
    apply Z.eqb_neq in E. apply returns_ret.
    assert (Hsame : forall x, U x -> (0 < count_of k s x <-> 0 < count_of k s1 x)).
    { intros x Hx. rewrite Hc1 by done. destruct (decide (x = y)) as [->|N]; [|done].
      fold old. lia. }
    split; [done|]. split; [|split; [|split]].
    + rewrite Hc1, decide_True by done. done.
    + intros z Hz. rewrite (holders_keep k s s1 z), Hc1' by done.
      specialize (Hcov z Hz). cbv beta in Hcov. lia.
    + intros z Hz Hr. rewrite Hf1, <- Hsame by done. by apply Hcons.
    + intros z Hr. split; [|by rewrite Hf1].
      intros Hz. rewrite Hc1 by done. rewrite decide_False; [done|]. intros ->. lia.
Qed.

(** ** Adding and removing an edge *)

Lemma dependents_of_add_edge source target s x :
  dependents_of (add_edge source target s) x =
  if decide (x = source) then dependents_of s source ++ [target] else dependents_of s x.
Proof.
  unfold dependents_of, add_edge, setdefault_append. simpl.
  destruct (decide (x = source)) as [->|N]; [by rewrite lookup_insert_eq|].
  by rewrite lookup_insert_ne.
Qed.

Lemma sources_of_add_edge source target s y :
  sources_of (add_edge source target s) y =
  if decide (y = target) then sources_of s target ++ [source] else sources_of s y.
Proof.
  unfold sources_of, add_edge, setdefault_append. simpl.
  destruct (decide (y = target)) as [->|N]; [by rewrite lookup_insert_eq|].
  by rewrite lookup_insert_ne.
Qed.

Lemma count_of_add_edge k source target s z :
  count_of k (add_edge source target s) z = count_of k s z.
Proof. by destruct k. Qed.

Lemma flagged_add_edge k source target s : flagged k (add_edge source target s) = flagged k s.
Proof. by destruct k. Qed.

Lemma dependents_of_remove_edge source target l m s x :
  dependents_of (remove_edge source target l m s) x =
  if decide (x = source) then l else dependents_of s x.
Proof.
  unfold dependents_of, remove_edge. simpl.
  destruct (decide (x = source)) as [->|N]; [by rewrite lookup_insert_eq|].
  by rewrite lookup_insert_ne.
Qed.

Lemma sources_of_remove_edge source target l m s y :
  sources_of (remove_edge source target l m s) y =
  if decide (y = target) then m else sources_of s y.
Proof.
  unfold sources_of, remove_edge. simpl.
  destruct (decide (y = target)) as [->|N]; [by rewrite lookup_insert_eq|].
  by rewrite lookup_insert_ne.
Qed.

Lemma count_of_remove_edge k source target l m s z :
  count_of k (remove_edge source target l m s) z = count_of k s z.
Proof. by destruct k. Qed.

Lemma flagged_remove_edge k source target l m s :
  flagged k (remove_edge source target l m s) = flagged k s.
Proof. by destruct k. Qed.

Lemma list_remove_Some x l : x ∈ l -> exists l', list_remove x l = Some l'.
Proof.
  induction l as [|y l IH]; [by intros ?%elem_of_nil|]. intros Hx. simpl.
  destruct (decide (y = x)) as [->|N]; [by eexists|].
  apply elem_of_cons in Hx as [->|Hx]; [done|].
  destruct (IH Hx) as [l' ->]. by eexists.
Qed.

Lemma list_remove_count (P : DataItem -> Prop) `{!forall x, Decision (P x)} x l l' :
  list_remove x l = Some l' ->
  Z.of_nat (length (filter P l)) =
  Z.of_nat (length (filter P l')) + (if decide (P x) then 1 else 0).
Proof.
  revert l'. induction l as [|y l IH]; intros l' Hrem; [done|]. simpl in Hrem.
  destruct (decide (y = x)) as [->|N].
  - injection Hrem as <-. destruct (decide (P x)).
    + rewrite filter_cons_True by done. simpl length. lia.
    + rewrite filter_cons_False by done. lia.
  - destruct (list_remove x l) as [l0|] eqn:E; [|done]. injection Hrem as <-.
    specialize (IH l0 eq_refl). destruct (decide (P y)).
    + rewrite !filter_cons_True by done. simpl length. lia.
    + rewrite !filter_cons_False by done. lia.
Qed.

Lemma list_remove_occ z x l l' :
  list_remove x l = Some l' -> occ z l = occ z l' + occ z [x].
Proof.
  intros H. unfold occ at 1 2. rewrite (list_remove_count (fun y => y = z) x l l' H).
  rewrite occ_cons, occ_nil. destruct (decide (x = z)); lia.
Qed.

Lemma list_remove_elem x l l' y : list_remove x l = Some l' -> y ∈ l' -> y ∈ l.
Proof.
  intros H Hy. apply occ_pos. apply occ_pos in Hy.
  rewrite (list_remove_occ y x l l' H). pose proof (occ_nonneg y [x]). lia.
Qed.

Lemma well_formed_occ s :
  well_formed_graph rank s <->
  (forall x y, occ y (dependents_of s x) = occ x (sources_of s y)) /\
  (forall x y, y ∈ dependents_of s x -> (rank y < rank x)%nat).
Proof.
  split.
  - intros [Hi Hr]. split; [|done]. intros x y. unfold occ. by rewrite Hi.
  - intros [Hi Hr]. split; [|done]. intros x y. specialize (Hi x y). unfold occ in Hi. lia.
Qed.

Lemma graph_ok_add_edge source target s :
  graph_ok rank U s -> U source -> U target -> (rank target < rank source)%nat ->
  graph_ok rank U (add_edge source target s).
Proof.
  intros [Hwf Hd Hs Hu] Hsrc Htgt Hr. apply well_formed_occ in Hwf as [Hi Hrk]. split.
  - apply well_formed_occ. split.
    + intros x y. rewrite dependents_of_add_edge, sources_of_add_edge.
      specialize (Hi x y).
      destruct (decide (x = source)) as [->|Nx], (decide (y = target)) as [->|Ny];
        rewrite ?occ_app, ?occ_cons, ?occ_nil;
        repeat first [rewrite decide_True by done | rewrite decide_False by done]; lia.
    + intros x y. rewrite dependents_of_add_edge.
      destruct (decide (x = source)) as [->|Nx]; [|apply Hrk].
      intros [H|H]%elem_of_app; [by apply Hrk|].
      apply list_elem_of_singleton in H. by subst.
  - intros x y Hx. rewrite dependents_of_add_edge.
    destruct (decide (x = source)) as [->|Nx]; [|by apply Hd].
    intros [H|H]%elem_of_app; [by eapply Hd|].
    apply list_elem_of_singleton in H. by subst.
  - intros x y Hy. rewrite sources_of_add_edge.
    destruct (decide (y = target)) as [->|Ny]; [|by apply Hs].
    intros [H|H]%elem_of_app; [by eapply Hs|].
    apply list_elem_of_singleton in H. by subst.
  - done.
Qed.

Lemma graph_ok_remove_edge source target l m s :
  graph_ok rank U s ->
  list_remove target (dependents_of s source) = Some l ->
  list_remove source (sources_of s target) = Some m ->
  graph_ok rank U (remove_edge source target l m s).
Proof.
  intros [Hwf Hd Hs Hu] Hl Hm. apply well_formed_occ in Hwf as [Hi Hrk]. split.
  - apply well_formed_occ. split.
    + intros x y. rewrite dependents_of_remove_edge, sources_of_remove_edge.
      specialize (Hi x y).
      pose proof (list_remove_occ y _ _ _ Hl) as Hl'.
      pose proof (list_remove_occ x _ _ _ Hm) as Hm'.
      rewrite occ_cons, occ_nil in Hl', Hm'.
      destruct (decide (x = source)) as [->|Nx], (decide (y = target)) as [->|Ny];
        repeat first [rewrite decide_True in * by done | rewrite decide_False in * by done];
        lia.
    + intros x y. rewrite dependents_of_remove_edge.
      destruct (decide (x = source)) as [->|Nx]; [|apply Hrk].
      intros H. apply Hrk. by eapply list_remove_elem.
  - intros x y Hx. rewrite dependents_of_remove_edge.
    destruct (decide (x = source)) as [->|Nx]; [|by apply Hd].
    intros H. eapply Hd; [done|]. by eapply list_remove_elem.
  - intros x y Hy. rewrite sources_of_remove_edge.
    destruct (decide (y = target)) as [->|Ny]; [|by apply Hs].
    intros H. eapply Hs; [done|]. by eapply list_remove_elem.
  - done.
Qed.

Lemma holders_add_edge k source target s z :
  holders k (add_edge source target s) z =
  holders k s z + (if decide (0 < count_of k s source) then occ z [target] else 0).
Proof.
  unfold holders. rewrite sources_of_add_edge.
  rewrite (count_filter_same (fun x => 0 < count_of k s x)
             (fun x => 0 < count_of k (add_edge source target s) x))
    by (intros x _; by rewrite count_of_add_edge).
  rewrite occ_cons, occ_nil.
  destruct (decide (z = target)) as [->|N];
    destruct (decide (0 < count_of k s source)) as [Hp|Hn].
  - rewrite filter_app, length_app, (filter_cons_True _ source) by done.
    rewrite decide_True by done. simpl length. lia.
  - rewrite filter_app, length_app, (filter_cons_False _ source) by done.
    simpl length. lia.
  - rewrite decide_False by congruence. lia.
  - lia.
Qed.

Lemma holders_remove_edge k source target l m s z :
  list_remove source (sources_of s target) = Some m ->
  holders k s z =
  holders k (remove_edge source target l m s) z +
  (if decide (0 < count_of k s source) then occ z [target] else 0).
Proof.
  intros Hm. unfold holders. rewrite sources_of_remove_edge.
  rewrite (count_filter_same (fun x => 0 < count_of k s x)
             (fun x => 0 < count_of k (remove_edge source target l m s) x)
             (if decide (z = target) then m else sources_of s z))
    by (intros x _; by rewrite count_of_remove_edge).
  rewrite occ_cons, occ_nil.
  pose proof (list_remove_count (fun x => 0 < count_of k s x) _ _ _ Hm) as Hc.
  destruct (decide (z = target)) as [->|N];
    destruct (decide (0 < count_of k s source)) as [Hp|Hn].
  - rewrite decide_True by done. lia.
  - lia.
  - rewrite decide_False by congruence. lia.
  - lia.
Qed.

(** ** The two cascades of a call *)

Lemma covered_frame k k' sigma s s' :
  k' <> k -> frame k s s' -> graph_ok rank U s ->
  covered U k' sigma s -> covered U k' sigma s'.
Proof.
  intros Hk [Hg Hf] Hgo. apply covered_transfer; try done.
  intros z _. by apply Hf.
Qed.

Lemma consistent_frame k k' P s s' :
  k' <> k -> frame k s s' -> consistent U P k' s -> consistent U P k' s'.
Proof.
  intros Hk [Hg Hf] Hc z Hz HP. destruct (Hf k' Hk) as [Hcnt Hfl].
  rewrite Hfl, Hcnt. by apply Hc.
Qed.

Lemma covered_add_edge k source target s :
  graph_ok rank U s -> U source ->
  consistent U (fun _ => True) k s -> covered U k (fun _ => 0) s ->
  covered U k (fun z => if bool_decide (source ∈ flagged k s) then - occ z [target] else 0)
    (add_edge source target s).
Proof.
  intros Hg Hsrc Hcons Hcov z Hz. rewrite holders_add_edge, count_of_add_edge.
  specialize (Hcov z Hz). cbv beta in Hcov. specialize (Hcons source Hsrc I).
  destruct (decide (0 < count_of k s source)) as [Hp|Hn].
  - rewrite bool_decide_eq_true_2 by (by apply Hcons). lia.
  - rewrite bool_decide_eq_false_2 by (by rewrite Hcons). lia.
Qed.

Lemma covered_remove_edge k source target l m s :
  graph_ok rank U s -> U source ->
  list_remove source (sources_of s target) = Some m ->
  consistent U (fun _ => True) k s -> covered U k (fun _ => 0) s ->
  covered U k (fun z => if bool_decide (source ∈ flagged k s) then occ z [target] else 0)
    (remove_edge source target l m s).
Proof.
  intros Hg Hsrc Hm Hcons Hcov z Hz. rewrite count_of_remove_edge.
  specialize (Hcov z Hz). cbv beta in Hcov. specialize (Hcons source Hsrc I).
  rewrite (holders_remove_edge k source target l m s z Hm) in Hcov.
  destruct (decide (0 < count_of k s source)) as [Hp|Hn].
  - rewrite bool_decide_eq_true_2 by (by apply Hcons). lia.
  - rewrite bool_decide_eq_false_2 by (by rewrite Hcons). lia.
Qed.

Lemma consistent_all k y s s' :
  consistent U (fun _ => True) k s ->
  consistent U (fun z => (rank z <= rank y)%nat) k s' ->
  untouched U (fun z => (rank y < rank z)%nat) k s s' ->
  consistent U (fun _ => True) k s'.
Proof.
  intros Hc Hc' Hun z Hz _. destruct (decide (rank z <= rank y)%nat) as [Hle|Hgt].
  - by apply Hc'.
  - destruct (Hun z) as [Hcnt Hfl]; [lia|]. rewrite Hfl, Hcnt by done. by apply Hc.
Qed.

(** The target is begun if the source is in the state. *)
Lemma begin_phase k fuel target (b : bool) s :
  graph_ok rank U s -> U target -> (rank target < fuel)%nat ->
  (forall z, U z -> 0 <= count_of k s z) ->
  covered U k (fun z => if b then - occ z [target] else 0) s ->
  consistent U (fun _ => True) k s ->
  returns (when b (begin_cascade k fuel target)) s (fun _ s' =>
    frame k s s' /\ covered U k (fun _ => 0) s' /\ consistent U (fun _ => True) k s' /\
    count_of k s' target = count_of k s target + (if b then 1 else 0) /\
    if b then target ∈ flagged k s' else flagged k s' = flagged k s).
Proof.
  intros Hg Ht Hfuel Hnn Hcov Hcons. destruct b; simpl.
  - eapply returns_conseq.
    { apply (begin_cascade_spec k fuel target s (fun z => - occ z [target])); try done.
      intros z Hz _. by apply Hcons. }
    intros _ s' (Hfr & Hc & Hnn' & Hcov' & Hcons' & Hun). cbv beta.
    assert (Hall : consistent U (fun _ => True) k s') by (by eapply consistent_all).
    split; [done|]. split; [|split; [done|split; [done|]]].
    + intros z Hz. specialize (Hcov' z Hz). cbv beta in Hcov'. lia.
    + apply Hall; [done|done|]. specialize (Hnn target Ht). lia.
  - apply returns_ret. split; [apply frame_refl|]. split; [exact Hcov|].
    split; [exact Hcons|]. split; [lia|done].
Qed.

(** The target is ended if the source is in the state. *)
Lemma end_phase k fuel target (b : bool) s :
  graph_ok rank U s -> U target -> (rank target < fuel)%nat ->
  covered U k (fun z => if b then occ z [target] else 0) s ->
  consistent U (fun _ => True) k s ->
  returns (when b (end_cascade k fuel target)) s (fun _ s' =>
    frame k s s' /\ covered U k (fun _ => 0) s' /\ consistent U (fun _ => True) k s' /\
    count_of k s' target = count_of k s target - (if b then 1 else 0) /\
    if b then True else flagged k s' = flagged k s).
Proof.
  intros Hg Ht Hfuel Hcov Hcons. destruct b; simpl.
  - eapply returns_conseq.
    { apply (end_cascade_spec k fuel target s (fun _ => 0)); try done.
      intros z Hz _. by apply Hcons. }
    intros _ s' (Hfr & Hc & Hcov' & Hcons' & Hun). cbv beta.
    assert (Hall : consistent U (fun _ => True) k s') by (by eapply consistent_all).
    done.
  - apply returns_ret. split; [apply frame_refl|]. split; [exact Hcov|].
    split; [exact Hcons|]. split; [lia|done].
Qed.

Lemma coherent_nonneg k s z : coherent rank U s -> U z -> 0 <= count_of k s z.
Proof. intros [_ H] Hz. destruct (H k) as [Hcov _]. by eapply covered_nonneg. Qed.

(** ** The calls *)

Lemma counter_cases (k k0 : counter) : k <> k0 -> forall k', k' = k \/ k' = k0.
Proof. destruct k, k0; try done; intros _ []; auto. Qed.

(** From the state in which the cascades of a call start, through the
    transaction cascade and the live cascade. *)
Lemma both_phases (cascade : counter -> nat -> DataItem -> M unit) (delta : counter -> Z)
    fuel source target s0 s :
  (forall k s1, graph_ok rank U s1 ->
     (forall z, U z -> 0 <= count_of k s1 z) ->
     covered U k (fun z => if bool_decide (source ∈ flagged k s0)
                           then - delta k * occ z [target] else 0) s1 ->
     consistent U (fun _ => True) k s1 ->
     returns (when (bool_decide (source ∈ flagged k s0)) (cascade k fuel target)) s1
       (fun _ s' =>
          frame k s1 s' /\ covered U k (fun _ => 0) s' /\
          consistent U (fun _ => True) k s' /\
          count_of k s' target =
            count_of k s1 target + (if bool_decide (source ∈ flagged k s0) then delta k else 0) /\
          (source ∉ flagged k s0 -> flagged k s' = flagged k s1))) ->
  graph_ok rank U s ->
  (forall k z, U z -> 0 <= count_of k s z) ->
  (forall k, flagged k s = flagged k s0) ->
  (forall k, covered U k (fun z => if bool_decide (source ∈ flagged k s0)
                                   then - delta k * occ z [target] else 0) s) ->
  (forall k, consistent U (fun _ => True) k s) ->
  returns
    (in_tx <- gets (fun s => bool_decide (source ∈ in_transaction_state s)) ;;
     when in_tx (cascade Transaction fuel target) ;;
     live <- gets (fun s => bool_decide (source ∈ is_live s)) ;;
     when live (cascade Live fuel target)) s
    (fun _ s' =>
       same_graph s s' /\ coherent rank U s' /\
       forall k,
         count_of k s' target =
           count_of k s target + (if bool_decide (source ∈ flagged k s0) then delta k else 0) /\
         (source ∉ flagged k s0 -> flagged k s' = flagged k s)).
Proof.
  intros Hphase Hg Hnn Hfl Hcov Hcons.
  apply returns_bind_gets.
  change (in_transaction_state s) with (flagged Transaction s). rewrite Hfl.
  eapply returns_bind; [by apply (Hphase Transaction s); try apply Hnn|].
  intros _ s3 (Hfr3 & Hcov3 & Hcons3 & Hc3 & Hn3). cbv beta.
  destruct Hfr3 as [Hg3 Ho3]. destruct (Ho3 Live) as [HcL HfL]; [done|].
  assert (Hgo3 : graph_ok rank U s3) by (by eapply graph_ok_same_graph).
  apply returns_bind_gets.
  change (is_live s3) with (flagged Live s3). rewrite HfL, Hfl.
  eapply returns_conseq.
  { apply (Hphase Live s3); [done| | |].
    - intros z Hz. rewrite HcL. by apply Hnn.
    - eapply (covered_frame Transaction); [done|by split|done|apply Hcov].
    - eapply (consistent_frame Transaction); [done|by split|apply Hcons]. }
  intros _ s4 (Hfr4 & Hcov4 & Hcons4 & Hc4 & Hn4). cbv beta.
  destruct Hfr4 as [Hg4 Ho4]. destruct (Ho4 Transaction) as [HcT HfT]; [done|].
  assert (Hgo4 : graph_ok rank U s4) by (by eapply graph_ok_same_graph).
  split; [by eapply same_graph_trans|]. split.
  - split; [done|]. intros [].
    + split.
      * eapply (covered_frame Live); [done|by split|done|done].
      * eapply (consistent_frame Live); [done|by split|done].
    + by split.
  - intros []; split.
    + by rewrite HcT, Hc3.
    + intros Hn. rewrite HfT. by apply Hn3.
    + by rewrite Hc4, HcL.
    + intros Hn. rewrite (Hn4 Hn). done.
Qed.

Lemma add_dependency_coherent fuel source target s :
  coherent rank U s -> U source -> U target ->
  (rank target < fuel)%nat -> (rank target < rank source)%nat ->
  returns (add_dependency fuel source target) s (fun _ s' =>
    coherent rank U s' /\
    dependents_of s' source = dependents_of s source ++ [target] /\
    sources_of s' target = sources_of s target ++ [source] /\
    forall k,
      count_of k s' target =
        count_of k s target + (if bool_decide (source ∈ flagged k s) then 1 else 0) /\
      (source ∈ flagged k s -> target ∈ flagged k s') /\
      (source ∉ flagged k s -> flagged k s' = flagged k s)).
Proof.
  intros Hco Hsrc Htgt Hfuel Hrank. pose proof Hco as [Hg Hinv].
  unfold add_dependency. apply returns_bind_modify. apply returns_bind_modify.
  change (with_source_data_items _ _) with (add_edge source target s).
  assert (Hg2 : graph_ok rank U (add_edge source target s)) by (by apply graph_ok_add_edge).
  eapply returns_conseq.
  { apply (both_phases begin_cascade (fun _ => 1) fuel source target s (add_edge source target s)).
    - intros k s1 Hg1 Hnn1 Hcov1 Hcons1. eapply returns_conseq.
      { apply (begin_phase k fuel target _ s1); [done|done|done|done| |done].
        eapply covered_ext; [|exact Hcov1]. intros z. cbv beta.
        destruct (bool_decide _); lia. }
      intros _ s' (Hfr & Hcov' & Hcons' & Hc & Hb). cbv beta.
      split; [done|]. split; [done|]. split; [done|]. split; [done|].
      intros Hn. by rewrite bool_decide_eq_false_2 in Hb.
    - done.
    - intros k z Hz. rewrite count_of_add_edge. by apply coherent_nonneg.
    - intros k. apply flagged_add_edge.
    - intros k. destruct (Hinv k) as [Hcov Hcons].
      eapply covered_ext; [|by apply covered_add_edge]. intros z. cbv beta.
      destruct (bool_decide _); lia.
    - intros k. destruct (Hinv k) as [Hcov Hcons]. intros z Hz _.
      rewrite flagged_add_edge, count_of_add_edge. by apply Hcons. }
  intros _ s' (Hsg & Hco' & Hk). cbv beta. split; [done|].
  rewrite !(same_graph_dependents (add_edge source target s) s'), !(same_graph_sources (add_edge source target s) s') by done.
  rewrite dependents_of_add_edge, sources_of_add_edge, !decide_True by done.
  split; [done|]. split; [done|]. intros k. destruct (Hk k) as [Hc Hn].
  rewrite count_of_add_edge in Hc. rewrite flagged_add_edge in Hn.
  split; [done|]. split; [|done]. intros Hin.
  destruct Hco' as [_ Hinv']. destruct (Hinv' k) as [_ Hcons'].
  apply Hcons'; [done|done|]. rewrite Hc, bool_decide_eq_true_2 by done.
  pose proof (coherent_nonneg k s target Hco Htgt). lia.
Qed.

Lemma remove_dependency_coherent fuel source target s :
  coherent rank U s -> U source -> U target ->
  (rank target < fuel)%nat -> target ∈ dependents_of s source ->
  returns (remove_dependency fuel source target) s (fun _ s' =>
    coherent rank U s' /\
    occ target (dependents_of s source) = occ target (dependents_of s' source) + 1 /\
    occ source (sources_of s target) = occ source (sources_of s' target) + 1 /\
    forall k,
      count_of k s' target =
        count_of k s target - (if bool_decide (source ∈ flagged k s) then 1 else 0) /\
      (source ∈ flagged k s -> (target ∈ flagged k s' <-> 1 < count_of k s target)) /\
      (source ∉ flagged k s -> flagged k s' = flagged k s)).
Proof.
  intros Hco Hsrc Htgt Hfuel Hedge. pose proof Hco as [Hg Hinv].
  destruct (list_remove_Some target _ Hedge) as [l Hl].
  assert (Hedge' : source ∈ sources_of s target).
  { apply occ_pos. rewrite <- (occ_dependents_sources s source target) by done.
    by apply occ_pos. }
  destruct (list_remove_Some source _ Hedge') as [m Hm].
  unfold remove_dependency. apply returns_bind_gets. unfold setdefault_remove.
  pose proof Hl as Hl'. unfold dependents_of in Hl'. rewrite Hl'. simpl.
  apply returns_bind_modify. apply returns_bind_gets.
  pose proof Hm as Hm'. unfold sources_of in Hm'. simpl. rewrite Hm'. simpl.
  apply returns_bind_modify.
  change (with_source_data_items _ _) with (remove_edge source target l m s).
  assert (Hg2 : graph_ok rank U (remove_edge source target l m s))
    by (by apply graph_ok_remove_edge).
  eapply returns_conseq.
  { apply (both_phases end_cascade (fun _ => -1) fuel source target s
             (remove_edge source target l m s)).
    - intros k s1 Hg1 Hnn1 Hcov1 Hcons1. eapply returns_conseq.
      { apply (end_phase k fuel target _ s1); [done|done|done| |done].
        eapply covered_ext; [|exact Hcov1]. intros z. cbv beta.
        destruct (bool_decide _); lia. }
      intros _ s' (Hfr & Hcov' & Hcons' & Hc & Hb). cbv beta.
      split; [done|]. split; [done|]. split; [done|]. split.
      + rewrite Hc. destruct (bool_decide _); lia.
      + intros Hn. by rewrite bool_decide_eq_false_2 in Hb.
    - done.
    - intros k z Hz. rewrite count_of_remove_edge. by apply coherent_nonneg.
    - intros k. apply flagged_remove_edge.
    - intros k. destruct (Hinv k) as [Hcov Hcons].
      eapply covered_ext; [|by eapply covered_remove_edge]. intros z. cbv beta.
      destruct (bool_decide _); lia.
    - intros k. destruct (Hinv k) as [Hcov Hcons]. intros z Hz _.
      rewrite flagged_remove_edge, count_of_remove_edge. by apply Hcons. }
  intros _ s' (Hsg & Hco' & Hk). cbv beta. split; [done|].
  rewrite !(same_graph_dependents (remove_edge source target l m s) s'),
    !(same_graph_sources (remove_edge source target l m s) s') by done.
  rewrite dependents_of_remove_edge, sources_of_remove_edge, !decide_True by done.
  split; [|split].
  - rewrite (list_remove_occ target target _ _ Hl), occ_cons, occ_nil.
    rewrite decide_True by done. lia.
  - rewrite (list_remove_occ source source _ _ Hm), occ_cons, occ_nil.
    rewrite decide_True by done. lia.
  - intros k. destruct (Hk k) as [Hc Hn].
    rewrite count_of_remove_edge in Hc. rewrite flagged_remove_edge in Hn.
    split; [rewrite Hc; destruct (bool_decide _); lia|]. split; [|done]. intros Hin.
    destruct Hco' as [_ Hinv']. destruct (Hinv' k) as [_ Hcons'].
    rewrite (Hcons' target Htgt I), Hc, bool_decide_eq_true_2 by done. lia.
Qed.

End Cascades.

(** ** The example *)

Lemma example_universe_cases d :
  example_universe d -> d = item_a \/ d = item_b \/ d = item_c \/ d = item_d.
Proof. unfold example_universe. simpl. set_solver. Qed.

Lemma consistent_check (z : DataItem) (X : gset DataItem) (c : Z) :
  bool_decide (z ∈ X) = (0 <? c) -> (z ∈ X <-> 0 < c).
Proof.
  intros H. rewrite <- Z.ltb_lt, <- H. split; [apply bool_decide_eq_true_2|].
  intros E. by apply bool_decide_eq_true_1 in E.
Qed.

Lemma transaction_document_coherent :
  coherent example_rank example_universe transaction_document.
Proof.
  split; [split|].
  - apply (well_formed_same_graph example_rank example_document); [done|].
    apply example_well_formed.
  - intros x y _. change (dependents_of transaction_document x)
      with (dependents_of example_document x). rewrite example_dependents.
    unfold example_universe. simpl.
    destruct (decide (x = item_a)); [set_solver|]. destruct (decide (x = item_d)); set_solver.
  - intros x y _. change (sources_of transaction_document y)
      with (sources_of example_document y). rewrite example_sources.
    unfold example_universe. simpl.
    destruct (decide (y = item_b)); [set_solver|]. destruct (decide (y = item_c)); set_solver.
  - intros x y Hx Hy.
    destruct (example_universe_cases x Hx) as [-> | [-> | [-> | ->]]],
             (example_universe_cases y Hy) as [-> | [-> | [-> | ->]]]; done.
  - intros k. split.
    + intros z Hz. apply Z.leb_le.
      destruct (example_universe_cases z Hz) as [-> | [-> | [-> | ->]]], k; by vm_compute.
    + intros z Hz _. apply consistent_check.
      destruct (example_universe_cases z Hz) as [-> | [-> | [-> | ->]]], k; by vm_compute.
Qed.

(** C5. In a coherent state, where for the transaction state and for the
    live state alike every data item is counted at least once for each
    source that holds it and is in the state exactly when its count is
    positive, and with recursion depth for the rank of the target:
    [add_dependency] returns, and if the source is in the transaction
    (live) state the target is in it afterwards, begun once more;
    [remove_dependency] of an edge that is there returns without an
    assertion failing, and if the source is in the transaction (live)
    state the target has been ended once, so that it has left the state
    unless something else still holds it. Both calls leave the state
    coherent. *)
Theorem dependency_propagates_states (rank : DataItem -> nat) (U : DataItem -> Prop)
    (fuel : nat) (source target : DataItem) (s : State) :
  coherent rank U s -> U source -> U target -> (rank target < fuel)%nat ->
  ((rank target < rank source)%nat ->
   returns (add_dependency fuel source target) s (fun _ s' =>
     coherent rank U s' /\
     dependents_of s' source = dependents_of s source ++ [target] /\
     sources_of s' target = sources_of s target ++ [source] /\
     (source ∈ in_transaction_state s ->
        target ∈ in_transaction_state s' /\
        transaction_count s' target = transaction_count s target + 1) /\
     (source ∈ is_live s ->
        target ∈ is_live s' /\ live_count s' target = live_count s target + 1))) /\
  (target ∈ dependents_of s source ->
   returns (remove_dependency fuel source target) s (fun _ s' =>
     coherent rank U s' /\
     (source ∈ in_transaction_state s ->
        transaction_count s' target = transaction_count s target - 1 /\
        (target ∈ in_transaction_state s' <-> 1 < transaction_count s target)) /\
     (source ∈ is_live s ->
        live_count s' target = live_count s target - 1 /\
        (target ∈ is_live s' <-> 1 < live_count s target)))).
Proof.
  intros Hco Hsrc Htgt Hfuel. split.
  - intros Hrank. eapply returns_conseq;
      [by apply (add_dependency_coherent rank U fuel source target s)|].
    intros _ s' (Hco' & Hd & Hs & Hk). cbv beta.
    split; [done|]. split; [done|]. split; [done|]. split.
    + intros Hin. destruct (Hk Transaction) as (Hc & Hf & _).
      split; [by apply Hf|]. rewrite bool_decide_eq_true_2 in Hc by done. exact Hc.
    + intros Hin. destruct (Hk Live) as (Hc & Hf & _).
      split; [by apply Hf|]. rewrite bool_decide_eq_true_2 in Hc by done. exact Hc.
  - intros Hedge. eapply returns_conseq;
      [by apply (remove_dependency_coherent rank U fuel source target s)|].
    intros _ s' (Hco' & _ & _ & Hk). cbv beta. split; [done|]. split.
    + intros Hin. destruct (Hk Transaction) as (Hc & Hf & _).
      split; [|by apply Hf]. rewrite bool_decide_eq_true_2 in Hc by done. exact Hc.
    + intros Hin. destruct (Hk Live) as (Hc & Hf & _).
      split; [|by apply Hf]. rewrite bool_decide_eq_true_2 in Hc by done. exact Hc.
Qed.

Lemma dependency_propagates_states_witness :
  returns (remove_dependency 1 item_a item_b) transaction_document (fun _ s' =>
    coherent example_rank example_universe s' /\
    (item_a ∈ in_transaction_state transaction_document ->
       transaction_count s' item_b = transaction_count transaction_document item_b - 1 /\
       (item_b ∈ in_transaction_state s' <->
        1 < transaction_count transaction_document item_b)) /\
    (item_a ∈ is_live transaction_document ->
       live_count s' item_b = live_count transaction_document item_b - 1 /\
       (item_b ∈ is_live s' <-> 1 < live_count transaction_document item_b))).
Proof.
  apply (dependency_propagates_states example_rank example_universe 1 item_a item_b
           transaction_document).
  - exact transaction_document_coherent.
  - apply (bool_decide_unpack _). vm_compute. exact I.
  - apply (bool_decide_unpack _). vm_compute. exact I.
  - vm_compute. lia.
  - apply (bool_decide_unpack _). vm_compute. exact I.
Defined.

Example remove_dependency_example :
  exists s', remove_dependency 1 item_a item_b transaction_document = Ok tt s' /\
    transaction_count s' item_b = 0 /\ (item_b ∉ in_transaction_state s') /\
    trace s' = [EvExitTransactionState item_b].
Proof.
  eexists. split; [vm_compute; reflexivity|]. split; [reflexivity|]. split; [|reflexivity].
  apply (bool_decide_unpack _). vm_compute. exact I.
Qed.

Example add_dependency_example :
  exists s', add_dependency 2 item_a item_d transaction_document = Ok tt s' /\
    transaction_count s' item_d = 1 /\ (item_d ∈ in_transaction_state s') /\
    transaction_count s' item_c = 2.
Proof.
  eexists. split; [vm_compute; reflexivity|]. split; [reflexivity|]. split; [|reflexivity].
  apply (bool_decide_unpack _). vm_compute. exact I.
Qed.

(** ** The worker *)

Lemma remove_ref_perm h l l' : remove_ref h l = Some l' -> l ≡ₚ h :: l'.
Proof.
  revert l'. induction l as [|y l IH]; intros l'; simpl; [done|].
  destruct (decide (y = h)) as [->|Hne].
  - by intros [= ->].
  - destruct (remove_ref h l) as [l0|]; simpl; [|done]. intros [= <-].
    rewrite (IH l0 eq_refl). apply Permutation_swap.
Qed.

(** One task of the pool in a state whose queue is in order: the head of
    the pending queue is taken, and whatever the evaluation does, the task
    returns and the item has left the active list again. *)
Lemma recompute_one_takes ev s n :
  queue_ok s -> recompute_tasks s = S n ->
  exists h rest s',
    computation_pending_queue s = h :: rest /\
    recompute_one ev s = Ok tt s' /\
    computation_pending_queue s' = rest /\
    recompute_tasks s' = n /\
    queue_items s' = queue_items s /\
    computation_active_items s' ≡ₚ computation_active_items s.
Proof.
  intros (Hv & Hnd & Ht) Hn. rewrite Hn in Ht.
  destruct (computation_pending_queue s) as [|h rest] eqn:Hp; [done|].
  destruct (lookup_lt_is_Some_2 (queue_items s) h) as [q Hq]; [apply Hv; by left|].
  destruct (remove_ref_last h (computation_active_items s)) as [act Hrm].
  assert (Hact : act ≡ₚ computation_active_items s).
  { apply remove_ref_perm in Hrm. rewrite <- Permutation_cons_append in Hrm.
    symmetry. by eapply Permutation_cons_inv. }
  exists h, rest.
  unfold recompute_one, bind, gets. rewrite Hn.
  unfold modify at 1. unfold recompute, recompute_with, recompute_take, bind, gets.
  cbn [computation_pending_queue with_recompute_tasks]. rewrite Hp.
  unfold modify at 1 2. unfold ret at 1.
  cbn [queue_items with_computation_active_items with_computation_pending_queue
       with_recompute_tasks]. rewrite Hq.
  unfold try_except, recompute_try, bind, gets, emit, modify, when, raise, ret.
  cbn [needs_update with_computation_active_items with_computation_pending_queue
       with_recompute_tasks with_trace].
  simpl in Ht.
  destruct (bool_decide (qi_computation q ∈ needs_update s)).
  - destruct (ev _ _ _) as [newer|]; cbn -[remove_ref].
    + rewrite Hq. cbn -[remove_ref]. destruct (qi_valid q), newer; cbn -[remove_ref];
        rewrite Hrm; cbn; eexists; (split; [reflexivity|]); done.
    + rewrite Hrm. cbn. eexists. split; [reflexivity|]. done.
  - cbn -[remove_ref]. rewrite Hq. cbn -[remove_ref]. destruct (qi_valid q); cbn -[remove_ref];
      rewrite Hrm; cbn; eexists; (split; [reflexivity|]); done.
Qed.

Lemma run_tasks_drains ev n : forall s,
  queue_ok s -> recompute_tasks s = n ->
  exists s',
    run_tasks ev n s = Ok tt s' /\
    computation_pending_queue s' = [] /\ recompute_tasks s' = O /\
    queue_items s' = queue_items s /\
    computation_active_items s' ≡ₚ computation_active_items s.
Proof.
  induction n as [|n IH]; intros s Hok Hn.
  - exists s. simpl. split; [done|]. destruct Hok as (_ & _ & Ht). rewrite Hn in Ht.
    split; [|done]. symmetry in Ht. by apply length_zero_iff_nil in Ht.
  - destruct (recompute_one_takes ev s n Hok Hn)
      as (h & rest & s1 & Hp & Hrun & Hp1 & Ht1 & Hq1 & Ha1).
    assert (Hok1 : queue_ok s1).
    { pose proof (recompute_one_queue_ok ev s Hok) as H. by rewrite Hrun in H. }
    destruct (IH s1 Hok1 Ht1) as (s' & Hrun' & Hp' & Ht' & Hq' & Ha').
    exists s'. cbn [run_tasks]. unfold bind. rewrite Hrun.
    split; [done|]. split; [done|]. split; [done|]. split; [congruence|]. by rewrite Ha'.
Qed.



(** ** Removing what is not there *)

Lemma returns_or_asserts_returns {A} (m : M A) s Q E :
  returns m s Q -> returns_or_asserts m s Q E.
Proof. unfold returns, returns_or_asserts. by destruct (m s). Qed.

Lemma returns_or_asserts_bind {A B} (m : M A) (k : A -> M B) s Q R E :
  returns_or_asserts m s Q E ->
  (forall a s', Q a s' -> returns_or_asserts (k a) s' R E) ->
  returns_or_asserts (bind m k) s R E.
Proof.
  unfold returns_or_asserts, bind. intros Hm Hk.
  destruct (m s) as [a s'|e s'|]; [by apply Hk|by destruct e|done].
Qed.

Lemma returns_or_asserts_for {X} (I : State -> Prop) (E : State -> Prop)
    (l : list X) body s :
  I s ->
  (forall x st, x ∈ l -> I st -> returns_or_asserts (body x) st (fun _ st' => I st') E) ->
  returns_or_asserts (for_ l body) s (fun _ s' => I s') E.
Proof.
  revert s. induction l as [|x l IH]; intros s H0 Hstep; simpl; [done|].
  eapply returns_or_asserts_bind; [apply Hstep; [by left|done]|].
  intros ? s' H'. apply IH; [done|]. intros y st Hy. apply Hstep. by right.
Qed.

Lemma wound_down_refl s : wound_down s s.
Proof. split; [apply same_graph_refl|]. by split; [|split]. Qed.

Lemma wound_down_trans s1 s2 s3 : wound_down s1 s2 -> wound_down s2 s3 -> wound_down s1 s3.
Proof.
  intros (G1 & D1 & T1 & V1) (G2 & D2 & T2 & V2).
  split; [by eapply same_graph_trans|]. split; [auto|]. split; auto.
Qed.

Lemma wound_down_emit e s : wound_down s (with_trace (fun t => t ++ [e]) s).
Proof.
  split; [done|]. split; [done|]. split; [|done].
  intros e' He'. simpl. apply elem_of_app. by left.
Qed.

Lemma valid_at_alter h h' s :
  valid_at s h = false ->
  valid_at (with_queue_items (alter (set_valid false) h') s) h = false.
Proof.
  unfold valid_at. simpl. intros Hv. destruct (decide (h' = h)) as [->|Hne].
  - rewrite list_lookup_alter_eq. by destruct (queue_items s !! h).
  - by rewrite list_lookup_alter_ne.
Qed.

Lemma invalidate_computations_of_wound_down d s :
  returns (invalidate_computations_of d) s (fun _ s' =>
    wound_down s s' /\
    computation_pending_queue s' = computation_pending_queue s /\
    computation_active_items s' = computation_active_items s /\
    trace s' = trace s).
Proof.
  unfold invalidate_computations_of.
  eapply returns_bind; [apply returns_gets_eq|]. intros pending ? [_ ->].
  eapply returns_bind; [apply returns_gets_eq|]. intros active ? [_ ->].
  apply (returns_for (fun _ s' => wound_down s s' /\
    computation_pending_queue s' = computation_pending_queue s /\
    computation_active_items s' = computation_active_items s /\
    trace s' = trace s)).
  { split; [apply wound_down_refl|done]. }
  intros done_ h rest st _ (Hw & Hp & Ha & Ht).
  eapply returns_bind; [apply returns_gets_eq|].
  intros q0 ? [-> ->]. destruct (queue_items st !! h) as [q|]; [|by apply returns_ret].
  destruct (bool_decide _); simpl; [|by apply returns_ret].
  unfold invalidate. apply returns_modify. split; [|done].
  eapply wound_down_trans; [exact Hw|].
  split; [done|]. split; [done|]. split; [done|]. intros h0. apply valid_at_alter.
Qed.

Lemma index_of_Some_elem x l i : index_of x l = Some i -> x ∈ l.
Proof.
  revert i. induction l as [|y l IH]; intros i; simpl; [done|].
  destruct (decide (y = x)) as [->|Hne]; [by left|].
  destruct (index_of x l) as [j|]; [|done]. intros _. right. by eapply IH.
Qed.

Lemma elem_of_delete {A} (x : A) i (l : list A) : x ∈ delete i l -> x ∈ l.
Proof.
  revert i. induction l as [|y l IH]; intros [|i]; simpl; try done.
  - by right.
  - intros [->|H]%elem_of_cons; [by left|]. right. by eapply IH.
Qed.

Section Absent.

Variable rank : DataItem -> nat.

(** Whatever the document holds, [remove_data_item] returns or fails an
    assertion; it returns only for a data item of the document. *)
Lemma remove_data_item_outcome (n : nat) : forall d s,
  (rank d < n)%nat ->
  well_formed_graph rank s ->
  returns_or_asserts (remove_data_item n d) s
    (fun _ s' => wound_down s s' /\ d ∈ data_items s)
    (fun s' => wound_down s s').
Proof.
  induction n as [|n IH]; intros d s Hrank Hwf; [lia|].
  cbn [remove_data_item].
  eapply returns_or_asserts_bind.
  { apply returns_or_asserts_returns. apply invalidate_computations_of_wound_down. }
  intros ? s1 (Hw1 & _).
  eapply returns_or_asserts_bind; [apply returns_or_asserts_returns, returns_emit_eq|].
  intros ? s2 ->.
  eapply returns_or_asserts_bind; [apply returns_or_asserts_returns, returns_gets_eq|].
  intros deps ? [Hdeps ->].
  set (s2 := with_trace _ s1) in *.
  assert (Hw2 : wound_down s s2).
  { eapply wound_down_trans; [exact Hw1|apply wound_down_emit]. }
  assert (Hg2 : same_graph s s2) by apply Hw2.
  rewrite (same_graph_dependents s s2) in Hdeps by done.
  eapply returns_or_asserts_bind.
  { apply (returns_or_asserts_for (fun st => wound_down s st)); [done|].
    intros o st Ho Hst.
    eapply returns_or_asserts_bind; [apply returns_or_asserts_returns, returns_gets_eq|].
    intros srcs ? [-> ->].
    destruct (bool_decide (sources_of st o = [d])); simpl; [|done].
    assert (Hro : (rank o < rank d)%nat).
    { apply (wf_rank rank s Hwf). by rewrite <- Hdeps. }
    pose proof (IH o st ltac:(lia)
                  (well_formed_same_graph rank s st ltac:(apply Hst) Hwf)) as H.
    unfold returns_or_asserts in *.
    destruct (remove_data_item n o st) as [[] st'|[] st'|]; try done.
    - destruct H as [H _]. by eapply wound_down_trans.
    - by eapply wound_down_trans. }
  intros ? s4 Hw4. cbv beta in Hw4.
  eapply returns_or_asserts_bind; [apply returns_or_asserts_returns, returns_modify_eq|].
  intros ? ? ->.
  eapply returns_or_asserts_bind; [apply returns_or_asserts_returns, returns_emit_eq|].
  intros ? ? ->.
  eapply returns_or_asserts_bind; [apply returns_or_asserts_returns, returns_gets_eq|].
  intros items ? [-> ->]. cbn [data_items with_trace with_buffered_data_source_set].
  assert (Hw6 : wound_down s
            (with_trace (fun t => t ++ [EvAboutToBeRemoved d])
               (with_buffered_data_source_set
                  (fun b => b ∖ list_to_set (data_sources d)) s4))).
  { eapply wound_down_trans; [exact Hw4|].
    eapply wound_down_trans; [|apply wound_down_emit]. by split; [|split; [|split]]. }
  destruct (index_of d (data_items s4)) as [index|] eqn:Hi.
  - apply index_of_Some_elem in Hi.
    apply returns_or_asserts_returns.
    eapply returns_bind; [apply returns_modify_eq|]. intros ? ? ->.
    eapply returns_bind; [apply returns_emit_eq|]. intros ? ? ->.
    eapply returns_bind; [apply returns_emit_eq|]. intros ? ? ->.
    apply returns_emit. split; [|by apply Hw4].
    eapply wound_down_trans; [exact Hw6|].
    split; [done|]. split; [|split; [|done]].
    + intros x. simpl. apply elem_of_delete.
    + intros e He. simpl in *. rewrite !elem_of_app. rewrite elem_of_app in He. tauto.
  - exact Hw6.
Qed.

End Absent.

(** X11. With a well-formed graph and recursion depth for its rank,
    [remove_data_item] returns or fails an assertion, and it returns only
    for a data item that is in the document. For a data item that is not,
    the [AssertionError] comes late: the queue items of its data sources
    are invalid by then and the notification that it will be removed has
    gone out; data items may have left the document, none has come in. *)
Theorem remove_data_item_of_absent_item (rank : DataItem -> nat) (s : State)
    (d : DataItem) (fuel : nat) :
  well_formed_graph rank s -> (rank d < fuel)%nat ->
  exists s',
    (remove_data_item fuel d s = Ok tt s' /\ d ∈ data_items s \/
     remove_data_item fuel d s = Raise AssertionError s') /\
    (d ∉ data_items s -> remove_data_item fuel d s = Raise AssertionError s') /\
    EvDataItemWillBeRemoved d ∈ trace s' /\
    (forall x, x ∈ data_items s' -> x ∈ data_items s) /\
    (forall h q, h ∈ computation_pending_queue s ++ computation_active_items s ->
       queue_items s !! h = Some q -> qi_buffered_data_source q ∈ data_sources d ->
       valid_at s' h = false).
Proof.
  intros Hwf Hrank. destruct fuel as [|fuel]; [lia|].
  assert (Hinv : forall h q,
            h ∈ computation_pending_queue s ++ computation_active_items s ->
            queue_items s !! h = Some q -> qi_buffered_data_source q ∈ data_sources d ->
            match remove_data_item (S fuel) d s with
            | Ok _ s1 | Raise _ s1 => valid_at s1 h = false
            | OutOfFuel => True
            end).
  { intros h q Hh Hq Hb. pose proof (remove_data_item_invalidates fuel d s h q Hh Hq Hb) as H.
    destruct (remove_data_item (S fuel) d s); [apply H|apply H|done]. }
  assert (Hev : match remove_data_item (S fuel) d s with
                | Ok _ s1 | Raise _ s1 => EvDataItemWillBeRemoved d ∈ trace s1
                | OutOfFuel => True
                end).
  { cbn [remove_data_item].
    pose proof (invalidate_computations_of_wound_down d s) as H1.
    apply returns_elim in H1 as ([] & s1 & E1 & Hs1).
    unfold bind at 1. rewrite E1. unfold bind at 1, emit at 1, modify at 1.
    set (s2 := with_trace _ s1).
    assert (H2 : EvDataItemWillBeRemoved d ∈ trace s2).
    { simpl. apply elem_of_app. right. by left. }
    pose proof (remove_data_item_outcome rank (S fuel) d s Hrank Hwf) as Hout.
    match goal with |- match ?m s2 with _ => _ end =>
      assert (Hp : preserves (fun st => EvDataItemWillBeRemoved d ∈ trace st) m);
        [|exact (Hp s2 H2)] end.
    assert (Hrec : forall n x,
              preserves (fun st => EvDataItemWillBeRemoved d ∈ trace st)
                (remove_data_item n x)).
    { induction n as [|n IHn]; intros x; simpl; [apply preserves_out_of_fuel|].
      unfold invalidate_computations_of, invalidate, get_dependent_data_items,
        get_source_data_items.
      repeat first
        [ frame_step
        | apply IHn
        | (unfold emit; apply preserves_modify; intros ? ?; simpl; apply elem_of_app; by left) ]. }
    unfold get_dependent_data_items, get_source_data_items.
    repeat first
      [ frame_step
      | apply Hrec
      | (unfold emit; apply preserves_modify; intros ? ?; simpl; apply elem_of_app; by left) ]. }
  pose proof (remove_data_item_outcome rank (S fuel) d s Hrank Hwf) as Hout.
  unfold returns_or_asserts in Hout.
  destruct (remove_data_item (S fuel) d s) as [[] s'|[] s'|] eqn:E; try done.
  - destruct Hout as [Hw Hd]. exists s'. split; [by left|]. split; [done|].
    split; [done|]. split; [apply Hw|]. exact Hinv.
  - exists s'. split; [by right|]. split; [done|].
    split; [done|]. split; [apply Hout|]. exact Hinv.
Qed.

Lemma remove_data_item_of_absent_item_witness :
  exists s',
    remove_data_item 1 (mkDataItem 5 5 []) example_document = Raise AssertionError s' /\
    EvDataItemWillBeRemoved (mkDataItem 5 5 []) ∈ trace s'.
Proof.
  destruct (remove_data_item_of_absent_item example_rank example_document
              (mkDataItem 5 5 []) 1 example_well_formed)
    as (s' & _ & Habsent & Hev & _).
  - vm_compute. lia.
  - exists s'. split; [|done]. apply Habsent.
    apply (bool_decide_unpack _). vm_compute. exact I.
Defined.

Example remove_data_item_absent_example :
  remove_data_item 1 (mkDataItem 5 5 []) example_document =
  Raise AssertionError
    (with_trace (fun _ => [EvDataItemWillBeRemoved (mkDataItem 5 5 []);
                           EvAboutToBeRemoved (mkDataItem 5 5 [])])
       example_document).
Proof. vm_compute. reflexivity. Qed.

(** ** Clearing a computation *)

Lemma valid_at_set_computation c h h' s :
  valid_at (with_queue_items (alter (set_computation c) h') s) h = valid_at s h.
Proof.
  unfold valid_at. simpl. destruct (decide (h' = h)) as [->|Hne].
  - rewrite list_lookup_alter_eq. by destruct (queue_items s !! h).
  - by rewrite list_lookup_alter_ne.
Qed.

(** A listener for another buffered data source adds no pending item for
    [b] and makes no invalid item valid. *)
Lemma computation_needs_update_other d' b' c' b s :
  queue_ok s -> b' <> b ->
  returns (computation_needs_update d' b' c') s (fun _ s' =>
    queue_ok s' /\
    filter (fun x => x = b) (pending_sources s') = filter (fun x => x = b) (pending_sources s) /\
    (length (queue_items s) <= length (queue_items s'))%nat /\
    (forall h, (h < length (queue_items s))%nat -> valid_at s' h = valid_at s h) /\
    computation_changed_listeners s' = computation_changed_listeners s).
Proof.
  intros Hok Hne. unfold returns.
  pose proof (computation_needs_update_queue_ok d' b' c' s Hok) as Hok'.
  destruct (find_queue_item (queue_items s) b' (computation_pending_queue s)) as [h'|] eqn:E.
  - rewrite (computation_needs_update_coalesces _ _ _ _ h') in Hok' |- * by done.
    split; [done|]. split; [|split; [|split; [|done]]].
    + unfold pending_sources. simpl. by rewrite sources_of_refs_alter.
    + simpl. by rewrite length_alter.
    + intros h _. apply valid_at_set_computation.
  - rewrite computation_needs_update_enqueues in Hok' |- * by done.
    split; [done|]. split; [|split; [|split; [|done]]].
    + unfold pending_sources. simpl. unfold sources_of_refs at 1.
      rewrite omap_app. fold (sources_of_refs (queue_items s ++
        [mkComputationQueueItem d' b' c' true]) (computation_pending_queue s)).
      rewrite sources_of_refs_app by apply Hok. simpl.
      rewrite lookup_app_r by lia. rewrite Nat.sub_diag. simpl.
      rewrite filter_app, filter_cons_False by done. by rewrite filter_nil, app_nil_r.
    + simpl. rewrite length_app. lia.
    + intros h Hh. unfold valid_at. simpl. by rewrite lookup_app_l.
Qed.



(** ** An evaluation that raises *)

(** X13. When the evaluation of the computation at the head of the pending
    queue raises, [__recompute] still returns: the exception is caught,
    the error text of the computation is set, nothing is written back to
    the data item, the computation still needs its update, and the queue
    item has left both the pending queue and the active list. No task is
    queued to try again. *)
Theorem failed_evaluation_is_reported
    (ev : Computation -> DataItem -> State -> option bool)
    (s : State) (h : QueueRef) (rest : list QueueRef) (q : ComputationQueueItem) :
  computation_pending_queue s = h :: rest ->
  queue_items s !! h = Some q ->
  qi_computation q ∈ needs_update s ->
  (forall st, ev (qi_computation q) (qi_data_item q) st = None) ->
  exists s',
    recompute ev s = Ok tt s' /\
    trace s' = trace s ++ [EvEvaluateWithTarget (qi_computation q) (qi_data_item q);
                           EvErrorText (qi_computation q)] /\
    merges s' = merges s /\
    qi_computation q ∈ needs_update s' /\
    computation_pending_queue s' = rest /\
    computation_active_items s' ≡ₚ computation_active_items s /\
    recompute_tasks s' = recompute_tasks s.
Proof.
  intros Hp Hq Hnu Hev.
  destruct (remove_ref_last h (computation_active_items s)) as [act Hrm].
  assert (Hact : act ≡ₚ computation_active_items s).
  { apply remove_ref_perm in Hrm. rewrite <- Permutation_cons_append in Hrm.
    symmetry. by eapply Permutation_cons_inv. }
  unfold recompute, recompute_with, recompute_take, bind, gets. rewrite Hp.
  unfold modify at 1 2. unfold ret at 1.
  cbn [queue_items with_computation_active_items with_computation_pending_queue].
  rewrite Hq.
  unfold try_except, recompute_try, bind, gets, emit, modify, when, raise, ret.
  cbn [needs_update with_computation_active_items with_computation_pending_queue with_trace].
  rewrite bool_decide_eq_true_2 by done. rewrite Hev. cbn -[remove_ref].
  rewrite Hrm. cbn. eexists. split; [reflexivity|]. cbn.
  split; [by rewrite <- app_assoc|]. split; [|done].
  unfold merges. cbn. rewrite !filter_app. cbn. by rewrite !app_nil_r.
Qed.

Lemma failed_evaluation_is_reported_witness :
  exists s',
    recompute (fun _ _ _ => None) queued_document = Ok tt s' /\
    trace s' = [EvEvaluateWithTarget 7%nat item_b; EvErrorText 7%nat] /\
    computation_pending_queue s' = [].
Proof.
  destruct (failed_evaluation_is_reported (fun _ _ _ => None) queued_document O []
              (mkComputationQueueItem item_b (mkBufferedDataSource 2 12) 7%nat true))
    as (s' & E & Ht & _ & _ & Hp & _).
  - reflexivity.
  - reflexivity.
  - apply (bool_decide_unpack _). vm_compute. exact I.
  - reflexivity.
  - exists s'. split; [exact E|]. split; [exact Ht|exact Hp].
Defined.

(** ** A begin and its end *)

Section Exact.

Variable rank : DataItem -> nat.
Variable U : DataItem -> Prop.

Lemma tight_covered k sigma s : tight U k sigma s -> covered U k sigma s.
Proof. intros H z Hz. rewrite (H z Hz). lia. Qed.

Lemma tight_transfer k sigma s s' :
  graph_ok rank U s -> same_graph s s' ->
  (forall z, U z -> count_of k s' z = count_of k s z) ->
  tight U k sigma s -> tight U k sigma s'.
Proof.
  intros Hg Hs Hc Ht z Hz. rewrite Hc by done.
  rewrite (holders_keep rank U k s s' z) by (try done; intros x Hx; by rewrite Hc).
  by apply Ht.
Qed.

(** [begin_cascade] counts [y] once more, and below [y] exactly what [y]
    newly holds. *)
Lemma begin_cascade_tight k fuel : forall y s sigma,
  graph_ok rank U s -> U y -> (rank y < fuel)%nat ->
  (forall z, U z -> 0 <= count_of k s z) ->
  tight U k sigma s ->
  consistent U (fun z => (rank z <= rank y)%nat) k s ->
  returns (begin_cascade k fuel y) s (fun _ s' =>
    frame k s s' /\
    (forall z, U z -> 0 <= count_of k s' z) /\
    tight U k (fun z => sigma z + occ z [y]) s' /\
    consistent U (fun z => (rank z <= rank y)%nat) k s' /\
    untouched U (fun z => (rank y < rank z)%nat) k s s').
Proof.
  induction fuel as [|fuel IH]; intros y s sigma Hg Hy Hfuel Hnn Hcov Hcons; [lia|].
  rewrite begin_cascade_unfold. apply returns_bind_gets. apply returns_bind_modify.
  set (old := count_of k s y). set (s1 := set_count k y (old + 1) s).
  assert (Hold : 0 <= old) by (by apply Hnn).
  assert (Hc1 : forall z, U z ->
            count_of k s1 z = if decide (z = y) then old + 1 else count_of k s z).
  { intros z Hz. by apply (count_of_set_count_in rank U). }
  assert (Hg1 : same_graph s s1) by apply same_graph_set_count.
  assert (Hf1 : flagged k s1 = flagged k s) by apply flagged_set_count.
  destruct (old =? 0) eqn:E.
  - apply Z.eqb_eq in E.
    eapply returns_bind; [apply returns_enter_state|].
    intros _ s2 (Hg2 & Hc2 & Hf2 & Ho2). cbv beta.
    unfold get_dependent_data_items. apply returns_bind_gets.
    assert (Hg02 : same_graph s s2) by (by eapply same_graph_trans).
    rewrite (same_graph_dependents s s2) by done.
    set (deps := dependents_of s y).
    assert (Hc02 : forall z, U z -> count_of k s2 z = count_of k s z + occ z [y]).
    { intros z Hz. rewrite Hc2, Hc1 by done. rewrite occ_cons, occ_nil.
      destruct (decide (z = y)) as [->|N].
      - rewrite decide_True by done. fold old. lia.
      - rewrite decide_False by (intros ->; done). lia. }
    assert (Hh2 : forall z, U z ->
              holders k s2 z = holders k s z + occ y (sources_of s z)).
    { intros z Hz. apply (holders_gain rank U); try done.
      - intros x Hx Hne. rewrite Hc02 by done.
        rewrite occ_cons, occ_nil, decide_False by (intros ->; done). by rewrite Z.add_0_r.
      - fold old. lia.
      - rewrite Hc02 by done. rewrite occ_cons, occ_nil, decide_True by done.
        fold old. lia. }
    eapply returns_conseq.
    { apply (returns_for (fun done_ t =>
        frame k s t /\
        (forall z, U z -> 0 <= count_of k t z) /\
        tight U k (fun z => sigma z + occ z [y] - occ z deps + occ z done_) t /\
        consistent U (fun z => (rank z <= rank y)%nat) k t /\
        untouched U (fun z => (rank y <= rank z)%nat) k s2 t)).
      - split; [|split; [|split; [|split]]].
        + split; [done|]. intros k' Hk. split.
          * intros z. rewrite Hc2. unfold s1. rewrite count_of_set_count.
            by rewrite decide_False by (by intros [? _]).
          * rewrite Ho2 by done. unfold s1. apply flagged_set_count.
        + intros z Hz. rewrite Hc02 by done. pose proof (occ_nonneg z [y]).
          specialize (Hnn z Hz). lia.
        + intros z Hz. rewrite occ_nil, Hc02, Hh2 by done.
          unfold deps. rewrite (occ_dependents_sources rank U s y z) by done.
          specialize (Hcov z Hz). lia.
        + intros z Hz Hr. rewrite Hf2, Hf1, Hc02 by done.
          rewrite occ_cons, occ_nil. destruct (decide (y = z)) as [<-|N].
          * fold old. split; [lia|set_solver].
          * pose proof (Hcons z Hz Hr) as Hz'. split.
            -- intros H. apply elem_of_union in H as [H|H].
               ++ apply elem_of_singleton in H. by subst.
               ++ apply Hz' in H. lia.
            -- intros H. apply elem_of_union_r, Hz'. lia.
        + intros z _. done.
      - intros done_ x rest t Hdeps (Hfr & Hnn' & Hcov' & Hcons' & Hun).
        assert (Hx : x ∈ dependents_of s y).
        { fold deps. rewrite Hdeps. apply elem_of_app. right. left. }
        assert (HUx : U x) by (by eapply (graph_dependents _ _ _ Hg)).
        assert (Hrx : (rank x < rank y)%nat) by (by apply (wf_rank _ _ (graph_wf _ _ _ Hg))).
        assert (Hgt : graph_ok rank U t)
          by (eapply (graph_ok_same_graph rank U); [apply Hfr|done]).
        eapply returns_conseq.
        { apply (IH x t (fun z => sigma z + occ z [y] - occ z deps + occ z done_));
            try done; [lia|].
          intros z Hz Hr. apply Hcons'; [done|lia]. }
        intros _ t' (Hfr' & Hnn'' & Hcov'' & Hcons'' & Hun'). cbv beta.
        split; [by eapply frame_trans|]. split; [done|]. split; [|split].
        + intros z Hz. rewrite occ_app. specialize (Hcov'' z Hz). cbv beta in Hcov''. lia.
        + intros z Hz Hr. destruct (decide (rank z <= rank x)%nat) as [Hle|Hgt'].
          * by apply Hcons''.
          * destruct (Hun' z) as [Hc Hf]; [lia|]. rewrite Hf, Hc by done.
            by apply Hcons'.
        + intros z Hr. destruct (Hun z Hr) as [Hc Hf], (Hun' z) as [Hc' Hf']; [lia|].
          split; [intros Hz; by rewrite Hc', Hc|by rewrite Hf', Hf]. }
    intros _ t (Hfr & Hnn' & Hcov' & Hcons' & Hun). cbv beta.
    split; [done|]. split; [done|]. split; [|split; [done|]].
    + intros z Hz. specialize (Hcov' z Hz). cbv beta in Hcov'. lia.
    + intros z Hr. destruct (Hun z) as [Hc Hf]; [lia|]. split.
      * intros Hz. rewrite Hc, Hc02 by done.
        rewrite occ_cons, occ_nil, decide_False by (intros ->; lia). lia.
      * rewrite Hf, Hf2, Hf1. split; [|set_solver]. intros H.
        apply elem_of_union in H as [H|H]; [|done].
        apply elem_of_singleton in H. subst. lia.
  - apply Z.eqb_neq in E. apply returns_ret.
    assert (Hsame : forall x, U x -> (0 < count_of k s x <-> 0 < count_of k s1 x)).
    { intros x Hx. rewrite Hc1 by done. destruct (decide (x = y)) as [->|N]; [|done].
      fold old. lia. }
    split; [apply frame_set_count|]. split; [|split; [|split]].
    + intros z Hz. rewrite Hc1 by done. destruct (decide (z = y)); [lia|by apply Hnn].
    + intros z Hz. rewrite (holders_keep rank U k s s1 z), Hc1 by done.
      rewrite occ_cons, occ_nil. specialize (Hcov z Hz).
      destruct (decide (z = y)) as [->|N].
      * rewrite decide_True by done. fold old in Hcov. lia.
      * rewrite decide_False by (intros ->; done). lia.
    + intros z Hz Hr. rewrite Hf1, <- Hsame by done. by apply Hcons.
    + intros z Hr. split; [|by rewrite Hf1].
      intros Hz. rewrite Hc1 by done. rewrite decide_False; [done|]. intros ->. lia.
Qed.

Lemma end_cascade_loop_tight k fuel y s sigma :
  (forall x t tau,
     graph_ok rank U t -> U x -> (rank x < fuel)%nat ->
     (forall z, 0 <= tau z) ->
     tight U k (fun z => tau z + occ z [x]) t ->
     consistent U (fun z => (rank z <= rank x)%nat) k t ->
     returns (end_cascade k fuel x) t (fun _ t' =>
       frame k t t' /\ tight U k tau t' /\
       consistent U (fun z => (rank z <= rank x)%nat) k t' /\
       untouched U (fun z => (rank x < rank z)%nat) k t t')) ->
  graph_ok rank U s -> U y -> (rank y <= fuel)%nat ->
  (forall z, 0 <= sigma z) ->
  tight U k (fun z => sigma z + occ z (dependents_of s y)) s ->
  consistent U (fun z => (rank z < rank y)%nat) k s ->
  returns (for_ (dependents_of s y) (end_cascade k fuel)) s (fun _ s' =>
    frame k s s' /\ tight U k sigma s' /\
    consistent U (fun z => (rank z < rank y)%nat) k s' /\
    untouched U (fun z => (rank y <= rank z)%nat) k s s').
Proof.
  intros IH Hg Hy Hfuel Hsig Hcov Hcons.
  set (deps := dependents_of s y) in *.
  eapply returns_conseq.
  { apply (returns_for (fun done_ t =>
      frame k s t /\
      tight U k (fun z => sigma z + occ z deps - occ z done_) t /\
      consistent U (fun z => (rank z < rank y)%nat) k t /\
      untouched U (fun z => (rank y <= rank z)%nat) k s t)).
    - split; [apply frame_refl|]. split; [|split; [done|by intros z _]].
      intros z Hz. rewrite occ_nil. specialize (Hcov z Hz). cbv beta in Hcov. lia.
    - intros done_ x rest t Hdeps (Hfr & Hcov' & Hcons' & Hun).
      assert (Hx : x ∈ dependents_of s y).
      { fold deps. rewrite Hdeps. apply elem_of_app. right. left. }
      assert (HUx : U x) by (by eapply (graph_dependents _ _ _ Hg)).
      assert (Hrx : (rank x < rank y)%nat) by (by apply (wf_rank _ _ (graph_wf _ _ _ Hg))).
      assert (Hgt : graph_ok rank U t)
        by (eapply (graph_ok_same_graph rank U); [apply Hfr|done]).
      eapply returns_conseq.
      { apply (IH x t (fun z => sigma z + occ z rest)); try done; [lia| | |].
        - intros z. pose proof (occ_nonneg z rest). specialize (Hsig z). lia.
        - intros z Hz. specialize (Hcov' z Hz). cbv beta in Hcov'.
          rewrite Hdeps, !occ_app in Hcov'. rewrite (occ_cons z x rest) in Hcov'.
          rewrite occ_cons, occ_nil. lia.
        - intros z Hz Hr. apply Hcons'; [done|lia]. }
      intros _ t' (Hfr' & Hcov'' & Hcons'' & Hun'). cbv beta.
      split; [by eapply frame_trans|]. split; [|split].
      + intros z Hz. specialize (Hcov'' z Hz). cbv beta in Hcov''.
        rewrite Hdeps, !occ_app. rewrite (occ_cons z x rest), occ_cons, occ_nil. lia.
      + intros z Hz Hr. destruct (decide (rank z <= rank x)%nat) as [Hle|Hgt'].
        * by apply Hcons''.
        * destruct (Hun' z) as [Hc Hf]; [lia|]. rewrite Hf, Hc by done.
          by apply Hcons'.
      + intros z Hr. destruct (Hun z Hr) as [Hc Hf], (Hun' z) as [Hc' Hf']; [lia|].
        split; [intros Hz; by rewrite Hc', Hc|by rewrite Hf', Hf]. }
  intros _ t (Hfr & Hcov' & Hcons' & Hun). cbv beta.
  split; [done|]. split; [|done].
  intros z Hz. specialize (Hcov' z Hz). cbv beta in Hcov'. lia.
Qed.

(** [end_cascade] counts [y] once less, and below [y] exactly what [y] no
    longer holds. *)
Lemma end_cascade_tight k fuel : forall y s sigma,
  graph_ok rank U s -> U y -> (rank y < fuel)%nat ->
  (forall z, 0 <= sigma z) ->
  tight U k (fun z => sigma z + occ z [y]) s ->
  consistent U (fun z => (rank z <= rank y)%nat) k s ->
  returns (end_cascade k fuel y) s (fun _ s' =>
    frame k s s' /\ tight U k sigma s' /\
    consistent U (fun z => (rank z <= rank y)%nat) k s' /\
    untouched U (fun z => (rank y < rank z)%nat) k s s').
Proof.
  induction fuel as [|fuel IH]; intros y s sigma Hg Hy Hfuel Hsig Hcov Hcons; [lia|].
  rewrite end_cascade_unfold. apply returns_bind_gets.
  set (old := count_of k s y).
  assert (Hold : 1 <= old).
  { specialize (Hcov y Hy). cbv beta in Hcov.
    rewrite occ_cons, occ_nil, decide_True in Hcov by done.
    pose proof (holders_nonneg k s y). specialize (Hsig y). fold old in Hcov. lia. }
  apply returns_bind_assert; [lia|]. apply returns_bind_modify.
  set (s1 := set_count k y (old - 1) s).
  assert (Hc1 : forall z, U z ->
            count_of k s1 z = if decide (z = y) then old - 1 else count_of k s z).
  { intros z Hz. by apply (count_of_set_count_in rank U). }
  assert (Hc1' : forall z, U z -> count_of k s1 z = count_of k s z - occ z [y]).
  { intros z Hz. rewrite Hc1 by done. rewrite occ_cons, occ_nil.
    destruct (decide (z = y)) as [->|N].
    - rewrite decide_True by done. fold old. lia.
    - rewrite decide_False by (intros ->; done). lia. }
  assert (Hg1 : same_graph s s1) by apply same_graph_set_count.
  assert (Hf1 : flagged k s1 = flagged k s) by apply flagged_set_count.
  assert (Hfr1 : frame k s s1) by apply frame_set_count.
  assert (Hgo1 : graph_ok rank U s1) by (by eapply (graph_ok_same_graph rank U)).
  destruct (old - 1 =? 0) eqn:E.
  - apply Z.eqb_eq in E.
    assert (Hh1 : forall z, U z ->
              holders k s z = holders k s1 z + occ y (sources_of s z)).
    { intros z Hz. rewrite <- (same_graph_sources s s1 z) by done.
      apply (holders_gain rank U); try done.
      - by apply same_graph_sym.
      - intros x Hx Hne. rewrite Hc1, decide_False by done. done.
      - rewrite Hc1, decide_True by done. lia.
      - fold old. lia. }
    assert (Hcov1 : tight U k (fun z => sigma z + occ z (dependents_of s1 y)) s1).
    { intros z Hz. rewrite (same_graph_dependents s s1) by done.
      rewrite (occ_dependents_sources rank U s y z) by done.
      specialize (Hcov z Hz). cbv beta in Hcov. rewrite Hc1', (Hh1 z) in * by done. lia. }
    assert (Hcons1 : consistent U (fun z => (rank z < rank y)%nat) k s1).
    { intros z Hz Hr. rewrite Hf1, Hc1, decide_False by (try done; intros ->; lia).
      apply Hcons; [done|lia]. }
    assert (Hloop : forall t, graph_ok rank U t ->
              tight U k (fun z => sigma z + occ z (dependents_of t y)) t ->
              consistent U (fun z => (rank z < rank y)%nat) k t ->
              returns (for_ (dependents_of t y) (end_cascade k fuel)) t (fun _ s' =>
                frame k t s' /\ tight U k sigma s' /\
                consistent U (fun z => (rank z < rank y)%nat) k s' /\
                untouched U (fun z => (rank y <= rank z)%nat) k t s')).
    { intros t Hgt Hcovt Hconst.
      apply end_cascade_loop_tight; first [done | lia | intros x t0 tau; apply IH]. }
    assert (Hfinish : forall s',
              frame k s1 s' -> tight U k sigma s' ->
              consistent U (fun z => (rank z < rank y)%nat) k s' ->
              y ∉ flagged k s' ->
              (forall z, (rank y <= rank z)%nat ->
                 (U z -> count_of k s' z = count_of k s1 z) /\
                 (z <> y -> (z ∈ flagged k s' <-> z ∈ flagged k s1))) ->
              frame k s s' /\ tight U k sigma s' /\
              consistent U (fun z => (rank z <= rank y)%nat) k s' /\
              untouched U (fun z => (rank y < rank z)%nat) k s s').
    { intros s' Hfr Hcov' Hcons' Hny Hun.
      split; [by eapply frame_trans|]. split; [done|split].
      - intros z Hz Hr. destruct (decide (rank z < rank y)%nat) as [Hlt|Hge].
        { by apply Hcons'. }
        destruct (Hun z) as [Hc Hf]; [lia|]. rewrite Hc by done.
        destruct (decide (z = y)) as [->|N].
        + rewrite Hc1, decide_True by done. split; [done|lia].
        + rewrite Hf, Hf1, Hc1, decide_False by done. by apply Hcons.
      - intros z Hr. destruct (Hun z) as [Hc Hf]; [lia|]. split.
        + intros Hz. rewrite Hc, Hc1, decide_False by (try done; intros ->; lia). done.
        + rewrite Hf, Hf1 by (intros ->; lia). done. }
    destruct k.
    + unfold get_dependent_data_items. apply returns_bind_gets.
      eapply returns_bind; [by apply Hloop|].
      intros _ t (Hfr & Hcov' & Hcons' & Hun). cbv beta.
      eapply returns_conseq; [apply (returns_exit_state Transaction)|].
      intros _ s' (Hg' & Hc' & Hf' & Ho'). cbv beta.
      assert (Hgt : graph_ok rank U t)
        by (eapply (graph_ok_same_graph rank U); [apply Hfr|done]).
      apply Hfinish.
      * eapply frame_trans; [exact Hfr|]. split; [done|].
        intros k' Hk. split; [intros z; apply Hc'|by apply Ho'].
      * eapply tight_transfer; [exact Hgt|done| |done]. intros z _. apply Hc'.
      * intros z Hz Hr. rewrite Hf', Hc'. specialize (Hcons' z Hz Hr).
        rewrite <- Hcons'. split; [set_solver|]. intros H.
        apply elem_of_difference. split; [done|]. intros H'%elem_of_singleton. subst. lia.
      * rewrite Hf'. set_solver.
      * intros z Hr. destruct (Hun z Hr) as [Hc Hf]. split.
        -- intros Hz. rewrite Hc'. by apply Hc.
        -- intros N. rewrite Hf', <- Hf. split; [set_solver|]. intros H.
           apply elem_of_difference. split; [done|]. by intros H'%elem_of_singleton.
    + eapply returns_bind; [apply (returns_exit_state Live)|].
      intros _ s2 (Hg2 & Hc2 & Hf2 & Ho2). cbv beta.
      unfold get_dependent_data_items. apply returns_bind_gets.
      assert (Hgo2 : graph_ok rank U s2) by (by eapply (graph_ok_same_graph rank U)).
      eapply returns_conseq.
      { apply Hloop; [done| |].
        - rewrite (same_graph_dependents s1 s2) by done.
          eapply tight_transfer; [exact Hgo1|done| |done]. intros z _. apply Hc2.
        - intros z Hz Hr. rewrite Hf2, Hc2. specialize (Hcons1 z Hz Hr).
          rewrite <- Hcons1. split; [set_solver|]. intros H.
          apply elem_of_difference. split; [done|].
          intros H'%elem_of_singleton. subst. lia. }
      intros _ s' (Hfr & Hcov' & Hcons' & Hun). cbv beta.
      apply Hfinish; try done.
      * eapply frame_trans; [|exact Hfr]. split; [done|].
        intros k' Hk. split; [intros z; apply Hc2|by apply Ho2].
      * destruct (Hun y) as [_ Hf]; [lia|]. rewrite Hf, Hf2. set_solver.
      * intros z Hr. destruct (Hun z Hr) as [Hc Hf]. split.
        -- intros Hz. rewrite Hc by done. apply Hc2.
        -- intros N. rewrite Hf, Hf2. split; [set_solver|]. intros H.
           apply elem_of_difference. split; [done|]. by intros H'%elem_of_singleton.
  - apply Z.eqb_neq in E. apply returns_ret.
    assert (Hsame : forall x, U x -> (0 < count_of k s x <-> 0 < count_of k s1 x)).
    { intros x Hx. rewrite Hc1 by done. destruct (decide (x = y)) as [->|N]; [|done].
      fold old. lia. }
    split; [done|]. split; [|split].
    + intros z Hz. rewrite (holders_keep rank U k s s1 z), Hc1' by done.
      specialize (Hcov z Hz). cbv beta in Hcov. lia.
    + intros z Hz Hr. rewrite Hf1, <- Hsame by done. by apply Hcons.
    + intros z Hr. split; [|by rewrite Hf1].
      intros Hz. rewrite Hc1 by done. rewrite decide_False; [done|]. intros ->. lia.
Qed.

(** Counts that leave the same surplus over the holders are the same
    counts, above rank [n] if they are the same there. *)
Lemma tight_unique k sigma s s' (n : nat) :
  graph_ok rank U s -> same_graph s s' ->
  tight U k sigma s -> tight U k sigma s' ->
  (forall z, U z -> (n < rank z)%nat -> count_of k s' z = count_of k s z) ->
  forall z, U z -> count_of k s' z = count_of k s z.
Proof.
  intros Hg Hs Ht Ht' Habove.
  assert (G : forall m z, U z -> (n + 1 - rank z <= m)%nat ->
            count_of k s' z = count_of k s z).
  { induction m as [|m IH]; intros z Hz Hm.
    - apply Habove; [done|lia].
    - destruct (decide (n < rank z)%nat) as [Hgt|Hle]; [by apply Habove|].
      rewrite (Ht z Hz), (Ht' z Hz). f_equal.
      unfold holders. rewrite (same_graph_sources s s') by done.
      apply count_filter_same. intros x Hx.
      assert (HUx : U x) by (by eapply (graph_sources _ _ _ Hg)).
      rewrite (IH x HUx); [done|].
      assert (Hrx : (rank z < rank x)%nat).
      { apply (wf_rank _ _ (graph_wf _ _ _ Hg)).
        apply occ_pos. rewrite (occ_dependents_sources rank U s x z Hg).
        by apply occ_pos. }
      lia. }
  intros z Hz. by apply (G (n + 1 - rank z)%nat).
Qed.

End Exact.

(** X14. A begin and its end cancel: in a coherent document, a
    [begin_data_item_transaction] ([begin_data_item_live]) of a data item
    followed by the matching end returns and leaves every data item with
    the count and the state it had, in the transaction and in the live
    state alike, whatever hangs below the data item and however it is
    held. *)
Theorem begin_then_end_restores (rank : DataItem -> nat) (U : DataItem -> Prop)
    (k : counter) (fuel : nat) (y : DataItem) (s : State) :
  coherent rank U s -> U y -> (rank y < fuel)%nat ->
  returns (begin_cascade k fuel y ;; end_cascade k fuel y) s (fun _ s' =>
    same_graph s s' /\
    forall k' z, U z ->
      count_of k' s' z = count_of k' s z /\ (z ∈ flagged k' s' <-> z ∈ flagged k' s)).
Proof.
  intros [Hg Hinv] Hy Hfuel. destruct (Hinv k) as [Hcov Hcons].
  set (sigma := fun z => count_of k s z - holders k s z).
  assert (Hsig : forall z, U z -> 0 <= sigma z).
  { intros z Hz. specialize (Hcov z Hz). cbv beta in Hcov. unfold sigma. lia. }
  assert (Hnn : forall z, U z -> 0 <= count_of k s z).
  { intros z Hz. specialize (Hcov z Hz). cbv beta in Hcov.
    pose proof (holders_nonneg k s z). lia. }
  set (tau := fun z => Z.max 0 (sigma z)).
  assert (Ht : tight U k tau s).
  { intros z Hz. unfold tau. specialize (Hsig z Hz). unfold sigma in *. lia. }
  eapply returns_bind.
  { apply (begin_cascade_tight rank U k fuel y s tau); try done.
    intros z Hz _. by apply Hcons. }
  intros _ s1 (Hfr1 & Hnn1 & Ht1 & Hcons1 & Hun1). cbv beta.
  assert (Hg1 : graph_ok rank U s1)
    by (eapply (graph_ok_same_graph rank U); [apply Hfr1|done]).
  eapply returns_conseq.
  { apply (end_cascade_tight rank U k fuel y s1 tau); try done. intros z. unfold tau. lia. }
  intros _ s2 (Hfr2 & Ht2 & Hcons2 & Hun2). cbv beta.
  assert (Hfr : frame k s s2) by (by eapply frame_trans).
  split; [apply Hfr|].
  assert (Hcount : forall z, U z -> count_of k s2 z = count_of k s z).
  { apply (tight_unique rank U k tau s s2 (rank y)); try done; [apply Hfr|].
    intros z Hz Hr. destruct (Hun1 z Hr) as [Hc1 _], (Hun2 z Hr) as [Hc2 _].
    by rewrite Hc2, Hc1. }
  intros k' z Hz. destruct (decide (k' = k)) as [->|Hne].
  - split; [by apply Hcount|].
    destruct (decide (rank z <= rank y)%nat) as [Hle|Hgt].
    + rewrite (Hcons2 z Hz Hle), (Hcons z Hz I), Hcount by done. done.
    + destruct (Hun1 z) as [_ Hf1]; [lia|]. destruct (Hun2 z) as [_ Hf2]; [lia|].
      by rewrite Hf2, Hf1.
  - destruct Hfr as [_ Ho]. destruct (Ho k' Hne) as [Hc Hf]. by rewrite Hc, Hf.
Qed.

Lemma begin_then_end_restores_witness :
  returns (begin_cascade Transaction 2 item_a ;; end_cascade Transaction 2 item_a)
    transaction_document (fun _ s' =>
      same_graph transaction_document s' /\
      forall k' z, example_universe z ->
        count_of k' s' z = count_of k' transaction_document z /\
        (z ∈ flagged k' s' <-> z ∈ flagged k' transaction_document)).
Proof.
  apply (begin_then_end_restores example_rank example_universe Transaction 2 item_a
           transaction_document).
  - exact transaction_document_coherent.
  - apply (bool_decide_unpack _). vm_compute. exact I.
  - vm_compute. lia.
Defined.

(** ** The order in which the states are left *)

Ltac trace_step :=
  first
    [ frame_step
    | (unfold emit; apply preserves_modify; intros ? [? Ht]; simpl; rewrite Ht;
       eexists; by rewrite <- app_assoc) ].

Lemma end_data_item_transaction_trace l fuel d :
  preserves (fun st => exists t, trace st = l ++ t) (end_data_item_transaction fuel d).
Proof.
  revert d. induction fuel as [|fuel IH]; intros d; simpl; [apply preserves_out_of_fuel|].
  unfold get_dependent_data_items, _exit_transaction_state. repeat trace_step. apply IH.
Qed.

Lemma end_data_item_live_trace l fuel d :
  preserves (fun st => exists t, trace st = l ++ t) (end_data_item_live fuel d).
Proof.
  revert d. induction fuel as [|fuel IH]; intros d; simpl; [apply preserves_out_of_fuel|].
  unfold get_dependent_data_items, _exit_live_state. repeat trace_step. apply IH.
Qed.

Lemma end_data_item_live_last fuel s d :
  live_count s d = 1 ->
  end_data_item_live (S fuel) d s =
  for_ (dependents_of s d) (end_data_item_live fuel)
    (with_trace (fun t => t ++ [EvExitLiveState d])
      (with_is_live (fun f => f ∖ {[d]})
        (with_live_data_items <[uuid d := 0]> s))).
Proof.
  intros H. simpl. unfold bind, gets, modify, assert. rewrite H. reflexivity.
Qed.

(** X22. The two states are left in opposite orders. When a data item that
    is counted once, and held by none of its sources, is ended in a
    coherent document, the call returns; [end_data_item_transaction]
    takes the data item out of the transaction state last, after
    everything the cascade does below it, and [end_data_item_live] takes
    it out of the live state first, before the cascade. *)
Theorem states_are_left_in_opposite_orders (rank : DataItem -> nat) (U : DataItem -> Prop)
    (fuel : nat) (y : DataItem) (s : State) :
  coherent rank U s -> U y -> (rank y < fuel)%nat ->
  (transaction_count s y = 1 -> holders Transaction s y = 0 ->
   exists s' t,
     end_data_item_transaction fuel y s = Ok tt s' /\
     trace s' = trace s ++ t ++ [EvExitTransactionState y] /\
     (y ∉ in_transaction_state s')) /\
  (live_count s y = 1 -> holders Live s y = 0 ->
   exists s' t,
     end_data_item_live fuel y s = Ok tt s' /\
     trace s' = trace s ++ [EvExitLiveState y] ++ t /\
     (y ∉ is_live s')).
Proof.
  intros [Hg Hinv] Hy Hfuel.
  assert (Hret : forall k, count_of k s y = 1 -> holders k s y = 0 ->
            returns (end_cascade k fuel y) s (fun _ s' => y ∉ flagged k s')).
  { intros k Hc Hh. destruct (Hinv k) as [Hcov Hcons]. eapply returns_conseq.
    { apply (end_cascade_spec rank U k fuel y s (fun _ => 0)); try done.
      - intros z Hz. rewrite occ_cons, occ_nil. destruct (decide (y = z)) as [<-|Hne].
        + rewrite Hc, Hh. lia.
        + specialize (Hcov z Hz). cbv beta in Hcov. lia.
      - intros z Hz _. by apply Hcons. }
    intros _ s' (_ & Hc' & _ & Hcons' & _). cbv beta.
    rewrite (Hcons' y Hy) by lia. lia. }
  destruct fuel as [|fuel]; [lia|]. split.
  - intros Hc Hh. specialize (Hret Transaction Hc Hh).
    apply returns_elim in Hret as ([] & s' & E & Hout).
    change (end_cascade Transaction) with end_data_item_transaction in E.
    rewrite end_data_item_transaction_last in E |- * by done.
    unfold bind in E |- *.
    pose proof (preserves_for (fun st => exists t, trace st = trace s ++ t)
                  (dependents_of s y) (end_data_item_transaction fuel)
                  (fun x _ => end_data_item_transaction_trace (trace s) fuel x)
                  (with_transactions <[uuid y := 0]> s)) as Hloop.
    change (dependents_of (with_transactions <[uuid y:=0]> s) y) with (dependents_of s y) in *.
    destruct (for_ (dependents_of s y) (end_data_item_transaction fuel)
                (with_transactions <[uuid y := 0]> s)) as [[] s''| |] eqn:E'; try done.
    destruct Hloop as [t Ht]; [exists []; simpl; by rewrite app_nil_r|].
    unfold _exit_transaction_state, bind, modify, emit in E |- *. simpl in E.
    injection E as <-. eexists _, t. split; [reflexivity|]. simpl. rewrite Ht.
    split; [by rewrite <- app_assoc|]. exact Hout.
  - intros Hc Hh. specialize (Hret Live Hc Hh).
    apply returns_elim in Hret as ([] & s' & E & Hout).
    change (end_cascade Live) with end_data_item_live in E.
    rewrite end_data_item_live_last in E |- * by done.
    match type of E with for_ _ _ ?s1 = _ =>
      pose proof (preserves_for (fun st => exists t, trace st = trace s1 ++ t)
                    (dependents_of s y) (end_data_item_live fuel)
                    (fun x _ => end_data_item_live_trace (trace s1) fuel x) s1) as Hloop
    end.
    rewrite E in Hloop |- *. destruct Hloop as [t Ht]; [exists []; by rewrite app_nil_r|].
    exists s', t. split; [done|]. rewrite Ht. simpl. split; [by rewrite <- app_assoc|done].
Qed.

Lemma states_are_left_in_opposite_orders_witness :
  exists s' t,
    end_data_item_transaction 2 item_a transaction_document = Ok tt s' /\
    trace s' = trace transaction_document ++ t ++ [EvExitTransactionState item_a] /\
    (item_a ∉ in_transaction_state s').
Proof.
  apply (states_are_left_in_opposite_orders example_rank example_universe 2 item_a
           transaction_document).
  - exact transaction_document_coherent.
  - apply (bool_decide_unpack _). vm_compute. exact I.
  - vm_compute. lia.
  - reflexivity.
  - reflexivity.
Defined.

Example leaving_order_example :
  match end_data_item_transaction 2 item_a transaction_document with
  | Ok _ s' => trace s'
  | _ => []
  end = [EvExitTransactionState item_b; EvExitTransactionState item_c;
         EvExitTransactionState item_a] /\
  match (begin_data_item_live 2 item_a ;; end_data_item_live 2 item_a) example_document with
  | Ok _ s' => trace s'
  | _ => []
  end = [EvEnterLiveState item_a; EvEnterLiveState item_b; EvEnterLiveState item_c;
         EvExitLiveState item_a; EvExitLiveState item_b; EvExitLiveState item_c].
Proof. split; vm_compute; reflexivity. Qed.


End DocumentFacts.


(** * Facts about loading *)

Module LoaderFacts.
Import Loader.

Section Migration.

Context {Content Env : Type}.

Implicit Types (r : ReaderInfo Content) (l : list (ReaderInfo Content)).
Implicit Types (st : Steps Content Env) (env : Env).

Lemma migrate_record_skip applies marks target (rewrite : Rewrite Content Env) env r :
  applies (get_version (properties r)) = false ->
  migrate_record applies marks target rewrite env r = (env, r).
Proof. intros H. unfold migrate_record. by rewrite H. Qed.

Lemma migrate_each_length applies marks target (rewrite : Rewrite Content Env) env l :
  length (migrate_each applies marks target rewrite env l).2 = length l.
Proof.
  revert env. induction l as [|r l IH]; intros env; [done|]. simpl.
  destruct (migrate_record _ _ _ _ env r) as [env1 r'].
  specialize (IH env1). destruct (migrate_each _ _ _ _ env1 l) as [env2 l'].
  simpl in *. by rewrite IH.
Qed.

(** A record that a step does not apply to comes out of it as it went in. *)
Lemma migrate_each_skip applies marks target (rewrite : Rewrite Content Env) env l i r :
  l !! i = Some r -> applies (get_version (properties r)) = false ->
  (migrate_each applies marks target rewrite env l).2 !! i = Some r.
Proof.
  revert env i. induction l as [|r0 l IH]; intros env i Hi Hskip; [done|]. simpl.
  destruct (migrate_record _ _ _ _ env r0) as [env1 r'] eqn:E1.
  specialize (IH env1). destruct (migrate_each _ _ _ _ env1 l) as [env2 l'].
  destruct i as [|i]; simpl in *.
  - injection Hi as ->. rewrite migrate_record_skip in E1 by done. congruence.
  - by apply IH.
Qed.

(** A record that a step applies to, and whose rewrite runs to its end,
    comes out at the target version and marked as the step marks it. *)
Lemma migrate_each_apply applies marks target (rewrite : Rewrite Content Env) env l i r :
  l !! i = Some r -> applies (get_version (properties r)) = true ->
  (forall e c, (rewrite e (persistent_storage_handler r) c).2 = true) ->
  exists r',
    (migrate_each applies marks target rewrite env l).2 !! i = Some r' /\
    version (properties r') = Some target /\
    changed_ref r' = changed_ref r || marks /\
    persistent_storage_handler r' = persistent_storage_handler r.
Proof.
  revert env i. induction l as [|r0 l IH]; intros env i Hi Happ Hok; [done|]. simpl.
  destruct (migrate_record _ _ _ _ env r0) as [env1 r'] eqn:E1.
  specialize (IH env1). destruct (migrate_each _ _ _ _ env1 l) as [env2 l'].
  destruct i as [|i]; simpl in *.
  - injection Hi as ->. exists r'. split; [done|].
    unfold migrate_record in E1. rewrite Happ in E1.
    specialize (Hok env (content (properties r))).
    destruct (rewrite _ _ _) as [[env' c'] completed]. simpl in Hok. subst completed.
    injection E1 as _ <-. done.
  - by apply IH.
Qed.

Lemma migrate_to_v9_skip st env l i r :
  l !! i = Some r -> (get_version (properties r) =? 8) = false ->
  (migrate_to_v9 st env l).2 !! i = Some r.
Proof. intros. unfold migrate_to_v9. by apply migrate_each_skip. Qed.

(** The nine steps, one after the other, on the record at place [i]. *)
Lemma migrate_to_latest_unfold st env l :
  exists e2 e3 e4 e5 e6 e7 e8 e9 l2 l3 l4 l5 l6 l7 l8 l9,
    migrate_to_v2 st env l = (e2, l2) /\
    migrate_to_v3 st e2 l2 = (e3, l3) /\
    migrate_to_v4 st e3 l3 = (e4, l4) /\
    migrate_to_v5 st e4 l4 = (e5, l5) /\
    migrate_to_v6 st e5 l5 = (e6, l6) /\
    migrate_to_v7 st e6 l6 = (e7, l7) /\
    migrate_to_v8 st e7 l7 = (e8, l8) /\
    migrate_to_v9 st e8 l8 = (e9, l9) /\
    migrate_to_latest st env l = migrate_to_v10 st e9 l9.
Proof.
  unfold migrate_to_latest.
  destruct (migrate_to_v2 st env l) as [e2 l2] eqn:H2.
  destruct (migrate_to_v3 st e2 l2) as [e3 l3] eqn:H3.
  destruct (migrate_to_v4 st e3 l3) as [e4 l4] eqn:H4.
  destruct (migrate_to_v5 st e4 l4) as [e5 l5] eqn:H5.
  destruct (migrate_to_v6 st e5 l5) as [e6 l6] eqn:H6.
  destruct (migrate_to_v7 st e6 l6) as [e7 l7] eqn:H7.
  destruct (migrate_to_v8 st e7 l7) as [e8 l8] eqn:H8.
  destruct (migrate_to_v9 st e8 l8) as [e9 l9] eqn:H9.
  exists e2, e3, e4, e5, e6, e7, e8, e9, l2, l3, l4, l5, l6, l7, l8, l9.
  repeat split; first [assumption | reflexivity].
Qed.

(** No step applies to a record at the writer version or beyond. *)
Lemma migrate_to_latest_skip st env l i r :
  l !! i = Some r -> writer_version <= get_version (properties r) ->
  (migrate_to_latest st env l).2 !! i = Some r.
Proof.
  intros Hi Hv. unfold writer_version in Hv.
  destruct (migrate_to_latest_unfold st env l)
    as (e2 & e3 & e4 & e5 & e6 & e7 & e8 & e9 & l2 & l3 & l4 & l5 & l6 & l7 & l8 & l9 &
        H2 & H3 & H4 & H5 & H6 & H7 & H8 & H9 & ->).
  assert (G2 : l2 !! i = Some r).
  { change l2 with (e2, l2).2. rewrite <- H2. apply migrate_each_skip; [done|]. lia. }
  assert (G3 : l3 !! i = Some r).
  { change l3 with (e3, l3).2. rewrite <- H3. apply migrate_each_skip; [done|]. lia. }
  assert (G4 : l4 !! i = Some r).
  { change l4 with (e4, l4).2. rewrite <- H4. apply migrate_each_skip; [done|]. lia. }
  assert (G5 : l5 !! i = Some r).
  { change l5 with (e5, l5).2. rewrite <- H5. apply migrate_each_skip; [done|]. lia. }
  assert (G6 : l6 !! i = Some r).
  { change l6 with (e6, l6).2. rewrite <- H6. apply migrate_each_skip; [done|]. lia. }
  assert (G7 : l7 !! i = Some r).
  { change l7 with (e7, l7).2. rewrite <- H7. apply migrate_each_skip; [done|]. lia. }
  assert (G8 : l8 !! i = Some r).
  { change l8 with (e8, l8).2. rewrite <- H8. apply migrate_each_skip; [done|]. lia. }
  assert (G9 : l9 !! i = Some r).
  { change l9 with (e9, l9).2. rewrite <- H9. apply migrate_to_v9_skip; [done|]. lia. }
  apply migrate_each_skip; [done|]. lia.
Qed.

Lemma after_step_next applies n (rewrite : Rewrite Content Env) env l i r r' :
  (forall v, applies v = (v =? n - 1)) ->
  3 <= n ->
  (forall e c, (rewrite e (persistent_storage_handler r) c).2 = true) ->
  l !! i = Some r' -> after_step (n - 1) r r' ->
  exists r'', (migrate_each applies true n rewrite env l).2 !! i = Some r'' /\
              after_step n r r''.
Proof.
  intros Happ Hn Hok Hi [Hh Hcase].
  destruct Hcase as [(Hlt & Hv & Hc)|(Hge & ->)].
  - destruct (migrate_each_apply applies true n rewrite env l i r' Hi)
      as (r'' & Hi' & Hv' & Hc' & Hh'); [|by rewrite Hh|].
    { rewrite Happ. unfold get_version. rewrite Hv. simpl. lia. }
    exists r''. split; [done|]. split; [congruence|]. left.
    split; [lia|]. split; [done|]. rewrite Hc'.
    assert (E : (3 <=? n) = true) by lia. rewrite E. by rewrite !orb_true_r.
  - destruct (decide (get_version (properties r) = n - 1)) as [Heq|Hne].
    + destruct (migrate_each_apply applies true n rewrite env l i r Hi)
        as (r'' & Hi' & Hv' & Hc' & Hh'); [rewrite Happ; lia|done|].
      exists r''. split; [done|]. split; [done|]. left.
      split; [lia|]. split; [done|]. rewrite Hc'.
      assert (E : (3 <=? n) = true) by lia. rewrite E. done.
    + exists r. split; [apply migrate_each_skip; [done|rewrite Happ; lia]|].
      split; [done|]. right. split; [lia|done].
Qed.

Lemma after_step_first (rewrite : Rewrite Content Env) env l i r :
  (forall e c, (rewrite e (persistent_storage_handler r) c).2 = true) ->
  l !! i = Some r ->
  exists r', (migrate_each (fun v => v <=? 1) false 2 rewrite env l).2 !! i = Some r' /\
             after_step 2 r r'.
Proof.
  intros Hok Hi. destruct (decide (get_version (properties r) <= 1)) as [Hle|Hgt].
  - destruct (migrate_each_apply (fun v => v <=? 1) false 2 rewrite env l i r Hi)
      as (r' & Hi' & Hv' & Hc' & Hh'); [lia|done|].
    exists r'. split; [done|]. split; [done|]. left.
    split; [lia|]. split; [done|]. rewrite Hc'. done.
  - exists r. split; [apply migrate_each_skip; [done|lia]|].
    split; [done|]. right. split; [lia|done].
Qed.

(** With no step raising on it, a record at or below the writer version
    comes out of the pipeline at the writer version, marked for rewriting
    if it was below, whatever happens to the other records. *)
Lemma migrate_to_latest_reaches st env l i r :
  steps_complete_at st (persistent_storage_handler r) ->
  l !! i = Some r -> get_version (properties r) <= writer_version ->
  exists r',
    (migrate_to_latest st env l).2 !! i = Some r' /\
    get_version (properties r') = writer_version /\
    persistent_storage_handler r' = persistent_storage_handler r /\
    changed_ref r' = changed_ref r || (get_version (properties r) <? writer_version).
Proof.
  intros Hok Hi Hv. unfold writer_version in *.
  assert (Hs : forall rewrite, rewrite ∈ [to_v2 st; to_v3 st; to_v4 st; to_v5 st; to_v6 st;
                 to_v7 st; to_v8 st; to_v9 st; to_v10 st] ->
               forall e c, (rewrite e (persistent_storage_handler r) c).2 = true)
    by exact Hok.
  destruct (migrate_to_latest_unfold st env l)
    as (e2 & e3 & e4 & e5 & e6 & e7 & e8 & e9 & l2 & l3 & l4 & l5 & l6 & l7 & l8 & l9 &
        H2 & H3 & H4 & H5 & H6 & H7 & H8 & H9 & ->).
  destruct (after_step_first (to_v2 st) env l i r) as (r2 & G2 & I2);
    [apply Hs; set_solver | done |].
  unfold migrate_to_v2 in H2. rewrite H2 in G2. simpl in G2.
  destruct (after_step_next (fun v => v =? 2) 3 (to_v3 st) e2 l2 i r r2)
    as (r3 & G3 & I3); [done | lia | apply Hs; set_solver | done | done |].
  unfold migrate_to_v3 in H3. rewrite H3 in G3. simpl in G3.
  destruct (after_step_next (fun v => v =? 3) 4 (to_v4 st) e3 l3 i r r3)
    as (r4 & G4 & I4); [done | lia | apply Hs; set_solver | done | done |].
  unfold migrate_to_v4 in H4. rewrite H4 in G4. simpl in G4.
  destruct (after_step_next (fun v => v =? 4) 5 (to_v5 st) e4 l4 i r r4)
    as (r5 & G5 & I5); [done | lia | apply Hs; set_solver | done | done |].
  unfold migrate_to_v5 in H5. rewrite H5 in G5. simpl in G5.
  destruct (after_step_next (fun v => v =? 5) 6 (to_v6 st) e5 l5 i r r5)
    as (r6 & G6 & I6); [done | lia | apply Hs; set_solver | done | done |].
  unfold migrate_to_v6 in H6. rewrite H6 in G6. simpl in G6.
  destruct (after_step_next (fun v => v =? 6) 7 (to_v7 st) e6 l6 i r r6)
    as (r7 & G7 & I7); [done | lia | apply Hs; set_solver | done | done |].
  unfold migrate_to_v7 in H7. rewrite H7 in G7. simpl in G7.
  destruct (after_step_next (fun v => v =? 7) 8 (to_v8 st) e7 l7 i r r7)
    as (r8 & G8 & I8); [done | lia | apply Hs; set_solver | done | done |].
  unfold migrate_to_v8 in H8. rewrite H8 in G8. simpl in G8.
  destruct (after_step_next (fun v => v =? 8) 9 (to_v9 st)
              (foldl (fun e r => v9_scan st e (properties r)) e8 l8) l8 i r r8)
    as (r9 & G9 & I9); [done | lia | apply Hs; set_solver | done | done |].
  unfold migrate_to_v9 in H9. rewrite H9 in G9. simpl in G9.
  destruct (after_step_next (fun v => v =? 9) 10 (to_v10 st) e9 l9 i r r9)
    as (r10 & G10 & I10); [done | lia | apply Hs; set_solver | done | done |].
  exists r10. split; [exact G10|]. destruct I10 as [Hh [(Hlt & Hv10 & Hc)|(Hge & ->)]].
  - split; [unfold get_version; by rewrite Hv10|]. split; [done|].
    rewrite Hc. simpl. assert (E : (get_version (properties r) <? 10) = true) by lia.
    by rewrite E.
  - split; [lia|]. split; [done|].
    assert (E : (get_version (properties r) <? 10) = false) by lia.
    by rewrite E, orb_false_r.
Qed.

(** A record on which the rewrite raises keeps its version. *)
Lemma migrate_each_raise applies marks target (rewrite : Rewrite Content Env) env l i r :
  l !! i = Some r ->
  (forall e c, (rewrite e (persistent_storage_handler r) c).2 = false) ->
  exists r',
    (migrate_each applies marks target rewrite env l).2 !! i = Some r' /\
    version (properties r') = version (properties r) /\
    persistent_storage_handler r' = persistent_storage_handler r.
Proof.
  revert env i. induction l as [|r0 l IH]; intros env i Hi Hno; [done|]. simpl.
  destruct (migrate_record _ _ _ _ env r0) as [env1 r'] eqn:E1.
  specialize (IH env1). destruct (migrate_each _ _ _ _ env1 l) as [env2 l'].
  destruct i as [|i]; simpl in *.
  - injection Hi as ->. exists r'. split; [done|].
    unfold migrate_record in E1. destruct (applies _); [|by injection E1 as _ <-].
    specialize (Hno env (content (properties r))).
    destruct (rewrite _ _ _) as [[env' c'] completed]. simpl in Hno. subst completed.
    by injection E1 as _ <-.
  - by apply IH.
Qed.

Lemma migrate_to_latest_raise st env l i r :
  steps_raise_at st (persistent_storage_handler r) ->
  l !! i = Some r ->
  exists r',
    (migrate_to_latest st env l).2 !! i = Some r' /\
    get_version (properties r') = get_version (properties r) /\
    persistent_storage_handler r' = persistent_storage_handler r.
Proof.
  intros Hno Hi.
  assert (Hs : forall h rewrite, h = persistent_storage_handler r ->
                 rewrite ∈ [to_v2 st; to_v3 st; to_v4 st; to_v5 st; to_v6 st;
                   to_v7 st; to_v8 st; to_v9 st; to_v10 st] ->
                 forall e c, (rewrite e h c).2 = false).
  { intros h rewrite ->. apply Hno. }
  destruct (migrate_to_latest_unfold st env l)
    as (e2 & e3 & e4 & e5 & e6 & e7 & e8 & e9 & l2 & l3 & l4 & l5 & l6 & l7 & l8 & l9 &
        H2 & H3 & H4 & H5 & H6 & H7 & H8 & H9 & ->).
  destruct (migrate_each_raise (fun v => v <=? 1) false 2 (to_v2 st) env l i r Hi)
    as (r2 & G2 & V2 & P2); [apply Hs; [done|set_solver]|].
  unfold migrate_to_v2 in H2. rewrite H2 in G2. simpl in G2.
  destruct (migrate_each_raise (fun v => v =? 2) true 3 (to_v3 st) e2 l2 i r2 G2)
    as (r3 & G3 & V3 & P3); [apply Hs; [done|set_solver]|].
  unfold migrate_to_v3 in H3. rewrite H3 in G3. simpl in G3.
  destruct (migrate_each_raise (fun v => v =? 3) true 4 (to_v4 st) e3 l3 i r3 G3)
    as (r4 & G4 & V4 & P4); [apply Hs; [congruence|set_solver]|].
  unfold migrate_to_v4 in H4. rewrite H4 in G4. simpl in G4.
  destruct (migrate_each_raise (fun v => v =? 4) true 5 (to_v5 st) e4 l4 i r4 G4)
    as (r5 & G5 & V5 & P5); [apply Hs; [congruence|set_solver]|].
  unfold migrate_to_v5 in H5. rewrite H5 in G5. simpl in G5.
  destruct (migrate_each_raise (fun v => v =? 5) true 6 (to_v6 st) e5 l5 i r5 G5)
    as (r6 & G6 & V6 & P6); [apply Hs; [congruence|set_solver]|].
  unfold migrate_to_v6 in H6. rewrite H6 in G6. simpl in G6.
  destruct (migrate_each_raise (fun v => v =? 6) true 7 (to_v7 st) e6 l6 i r6 G6)
    as (r7 & G7 & V7 & P7); [apply Hs; [congruence|set_solver]|].
  unfold migrate_to_v7 in H7. rewrite H7 in G7. simpl in G7.
  destruct (migrate_each_raise (fun v => v =? 7) true 8 (to_v8 st) e7 l7 i r7 G7)
    as (r8 & G8 & V8 & P8); [apply Hs; [congruence|set_solver]|].
  unfold migrate_to_v8 in H8. rewrite H8 in G8. simpl in G8.
  destruct (migrate_each_raise (fun v => v =? 8) true 9 (to_v9 st)
              (foldl (fun e r => v9_scan st e (properties r)) e8 l8) l8 i r8 G8)
    as (r9 & G9 & V9 & P9); [apply Hs; [congruence|set_solver]|].
  unfold migrate_to_v9 in H9. rewrite H9 in G9. simpl in G9.
  destruct (migrate_each_raise (fun v => v =? 9) true 10 (to_v10 st) e9 l9 i r9 G9)
    as (r10 & G10 & V10 & P10); [apply Hs; [congruence|set_solver]|].
  exists r10. split; [exact G10|]. split; [unfold get_version|]; congruence.
Qed.

(** ** The last loop *)

Implicit Types (c : Collaborators Content Env) (acc : Loaded Content).

(** A record that is not at the writer version is passed over: nothing is
    built from it and nothing is written back. *)
Lemma load_record_skip c target acc r :
  get_version (properties r) <> writer_version -> load_record c target acc r = acc.
Proof.
  intros H. unfold load_record.
  destruct (get_version (properties r) =? writer_version) eqn:E; [lia|done].
Qed.

Lemma elem_of_dict_set key value (d : list (N * DataItem Content)) k v :
  (k, v) ∈ dict_set key value d -> (k = key /\ v = value) \/ (k, v) ∈ d.
Proof.
  induction d as [|[k0 v0] d IH]; simpl; intros H.
  - apply list_elem_of_singleton in H. injection H as -> ->. by left.
  - destruct (decide (k0 = key)) as [->|Hne].
    + apply elem_of_cons in H as [H|H]; [injection H as -> ->; by left|].
      right. by right.
    + apply elem_of_cons in H as [H|H]; [injection H as -> ->; right; left|].
      destruct (IH H) as [?|?]; [by left|right; by right].
Qed.

Lemma dict_set_key key value (d : list (N * DataItem Content)) :
  (key, value) ∈ dict_set key value d.
Proof.
  induction d as [|[k0 v0] d IH]; simpl; [left|].
  destruct (decide (k0 = key)) as [->|Hne]; [left|by right].
Qed.

Lemma dict_set_keeps key value (d : list (N * DataItem Content)) k :
  k ∈ d.*1 -> k ∈ (dict_set key value d).*1.
Proof.
  induction d as [|[k0 v0] d IH]; simpl; intros H; [by apply elem_of_nil in H|].
  destruct (decide (k0 = key)) as [->|Hne]; simpl; [done|].
  apply elem_of_cons in H as [->|H]; [left|right; by apply IH].
Qed.

(** Keys stay in the dictionary. *)
Lemma load_record_keeps c target acc r k :
  k ∈ (data_items_by_uuid acc).*1 ->
  k ∈ (data_items_by_uuid (load_record c target acc r)).*1.
Proof.
  intros H. unfold load_record.
  destruct (_ =? _); [|done]. destruct (uuid_of c _) as [u|]; [|done].
  destruct target as [t|].
  - destruct (get_data_item_by_uuid _ t u); [done|].
    destruct (auto_migrate_data_item _ t u _ _) as [[d|]|]; simpl; try done.
    by apply dict_set_keeps.
  - destruct (changed_ref r && _); [done|].
    destruct (changed_ref r); destruct (reads_from_dict c _ _ _); simpl; try done;
      by apply dict_set_keeps.
Qed.

Lemma foldl_load_record_keeps c target l acc k :
  k ∈ (data_items_by_uuid acc).*1 ->
  k ∈ (data_items_by_uuid (foldl (load_record c target) acc l)).*1.
Proof.
  revert acc. induction l as [|r l IH]; intros acc H; [done|]. simpl.
  apply IH. by apply load_record_keeps.
Qed.

(** A record at the writer version whose uuid parses, whose rewrite (if
    due) succeeds and which reads into a data item, gets into the
    dictionary. *)
Lemma load_record_loads c acc r u :
  loadable c r u ->
  u ∈ (data_items_by_uuid (load_record c None acc r)).*1.
Proof.
  intros (Hv & Hu & Hw & Hr). unfold load_record. rewrite Hv, Z.eqb_refl, Hu.
  destruct (changed_ref r) eqn:Ec; simpl.
  - rewrite Hw by done. simpl. rewrite Hr. simpl.
    apply list_elem_of_fmap. eexists (_, _). split; [|apply dict_set_key]. done.
  - rewrite Hr. simpl.
    apply list_elem_of_fmap. eexists (_, _). split; [|apply dict_set_key]. done.
Qed.

Lemma foldl_load_record_loads c l acc r u :
  r ∈ l -> loadable c r u ->
  u ∈ (data_items_by_uuid (foldl (load_record c None) acc l)).*1.
Proof.
  revert acc. induction l as [|r0 l IH]; intros acc Hin Hl;
    [by apply elem_of_nil in Hin|]. simpl.
  apply elem_of_cons in Hin as [->|Hin].
  - apply foldl_load_record_keeps. by apply load_record_loads.
  - by apply IH.
Qed.

Lemma load_record_from_records c l acc r :
  r ∈ l -> from_records c l acc -> from_records c l (load_record c None acc r).
Proof.
  intros Hr [Hd Hw]. unfold load_record.
  destruct (get_version (properties r) =? writer_version) eqn:Ev; [|done].
  apply Z.eqb_eq in Ev.
  destruct (uuid_of c _) as [u|] eqn:Eu; [|done].
  destruct (changed_ref r) eqn:Ec; simpl.
  - destruct (write_properties c _ _) eqn:Ew; simpl; [|done].
    assert (Hw' : forall h p,
              (h, p) ∈ written acc ++ [(persistent_storage_handler r, properties r)] ->
              exists r0, r0 ∈ l /\ get_version (properties r0) = writer_version /\
                changed_ref r0 = true /\
                h = persistent_storage_handler r0 /\ p = properties r0).
    { intros h p H. apply elem_of_app in H as [H|H]; [by apply Hw|].
      apply list_elem_of_singleton in H. injection H as -> ->. by exists r. }
    destruct (reads_from_dict c _ _ _) eqn:Er; split; simpl; try done.
    intros k d H. apply elem_of_dict_set in H as [[-> ->]|H]; [|by apply Hd].
    exists r. unfold loadable. repeat split; first [done | congruence].
  - destruct (reads_from_dict c _ _ _) eqn:Er; split; simpl; try done.
    intros k d H. apply elem_of_dict_set in H as [[-> ->]|H]; [|by apply Hd].
    exists r. unfold loadable. repeat split; first [done | congruence].
Qed.

Lemma foldl_load_record_from_records c l l0 acc :
  (forall r, r ∈ l0 -> r ∈ l) ->
  from_records c l acc -> from_records c l (foldl (load_record c None) acc l0).
Proof.
  revert acc. induction l0 as [|r l0 IH]; intros acc Hsub H; [done|]. simpl.
  apply IH; [intros r0 ?; apply Hsub; by right|].
  apply load_record_from_records; [apply Hsub; left|done].
Qed.

(** Sorting by date keeps the items. *)
Lemma elem_of_insert_by_date c (x y : DataItem Content) (ds : list (DataItem Content)) :
  x ∈ insert_by_date c y ds <-> x = y \/ x ∈ ds.
Proof.
  induction ds as [|z ds IH]; simpl.
  - rewrite list_elem_of_singleton. split; [by left|]. intros [?|H]; [done|].
    by apply elem_of_nil in H.
  - destruct (created c z <=? created c y).
    + rewrite !elem_of_cons, IH. tauto.
    + rewrite !elem_of_cons. tauto.
Qed.

Lemma elem_of_sort_by_date c (x : DataItem Content) (ds : list (DataItem Content)) :
  x ∈ sort_by_date c ds <-> x ∈ ds.
Proof.
  unfold sort_by_date.
  assert (G : forall sorted, x ∈ foldl (fun a y => insert_by_date c y a) sorted ds <->
                          x ∈ sorted \/ x ∈ ds).
  { induction ds as [|y ds IH]; intros sorted; simpl.
    - split; [by left|]. intros [?|H]; [done|]. by apply elem_of_nil in H.
    - rewrite IH, elem_of_insert_by_date, elem_of_cons. tauto. }
  rewrite G. split; [|by right]. intros [H|H]; [by apply elem_of_nil in H|done].
Qed.

(** Reading: a handler whose [read_properties] raises gives no record, the
    others give theirs, in order. *)
Lemma elem_of_read_records (hs : list (Handler Content)) r :
  r ∈ omap read_record hs <->
  exists p, persistent_storage_handler r ∈ hs /\
    read_properties (persistent_storage_handler r) = Some p /\
    r = mkReaderInfo p false (persistent_storage_handler r).
Proof.
  rewrite list_elem_of_omap. unfold read_record. split.
  - intros (h & Hh & Hr). destruct (read_properties h) as [p|] eqn:E; [|done].
    simpl in Hr. injection Hr as <-. exists p. simpl. by rewrite E.
  - intros (p & Hh & Hp & Hr). exists (persistent_storage_handler r).
    split; [done|]. rewrite Hp. simpl. by rewrite <- Hr.
Qed.

Lemma migrate_each_handlers applies marks target (rewrite : Rewrite Content Env) env l r' :
  r' ∈ (migrate_each applies marks target rewrite env l).2 ->
  exists r, r ∈ l /\ persistent_storage_handler r' = persistent_storage_handler r.
Proof.
  revert env. induction l as [|r0 l IH]; intros env; simpl.
  { intros H. by apply elem_of_nil in H. }
  destruct (migrate_record _ _ _ _ env r0) as [env1 r1] eqn:E1.
  specialize (IH env1). destruct (migrate_each _ _ _ _ env1 l) as [env2 l'].
  simpl in *. intros H. apply elem_of_cons in H as [->|H].
  - exists r0. split; [left|]. unfold migrate_record in E1.
    destruct (applies _); [|by injection E1 as _ <-].
    destruct (rewrite _ _ _) as [[? ?] ?]. by injection E1 as _ <-.
  - destruct (IH H) as (r & ? & ?). exists r. split; [by right|done].
Qed.

Lemma migrate_to_latest_handlers st env l r' :
  r' ∈ (migrate_to_latest st env l).2 ->
  exists r, r ∈ l /\ persistent_storage_handler r' = persistent_storage_handler r.
Proof.
  destruct (migrate_to_latest_unfold st env l)
    as (e2 & e3 & e4 & e5 & e6 & e7 & e8 & e9 & l2 & l3 & l4 & l5 & l6 & l7 & l8 & l9 &
        H2 & H3 & H4 & H5 & H6 & H7 & H8 & H9 & ->).
  intros H10.
  apply migrate_each_handlers in H10 as (r9 & G9 & E9).
  change l9 with (e9, l9).2 in G9. rewrite <- H9 in G9.
  apply migrate_each_handlers in G9 as (r8 & G8 & E8).
  change l8 with (e8, l8).2 in G8. rewrite <- H8 in G8.
  apply migrate_each_handlers in G8 as (r7 & G7 & E7).
  change l7 with (e7, l7).2 in G7. rewrite <- H7 in G7.
  apply migrate_each_handlers in G7 as (r6 & G6 & E6).
  change l6 with (e6, l6).2 in G6. rewrite <- H6 in G6.
  apply migrate_each_handlers in G6 as (r5 & G5 & E5).
  change l5 with (e5, l5).2 in G5. rewrite <- H5 in G5.
  apply migrate_each_handlers in G5 as (r4 & G4 & E4).
  change l4 with (e4, l4).2 in G4. rewrite <- H4 in G4.
  apply migrate_each_handlers in G4 as (r3 & G3 & E3).
  change l3 with (e3, l3).2 in G3. rewrite <- H3 in G3.
  apply migrate_each_handlers in G3 as (r2 & G2 & E2).
  change l2 with (e2, l2).2 in G2. rewrite <- H2 in G2.
  apply migrate_each_handlers in G2 as (r1 & G1 & E1).
  exists r1. split; [done|]. congruence.
Qed.

Lemma reader_info_list_handlers c ignore (hs : list (Handler Content)) env r :
  r ∈ reader_info_list_of c ignore hs env ->
  persistent_storage_handler r ∈ hs /\
  is_Some (read_properties (persistent_storage_handler r)).
Proof.
  unfold reader_info_list_of. intros H.
  assert (G : exists r0, r0 ∈ omap read_record hs /\
                persistent_storage_handler r = persistent_storage_handler r0).
  { destruct ignore; [by exists r|]. by apply migrate_to_latest_handlers in H. }
  destruct G as (r0 & Hr0 & ->).
  apply elem_of_read_records in Hr0 as (p & Hh & Hp & _). split; [done|]. by rewrite Hp.
Qed.

(** ** The whole load *)

(** Once the storage systems have listed their handlers the load returns;
    what it returns was built from loadable records, and every loadable
    record has its data item in it. *)
Lemma read_data_items_returns c ignore systems env hs :
  find_all systems = Returned hs ->
  exists items wr,
    read_data_items c ignore systems None env = Returned (items, wr) /\
    (forall d, d ∈ items ->
       exists r, r ∈ reader_info_list_of c ignore hs env /\ loadable c r (item_uuid d) /\
         item_handler d = persistent_storage_handler r /\
         item_properties d = properties r) /\
    (forall h p, (h, p) ∈ wr ->
       exists r, r ∈ reader_info_list_of c ignore hs env /\
         get_version (properties r) = writer_version /\ changed_ref r = true /\
         h = persistent_storage_handler r /\ p = properties r) /\
    (forall r u, r ∈ reader_info_list_of c ignore hs env -> loadable c r u ->
       exists d, d ∈ items /\ item_uuid d = u).
Proof.
  intros Hf. unfold read_data_items. rewrite Hf. eexists _, _. split; [reflexivity|].
  set (l := reader_info_list_of c ignore hs env).
  assert (Hfrom : from_records c l (foldl (load_record c None) (mkLoaded [] []) l)).
  { apply foldl_load_record_from_records; [done|].
    split; simpl; intros ? ? H; by apply elem_of_nil in H. }
  destruct Hfrom as [Hd Hw]. split; [|split; [exact Hw|]].
  - intros d Hin. apply elem_of_sort_by_date in Hin.
    apply list_elem_of_fmap in Hin as ([k d'] & -> & Hin). simpl.
    destruct (Hd k d' Hin) as (r & Hr & Hl & Hk & Hh & Hp).
    exists r. rewrite Hk. done.
  - intros r u Hr Hl.
    pose proof (foldl_load_record_loads c l (mkLoaded [] []) r u Hr Hl) as Hin.
    apply list_elem_of_fmap in Hin as ([k d] & -> & Hin). simpl.
    exists d. split.
    + apply elem_of_sort_by_date. apply list_elem_of_fmap. by exists (k, d).
    + by destruct (Hd k d Hin) as (_ & _ & _ & Hk & _).
Qed.

(** What becomes of the record read at place [i]. *)
Lemma reader_info_list_future c ignore (hs : list (Handler Content)) env i r :
  omap read_record hs !! i = Some r ->
  writer_version <= get_version (properties r) ->
  reader_info_list_of c ignore hs env !! i = Some r.
Proof.
  intros Hi Hv. unfold reader_info_list_of. destruct ignore; [done|].
  by apply migrate_to_latest_skip.
Qed.

Lemma reader_info_list_older c (hs : list (Handler Content)) env i r :
  omap read_record hs !! i = Some r ->
  get_version (properties r) <= writer_version ->
  steps_complete_at (steps c) (persistent_storage_handler r) ->
  exists r',
    reader_info_list_of c false hs env !! i = Some r' /\
    get_version (properties r') = writer_version /\
    persistent_storage_handler r' = persistent_storage_handler r /\
    changed_ref r' = (get_version (properties r) <? writer_version).
Proof.
  intros Hi Hv Hok. unfold reader_info_list_of.
  destruct (migrate_to_latest_reaches (steps c) env _ i r Hok Hi Hv)
    as (r' & Hi' & Hv' & Hh & Hc).
  exists r'. repeat split; try done. rewrite Hc.
  apply list_elem_of_lookup_2 in Hi. apply elem_of_read_records in Hi as (p & _ & _ & ->).
  done.
Qed.

Lemma reader_info_list_raise c (hs : list (Handler Content)) env i r :
  omap read_record hs !! i = Some r ->
  steps_raise_at (steps c) (persistent_storage_handler r) ->
  exists r',
    reader_info_list_of c false hs env !! i = Some r' /\
    get_version (properties r') = get_version (properties r) /\
    persistent_storage_handler r' = persistent_storage_handler r.
Proof. intros Hi Hno. unfold reader_info_list_of. by apply migrate_to_latest_raise. Qed.

Lemma read_record_lookup (hs : list (Handler Content)) h p :
  h ∈ hs -> read_properties h = Some p ->
  exists i, omap read_record hs !! i = Some (mkReaderInfo p false h).
Proof.
  intros Hh Hp. apply list_elem_of_lookup_1. apply elem_of_read_records.
  exists p. simpl. done.
Qed.

End Migration.

(** C7. Running the whole pipeline over a list of records leaves a record
    that is at the writer version exactly as it was, wherever it stands in
    the list and whatever the steps do to other records: the same
    properties, the same version, and the rewrite flag as it was, so not
    set for a record just read. A list of such records comes out unchanged. *)
Theorem migration_of_current_record_is_noop {Content Env : Type}
    (st : Steps Content Env) (env : Env) (l : list (ReaderInfo Content)) (i : nat)
    (r : ReaderInfo Content) :
  l !! i = Some r ->
  get_version (properties r) = writer_version ->
  (migrate_to_latest st env l).2 !! i = Some r /\
  (forall p h, r = mkReaderInfo p false h ->
     exists r', (migrate_to_latest st env l).2 !! i = Some r' /\
       properties r' = p /\ version (properties r') = Some writer_version /\
       changed_ref r' = false).
Proof.
  intros Hi Hv.
  assert (H : (migrate_to_latest st env l).2 !! i = Some r).
  { apply migrate_to_latest_skip; [done|]. rewrite Hv. reflexivity. }
  split; [exact H|]. intros p h ->. eexists. split; [exact H|]. simpl.
  split; [done|]. split; [|done].
  unfold get_version in Hv. simpl in Hv. destruct (version p) as [v|]; simpl in Hv.
  - by rewrite Hv.
  - discriminate.
Qed.

Lemma migration_of_current_record_is_noop_witness :
  (migrate_to_latest example_steps tt
     [mkReaderInfo (mkProperties (Some 9) 1%N) false (record_at 9 1);
      mkReaderInfo (mkProperties (Some 10) 2%N) false (record_at 10 2)]).2 !! 1%nat =
  Some (mkReaderInfo (mkProperties (Some 10) 2%N) false (record_at 10 2)).
Proof.
  refine (proj1 (migration_of_current_record_is_noop example_steps tt _ 1%nat _ _ _));
    reflexivity.
Defined.





Example read_data_items_example :
  read_data_items example_collaborators false
    [MemoryPersistentStorageSystem [record_at 11 1; record_at 9 2; record_at 10 3]]
    None tt =
  Returned ([mkDataItem 2%N (record_at 9 2) (mkProperties (Some 10) 2%N);
             mkDataItem 3%N (record_at 10 3) (mkProperties (Some 10) 3%N)],
            [(record_at 9 2, mkProperties (Some 10) 2%N)]).
Proof. reflexivity. Qed.




Example read_data_items_isolates :
  read_data_items failing_collaborators false
    [MemoryPersistentStorageSystem [record_at 9 1; record_at 9 2; unreadable 3]]
    None tt =
  Returned ([mkDataItem 1%N (record_at 9 1) (mkProperties (Some 10) 1%N)],
            [(record_at 9 1, mkProperties (Some 10) 1%N)]).
Proof. reflexivity. Qed.

(** ** The order and the uuids of what is loaded *)

Section Loaded.

Context {Content Env : Type}.

Implicit Types (c : Collaborators Content Env) (acc : Loaded Content).
Implicit Types (r : ReaderInfo Content) (l : list (ReaderInfo Content)).
Implicit Types (ds : list (DataItem Content)).

Lemma insert_by_date_perm c (x : DataItem Content) ds : insert_by_date c x ds ≡ₚ x :: ds.
Proof.
  induction ds as [|y ds IH]; simpl; [done|].
  destruct (created c y <=? created c x); [|done].
  rewrite IH. apply Permutation_swap.
Qed.

Lemma sort_by_date_perm c ds : sort_by_date c ds ≡ₚ ds.
Proof.
  unfold sort_by_date.
  assert (G : forall sorted, foldl (fun a y => insert_by_date c y a) sorted ds ≡ₚ sorted ++ ds).
  { induction ds as [|y ds IH]; intros sorted; simpl; [by rewrite app_nil_r|].
    rewrite IH, insert_by_date_perm. simpl. apply Permutation_middle. }
  apply G.
Qed.

Lemma insert_by_date_sorted c (x : DataItem Content) ds :
  StronglySorted (fun a b => created c a <= created c b) ds ->
  StronglySorted (fun a b => created c a <= created c b) (insert_by_date c x ds).
Proof.
  induction 1 as [|y ds Hs IH Hall]; simpl; [repeat constructor|].
  destruct (created c y <=? created c x) eqn:E.
  - apply Z.leb_le in E. constructor; [done|].
    rewrite insert_by_date_perm. constructor; [done|done].
  - apply Z.leb_gt in E. constructor; [by constructor|].
    constructor; [lia|]. eapply Forall_impl; [exact Hall|]. intros z Hz. simpl in Hz. lia.
Qed.

Lemma sort_by_date_sorted c ds :
  StronglySorted (fun a b => created c a <= created c b) (sort_by_date c ds).
Proof.
  unfold sort_by_date.
  assert (G : forall sorted,
            StronglySorted (fun a b => created c a <= created c b) sorted ->
            StronglySorted (fun a b => created c a <= created c b)
              (foldl (fun a y => insert_by_date c y a) sorted ds)).
  { induction ds as [|y ds IH]; intros sorted Hs; simpl; [done|].
    apply IH. by apply insert_by_date_sorted. }
  apply G. constructor.
Qed.

Lemma filter_none {A} (P : A -> Prop) `{!forall x, Decision (P x)} (xs : list A) :
  Forall (fun x => ~ P x) xs -> filter P xs = [].
Proof.
  induction 1 as [|x xs Hx _ IH]; [done|]. by rewrite filter_cons_False.
Qed.

(** The sort is stable: the data items of one date keep their order. *)
Lemma insert_by_date_stable c (x : DataItem Content) ds t :
  StronglySorted (fun a b => created c a <= created c b) ds ->
  filter (fun d => created c d = t) (insert_by_date c x ds) =
  filter (fun d => created c d = t) ds ++ filter (fun d => created c d = t) [x].
Proof.
  induction 1 as [|y ds Hs IH Hall]; simpl; [by rewrite app_nil_r || done|].
  destruct (created c y <=? created c x) eqn:E.
  - destruct (decide (created c y = t)) as [Hy|Hy].
    + rewrite !(filter_cons_True _ y) by done. rewrite IH. done.
    + rewrite !(filter_cons_False _ y) by done. apply IH.
  - apply Z.leb_gt in E.
    destruct (decide (created c x = t)) as [Hx|Hx].
    + rewrite (filter_cons_True _ x) by done.
      assert (Hnone : filter (fun d => created c d = t) (y :: ds) = []).
      { apply filter_none. constructor; [simpl; lia|].
        eapply Forall_impl; [exact Hall|]. intros z Hz. simpl in *. lia. }
      rewrite Hnone. simpl. by rewrite filter_cons_True, filter_nil by done.
    + rewrite (filter_cons_False _ x) by done.
      rewrite (filter_cons_False _ x [] ) by done. by rewrite filter_nil, app_nil_r.
Qed.

Lemma sort_by_date_stable c ds t :
  filter (fun d => created c d = t) (sort_by_date c ds) = filter (fun d => created c d = t) ds.
Proof.
  unfold sort_by_date.
  assert (G : forall sorted,
            StronglySorted (fun a b => created c a <= created c b) sorted ->
            filter (fun d => created c d = t)
              (foldl (fun a y => insert_by_date c y a) sorted ds) =
            filter (fun d => created c d = t) sorted ++ filter (fun d => created c d = t) ds).
  { induction ds as [|y ds IH]; intros sorted Hs; simpl; [by rewrite filter_nil, app_nil_r|].
    rewrite IH by (by apply insert_by_date_sorted).
    rewrite insert_by_date_stable by done. rewrite <- app_assoc. f_equal.
    destruct (decide (created c y = t)).
    - by rewrite !(filter_cons_True _ y), filter_nil by done.
    - by rewrite !(filter_cons_False _ y), filter_nil by done. }
  rewrite G by constructor. done.
Qed.

Lemma dict_set_keys key value (d : list (N * DataItem Content)) :
  (dict_set key value d).*1 = if decide (key ∈ d.*1) then d.*1 else d.*1 ++ [key].
Proof.
  induction d as [|[k v] d IH].
  - destruct (decide (key ∈ ([] : list (N * DataItem Content)).*1)) as [H|H]; [|done].
    by apply elem_of_nil in H.
  - cbn [dict_set]. destruct (decide (k = key)) as [->|N].
    + destruct (decide (key ∈ ((key, v) :: d).*1)) as [H|H]; [done|].
      exfalso. apply H. left.
    + rewrite fmap_cons, IH. cbn [fst].
      destruct (decide (key ∈ d.*1)) as [Hin|Hout];
        destruct (decide (key ∈ ((k, v) :: d).*1)) as [H|H]; try done.
      * exfalso. apply H. by right.
      * exfalso. apply elem_of_cons in H as [->|H]; done.
Qed.

Lemma dict_set_NoDup key value (d : list (N * DataItem Content)) :
  NoDup d.*1 -> NoDup (dict_set key value d).*1.
Proof.
  intros H. rewrite dict_set_keys. destruct (decide _) as [Hin|Hout]; [done|].
  apply NoDup_app. split; [done|]. split; [|apply NoDup_singleton].
  intros x Hx ->%list_elem_of_singleton. done.
Qed.

Lemma dict_set_other key value (d : list (N * DataItem Content)) k v :
  k <> key -> (k, v) ∈ d -> (k, v) ∈ dict_set key value d.
Proof.
  intros Hne. induction d as [|[k0 v0] d IH]; simpl; [by intros ?%elem_of_nil|].
  intros [E|Hin]%elem_of_cons.
  - injection E as <- <-. rewrite decide_False by done. left.
  - destruct (decide (k0 = key)); right; [done|by apply IH].
Qed.

Lemma dict_set_keyed_values key value (d : list (N * DataItem Content)) :
  item_uuid value = key ->
  Forall (fun kd => item_uuid kd.2 = kd.1) d ->
  Forall (fun kd => item_uuid kd.2 = kd.1) (dict_set key value d).
Proof.
  intros Hv. induction 1 as [|[k v] d Hk Hd IH]; simpl; [by repeat constructor|].
  destruct (decide (k = key)) as [->|N]; constructor; done.
Qed.

Lemma load_record_keyed c acc r : keyed acc -> keyed (load_record c None acc r).
Proof.
  intros [Hnd Hall]. unfold load_record.
  destruct (_ =? _); [|done]. destruct (uuid_of c _) as [u|]; [|done].
  destruct (changed_ref r && _); [done|].
  destruct (changed_ref r); destruct (reads_from_dict c _ _ _); simpl; try done;
    (split; simpl; [by apply dict_set_NoDup|by apply dict_set_keyed_values]).
Qed.

Lemma foldl_load_record_keyed c l acc :
  keyed acc -> keyed (foldl (load_record c None) acc l).
Proof.
  revert acc. induction l as [|r l IH]; intros acc H; [done|]. simpl.
  apply IH. by apply load_record_keyed.
Qed.

Lemma keyed_uuids acc :
  keyed acc -> item_uuid <$> (data_items_by_uuid acc).*2 = (data_items_by_uuid acc).*1.
Proof.
  intros [_ Hall]. revert Hall. generalize (data_items_by_uuid acc). intros d.
  induction 1 as [|[k v] d Hk Hd IH]; [done|].
  rewrite !fmap_cons. simpl in *. by rewrite Hk, IH.
Qed.

(** A data item that is in the dictionary stays there as long as no
    later record that can be built has its uuid. *)
Lemma load_record_stays c acc r u (d : DataItem Content) :
  ~ loadable c r u -> (u, d) ∈ data_items_by_uuid acc ->
  (u, d) ∈ data_items_by_uuid (load_record c None acc r).
Proof.
  intros Hno Hin. unfold load_record.
  destruct (get_version (properties r) =? writer_version) eqn:Ev; [|done].
  apply Z.eqb_eq in Ev.
  destruct (uuid_of c _) as [u'|] eqn:Eu; [|done].
  destruct (changed_ref r) eqn:Ec; simpl.
  - destruct (write_properties c _ _) eqn:Ew; simpl; [|done].
    destruct (reads_from_dict c _ _ _) eqn:Er; simpl; [|done].
    apply dict_set_other; [|done]. intros ->. apply Hno. done.
  - destruct (reads_from_dict c _ _ _) eqn:Er; simpl; [|done].
    apply dict_set_other; [|done]. intros ->. apply Hno. split; [done|].
    split; [done|]. split; [congruence|done].
Qed.

Lemma foldl_load_record_stays c l acc u (d : DataItem Content) :
  (forall r, r ∈ l -> ~ loadable c r u) -> (u, d) ∈ data_items_by_uuid acc ->
  (u, d) ∈ data_items_by_uuid (foldl (load_record c None) acc l).
Proof.
  revert acc. induction l as [|r l IH]; intros acc Hno Hin; [done|]. simpl.
  apply IH; [intros r' Hr'; apply Hno; by right|].
  apply load_record_stays; [apply Hno; left|done].
Qed.

Lemma load_record_builds c acc r u :
  loadable c r u ->
  (u, mkDataItem u (persistent_storage_handler r) (properties r)) ∈
    data_items_by_uuid (load_record c None acc r).
Proof.
  intros (Hv & Hu & Hw & Hr). unfold load_record. rewrite Hv, Z.eqb_refl, Hu.
  destruct (changed_ref r) eqn:Ec; simpl.
  - rewrite Hw by done. simpl. rewrite Hr. simpl. apply dict_set_key.
  - rewrite Hr. simpl. apply dict_set_key.
Qed.

End Loaded.

(** X1. The data items that [read_data_items] returns are in the order of
    their creation dates. *)
Theorem read_data_items_in_date_order {Content Env : Type} (c : Collaborators Content Env)
    (ignore_older_files : bool) (systems : list (StorageSystem Content))
    (target_document : option (TargetDocument Content)) (env : Env)
    (items : list (DataItem Content)) (wr : list (Handler Content * Properties Content)) :
  read_data_items c ignore_older_files systems target_document env = Returned (items, wr) ->
  StronglySorted (fun a b => created c a <= created c b) items.
Proof.
  unfold read_data_items. destruct (find_all systems) as [hs|]; [|done].
  intros H. injection H as <- _. apply sort_by_date_sorted.
Qed.

Lemma read_data_items_in_date_order_witness :
  StronglySorted (fun a b => created example_collaborators a <= created example_collaborators b)
    [mkDataItem 2%N (record_at 10 2) (mkProperties (Some 10) 2%N);
     mkDataItem 3%N (record_at 10 3) (mkProperties (Some 10) 3%N)].
Proof.
  apply (read_data_items_in_date_order example_collaborators false
           [MemoryPersistentStorageSystem [record_at 10 3; record_at 10 2]] None tt _ []).
  reflexivity.
Defined.

(** X2. No two data items that [read_data_items] returns have the same
    uuid; and of the records with one uuid the last one that can be built
    is the one the data item is built from. *)
Theorem loaded_uuids_are_distinct {Content Env : Type} (c : Collaborators Content Env)
    (ignore_older_files : bool) (systems : list (StorageSystem Content)) (env : Env)
    (hs : list (Handler Content)) :
  find_all systems = Returned hs ->
  exists items wr,
    read_data_items c ignore_older_files systems None env = Returned (items, wr) /\
    NoDup (item_uuid <$> items) /\
    forall l1 r l2 u,
      reader_info_list_of c ignore_older_files hs env = l1 ++ r :: l2 ->
      loadable c r u -> (forall r', r' ∈ l2 -> ~ loadable c r' u) ->
      mkDataItem u (persistent_storage_handler r) (properties r) ∈ items.
Proof.
  intros Hf. unfold read_data_items. rewrite Hf. eexists _, _. split; [reflexivity|].
  set (l := reader_info_list_of c ignore_older_files hs env).
  assert (Hk : keyed (foldl (load_record c None) (mkLoaded [] []) l)).
  { apply foldl_load_record_keyed. split; simpl; constructor. }
  split.
  - rewrite sort_by_date_perm, keyed_uuids by done. apply Hk.
  - intros l1 r l2 u Hl Hr Hno. apply elem_of_sort_by_date.
    apply list_elem_of_fmap. eexists (u, _). split; [reflexivity|].
    rewrite Hl, foldl_app. simpl. apply foldl_load_record_stays; [done|].
    by apply load_record_builds.
Qed.

Lemma loaded_uuids_are_distinct_witness :
  exists items wr,
    read_data_items example_collaborators false
      [MemoryPersistentStorageSystem [record_at 9 1; record_at 10 1]] None tt =
      Returned (items, wr) /\
    NoDup (item_uuid <$> items).
Proof.
  destruct (loaded_uuids_are_distinct example_collaborators false
              [MemoryPersistentStorageSystem [record_at 9 1; record_at 10 1]] tt
              [record_at 9 1; record_at 10 1] eq_refl) as (items & wr & H & Hnd & _).
  by exists items, wr.
Defined.

Example read_data_items_same_uuid :
  read_data_items example_collaborators false
    [MemoryPersistentStorageSystem [record_at 9 1; record_at 10 1]] None tt =
  Returned ([mkDataItem 1%N (record_at 10 1) (mkProperties (Some 10) 1%N)],
            [(record_at 9 1, mkProperties (Some 10) 1%N)]).
Proof. reflexivity. Qed.

(** ** What migration keeps *)

Section Kept.

Context {Content Env : Type}.

Implicit Types (r : ReaderInfo Content) (l : list (ReaderInfo Content)).
Implicit Types (st : Steps Content Env) (env : Env).

Lemma migrate_each_kept applies marks target (rewrite : Rewrite Content Env) env l i r :
  (forall v, applies v = true -> v < target) ->
  l !! i = Some r ->
  exists r',
    (migrate_each applies marks target rewrite env l).2 !! i = Some r' /\
    kept target r r'.
Proof.
  intros Happ. revert env i. induction l as [|r0 l IH]; intros env i Hi; [done|]. simpl.
  destruct (migrate_record _ _ _ _ env r0) as [env1 r'] eqn:E1.
  specialize (IH env1). destruct (migrate_each _ _ _ _ env1 l) as [env2 l'].
  destruct i as [|i]; simpl in *; [|by apply IH].
  injection Hi as ->. exists r'. split; [done|].
  unfold migrate_record in E1. destruct (applies _) eqn:Ea.
  - apply Happ in Ea. destruct (rewrite _ _ _) as [[env' c'] completed].
    injection E1 as _ <-. unfold kept, get_version. simpl.
    split; [done|]. destruct completed; simpl.
    + split; [unfold get_version in Ea; lia|]. split; [lia|]. intros ->. done.
    + split; [lia|]. split; [lia|]. intros ->. done.
  - injection E1 as _ <-. unfold kept. split; [done|]. split; [lia|]. split; [lia|done].
Qed.

Lemma kept_trans n m r r' r'' : n <= m -> kept n r r' -> kept m r' r'' -> kept m r r''.
Proof.
  intros Hnm (H1 & H2 & H3 & H4) (G1 & G2 & G3 & G4). split; [congruence|].
  split; [lia|]. split; [lia|]. auto.
Qed.

Lemma migrate_to_latest_kept st env l i r :
  l !! i = Some r ->
  exists r', (migrate_to_latest st env l).2 !! i = Some r' /\ kept writer_version r r'.
Proof.
  intros Hi. unfold writer_version.
  destruct (migrate_to_latest_unfold st env l)
    as (e2 & e3 & e4 & e5 & e6 & e7 & e8 & e9 & l2 & l3 & l4 & l5 & l6 & l7 & l8 & l9 &
        H2 & H3 & H4 & H5 & H6 & H7 & H8 & H9 & ->).
  destruct (migrate_each_kept (fun v => v <=? 1) false 2 (to_v2 st) env l i r)
    as (r2 & G2 & K2); [intros; lia|done|].
  unfold migrate_to_v2 in H2. rewrite H2 in G2. simpl in G2.
  destruct (migrate_each_kept (fun v => v =? 2) true 3 (to_v3 st) e2 l2 i r2)
    as (r3 & G3 & K3); [intros; lia|done|].
  unfold migrate_to_v3 in H3. rewrite H3 in G3. simpl in G3.
  destruct (migrate_each_kept (fun v => v =? 3) true 4 (to_v4 st) e3 l3 i r3)
    as (r4 & G4 & K4); [intros; lia|done|].
  unfold migrate_to_v4 in H4. rewrite H4 in G4. simpl in G4.
  destruct (migrate_each_kept (fun v => v =? 4) true 5 (to_v5 st) e4 l4 i r4)
    as (r5 & G5 & K5); [intros; lia|done|].
  unfold migrate_to_v5 in H5. rewrite H5 in G5. simpl in G5.
  destruct (migrate_each_kept (fun v => v =? 5) true 6 (to_v6 st) e5 l5 i r5)
    as (r6 & G6 & K6); [intros; lia|done|].
  unfold migrate_to_v6 in H6. rewrite H6 in G6. simpl in G6.
  destruct (migrate_each_kept (fun v => v =? 6) true 7 (to_v7 st) e6 l6 i r6)
    as (r7 & G7 & K7); [intros; lia|done|].
  unfold migrate_to_v7 in H7. rewrite H7 in G7. simpl in G7.
  destruct (migrate_each_kept (fun v => v =? 7) true 8 (to_v8 st) e7 l7 i r7)
    as (r8 & G8 & K8); [intros; lia|done|].
  unfold migrate_to_v8 in H8. rewrite H8 in G8. simpl in G8.
  destruct (migrate_each_kept (fun v => v =? 8) true 9 (to_v9 st)
              (foldl (fun e r => v9_scan st e (properties r)) e8 l8) l8 i r8)
    as (r9 & G9 & K9); [intros; lia|done|].
  unfold migrate_to_v9 in H9. rewrite H9 in G9. simpl in G9.
  destruct (migrate_each_kept (fun v => v =? 9) true 10 (to_v10 st) e9 l9 i r9)
    as (r10 & G10 & K10); [intros; lia|done|].
  exists r10. split; [exact G10|].
  eapply kept_trans; [|exact K2|]; [lia|].
  eapply kept_trans; [|exact K3|]; [lia|].
  eapply kept_trans; [|exact K4|]; [lia|].
  eapply kept_trans; [|exact K5|]; [lia|].
  eapply kept_trans; [|exact K6|]; [lia|].
  eapply kept_trans; [|exact K7|]; [lia|].
  eapply kept_trans; [|exact K8|]; [lia|].
  eapply kept_trans; [|exact K9|]; [lia|]. exact K10.
Qed.

Lemma migrate_to_latest_length st env l :
  length (migrate_to_latest st env l).2 = length l.
Proof.
  destruct (migrate_to_latest_unfold st env l)
    as (e2 & e3 & e4 & e5 & e6 & e7 & e8 & e9 & l2 & l3 & l4 & l5 & l6 & l7 & l8 & l9 &
        H2 & H3 & H4 & H5 & H6 & H7 & H8 & H9 & ->).
  unfold migrate_to_v10. rewrite migrate_each_length.
  change l9 with (e9, l9).2. rewrite <- H9. unfold migrate_to_v9. rewrite migrate_each_length.
  change l8 with (e8, l8).2. rewrite <- H8. unfold migrate_to_v8. rewrite migrate_each_length.
  change l7 with (e7, l7).2. rewrite <- H7. unfold migrate_to_v7. rewrite migrate_each_length.
  change l6 with (e6, l6).2. rewrite <- H6. unfold migrate_to_v6. rewrite migrate_each_length.
  change l5 with (e5, l5).2. rewrite <- H5. unfold migrate_to_v5. rewrite migrate_each_length.
  change l4 with (e4, l4).2. rewrite <- H4. unfold migrate_to_v4. rewrite migrate_each_length.
  change l3 with (e3, l3).2. rewrite <- H3. unfold migrate_to_v3. rewrite migrate_each_length.
  change l2 with (e2, l2).2. rewrite <- H2. unfold migrate_to_v2. by rewrite migrate_each_length.
Qed.

End Kept.

(** X3. Whatever the steps do, and whether they raise or not, migration
    drops no record, adds none and keeps their order: the list that comes
    out is as long as the list that went in, and the record at each place
    has the handler it had, a version that is not lower than before and
    not higher than the writer version unless it was so before, and its
    rewrite flag still set if it was set. *)
Theorem migration_keeps_the_records {Content Env : Type} (st : Steps Content Env)
    (env : Env) (l : list (ReaderInfo Content)) :
  length (migrate_to_latest st env l).2 = length l /\
  forall i r, l !! i = Some r ->
    exists r', (migrate_to_latest st env l).2 !! i = Some r' /\
      persistent_storage_handler r' = persistent_storage_handler r /\
      get_version (properties r) <= get_version (properties r') /\
      get_version (properties r') <= Z.max (get_version (properties r)) writer_version /\
      (changed_ref r = true -> changed_ref r' = true).
Proof.
  split; [apply migrate_to_latest_length|]. intros i r Hi.
  destruct (migrate_to_latest_kept st env l i r Hi) as (r' & Hi' & Hk).
  exists r'. split; [done|]. exact Hk.
Qed.



(** X5. Loading rewrites only files that were below the writer version when
    they were read, and none at all when older files are ignored. *)
Theorem only_older_files_are_rewritten {Content Env : Type} (c : Collaborators Content Env)
    (ignore_older_files : bool) (systems : list (StorageSystem Content)) (env : Env)
    (hs : list (Handler Content)) :
  find_all systems = Returned hs ->
  exists items wr,
    read_data_items c ignore_older_files systems None env = Returned (items, wr) /\
    (ignore_older_files = true -> wr = []) /\
    forall h p, (h, p) ∈ wr ->
      get_version p = writer_version /\
      exists p0, h ∈ hs /\ read_properties h = Some p0 /\ get_version p0 < writer_version.
Proof.
  intros Hf.
  destruct (read_data_items_returns c ignore_older_files systems env hs Hf)
    as (items & wr & Hret & _ & Hwr & _).
  exists items, wr. split; [exact Hret|].
  assert (Hmain : forall h p, (h, p) ∈ wr ->
            ignore_older_files = false /\ get_version p = writer_version /\
            exists p0, h ∈ hs /\ read_properties h = Some p0 /\
                       get_version p0 < writer_version).
  { intros h p Hin. destruct (Hwr h p Hin) as (r & Hr & Hv & Hc & -> & ->).
    unfold reader_info_list_of in Hr. destruct ignore_older_files.
    - apply elem_of_read_records in Hr as (p0 & _ & _ & Hr). rewrite Hr in Hc. done.
    - split; [done|]. split; [done|].
      apply list_elem_of_lookup_1 in Hr as [i Hi].
      assert (Hlt : (i < length (omap read_record hs))%nat).
      { rewrite <- (migrate_to_latest_length (steps c) env). by eapply lookup_lt_Some. }
      destruct (lookup_lt_is_Some_2 _ i Hlt) as [r0 Hi0].
      destruct (migrate_to_latest_kept (steps c) env _ i r0 Hi0) as (r' & Hi' & Hh & _).
      rewrite Hi in Hi'. injection Hi' as <-.
      pose proof (list_elem_of_lookup_2 _ _ _ Hi0) as Hr0.
      apply elem_of_read_records in Hr0 as (p0 & Hh0 & Hp0 & Hr0).
      exists p0. rewrite Hh. split; [done|]. split; [done|].
      destruct (decide (get_version p0 < writer_version)) as [|Hge]; [done|].
      exfalso. rewrite (migrate_to_latest_skip (steps c) env _ i r0) in Hi.
      + injection Hi as <-. rewrite Hr0 in Hc. done.
      + done.
      + rewrite Hr0. simpl. lia. }
  split.
  - intros ->. destruct wr as [|[h p] wr]; [done|].
    destruct (Hmain h p) as [H _]; [left|done].
  - intros h p Hin. destruct (Hmain h p Hin) as (_ & Hv & H). by split.
Qed.

Lemma only_older_files_are_rewritten_witness :
  exists items wr,
    read_data_items example_collaborators true
      [MemoryPersistentStorageSystem [record_at 9 1; record_at 10 2]] None tt =
      Returned (items, wr) /\
    wr = [].
Proof.
  destruct (only_older_files_are_rewritten example_collaborators true
              [MemoryPersistentStorageSystem [record_at 9 1; record_at 10 2]] tt
              [record_at 9 1; record_at 10 2] eq_refl) as (items & wr & H & Hw & _).
  exists items, wr. split; [done|]. by apply Hw.
Defined.

(** ** Version statistics *)

Section Stats.

Context {Content Env : Type}.

Implicit Types (r : ReaderInfo Content) (c : Collaborators Content Env).

Lemma dict_set_length key value (d : list (N * DataItem Content)) :
  (length (dict_set key value d) <= S (length d))%nat.
Proof.
  induction d as [|[k v] d IH]; cbn [dict_set]; [simpl; lia|].
  destruct (decide (k = key)); simpl in *; lia.
Qed.

Lemma load_record_length c target acc r :
  (length (data_items_by_uuid (load_record c target acc r)) <=
     length (data_items_by_uuid acc) +
     (if bool_decide (get_version (properties r) = writer_version) then 1 else 0))%nat /\
  (length (written (load_record c target acc r)) <=
     length (written acc) +
     (if bool_decide (changed_ref r = true /\ get_version (properties r) = writer_version)
      then 1 else 0))%nat.
Proof.
  unfold load_record. destruct (get_version (properties r) =? writer_version) eqn:Ev.
  - apply Z.eqb_eq in Ev. rewrite bool_decide_eq_true_2 by done.
    destruct (uuid_of c _) as [u|]; [|lia].
    destruct target as [target|].
    + destruct (get_data_item_by_uuid _ target u); [lia|].
      destruct (auto_migrate_data_item _ target u _ _) as [[d|]|]; simpl; try lia.
      pose proof (dict_set_length u d (data_items_by_uuid acc)). lia.
    + destruct (changed_ref r) eqn:Ec; simpl.
      * rewrite bool_decide_eq_true_2 by done.
        destruct (write_properties c _ _); simpl; [|lia].
        destruct (reads_from_dict c u _ _); simpl; rewrite ?length_app; simpl; [|lia].
        pose proof (dict_set_length u
          (mkDataItem u (persistent_storage_handler r) (properties r))
          (data_items_by_uuid acc)). lia.
      * destruct (reads_from_dict c u _ _); simpl; [|lia].
        pose proof (dict_set_length u
          (mkDataItem u (persistent_storage_handler r) (properties r))
          (data_items_by_uuid acc)). lia.
  - lia.
Qed.

Lemma foldl_load_record_length c target l acc :
  (length (data_items_by_uuid (foldl (load_record c target) acc l)) <=
     length (data_items_by_uuid acc) +
     length (filter (fun r => get_version (properties r) = writer_version) l))%nat /\
  (length (written (foldl (load_record c target) acc l)) <=
     length (written acc) +
     length (filter (fun r => changed_ref r = true /\
                              get_version (properties r) = writer_version) l))%nat.
Proof.
  revert acc. induction l as [|r l IH]; intros acc; simpl; [lia|].
  destruct (IH (load_record c target acc r)) as [H1 H2].
  destruct (load_record_length c target acc r) as [G1 G2].
  rewrite !filter_cons.
  destruct (decide (get_version (properties r) = writer_version)) as [Hv|Hv].
  - rewrite bool_decide_eq_true_2 in G1 by done.
    destruct (decide (changed_ref r = true /\ _)) as [Hc|Hc].
    + rewrite bool_decide_eq_true_2 in G2 by done. simpl. lia.
    + rewrite bool_decide_eq_false_2 in G2 by done. simpl. lia.
  - rewrite bool_decide_eq_false_2 in G1 by done.
    rewrite decide_False by (intros [_ ?]; done).
    rewrite bool_decide_eq_false_2 in G2 by (intros [_ ?]; done). lia.
Qed.

Lemma filter_length_Forall2 {A B} (R : A -> B -> Prop) (P : A -> Prop) (Q : B -> Prop)
    `{!forall a, Decision (P a)} `{!forall b, Decision (Q b)} (l : list A) (k : list B) :
  Forall2 R l k -> (forall a b, R a b -> Q b -> P a) ->
  (length (filter Q k) <= length (filter P l))%nat.
Proof.
  intros HF HR. induction HF as [|a b l k Hab _ IH]; [done|].
  rewrite !filter_cons. destruct (decide (Q b)) as [Hq|Hq].
  - rewrite decide_True by eauto. simpl. lia.
  - destruct (decide (P a)); simpl; lia.
Qed.

(** What the loop has counted: the records of the three kinds. *)
Lemma count_versions_returns (hs : list (Handler Content)) a b d count :
  count_versions hs [a; b; d] = Returned count ->
  length (omap read_record hs) = length hs /\
  count =
    [a + Z.of_nat (length (filter (fun r => get_version (properties r) = writer_version)
                             (omap read_record hs)));
     b + Z.of_nat (length (filter (fun r => writer_version < get_version (properties r))
                             (omap read_record hs)));
     d + Z.of_nat (length (filter (fun r => get_version (properties r) < writer_version)
                             (omap read_record hs)))].
Proof.
  revert a b d. induction hs as [|h hs IH]; intros a b d.
  - simpl. intros [= <-]. split; [done|]. by rewrite !Z.add_0_r.
  - cbn [count_versions]. destruct (read_properties h) as [p|] eqn:Hp; [|done].
    assert (Hcons : omap read_record (h :: hs) =
                    mkReaderInfo p false h :: omap read_record hs).
    { cbn [omap list_omap]. unfold read_record at 1. rewrite Hp. done. }
    rewrite Hcons. clear Hcons. rewrite !filter_cons. cbn [properties length].
    unfold count_version.
    destruct (get_version p <? writer_version) eqn:E1.
    + apply Z.ltb_lt in E1. intros H. apply IH in H as [Hl ->]. split; [by rewrite Hl|].
      rewrite decide_False by lia. rewrite decide_False by lia. rewrite decide_True by lia.
      cbn [length]. f_equal. f_equal. f_equal. lia.
    + apply Z.ltb_ge in E1. destruct (writer_version <? get_version p) eqn:E2.
      * apply Z.ltb_lt in E2. intros H. apply IH in H as [Hl ->]. split; [by rewrite Hl|].
        rewrite decide_False by lia. rewrite decide_True by lia. rewrite decide_False by lia.
        cbn [length]. f_equal. f_equal. lia.
      * apply Z.ltb_ge in E2. intros H. apply IH in H as [Hl ->]. split; [by rewrite Hl|].
        rewrite decide_True by lia. rewrite decide_False by lia. rewrite decide_False by lia.
        cbn [length]. f_equal. lia.
Qed.

Lemma count_versions_unreadable (hs : list (Handler Content)) h count :
  h ∈ hs -> read_properties h = None -> count_versions hs count = Raised.
Proof.
  intros Hin Hh. revert count. induction Hin as [h hs|h h' hs _ IH]; intros count; simpl.
  - by rewrite Hh.
  - destruct (read_properties h'); [apply IH; done|done].
Qed.

Lemma three_kinds (l : list (ReaderInfo Content)) :
  (length (filter (fun r => get_version (properties r) = writer_version) l) +
   length (filter (fun r => (writer_version < get_version (properties r))%Z) l) +
   length (filter (fun r => (get_version (properties r) < writer_version)%Z) l) = length l)%nat.
Proof.
  induction l as [|r l IH]; [done|]. rewrite !filter_cons.
  destruct (Z.lt_trichotomy (get_version (properties r)) writer_version) as [H|[H|H]].
  - rewrite decide_False by lia. rewrite decide_False by lia. rewrite decide_True by lia.
    simpl. lia.
  - rewrite decide_True by lia. rewrite decide_False by lia. rewrite decide_False by lia.
    simpl. lia.
  - rewrite decide_False by lia. rewrite decide_True by lia. rewrite decide_False by lia.
    simpl. lia.
Qed.

Lemma read_records_unchanged (hs : list (Handler Content)) :
  Forall (fun r => changed_ref r = false) (omap read_record hs).
Proof.
  apply Forall_forall. intros r Hr. apply elem_of_read_records in Hr as (p & _ & _ & ->).
  done.
Qed.

Lemma migrate_to_latest_Forall2 (st : Steps Content Env) env (l : list (ReaderInfo Content))
    (P : ReaderInfo Content -> Prop) :
  Forall P l ->
  Forall2 (fun r r' => P r /\ kept writer_version r r' /\
                       (writer_version <= get_version (properties r) -> r' = r))
          l (migrate_to_latest st env l).2.
Proof.
  intros HP. apply Forall2_same_length_lookup_2.
  - by rewrite migrate_to_latest_length.
  - intros i r r' Hi Hi'. split; [by eapply Forall_lookup_1|].
    destruct (migrate_to_latest_kept st env l i r Hi) as (r'' & Hi'' & Hk).
    rewrite Hi' in Hi''. injection Hi'' as <-. split; [done|].
    intros Hv. rewrite (migrate_to_latest_skip st env l i r Hi Hv) in Hi'. congruence.
Qed.

End Stats.

(** X6. When [read_data_items_version_stats] returns, its three counts add
    up to the number of handlers found, and they bound what
    [read_data_items] does on the same storage: it returns, with no more
    data items than there are records at or below the writer version (at
    the writer version, when older files are ignored), and it writes back
    no more records than there are below the writer version. *)
Theorem version_stats_bound_the_load {Content Env : Type}
    (systems : list (StorageSystem Content)) (count : list Z) :
  read_data_items_version_stats systems = Returned count ->
  exists hs matches higher lower,
    find_all systems = Returned hs /\
    count = [matches; higher; lower] /\
    0 <= matches /\ 0 <= higher /\ 0 <= lower /\
    matches + higher + lower = Z.of_nat (length hs) /\
    forall (c : Collaborators Content Env) (ignore_older_files : bool)
           (target_document : option (TargetDocument Content)) (env : Env),
    exists items wr,
      read_data_items c ignore_older_files systems target_document env =
        Returned (items, wr) /\
      Z.of_nat (length items) <= matches + lower /\
      (ignore_older_files = true -> Z.of_nat (length items) <= matches /\ wr = []) /\
      Z.of_nat (length wr) <= lower.
Proof.
  unfold read_data_items_version_stats. destruct (find_all systems) as [hs|] eqn:Hf; [|done].
  intros Hc. apply count_versions_returns in Hc as [Hlen ->].
  set (L := omap read_record hs) in *.
  pose proof (three_kinds L) as H3.
  eexists hs, _, _, _. split; [done|]. split; [reflexivity|].
  split; [lia|]. split; [lia|]. split; [lia|]. split; [lia|].
  intros c ign target env. unfold read_data_items. rewrite Hf.
  eexists _, _. split; [reflexivity|].
  set (l := reader_info_list_of c ign hs env).
  destruct (foldl_load_record_length c target l (mkLoaded [] [])) as [H1 H2].
  simpl in H1, H2. rewrite (Permutation_length (sort_by_date_perm c _)), length_fmap.
  assert (Hunch : length (filter (fun r : ReaderInfo Content =>
             changed_ref r = true /\ get_version (properties r) = writer_version) L) = 0%nat).
  { apply length_zero_iff_nil. apply filter_none. apply Forall_forall. intros r Hr [Hch _].
    pose proof (read_records_unchanged hs) as HF.
    rewrite Forall_forall in HF. specialize (HF r Hr). congruence. }
  split; [|split].
  - subst l. unfold reader_info_list_of in *. fold L in H1 |- *. destruct ign; [lia|].
    pose proof (filter_length_Forall2 _
      (fun r : ReaderInfo Content => get_version (properties r) <= writer_version)
      (fun r : ReaderInfo Content => get_version (properties r) = writer_version)
      L _ (migrate_to_latest_Forall2 (steps c) env L _ (read_records_unchanged hs))) as Hle.
    assert (Hsplit : (length (filter (fun r : ReaderInfo Content =>
                (get_version (properties r) <= writer_version)%Z) L) <=
              length (filter (fun r : ReaderInfo Content =>
                get_version (properties r) = writer_version) L) +
              length (filter (fun r : ReaderInfo Content =>
                (get_version (properties r) < writer_version)%Z) L))%nat).
    { clear. induction L as [|r L IH]; [done|]. rewrite !filter_cons.
      destruct (Z.lt_trichotomy (get_version (properties r)) writer_version) as [H|[H|H]].
      - rewrite decide_True by lia. rewrite decide_False by lia. rewrite decide_True by lia.
        simpl. lia.
      - rewrite decide_True by lia. rewrite decide_True by lia. rewrite decide_False by lia.
        simpl. lia.
      - rewrite decide_False by lia. rewrite decide_False by lia. rewrite decide_False by lia.
        lia. }
    cut ((length (filter (fun r : ReaderInfo Content =>
                get_version (properties r) = writer_version)
              (migrate_to_latest (steps c) env L).2) <=
          length (filter (fun r : ReaderInfo Content =>
                (get_version (properties r) <= writer_version)%Z) L))%nat); [lia|].
    apply Hle. intros r r' (_ & (_ & Hv & _) & _) Hw. lia.
  - intros ->. subst l. unfold reader_info_list_of in *. fold L in H1, H2 |- *.
    split; [lia|]. apply length_zero_iff_nil. lia.
  - subst l. unfold reader_info_list_of in *. fold L in H2 |- *. destruct ign; [lia|].
    cut ((length (filter (fun r : ReaderInfo Content =>
                changed_ref r = true /\ get_version (properties r) = writer_version)
              (migrate_to_latest (steps c) env L).2) <=
          length (filter (fun r : ReaderInfo Content =>
                (get_version (properties r) < writer_version)%Z) L))%nat); [lia|].
    eapply filter_length_Forall2.
    + apply (migrate_to_latest_Forall2 (steps c) env L _ (read_records_unchanged hs)).
    + intros r r' (Hun & _ & Hsame) [Hch Hw]. cbv beta in *.
      destruct (decide (get_version (properties r) < writer_version)) as [|Hge]; [done|].
      exfalso. rewrite Hsame in Hch by lia. congruence.
Qed.

(** X7. A record that cannot be read makes
    [read_data_items_version_stats] raise, where [read_data_items] on the
    same storage skips the record and returns. *)
Theorem unreadable_record_fails_the_stats {Content Env : Type}
    (systems : list (StorageSystem Content)) (hs : list (Handler Content))
    (h : Handler Content) :
  find_all systems = Returned hs -> h ∈ hs -> read_properties h = None ->
  read_data_items_version_stats systems = Raised /\
  forall (c : Collaborators Content Env) (ignore_older_files : bool) (env : Env),
  exists items wr,
    read_data_items c ignore_older_files systems None env = Returned (items, wr) /\
    forall d, d ∈ items -> item_handler d <> h.
Proof.
  intros Hf Hin Hh. split.
  - unfold read_data_items_version_stats. rewrite Hf.
    by apply (count_versions_unreadable hs h).
  - intros c ign env.
    destruct (read_data_items_returns c ign systems env hs Hf)
      as (items & wr & Hret & Hitems & _).
    exists items, wr. split; [done|]. intros d Hd Heq.
    destruct (Hitems d Hd) as (r & Hr & _ & Hhd & _).
    assert (Hreadable : exists p, read_properties (persistent_storage_handler r) = Some p).
    { unfold reader_info_list_of in Hr. destruct ign.
      - apply elem_of_read_records in Hr as (p & _ & Hp & _). by exists p.
      - apply list_elem_of_lookup_1 in Hr as [i Hi].
        assert (Hlt : (i < length (omap read_record hs))%nat).
        { rewrite <- (migrate_to_latest_length (steps c) env). by eapply lookup_lt_Some. }
        destruct (lookup_lt_is_Some_2 _ i Hlt) as [r0 Hi0].
        destruct (migrate_to_latest_kept (steps c) env _ i r0 Hi0) as (r' & Hi' & Hk & _).
        rewrite Hi in Hi'. injection Hi' as <-. rewrite Hk.
        apply list_elem_of_lookup_2 in Hi0.
        apply elem_of_read_records in Hi0 as (p & _ & Hp & _). by exists p. }
    destruct Hreadable as [p Hp]. rewrite <- Hhd, Heq, Hh in Hp. done.
Qed.

Lemma unreadable_record_fails_the_stats_witness :
  read_data_items_version_stats (Content:=N)
    [MemoryPersistentStorageSystem [record_at 10 1; unreadable 2]] = Raised /\
  read_data_items example_collaborators false
    [MemoryPersistentStorageSystem [record_at 10 1; unreadable 2]] None tt =
  Returned ([mkDataItem 1%N (record_at 10 1) (mkProperties (Some 10) 1%N)], []).
Proof.
  split.
  - apply (unreadable_record_fails_the_stats (Env:=unit)
             [MemoryPersistentStorageSystem [record_at 10 1; unreadable 2]]
             [record_at 10 1; unreadable 2] (unreadable 2)).
    + reflexivity.
    + repeat constructor.
    + reflexivity.
  - reflexivity.
Defined.

Lemma version_stats_bound_the_load_witness :
  exists hs matches higher lower,
    find_all [MemoryPersistentStorageSystem [record_at 11 1; record_at 9 2; record_at 10 3]] =
      Returned hs /\
    [1; 1; 1] = [matches; higher; lower] /\
    0 <= matches /\ 0 <= higher /\ 0 <= lower /\
    matches + higher + lower = Z.of_nat (length hs) /\
    forall (c : Collaborators N unit) (ignore_older_files : bool)
           (target_document : option (TargetDocument N)) (env : unit),
    exists items wr,
      read_data_items c ignore_older_files
        [MemoryPersistentStorageSystem [record_at 11 1; record_at 9 2; record_at 10 3]]
        target_document env = Returned (items, wr) /\
      Z.of_nat (length items) <= matches + lower /\
      (ignore_older_files = true -> Z.of_nat (length items) <= matches /\ wr = []) /\
      Z.of_nat (length wr) <= lower.
Proof.
  apply (version_stats_bound_the_load (Env:=unit)
           [MemoryPersistentStorageSystem [record_at 11 1; record_at 9 2; record_at 10 3]]
           [1; 1; 1]).
  reflexivity.
Defined.

(** ** File names *)

Lemma string_app_assoc (s1 s2 s3 : string) : (s1 +:+ s2) +:+ s3 = s1 +:+ (s2 +:+ s3).
Proof.
  induction s1 as [|a s1 IH]; [reflexivity|].
  change (String a ((s1 +:+ s2) +:+ s3) = String a (s1 +:+ (s2 +:+ s3))). by rewrite IH.
Qed.

Lemma string_app_nil_r (s : string) : s +:+ EmptyString = s.
Proof.
  induction s as [|a s IH]; [reflexivity|].
  change (String a (s +:+ EmptyString) = String a s). by rewrite IH.
Qed.

Lemma uuid_alphabet_place d a :
  String.get d uuid_alphabet = Some a -> place a uuid_alphabet = N.of_nat d.
Proof.
  unfold uuid_alphabet.
  do 36 (destruct d as [|d]; [by intros [= <-]|]). done.
Qed.

Lemma uuid_alphabet_get d :
  (d < 36)%nat -> is_Some (String.get d uuid_alphabet).
Proof.
  intros Hd. unfold uuid_alphabet.
  do 36 (destruct d as [|d]; [by eexists|]). lia.
Qed.

Section Encode.

Variable alphabet : string.

Let base : N := N.of_nat (String.length alphabet).

Hypothesis base_two : (2 <= base)%N.
Hypothesis alphabet_place :
  forall d a, String.get d alphabet = Some a -> place a alphabet = N.of_nat d.
Hypothesis alphabet_get :
  forall d, (d < String.length alphabet)%nat -> is_Some (String.get d alphabet).

(** With recursion depth for the digits, the loop returns what it was
    given with the digits behind, which [decode] reads back, and there are
    as many of them as the number needs. *)
Lemma encode_loop_digits (k : nat) : forall (fuel : nat) (n : N) (acc : string),
  (n < base ^ N.of_nat k)%N -> (k < fuel)%nat ->
  exists s,
    encode_loop fuel n alphabet acc = Some (Returned (acc +:+ s)) /\
    decode alphabet s = n /\
    (n < base ^ N.of_nat (String.length s))%N /\
    (String.length s <> 0%nat -> (base ^ N.of_nat (String.length s - 1) <= n)%N) /\
    (n = 0%N -> s = EmptyString).
Proof.
  induction k as [|k IH]; intros fuel n acc Hn Hfuel.
  - destruct fuel as [|fuel]; [lia|]. simpl in Hn. assert (n = 0%N) as -> by lia.
    exists EmptyString. rewrite string_app_nil_r. simpl. done.
  - destruct fuel as [|fuel]; [lia|]. cbn [encode_loop].
    destruct (n =? 0)%N eqn:E0.
    + apply N.eqb_eq in E0 as ->. exists EmptyString. rewrite string_app_nil_r. simpl. done.
    + apply N.eqb_neq in E0. fold base.
      destruct (base =? 0)%N eqn:Eb; [apply N.eqb_eq in Eb; lia|].
      pose proof (N.div_eucl_spec n base) as Hdiv.
      pose proof (N.mod_lt n base ltac:(lia)) as Hmod. unfold N.modulo in Hmod.
      destruct (N.div_eucl n base) as [q d]. simpl in Hmod.
      destruct (alphabet_get (N.to_nat d)) as [a Ha]; [unfold base in Hmod; lia|].
      rewrite Ha.
      assert (Hq : (q < base ^ N.of_nat k)%N).
      { rewrite Nat2N.inj_succ, N.pow_succ_r' in Hn.
        destruct (decide (q < base ^ N.of_nat k)%N) as [|Hge]; [done|]. exfalso. nia. }
      destruct (IH fuel q (acc +:+ String a EmptyString) Hq ltac:(lia))
        as (s & Hs & Hdec & Hlt & Hge & Hzero).
      exists (String a s). split; [|split; [|split; [|split]]].
      * rewrite Hs. by rewrite string_app_assoc.
      * cbn [decode]. fold base. rewrite Hdec, (alphabet_place _ _ Ha). lia.
      * cbn [String.length]. rewrite Nat2N.inj_succ, N.pow_succ_r'. nia.
      * intros _. cbn [String.length]. replace (S (String.length s) - 1)%nat
          with (String.length s) by lia.
        destruct (String.length s) as [|len] eqn:El.
        -- simpl. lia.
        -- specialize (Hge ltac:(lia)). replace (S len - 1)%nat with len in Hge by lia.
           rewrite Nat2N.inj_succ, N.pow_succ_r'. nia.
      * intros ->. done.
Qed.

End Encode.

Lemma uuid_pow : (2 ^ 128 < 36 ^ N.of_nat 25)%N.
Proof. vm_compute. reflexivity. Qed.

Lemma encode_uuid (fuel : nat) (n : N) :
  (25 < fuel)%nat -> (n < 2 ^ 128)%N ->
  exists s,
    encode fuel n uuid_alphabet = Some (Returned s) /\
    decode uuid_alphabet s = n /\
    (n < 36 ^ N.of_nat (String.length s))%N /\
    (String.length s <> 0%nat -> (36 ^ N.of_nat (String.length s - 1) <= n)%N) /\
    (n = 0%N -> s = EmptyString).
Proof.
  intros Hfuel Hn.
  destruct (encode_loop_digits uuid_alphabet ltac:(vm_compute; discriminate)
              uuid_alphabet_place uuid_alphabet_get 25 fuel n EmptyString) as (s & Hs & H);
    [|done|].
  - change (N.of_nat (String.length uuid_alphabet)) with 36%N. pose proof uuid_pow. lia.
  - exists s. split; [exact Hs|]. exact H.
Qed.

(** X8. For uuids as they are, numbers below [2^128], and with recursion
    depth for 25 digits, [encode] with the alphabet of
    [__get_default_path] returns, and it gives two uuids the same name
    only if they are the same uuid. *)
Theorem encode_tells_uuids_apart (fuel : nat) (n m : N) :
  (25 < fuel)%nat -> (n < 2 ^ 128)%N -> (m < 2 ^ 128)%N ->
  exists s t,
    encode fuel n uuid_alphabet = Some (Returned s) /\
    encode fuel m uuid_alphabet = Some (Returned t) /\
    (s = t <-> n = m).
Proof.
  intros Hfuel Hn Hm.
  destruct (encode_uuid fuel n Hfuel Hn) as (s & Hs & Hds & _).
  destruct (encode_uuid fuel m Hfuel Hm) as (t & Ht & Hdt & _).
  exists s, t. split; [done|]. split; [done|]. split.
  - intros ->. congruence.
  - intros ->. congruence.
Qed.

Lemma encode_tells_uuids_apart_witness :
  exists s t,
    encode 26 36 uuid_alphabet = Some (Returned s) /\
    encode 26 1 uuid_alphabet = Some (Returned t) /\
    (s = t <-> 36%N = 1%N).
Proof.
  apply (encode_tells_uuids_apart 26 36 1); [lia|vm_compute; reflexivity..].
Defined.

(** X9. The name that [encode] gives a uuid has at most 25 characters, and
    25 only for a uuid of [36^24] or more: the name of a smaller uuid is
    shorter, and that of the uuid 0 is empty. *)
Theorem encode_length (fuel : nat) (n : N) :
  (25 < fuel)%nat -> (n < 2 ^ 128)%N ->
  exists s,
    encode fuel n uuid_alphabet = Some (Returned s) /\
    (String.length s <= 25)%nat /\
    (String.length s = 25%nat <-> (36 ^ 24 <= n)%N) /\
    (s = EmptyString <-> n = 0%N).
Proof.
  intros Hfuel Hn.
  destruct (encode_uuid fuel n Hfuel Hn) as (s & Hs & Hdec & Hlt & Hge & Hzero).
  exists s. split; [done|].
  assert (Hlen : (String.length s <= 25)%nat).
  { destruct (decide (String.length s <= 25)%nat) as [|Hgt]; [done|]. exfalso.
    specialize (Hge ltac:(lia)).
    assert ((36 ^ N.of_nat 25 <= 36 ^ N.of_nat (String.length s - 1))%N)
      by (apply N.pow_le_mono_r; lia).
    pose proof uuid_pow. lia. }
  split; [done|]. split; [split|split].
  - intros Hl. rewrite Hl in Hge. specialize (Hge ltac:(lia)). exact Hge.
  - intros H24. destruct (decide (String.length s = 25%nat)) as [|Hne]; [done|]. exfalso.
    assert ((36 ^ N.of_nat (String.length s) <= 36 ^ 24)%N)
      by (apply N.pow_le_mono_r; lia).
    lia.
  - intros ->. simpl in Hdec. done.
  - exact Hzero.
Qed.

Lemma encode_length_witness :
  exists s,
    encode 26 (36 ^ 24) uuid_alphabet = Some (Returned s) /\
    (String.length s <= 25)%nat /\
    (String.length s = 25%nat <-> (36 ^ 24 <= 36 ^ 24)%N) /\
    (s = EmptyString <-> (36 ^ 24 = 0)%N).
Proof.
  apply (encode_length 26 (36 ^ 24)); [lia|vm_compute; reflexivity].
Defined.

Example encode_example :
  encode 26 37 uuid_alphabet = Some (Returned "BB") /\
  encode 26 0 uuid_alphabet = Some (Returned "") /\
  encode 26 (2 ^ 128 - 1) uuid_alphabet = Some (Returned "DDZ3W0RVQ1X92YXZF00B88VFP") /\
  encode 3 (36 ^ 3) uuid_alphabet = None /\
  encode 3 5 "" = Some Raised.
Proof. vm_compute. repeat split. Qed.


End LoaderFacts.

(** * Facts about the text of expressions *)

Module SymbolicFacts.
Import Symbolic.

(** Leaves that are in the variable map are written by their names, and
    the map stays as it is. *)
Example reconstruct_named_leaf :
  reconstruct node_b example_variable_map = (("b", 10), example_variable_map).
Proof. reflexivity. Qed.

(** A leaf that is not in the map gets the next name with its prefix. *)
Example reconstruct_new_leaf :
  reconstruct (DataItemDataNode (specifier_of 7)) [("d3", specifier_of 1)] =
  (("d4", 10), [("d3", specifier_of 1); ("d4", specifier_of 7)]).
Proof. reflexivity. Qed.

(** Parentheses are put where the precedence of an input is lower. *)
Example reconstruct_lower_precedence :
  reconstruct_text example_variable_map
    (BinaryOperationDataNode (BinaryOperationDataNode node_a node_b "add") node_c "mul") =
  "(a + b) * c".
Proof. reflexivity. Qed.

Example reconstruct_unary :
  reconstruct_text example_variable_map
    (BinaryOperationDataNode (UnaryOperationDataNode node_a "neg") (ConstantDataNode 1) "add") =
  "-a + 1".
Proof. reflexivity. Qed.

(** C9. The round trip fails on [a - (b - c)]: the right operand has the
    precedence of the operator, gets no parentheses, and the text is that
    of [(a - b) - c], a tree with another value. So whatever the parser
    makes of ["a - b - c"], for one of the two trees it is not an
    equivalent tree. *)
Theorem reconstruct_drops_parentheses_on_the_right :
  reconstruct sub_right example_variable_map = (("a - b - c", 6), example_variable_map) /\
  reconstruct sub_left example_variable_map = (("a - b - c", 6), example_variable_map) /\
  evaluate example_context sub_right = Some 2 /\
  evaluate example_context sub_left = Some (-4) /\
  forall parse : string -> option DataNode,
    exists node, node ∈ [sub_right; sub_left] /\
      forall node', parse (reconstruct_text example_variable_map node) = Some node' ->
        ~ equivalent node node'.
Proof.
  split; [reflexivity|]. split; [reflexivity|]. split; [reflexivity|].
  split; [reflexivity|]. intros parse.
  destruct (parse "a - b - c") as [parsed|] eqn:Hparse.
  - destruct (decide (evaluate example_context parsed = Some 2)) as [Heq|Hne].
    + exists sub_left. split; [set_solver|]. intros node' Hn' Hequiv.
      change (reconstruct_text example_variable_map sub_left) with "a - b - c" in Hn'.
      rewrite Hparse in Hn'. injection Hn' as <-.
      specialize (Hequiv example_context). rewrite Heq in Hequiv. discriminate.
    + exists sub_right. split; [set_solver|]. intros node' Hn' Hequiv.
      change (reconstruct_text example_variable_map sub_right) with "a - b - c" in Hn'.
      rewrite Hparse in Hn'. injection Hn' as <-.
      specialize (Hequiv example_context). apply Hne. by rewrite <- Hequiv.
  - exists sub_right. split; [set_solver|]. intros node' Hn'.
    change (reconstruct_text example_variable_map sub_right) with "a - b - c" in Hn'.
    rewrite Hparse in Hn'. discriminate.
Qed.

(** ** The names of the leaves *)

Lemma app_string_assoc (s1 s2 s3 : string) : (s1 +:+ s2) +:+ s3 = s1 +:+ (s2 +:+ s3).
Proof.
  induction s1 as [|a s1 IH]; [reflexivity|].
  change (String a ((s1 +:+ s2) +:+ s3) = String a (s1 +:+ (s2 +:+ s3))). by rewrite IH.
Qed.

Lemma slice_from_prefix (prefix s : string) :
  slice_from (String.length prefix) (prefix +:+ s) = s.
Proof. induction prefix as [|a prefix IH]; [by destruct s|exact IH]. Qed.

Lemma int_digits_app acc (s1 s2 : string) :
  int_digits acc (s1 +:+ s2) =
  match int_digits acc s1 with
  | Some a => int_digits a s2
  | None => None
  end.
Proof.
  revert acc. induction s1 as [|a s1 IH]; intros acc; [reflexivity|].
  change (String a s1 +:+ s2) with (String a (s1 +:+ s2)). cbn [int_digits].
  destruct (digit_value a); [apply IH|done].
Qed.

Lemma digit_value_pretty (d : N) :
  (d < 10)%N -> digit_value (pretty_N_char d) = Some (Z.of_N d).
Proof.
  intros Hd.
  assert (d = 0 \/ d = 1 \/ d = 2 \/ d = 3 \/ d = 4 \/ d = 5 \/ d = 6 \/ d = 7 \/
          d = 8 \/ d = 9)%N as H by lia.
  repeat (destruct H as [->|H]; [reflexivity|]). by subst.
Qed.

Lemma pretty_N_go_app (x : N) (s : string) :
  pretty_N_go x s = pretty_N_go x EmptyString +:+ s.
Proof.
  revert s. induction (N.lt_wf_0 x) as [x _ IH]; intros s.
  destruct (decide (0 < x)%N) as [Hx|Hx].
  - rewrite !(pretty_N_go_step x) by done.
    pose proof (IH (x `div` 10)%N (N.div_lt x 10 Hx eq_refl)) as IH'.
    rewrite (IH' (String _ s)), (IH' (String _ EmptyString)).
    by rewrite app_string_assoc.
  - assert (x = 0%N) as -> by lia. by rewrite !pretty_N_go_0.
Qed.

Lemma int_digits_pretty_N_go (x : N) :
  int_digits 0 (pretty_N_go x EmptyString) = Some (Z.of_N x).
Proof.
  induction (N.lt_wf_0 x) as [x _ IH].
  destruct (decide (0 < x)%N) as [Hx|Hx].
  - rewrite pretty_N_go_step, pretty_N_go_app, int_digits_app by done.
    rewrite (IH (x `div` 10)%N (N.div_lt x 10 Hx eq_refl)). cbn [int_digits].
    rewrite digit_value_pretty by (by apply N.mod_lt).
    f_equal. pose proof (N.div_mod x 10 ltac:(done)). lia.
  - assert (x = 0%N) as -> by lia. by rewrite pretty_N_go_0.
Qed.

(** [int(str(n)) == n], and [str(n).isdigit()], for a number that is not
    negative. *)
Lemma int_of_digits_pretty (n : Z) : 0 <= n -> int_of_digits (pretty n) = Some n.
Proof.
  intros Hn. destruct n as [|p|p]; [reflexivity| |lia].
  unfold pretty, pretty_Z, pretty, pretty_positive, pretty, pretty_N.
  rewrite decide_False by done.
  pose proof (int_digits_pretty_N_go (N.pos p)) as H.
  unfold int_of_digits. destruct (pretty_N_go (N.pos p) EmptyString); [done|exact H].
Qed.

(** The loop over the variable map: what it has passed over binds neither
    the specifier nor a name with the prefix and an index from the one
    it returns on. *)
Lemma find_variable_new prefix specifier items index0 index :
  find_variable prefix specifier items index0 = inr index ->
  index0 <= index /\
  forall variable object_specifier, (variable, object_specifier) ∈ items ->
    object_specifier <> specifier /\
    forall n, index <= n -> 0 <= n -> variable <> prefix +:+ pretty n.
Proof.
  revert index0. induction items as [|[variable0 specifier0] items IH]; intros index0; simpl.
  - intros [= <-]. split; [lia|]. intros ? ? H. by apply elem_of_nil in H.
  - destruct (decide (specifier0 = specifier)) as [|Hne]; [done|]. intros H.
    apply IH in H as [Hle Hitems].
    assert (Hle0 : index0 <= index).
    { destruct (int_of_digits _); lia. }
    split; [done|]. intros variable object_specifier [[= -> ->]|Hin]%elem_of_cons.
    + split; [done|]. intros n Hn Hn0 ->.
      rewrite slice_from_prefix, int_of_digits_pretty in Hle by done. lia.
    + by apply Hitems.
Qed.

Lemma find_variable_found prefix specifier items more index0 variable :
  find_variable prefix specifier items index0 = inl variable ->
  find_variable prefix specifier (items ++ more) index0 = inl variable.
Proof.
  revert index0. induction items as [|[variable0 specifier0] items IH]; intros index0; simpl;
    [done|].
  destruct (decide (specifier0 = specifier)); [done|]. apply IH.
Qed.

Lemma find_variable_added prefix specifier items more index0 index name :
  find_variable prefix specifier items index0 = inr index ->
  find_variable prefix specifier (items ++ (name, specifier) :: more) index0 = inl name.
Proof.
  revert index0. induction items as [|[variable0 specifier0] items IH]; intros index0; simpl.
  - intros _. by rewrite decide_True.
  - destruct (decide (specifier0 = specifier)); [done|]. apply IH.
Qed.

Lemma dict_set_new {A} key (value : A) (d : list (string * A)) :
  key ∉ d.*1 -> dict_set key value d = d ++ [(key, value)].
Proof.
  induction d as [|[k v] d IH]; simpl; [done|].
  intros [Hne Hd]%not_elem_of_cons. rewrite decide_False by done. by rewrite IH.
Qed.

(** A leaf either finds its name in the map, or appends a name that was
    not there; on the map it leaves behind, and on any longer one, it
    finds that name. *)
Lemma reconstruct_leaf_stable prefix specifier variable_map r variable_map' :
  reconstruct_leaf prefix specifier variable_map = (r, variable_map') ->
  (exists added, variable_map' = variable_map ++ added /\
     (NoDup variable_map.*1 -> NoDup variable_map'.*1)) /\
  forall more, reconstruct_leaf prefix specifier (variable_map' ++ more) =
               (r, variable_map' ++ more).
Proof.
  unfold reconstruct_leaf.
  destruct (find_variable prefix specifier variable_map (-1)) as [variable|index] eqn:E.
  - intros [= <- <-]. split.
    + exists []. by rewrite app_nil_r.
    + intros more. by rewrite (find_variable_found _ _ _ more _ variable E).
  - intros [= <- <-].
    destruct (find_variable_new _ _ _ _ _ E) as [_ Hitems].
    set (name := prefix +:+ pretty (Z.max index 0)).
    assert (Hfresh : name ∉ variable_map.*1).
    { intros Hin. apply list_elem_of_fmap in Hin as ([k v] & Hk & Hin). simpl in Hk. subst k.
      destruct (Hitems _ _ Hin) as [_ Hn]. by apply (Hn (Z.max index 0)); [lia|lia|]. }
    rewrite dict_set_new by done. split.
    + exists [(name, specifier)]. split; [done|].
      intros Hnd. rewrite fmap_app. apply NoDup_app. split; [done|]. split.
      * intros key Hkey Hin. apply list_elem_of_singleton in Hin. by subst.
      * apply NoDup_singleton.
    + intros more. rewrite <- app_assoc. simpl.
      by rewrite (find_variable_added _ _ _ more _ index name E).
Qed.

Lemma reconstruct_stable_more (node : DataNode) : forall variable_map r variable_map',
  reconstruct node variable_map = (r, variable_map') ->
  (exists added, variable_map' = variable_map ++ added /\
     (NoDup variable_map.*1 -> NoDup variable_map'.*1)) /\
  forall more, reconstruct node (variable_map' ++ more) = (r, variable_map' ++ more).
Proof.
  induction node as [scalar|input IH function_id|input0 IH0 input1 IH1 function_id
                     |specifier|specifier]; intros m r m'; cbn [reconstruct].
  - intros [= <- <-]. split; [|done]. exists []. by rewrite app_nil_r.
  - destruct (reconstruct input m) as [[arg p] m1] eqn:E.
    destruct (IH _ _ _ E) as [Hext Hmore].
    destruct (dict_get function_id _operator_map) as [[operator_text precedence]|];
      intros [= <- <-]; (split; [done|]); intros more; by rewrite Hmore.
  - destruct (reconstruct input0 m) as [[left_ p0] m1] eqn:E0.
    destruct (reconstruct input1 m1) as [[right_ p1] m2] eqn:E1.
    destruct (IH0 _ _ _ E0) as [(a1 & -> & Hnd1) Hmore0].
    destruct (IH1 _ _ _ E1) as [(a2 & -> & Hnd2) Hmore1].
    assert (Hagain : forall more,
              reconstruct input0 ((m ++ a1) ++ a2 ++ more) = ((left_, p0), (m ++ a1) ++ a2 ++ more))
      by (intros more; apply Hmore0).
    destruct (dict_get function_id _operator_map) as [[operator_text precedence]|];
      intros [= <- <-]; (split; [exists (a1 ++ a2); split; [by rewrite app_assoc|auto]|]);
      intros more; rewrite <- (app_assoc (m ++ a1)), Hagain, (app_assoc (m ++ a1)), Hmore1;
      done.
  - apply reconstruct_leaf_stable.
  - apply reconstruct_leaf_stable.
Qed.


Example reconstruct_twice :
  reconstruct (BinaryOperationDataNode (DataItemDataNode (specifier_of 7))
                 (BinaryOperationDataNode (ReferenceDataNode (specifier_of 8))
                    (DataItemDataNode (specifier_of 7)) "mul") "add")
    [("d3", specifier_of 1)] =
  (("d4 + ref0 * d4", 6),
   [("d3", specifier_of 1); ("d4", specifier_of 7); ("ref0", specifier_of 8)]) /\
  reconstruct (BinaryOperationDataNode (DataItemDataNode (specifier_of 7))
                 (BinaryOperationDataNode (ReferenceDataNode (specifier_of 8))
                    (DataItemDataNode (specifier_of 7)) "mul") "add")
    [("d3", specifier_of 1); ("d4", specifier_of 7); ("ref0", specifier_of 8)] =
  (("d4 + ref0 * d4", 6),
   [("d3", specifier_of 1); ("d4", specifier_of 7); ("ref0", specifier_of 8)]).
Proof. split; reflexivity. Qed.

(** ** Subscripts *)

Lemma slice_dict_get (start stop step : option Z) :
  let d := set_if_given "step" step (set_if_given "stop" stop (set_if_given "start" start [])) in
  dict_get "index" d = None /\ get_flag "ellipses" d = false /\ get_flag "newaxis" d = false /\
  dict_get "start" d = start /\ dict_get "stop" d = stop /\ dict_get "step" d = step.
Proof. destruct start, stop, step; vm_compute; done. Qed.

Lemma dict_to_entry_of_entry (entry : Entry) (d : Dict) :
  entry_to_dict entry = Returns d -> dict_to_entry d = entry.
Proof.
  destruct entry as [start stop step|index| | |]; simpl; intros [= <-]; try reflexivity.
  destruct (slice_dict_get start stop step) as (Hi & He & Hn & H1 & H2 & H3).
  unfold dict_to_entry. cbv zeta in *. by rewrite Hi, He, Hn, H1, H2, H3.
Qed.

Lemma answer_map_entries (entries : list Entry) (l : list Dict) :
  answer_map entry_to_dict entries = Returns l ->
  dict_to_entry <$> l = entries /\ Forall (fun e => e <> EOther) entries.
Proof.
  revert l. induction entries as [|entry entries IH]; intros l; simpl.
  - by intros [= <-].
  - destruct (entry_to_dict entry) as [d|] eqn:Hd; [|done]. simpl.
    destruct (answer_map entry_to_dict entries) as [l'|]; [|done]. simpl.
    intros [= <-]. destruct (IH l' eq_refl) as [Hl Hall]. split.
    + rewrite fmap_cons. by rewrite (dict_to_entry_of_entry _ _ Hd), Hl.
    + constructor; [|done]. intros ->. done.
Qed.

(** X16. [list_to_key] undoes [key_to_list], up to the shape of the key:
    one entry comes back as it was, a tuple of one entry comes back as
    that entry alone, and any other tuple comes back as a list of its
    entries. [key_to_list] fails its assertion exactly for a list and for
    a key with an entry that is no slice, integer, [Ellipsis] or [None]. *)
Theorem list_to_key_undoes_key_to_list (key : Key) :
  match key_to_list key with
  | Returns l =>
    list_to_key l =
      match key with
      | KEntry entry => KEntry entry
      | KTuple [entry] => KEntry entry
      | KTuple entries => KList entries
      | KList entries => KList entries
      end /\
    match key with
    | KEntry entry => entry <> EOther
    | KTuple entries => Forall (fun e => e <> EOther) entries
    | KList _ => False
    end
  | Raises e =>
    e = AssertionError /\
    match key with
    | KEntry entry => entry = EOther
    | KTuple entries => EOther ∈ entries
    | KList _ => True
    end
  end.
Proof.
  destruct (key_to_list key) as [l|e] eqn:E.
  - unfold key_to_list in E. destruct key as [entry|entries|entries].
    + apply answer_map_entries in E as [Hl Hall]. unfold list_to_key. rewrite Hl.
      split; [done|]. by inversion Hall.
    + apply answer_map_entries in E as [Hl Hall]. unfold list_to_key. rewrite Hl.
      split; [|done]. by destruct entries as [|? [|? ?]].
    + simpl in E. done.
  - unfold key_to_list in E. destruct key as [entry|entries|entries].
    + destruct entry; simpl in E; try done. by injection E as <-.
    + induction entries as [|entry entries IH]; simpl in E; [done|].
      destruct (entry_to_dict entry) as [d|e'] eqn:Hd; simpl in E.
      * destruct (answer_map entry_to_dict entries) as [l'|e'']; simpl in E; [done|].
        destruct (IH E) as [-> Hin]. split; [done|]. by right.
      * injection E as <-. destruct entry; simpl in Hd; try done.
        injection Hd as <-. split; [done|]. by left.
    + simpl in E. by injection E as <-.
Qed.

Example key_round_trip :
  key_to_list (KTuple [ESlice (Some 1) None None; EIndex 3; EEllipsis]) =
    Returns [[("start", 1)]; [("index", 3)]; [("ellipses", 1)]] /\
  list_to_key [[("start", 1)]; [("index", 3)]; [("ellipses", 1)]] =
    KList [ESlice (Some 1) None None; EIndex 3; EEllipsis] /\
  list_to_key [[("index", 3)]] = KEntry (EIndex 3).
Proof. repeat split. Qed.

(** ** Slicing data *)

Section DataSliceFacts.

Context {Calibration : Type} (crop : Calibration -> Z -> Z -> Z -> Calibration).

Implicit Types (data : DataAndMetadata Calibration) (entries : list Entry).

(** Without [Ellipsis] every entry that is a slice, an integer or [None]
    gives one normalized slice, as long as the shape has a size for it. *)
Lemma normalize_all_plain entries shape ellipse_count : forall index,
  (index + length entries <= length shape)%nat ->
  Forall (fun e => e <> EEllipsis /\ e <> EOther) entries ->
  exists normalized,
    normalize_all index entries shape ellipse_count = Returns normalized /\
    length normalized = length entries /\
    forall j e, entries !! j = Some e ->
      exists size, shape !! (index + j)%nat = Some size /\
        normalize_slice (index + j) e shape ellipse_count =
          Returns (option_list (normalized !! j)).
Proof.
  induction entries as [|e entries IH]; intros index Hlen Hall.
  - exists []. split; [done|]. split; [done|]. intros j e H. done.
  - apply Forall_cons in Hall as [[He1 He2] Hall]. simpl in Hlen.
    destruct (lookup_lt_is_Some_2 shape index ltac:(lia)) as [size Hsize].
    destruct (IH (S index) ltac:(lia) Hall) as (normalized & Hn & Hl & Hj).
    assert (Hone : exists cs, normalize_slice index e shape ellipse_count = Returns [cs]).
    { unfold normalize_slice. rewrite Hsize. unfold normalize_bounds.
      destruct e; try done; eauto. }
    destruct Hone as [cs Hcs]. exists (cs :: normalized).
    cbn [normalize_all]. rewrite Hcs, Hn. simpl. split; [done|]. split; [by rewrite Hl|].
    intros [|j] e' Hj'; simpl in Hj'.
    + injection Hj' as <-. exists size. rewrite Nat.add_0_r. by split.
    + destruct (Hj j e' Hj') as (size' & Hs' & Hn').
      exists size'. replace (index + S j)%nat with (S index + j)%nat by lia. by split.
Qed.

Lemma answer_map_extent (l : list (bool * Slice)) :
  Forall (fun cs => slice_step cs.2 <> 0) l ->
  exists shape, answer_map (fun cs : bool * Slice => extent cs.2) l = Returns shape /\
                length shape = length l.
Proof.
  induction 1 as [|cs l Hcs _ (shape & IH & Hlen)]; [by exists []|].
  simpl. unfold extent at 1. apply Z.eqb_neq in Hcs. rewrite Hcs, IH. simpl.
  eexists. split; [reflexivity|]. simpl. by rewrite Hlen.
Qed.

Lemma crop_calibrations_short (calibrations : list Calibration)
    (normalized : list (bool * Slice)) (uncollapsed : list Z) : forall index,
  length uncollapsed = length normalized ->
  (index <= length normalized)%nat ->
  (length normalized < index + length calibrations)%nat ->
  crop_calibrations crop index calibrations normalized uncollapsed = Raises IndexError.
Proof.
  induction calibrations as [|c calibrations IH]; intros index Hlen Hle Hshort; simpl in *.
  - lia.
  - destruct (normalized !! index) as [[collapsible s]|] eqn:Hn; [|done].
    apply lookup_lt_Some in Hn.
    destruct (lookup_lt_is_Some_2 uncollapsed index ltac:(lia)) as [n Hu].
    rewrite Hu. rewrite (IH (S index)) by (try done; lia). by destruct collapsible.
Qed.

End DataSliceFacts.

Lemma list_to_key_entries (key : list Dict) (entries : list Entry) :
  list_to_key key = KList entries -> entries = dict_to_entry <$> key.
Proof.
  unfold list_to_key. destruct (dict_to_entry <$> key) as [|e [|e' l]]; [|done|];
    by intros [= <-].
Qed.

Lemma dict_to_entry_other (key : list Dict) : EOther ∉ dict_to_entry <$> key.
Proof.
  intros Hin. apply list_elem_of_fmap in Hin as (d & Hd & _). unfold dict_to_entry in Hd.
  destruct (dict_get "index" d); [done|].
  destruct (get_flag "ellipses" d); [done|]. by destruct (get_flag "newaxis" d).
Qed.

(** X17. A subscript of one entry cannot be evaluated: for [a[2]], [a[1:3]]
    or a tuple of one entry, the key that [key_to_list] stores makes
    [function_data_slice] raise a [TypeError] on any data, since
    [list_to_key] gives back the entry itself and the function iterates
    over it. *)
Theorem data_slice_of_one_entry_raises {Calibration : Type}
    (crop : Calibration -> Z -> Z -> Z -> Calibration)
    (data : DataAndMetadata Calibration) (key : Key) (entry : Entry) (l : list Dict) :
  key = KEntry entry \/ key = KTuple [entry] ->
  key_to_list key = Returns l ->
  function_data_slice crop (Some data) l = Raises TypeError.
Proof.
  intros Hkey Hl.
  assert (Hone : answer_map entry_to_dict [entry] = Returns l) by (by destruct Hkey; subst).
  apply answer_map_entries in Hone as [Hone _].
  unfold function_data_slice, list_to_key. by rewrite Hone.
Qed.

Lemma data_slice_of_one_entry_raises_witness :
  function_data_slice (fun (c : unit) _ _ _ => c)
    (Some (mkDataAndMetadata [4; 8] [tt; tt])) [[("index", 2)]] = Raises TypeError.
Proof.
  apply (data_slice_of_one_entry_raises _ _ (KEntry (EIndex 2)) (EIndex 2)).
  - by left.
  - reflexivity.
Defined.

(** X18. The index -1 does not select the last element: in a key without
    [Ellipsis] that is no longer than the shape, an entry -1 at a
    dimension that is not empty is normalized to the slice from [size -
    1] to 0, which counts as empty, and [function_data_slice] returns
    [None]. *)
Theorem data_slice_index_minus_one {Calibration : Type}
    (crop : Calibration -> Z -> Z -> Z -> Calibration)
    (data : DataAndMetadata Calibration) (key : list Dict) (entries : list Entry)
    (j : nat) (size : Z) :
  list_to_key key = KList entries ->
  (length entries <= length (data_shape data))%nat ->
  EEllipsis ∉ entries ->
  entries !! j = Some (EIndex (-1)) ->
  data_shape data !! j = Some size -> 1 <= size ->
  function_data_slice crop (Some data) key = Returns None.
Proof.
  intros Hkey Hlen Hell Hj Hsize Hpos.
  assert (Hoth : EOther ∉ entries).
  { apply list_to_key_entries in Hkey as ->. apply dict_to_entry_other. }
  unfold function_data_slice. rewrite Hkey.
  destruct (normalize_all_plain entries (data_shape data)
              (Z.of_nat (length (data_shape data)) - non_ellipses_count entries) 0)
    as (normalized & Hn & Hl & Hall); [simpl; lia| |].
  { apply Forall_forall. intros e He. split; intros ->; done. }
  rewrite Hn. simpl.
  destruct (Hall j _ Hj) as (size' & Hs' & Hnj). simpl in Hs', Hnj.
  rewrite Hsize in Hs'. injection Hs' as <-.
  unfold normalize_slice in Hnj. rewrite Hsize in Hnj. unfold normalize_bounds in Hnj.
  simpl in Hnj. injection Hnj as Hnj.
  destruct (normalized !! j) as [cs|] eqn:Hcs; simpl in Hnj; [|done].
  injection Hnj as <-.
  assert (Hex : existsb (fun cs : bool * Slice => slice_stop cs.2 <=? slice_start cs.2)
                  normalized = true).
  { apply existsb_exists. eexists. split; [apply list_elem_of_In; by eapply list_elem_of_lookup_2|].
    simpl. destruct (-1 + 1 <? 0) eqn:E; [lia|]. apply Z.leb_le. simpl. lia. }
  by rewrite Hex.
Qed.

Lemma data_slice_index_minus_one_witness :
  function_data_slice (fun (c : unit) _ _ _ => c)
    (Some (mkDataAndMetadata [4; 8] [tt; tt]))
    [[("index", -1)]; [("start", 0); ("stop", 8)]] = Returns None.
Proof.
  apply (data_slice_index_minus_one _ _ _ [EIndex (-1); ESlice (Some 0) (Some 8) None] 0 4).
  - reflexivity.
  - simpl. lia.
  - apply (bool_decide_unpack _). vm_compute. exact I.
  - reflexivity.
  - reflexivity.
  - lia.
Defined.

(** X19. A key that gives fewer slices than the data has dimensional
    calibrations cannot be evaluated: when no slice is empty and no step
    is zero, the loop over the calibrations runs past the normalized
    slices and [function_data_slice] raises an [IndexError]. So it is for
    a key without [Ellipsis] that has fewer entries than the data has
    dimensions, as [a[2, 3]] on data of three dimensions. *)
Theorem data_slice_of_short_key_raises {Calibration : Type}
    (crop : Calibration -> Z -> Z -> Z -> Calibration)
    (data : DataAndMetadata Calibration) (key : list Dict) (entries : list Entry)
    (normalized : list (bool * Slice)) :
  list_to_key key = KList entries ->
  normalize_all 0 entries (data_shape data)
    (Z.of_nat (length (data_shape data)) - non_ellipses_count entries) = Returns normalized ->
  Forall (fun cs => slice_start cs.2 < slice_stop cs.2 /\ slice_step cs.2 <> 0) normalized ->
  (length normalized < length (dimensional_calibrations data))%nat ->
  function_data_slice crop (Some data) key = Raises IndexError /\
  (EEllipsis ∉ entries -> length normalized = length entries).
Proof.
  intros Hkey Hn Hall Hshort. split.
  - unfold function_data_slice. rewrite Hkey, Hn. simpl.
    assert (Hex : existsb (fun cs : bool * Slice => slice_stop cs.2 <=? slice_start cs.2)
                    normalized = false).
    { apply not_true_is_false. intros (cs & Hin & Hcs)%existsb_exists.
      apply list_elem_of_In in Hin. rewrite Forall_forall in Hall.
      destruct (Hall cs Hin) as [Hlt _]. apply Z.leb_le in Hcs. lia. }
    rewrite Hex.
    destruct (answer_map_extent (filter (fun cs : bool * Slice => cs.1 = false) normalized))
      as (shape1 & -> & _).
    { apply Forall_forall. intros cs [_ Hin]%list_elem_of_filter.
      rewrite Forall_forall in Hall. by apply Hall. }
    destruct (answer_map_extent normalized) as (shape2 & -> & Hlen2).
    { eapply Forall_impl; [exact Hall|]. by intros cs [_ ?]. }
    simpl. rewrite (crop_calibrations_short crop) by (try done; simpl; lia). done.
  - intros Hell.
    assert (Hoth : EOther ∉ entries).
    { apply list_to_key_entries in Hkey as ->. apply dict_to_entry_other. }
    clear Hkey Hall Hshort. revert Hn. generalize 0%nat.
    generalize (Z.of_nat (length (data_shape data)) - non_ellipses_count entries).
    revert normalized. induction entries as [|e entries IH]; intros normalized ec index.
    + by intros [= <-].
    + apply not_elem_of_cons in Hell as [He1 Hell]. apply not_elem_of_cons in Hoth as [He2 Hoth].
      cbn [normalize_all]. unfold normalize_slice at 1.
      destruct (data_shape data !! index) as [size|]; [|done].
      destruct (normalize_all (S index) entries (data_shape data) ec) as [l'|] eqn:E'.
      * specialize (IH Hell Hoth l' ec (S index) E').
        destruct e; try done; simpl; intros [= <-]; simpl; by rewrite IH.
      * destruct e; try done.
Qed.

Lemma data_slice_of_short_key_raises_witness :
  function_data_slice (fun (c : unit) _ _ _ => c)
    (Some (mkDataAndMetadata [4; 8; 8] [tt; tt; tt]))
    [[("index", 2)]; [("index", 3)]] = Raises IndexError.
Proof.
  refine (proj1 (data_slice_of_short_key_raises _ _ _ [EIndex 2; EIndex 3]
                   [(true, mkSlice 2 3 1); (true, mkSlice 3 4 1)] _ _ _ _)).
  - reflexivity.
  - reflexivity.
  - repeat constructor; simpl; lia.
  - simpl. lia.
Defined.

Example data_slice_examples :
  function_data_slice (fun (c : Z) n start step => c + n * start)
    (Some (mkDataAndMetadata [4; 8] [0; 0]))
    [[("index", 2)]; [("start", 1); ("stop", 7); ("step", 2)]] =
    Returns (Some (mkDataAndMetadata [3] [3])) /\
  function_data_slice (fun (c : Z) n start step => c + n * start)
    (Some (mkDataAndMetadata [4; 8; 8] [0; 0; 0]))
    [[("index", 2)]; [("ellipses", 1)]; [("index", 2)]] =
    Returns (Some (mkDataAndMetadata [8; 8] [0; 0])).
Proof. split; reflexivity. Qed.

(** ** Computation variables *)

(** X20. Setting [variable_type] and reading it back: for the five value
    types and for ["data_item"] and ["region"] the getter gives the type
    that was set, and setting it once more changes nothing and fires no
    event; a change of type clears the range; the value is never reset.
    For any other type the variable keeps its type and all its
    properties, and yet the changed event fires. Setting the type the
    variable has does nothing at all. *)
Theorem variable_type_set_then_get (t : string) (v : ComputationVariable) :
  let v' := set_variable_type t v in
  value v' = value v /\
  (Some (SStr t) = variable_type v -> v' = v) /\
  (Some (SStr t) <> variable_type v ->
     variable_type_changed v' = S (variable_type_changed v) /\
     (t ∈ ["boolean"; "integral"; "real"; "complex"; "string"; "data_item"; "region"] ->
        variable_type v' = Some (SStr t) /\ has_range v' = false /\
        set_variable_type t v' = v') /\
     (t ∉ ["boolean"; "integral"; "real"; "complex"; "string"; "data_item"; "region"] ->
        variable_type v' = variable_type v /\ has_range v' = has_range v /\
        value_type v' = value_type v /\ specifier v' = specifier v /\
        control_type v' = control_type v /\ value_default v' = value_default v)).
Proof.
  cbv zeta. unfold set_variable_type.
  destruct (decide (Some (SStr t) = variable_type v)) as [Heq|Hne].
  { split; [done|]. split; [done|]. done. }
  destruct (bool_decide_reflect (t ∈ ["boolean"; "integral"; "real"; "complex"; "string"]))
    as [H5|H5].
  - split; [done|]. split; [done|]. intros _. split; [done|]. split.
    + intros _. split; [done|]. split; [done|]. simpl.
      rewrite decide_True by done. done.
    + intros Hnot. exfalso. apply Hnot. set_solver.
  - destruct (bool_decide_reflect (t ∈ ["data_item"; "region"])) as [H2|H2].
    + split; [done|]. split; [done|]. intros _. split; [done|]. split.
      * intros _. split; [done|]. split; [done|]. simpl.
        rewrite decide_True by done. done.
      * intros Hnot. exfalso. apply Hnot. set_solver.
    + split; [done|]. split; [done|]. intros _. split; [done|]. split.
      * intros Hin. exfalso. set_solver.
      * intros _. done.
Qed.

Example variable_type_examples :
  let v := mkComputationVariable (Some "integral") (Some (VInt 5)) (Some (VInt 0))
             (Some (VInt 0)) (Some (VInt 10)) None (Some "slider") 0 in
  has_range v = true /\
  set_variable_type "real" v =
    mkComputationVariable (Some "real") (Some (VInt 5)) (Some (VReal 0)) None None None
      (Some "field") 1 /\
  set_variable_type "data_item" v =
    mkComputationVariable None (Some (VInt 5)) None None None
      (Some [("type", SStr "data_item"); ("version", SInt 1)]) None 1 /\
  set_variable_type "float" v =
    mkComputationVariable (Some "integral") (Some (VInt 5)) (Some (VInt 0))
      (Some (VInt 0)) (Some (VInt 10)) None (Some "slider") 1.
Proof. repeat split. Qed.

(** ** Evaluation needs every leaf *)



(** ** The text of a subscript *)

Lemma slice_strs_loop_skip (skip entries : list Entry) slice_str slice_strs :
  Forall (fun e => e = EEllipsis \/ e = ENone) skip ->
  slice_strs_loop (skip ++ entries) slice_str slice_strs =
  slice_strs_loop entries slice_str slice_strs.
Proof.
  induction 1 as [|e skip [-> | ->] _ IH]; [done|simpl; exact IH|simpl; exact IH].
Qed.

Lemma slice_strs_loop_slices (entries : list Entry) (texts : list string) :
  Forall2 (fun e text => entry_slice_text e = Some text) entries texts ->
  forall slice_str slice_strs,
  slice_strs_loop entries slice_str slice_strs = Returns (slice_strs ++ texts).
Proof.
  induction 1 as [|e text entries texts He _ IH]; intros slice_str slice_strs.
  - by rewrite app_nil_r.
  - destruct e as [start stop step| | | |]; simpl in He; try done.
    injection He as <-. simpl. rewrite IH. by rewrite <- app_assoc.
Qed.

(** X23. The text of a subscript is right for a key of slices and wrong
    wherever an integer stands in the key. [FunctionOperationDataNode.reconstruct]
    writes a key of two or more slices as it stands. With an integer
    before the first slice it raises an [UnboundLocalError]; with an
    integer after a slice it writes, for the integer, the text of that
    slice once more with the digits added: [a[1:2, 3]] is written as
    [a[1:2, 1:23]]. *)
Theorem data_slice_text_misplaces_indexes (operator_arg : string) (key : list Dict) :
  (forall entries texts,
     list_to_key key = KList entries ->
     Forall2 (fun e text => entry_slice_text e = Some text) entries texts ->
     reconstruct_data_slice operator_arg key =
     Returns (operator_arg +:+ "[" +:+ join texts +:+ "]")) /\
  (forall skip index rest,
     list_to_key key = KList (skip ++ EIndex index :: rest) ->
     Forall (fun e => e = EEllipsis \/ e = ENone) skip ->
     reconstruct_data_slice operator_arg key = Raises UnboundLocalError) /\
  (forall start stop step index,
     list_to_key key = KList [ESlice start stop step; EIndex index] ->
     reconstruct_data_slice operator_arg key =
     Returns (operator_arg +:+ "[" +:+
              join [slice_text start stop step; slice_text start stop step +:+ pretty index]
              +:+ "]")).
Proof.
  split; [|split].
  - intros entries texts Hkey Htexts. unfold reconstruct_data_slice. rewrite Hkey.
    by rewrite (slice_strs_loop_slices entries texts).
  - intros skip index rest Hkey Hskip. unfold reconstruct_data_slice. rewrite Hkey.
    by rewrite slice_strs_loop_skip.
  - intros start stop step index Hkey. unfold reconstruct_data_slice. rewrite Hkey.
    reflexivity.
Qed.

Example data_slice_text_examples :
  reconstruct_data_slice "a" [[("start", 1); ("stop", 2)]; [("index", 3)]] =
    Returns "a[1:2, 1:23]" /\
  reconstruct_data_slice "a" [[("index", 3)]; [("start", 1); ("stop", 2)]] =
    Raises UnboundLocalError /\
  reconstruct_data_slice "a" [[("ellipses", 1)]; [("index", 3)]] =
    Raises UnboundLocalError /\
  reconstruct_data_slice "a" [[("start", 1)]; [("stop", 2); ("step", 3)]] =
    Returns "a[1:, :2:3]" /\
  reconstruct_data_slice "a" [[("index", 3)]] = Raises TypeError.
Proof. repeat split. Qed.


End SymbolicFacts.
